(* ===== verification/_CoqProject ===== *)
-Q . S2P
Prelude.v
GoBase.v
GoText.v
GoTime.v
GoJson.v
JsonScan.v
Unquote.v
Sha256.v
Contracts.v
Policy.v
Config.v
Loader.v
Reloader.v
Auth.v
Decision.v
Proxy.v
Clients.v
Handler.v
Body.v
Router.v
Wire.v
Store.v
Database.v
Sqlite.v
SqliteTypes.v
Grants.v
ClaimRules.v
Conformance.v
Claims.v
Adapter.v
AuditTrail.v
SqliteAudit.v
Activities.v
Startup.v
Saga.v
Protocol.v
Traces.v
Trail.v
Reconcile.v
System.v
Statements.v
Deployment.v
Undisturbed.v
Gateway.v
SqlGateway.v
Audited.v
Executed.v
AgentSim.v
