(* ===== verification/Prelude.v ===== *)
(** * SentryGate-AI: a verification development

    SentryGate is a gateway between autonomous agents and infrastructure. An
    agent posts a proposal; the proxy authenticates the agent, evaluates the
    proposal against the active policy, records the decision and, for an ALLOW,
    starts a Temporal workflow. The workflow verifies the recorded decision,
    claims it, re-evaluates the proposal, passes the execution fence, dispatches
    to the infrastructure adapter once, reconciles an unknown outcome, and
    settles the claim, writing an audit trail on the way.

    ** How the code is modelled

    Pure functions are functions. Stateful code passes its state explicitly
    (stores, adapter, loader). Code that talks to other components through an
    interface that may answer anything (activities, the workflow, HTTP handlers,
    the SQLite store over its statements, the mains, the agent simulator) is a
    program of type [prog]: a tree of requests and continuations, in the order
    of the source, so that a theorem about all its runs quantifies over all
    answers. Goroutines and processes are step relations. Errors are values;
    string-typed enums of Go are strings with the constants of the source; times
    and durations are nanoseconds in Z, kept to 64 bits where a configured
    duration can overflow ([Config]); the time that reconciliation has taken is
    an exact difference, from which Go's differs only once the workflow's clock
    has moved by more than 292 years; map iteration order, [fmt]'s %q, the YAML decoder and the texts of
    encoding/json's errors are parameters.

    ** Files, in dependency order

    - [Prelude]: notation for Go's comparisons, programs with their monitors
      ([guarded], [under], [calls_only]), traces and interpreters, results, loops
      that may fail, counting, tactics.
    - [GoBase], [GoText], [GoTime], [GoJson]: bytes, hex, time, the shape of the
      regular expressions; strings.Split/Cut/TrimSpace and UTF-8 decoding; the
      calendar and RFC 3339 times with their round trip; JSON of string lists
      with its round trip. [JsonScan]: the scanner with which json.Decoder finds
      and builds the next value of its input, byte by byte. [Unquote]: the
      strings it makes are valid UTF-8.
    - [Sha256]: FIPS 180-4, with its test vectors.
    - [Contracts]: shared/contracts, every type, constant, error and method.
    - [Policy]: internal/policy/schema.go, [Parse] and [build] against the
      declarative [valid_document] and [snapshot_of].
    - [Config]: internal/config/config.go, with Atoi and ParseDuration.
    - [Loader], [Reloader]: internal/policy/loader.go, the active policy under
      reloads; its goroutine and [Close] under any interleaving.
    - [Auth]: internal/auth/agentkeys.go, the keyring and the middleware.
    - [Decision]: internal/decision/hash.go, evaluate.go, ingress.go.
    - [Proxy]: proxy/proxy.go, evaluation slots; also the interface of the HTTP
      handlers. [Clients]: proxy/clients.go. [Handler]:
      cmd/sentrygate/handler.go. [Body]: its request bodies as bytes, behind
      http.MaxBytesReader and json.Decoder. [Router]: its routes from the request
      line on, with http.ServeMux. [Wire]: the bytes of its responses, and how a
      client reads them.
    - [Store]: internal/decision/store.go and claim.go. The classes [StoreOps]
      and [StoreSpec] are the interface and its laws, [MemoryStore] an instance.
      [Claims]: histories of any lawful store.
    - [Database]: the tables and statements of internal/audit. [Sqlite]:
      internal/audit/sqlite.go and claims.go over them, the second instance of
      [StoreSpec]. [SqliteTypes]: stored rows decode. [SqliteAudit]: audit rows.
      [Grants]: the class [StoreGrants], what a store may not refuse, and both
      stores as instances. [ClaimRules]: exactly when a claim or a transition is
      granted, and what each refusal says, in both stores.
    - [Conformance]: internal/decision/decisiontest/claims.go on both stores.
    - [Adapter]: the adapter contract of workflows/activities.go as the classes
      [AdapterOps] and [AdapterSpec], and workflows/simulated.go as an instance.
    - [AuditTrail]: workflows/audit.go.
    - [Activities]: workflows/decisions.go, activities.go and RecordAuditTrail.
    - [Startup]: cmd/sentrygate/main.go, cmd/worker/main.go, internal/telemetry.
    - [Saga]: workflows/saga.go, the workflow, its closures and its loop.
    - [Protocol]: an abstract execution protocol and the proof that the workflow
      refines it. [Traces]: what that means for the trace of a run. [Trail]: its
      audit records are numbered, and their IDs are distinct.
      [Reconcile]: termination of reconciliation.
    - [System]: activity attempts of any number of runs, interleaved call by call
      on one store and one adapter, with retries, crashed and late attempts and
      lost replies. [Statements]: the same on SQLite, interleaved statement by
      statement. [Deployment]: workflow runs on top of [System]. [Undisturbed]:
      what a run achieves when the services answer. [Gateway]: HTTP
      requests on top of [Deployment]. [SqlGateway]: all of it on SQLite, the
      requests with the bytes of their bodies, statement by statement.
      [Audited]: the audit table of that gateway. [Executed]: that it executes
      what it may.
    - [AgentSim]: cmd/agent-sim/main.go, and its scenarios executed against the
      whole stack.

    ** What the theorems show

    - Of the whole system ([SqlGateway], [Gateway], [System], [Statements],
      [Deployment]): every call on the adapter comes from an authenticated POST
      whose body's bytes are that proposal; the adapter is called at most once per ingress decision; every call is backed by
      a recorded ingress ALLOW for the same agent, content and workflow and by an
      ALLOW under a policy that was served; COMPLETED and FAILED claims are true
      of the target; all this also when the store is SQLite and its statements
      interleave and fail, each run on statements being a run on atomic calls. No
      audit record of a run is refused ([Audited]). The exit code of the
      simulator's check is the truth, and the shipped scenarios pass ([AgentSim]).
    - Of what does happen ([Undisturbed], [Executed]): a run that nothing
      disturbs is the plain algorithm of dispatching once and asking until the
      answer is conclusive, and from every reachable state of the deployed gateway
      a proposal that both policies allow can be posted and is recorded; it is
      accepted, and executed and settled by its run, unless a run of the same
      proposal ID is in flight: then it is answered 409 and changes nothing else.
    - Of one run ([Protocol], [Traces], [Reconcile]): what precedes a dispatch,
      what an unknown outcome excludes, when a claim is settled, compensated or
      returned, and that every run ends.
    - Of the ingress ([Body], [Router], [Handler], [Wire], [Auth], [Proxy]): which bytes are
      accepted as which proposal, that a marshalled proposal is read back and an
      accepted one survives being encoded again, which request line and key may
      cause which effect, a workflow starts only for a recorded ALLOW that
      will pass verification, the response of every branch, that a client reads
      back the four members its struct has, authentication by the configured keys, the bound on concurrent evaluations.
    - Of the processes ([Startup], [Reloader], [Config]): what is held while they
      serve and what is released, that closing the loader neither panics nor
      hangs, how durations are read.
    - Of the data components ([Policy], [Loader], [Decision], [Store], [Claims],
      [ClaimRules], [Sqlite], [SqliteTypes], [SqliteAudit], [Conformance],
      [Adapter], [AuditTrail]): exact acceptance conditions, decision tables, injectivity of
      the request encoding, immutability of records, the claim state machine, that
      both stores keep the same laws and pass the same suite, what reads and
      listings return, idempotence of audit rows, and what any history of calls
      makes of a key at the simulated target.

    ** Bounds and fuel

    [Saga.reconcile_loop] takes fuel; [Saga.reconcileFuel] is 55, the number of
    questions that the waits of 10s, doubling up to 30min, fit into the window of
    24h. [Reconcile] proves that it suffices on any clock that a sleep advances by
    its duration, and that it is the least such number. [AgentSim.wait_loop] takes
    one unit per poll of half a second and one more; [check_exit_code] shows that
    it suffices on such a clock. The loops over runes, JSON texts and the terms of
    a duration take the length of the text as fuel: every round consumes a byte.

    ** Assumptions

    Temporal delivers as an activity's result only what an attempt of that
    activity returned, or an error of its own that is not a fence error
    ([Deployment.returned], [run_no_result]). In [System] and above a store call
    is atomic; for SQLite, [Statements] derives that from the atomicity of single
    statements. The laws of [StoreSpec] and [AdapterSpec] are those of the
    interfaces' documentation and are proved for both stores and for the simulated
    adapter. A SQL statement does what the definitions behind [Database.db_exec]
    say. When Temporal starts a workflow is the parameter [may_start] of [Gateway]
    and the files on top of it: what they say of every dispatch, of refinement and
    of the audit trail holds for any such policy. [Executed] assumes the documented
    one, [Gateway.starts_when_free]: a workflow is started exactly when no run is
    open under its ID. It shows a continuation of the system in which the services
    answer; the random text in the IDs has not been used before. [Audited] assumes
    that Temporal gives different runs different run IDs and that the audit table
    was empty at first.

    ** Not modelled

    Logging, the OpenTelemetry SDK, HTTP headers other than the API key,
    percent-escapes in paths, the digits of JSON numbers that are read (no field
    takes one), YAML decoding, flag parsing and printing of the simulator, and the
    SQLite engine below the level of statements. *)

From stdpp Require Export base tactics list gmap strings pretty.
From Stdlib Require Export ZArith Lia.

#[global] Set Warnings "-clear-no-such-hyp".

(** ** Notation: Go's [==] and [!=] on comparable values *)

Declare Scope go_scope.
Delimit Scope go_scope with go.

Notation "a == b" := (bool_decide (a = b)) (at level 70, no associativity) : go_scope.
Notation "a != b" := (negb (bool_decide (a = b))) (at level 70, no associativity) : go_scope.

(** ** Programs over an interface of operations

    [prog Op Reply A] is a computation that asks its environment to perform
    operations of [Op], one after the other, and continues with the answer.
    The environment (a store, an adapter, the Temporal service) is not part of
    the program: the theorems quantify over its answers, or run the program
    against a concrete handler with [interp]. *)

Inductive prog (Op : Type) (Reply : Op → Type) (A : Type) : Type :=
| Ret (a : A)
| Call (o : Op) (k : Reply o → prog Op Reply A).
Arguments Ret {Op Reply A} a.
Arguments Call {Op Reply A} o k.

#[export] Instance prog_ret {Op Reply} : MRet (prog Op Reply) := λ A a, Ret a.

#[export] Instance prog_bind {Op Reply} : MBind (prog Op Reply) :=
  fix go {A B} (f : A → prog Op Reply B) (p : prog Op Reply A) : prog Op Reply B :=
    match p with
    | Ret a => f a
    | Call o k => Call o (λ r, go f (k r))
    end.

(** One operation, as a program that returns the answer. *)
Definition op {Op : Type} {Reply : Op → Type} (o : Op) : prog Op Reply (Reply o) :=
  Call o (λ r, Ret r).

(** What was asked and what was answered. *)
Definition event {Op : Type} (Reply : Op → Type) : Type := { o : Op & Reply o }.
Definition ev {Op : Type} {Reply : Op → Type} (o : Op) (r : Reply o) : event Reply := existT o r.

Section Prog.
Context {Op : Type} {Reply : Op → Type}.

(** [reaches p tr q]: answering [p]'s operations as recorded in [tr] leaves
    the program [q]. *)
Inductive reaches {A} : prog Op Reply A → list (event Reply) → prog Op Reply A → Prop :=
| reaches_nil p : reaches p [] p
| reaches_cons o k r tr q : reaches (k r) tr q → reaches (Call o k) (ev o r :: tr) q.

(** [guarded step s p Q]: in whatever way the environment answers, the monitor
    [step] started in [s] accepts every operation of [p], and [Q] holds of the
    result and of the monitor's last state. *)
Fixpoint guarded {S A} (step : S → ∀ o : Op, Reply o → option S) (s : S)
    (p : prog Op Reply A) (Q : A → S → Prop) : Prop :=
  match p with
  | Ret a => Q a s
  | Call o k => ∀ r, match step s o r with
                     | Some s' => guarded step s' (k r) Q
                     | None => False
                     end
  end.

(** The monitor on a recorded trace. *)
Fixpoint monitor {S} (step : S → ∀ o : Op, Reply o → option S) (s : S)
    (tr : list (event Reply)) : option S :=
  match tr with
  | [] => Some s
  | existT o r :: tr => match step s o r with
                        | Some s' => monitor step s' tr
                        | None => None
                        end
  end.

(** Running a program against a handler that keeps a world [W]. *)
Fixpoint interp {W A} (h : W → ∀ o : Op, W * Reply o) (w : W)
    (p : prog Op Reply A) : W * A :=
  match p with
  | Ret a => (w, a)
  | Call o k => let '(w', r) := h w o in interp h w' (k r)
  end.

Lemma bind_ret {A B} (a : A) (f : A → prog Op Reply B) : (mret a ≫= f) = f a.
Proof. reflexivity. Qed.

Lemma bind_call {A B} o k (f : A → prog Op Reply B) :
  (Call o k ≫= f) = Call o (λ r, k r ≫= f).
Proof. reflexivity. Qed.

Lemma bind_op {B} o (f : Reply o → prog Op Reply B) : (op o ≫= f) = Call o f.
Proof. reflexivity. Qed.

Lemma guarded_mono {S A} step (s : S) (p : prog Op Reply A) (Q Q' : A → S → Prop) :
  guarded step s p Q → (∀ a s', Q a s' → Q' a s') → guarded step s p Q'.
Proof.
  intros Hg HQ. revert s Hg. induction p as [a|o k IH]; intros s Hg; simpl in *; [auto|].
  intros r. specialize (Hg r). destruct (step s o r); [eauto|done].
Qed.

Lemma guarded_bind {S A B} step (s : S) (p : prog Op Reply A)
    (f : A → prog Op Reply B) Q :
  guarded step s p (λ a s', guarded step s' (f a) Q) → guarded step s (p ≫= f) Q.
Proof.
  revert s. induction p as [a|o k IH]; intros s Hg; [exact Hg|].
  intros r. specialize (Hg r). destruct (step s o r); [|done]. apply (IH r), Hg.
Qed.

Lemma guarded_call {S A} step (s : S) o (k : Reply o → prog Op Reply A) Q :
  (∀ r, ∃ s', step s o r = Some s' ∧ guarded step s' (k r) Q) → guarded step s (Call o k) Q.
Proof. intros H r. by destruct (H r) as (s' & -> & Hg). Qed.

Lemma guarded_reaches {S A} step (s : S) (p q : prog Op Reply A) tr Q :
  guarded step s p Q → reaches p tr q →
  ∃ s', monitor step s tr = Some s' ∧ guarded step s' q Q.
Proof.
  intros Hg Hr. revert s Hg. induction Hr as [p|o k r tr q Hr IH]; intros s Hg.
  - eauto.
  - specialize (Hg r). simpl. destruct (step s o r); [eauto|done].
Qed.

Lemma reaches_app {A} (p q r : prog Op Reply A) tr1 tr2 :
  reaches p tr1 q → reaches q tr2 r → reaches p (tr1 ++ tr2) r.
Proof. induction 1; simpl; eauto using reaches. Qed.

Lemma reaches_snoc {A} (p : prog Op Reply A) tr o k r :
  reaches p tr (Call o k) → reaches p (tr ++ [ev o r]) (k r).
Proof. intros H. eapply reaches_app; [exact H|]. repeat constructor. Qed.

Lemma monitor_app {S} step (s : S) tr1 tr2 :
  monitor step s (tr1 ++ tr2) = monitor step s tr1 ≫= λ s', monitor step s' tr2.
Proof.
  revert s. induction tr1 as [|[o r] tr1 IH]; intros s; simpl; [done|].
  destruct (step s o r); simpl; auto.
Qed.

(** A recorded operation splits the monitor's run at its position. *)
Lemma monitor_split {S} step (s s' : S) tr1 o r tr2 :
  monitor step s (tr1 ++ ev o r :: tr2) = Some s' →
  ∃ s1 s2, monitor step s tr1 = Some s1 ∧ step s1 o r = Some s2 ∧
           monitor step s2 tr2 = Some s'.
Proof.
  rewrite monitor_app. destruct (monitor step s tr1) as [s1|] eqn:E1; [|done].
  simpl. destruct (step s1 o r) as [s2|] eqn:E2; [|done]. eauto 10.
Qed.

(** An inductive invariant of the monitor holds after every accepted trace. *)
Lemma monitor_inv {S} step (I : S → Prop) s tr s' :
  (∀ s o r s', I s → step s o r = Some s' → I s') →
  I s → monitor step s tr = Some s' → I s'.
Proof.
  intros Hstep. revert s. induction tr as [|[o r] tr IH]; intros s Hs Hm; simpl in Hm.
  - by simplify_eq.
  - destruct (step s o r) as [s1|] eqn:E; [|done]. eauto.
Qed.

(** The same for a fact about the trace and the state it leads to. *)
Lemma monitor_trace_inv {S} step (I : list (event Reply) → S → Prop) s :
  I [] s →
  (∀ tr s1 o r s2, I tr s1 → step s1 o r = Some s2 → I (tr ++ [ev o r]) s2) →
  ∀ tr s', monitor step s tr = Some s' → I tr s'.
Proof.
  intros H0 Hstep tr. induction tr as [|[o r] tr IH] using rev_ind; intros s' Hm.
  - by simplify_eq/=.
  - rewrite monitor_app in Hm. destruct (monitor step s tr) as [s1|]; [|done].
    simpl in Hm. destruct (step s1 o r) as [s2|] eqn:E; simplify_eq/=. eapply Hstep; eauto.
Qed.

(** A run of a program against a handler, with its trace. *)
Fixpoint traced {W A} (h : W → ∀ o : Op, W * Reply o) (w : W)
    (p : prog Op Reply A) : list (event Reply) * A :=
  match p with
  | Ret a => ([], a)
  | Call o k => let '(w', r) := h w o in
                let '(tr, a) := traced h w' (k r) in (ev o r :: tr, a)
  end.

Lemma traced_reaches {W A} h (w : W) (p : prog Op Reply A) tr a :
  traced h w p = (tr, a) → reaches p tr (Ret a).
Proof.
  revert w tr. induction p as [a'|o k IH]; intros w tr; simpl.
  - intros [= <- <-]. constructor.
  - destruct (h w o) as [w' r]. destruct (traced h w' (k r)) as [tr' a'] eqn:E.
    intros [= <- <-]. constructor. eauto.
Qed.

Lemma traced_run {W A} h (w : W) (p : prog Op Reply A) :
  reaches p (traced h w p).1 (Ret (traced h w p).2).
Proof. eapply traced_reaches, surjective_pairing. Qed.

(** The operation at a position of an accepted trace. *)
Lemma monitor_lookup {S} step (s s' : S) tr i o r :
  monitor step s tr = Some s' → tr !! i = Some (ev o r) →
  ∃ s1 s2, monitor step s (take i tr) = Some s1 ∧ step s1 o r = Some s2 ∧
           monitor step s2 (drop (Datatypes.S i) tr) = Some s'.
Proof. intros Hm Hi. apply monitor_split. by rewrite (take_drop_middle _ _ _ Hi). Qed.

(** [under step s p Q]: as long as the environment keeps to the assumption
    [step] (a [None] is an answer it never gives), [p] ends with [Q]. *)
Fixpoint under {S A} (step : S → ∀ o : Op, Reply o → option S) (s : S)
    (p : prog Op Reply A) (Q : A → S → Prop) : Prop :=
  match p with
  | Ret a => Q a s
  | Call o k => ∀ r s', step s o r = Some s' → under step s' (k r) Q
  end.

Lemma under_mono {S A} step (s : S) (p : prog Op Reply A) (Q Q' : A → S → Prop) :
  under step s p Q → (∀ a s', Q a s' → Q' a s') → under step s p Q'.
Proof.
  intros Hu HQ. revert s Hu. induction p as [a|o k IH]; intros s Hu; simpl in *; [auto|].
  intros r s' Hs. eauto.
Qed.

Lemma under_bind {S A B} step (s : S) (p : prog Op Reply A) (f : A → prog Op Reply B) Q :
  under step s p (λ a s', under step s' (f a) Q) → under step s (p ≫= f) Q.
Proof.
  revert s. induction p as [a|o k IH]; intros s Hu; [exact Hu|].
  intros r s' Hs. apply (IH r), Hu, Hs.
Qed.

(** A program on whose answers nothing is assumed or needed. *)
Lemma under_any {S A} step (s : S) (p : prog Op Reply A) (Q : A → S → Prop) :
  (∀ a s', Q a s') → under step s p Q.
Proof. intros HQ. revert s. induction p as [a|o k IH]; intros s; simpl; auto. Qed.

Lemma under_reaches {S A} step (s s' : S) (p : prog Op Reply A) tr a Q :
  under step s p Q → reaches p tr (Ret a) → monitor step s tr = Some s' → Q a s'.
Proof.
  intros Hu Hr. remember (Ret a) as q eqn:Hq. revert s Hu.
  induction Hr as [p|o k r tr q Hr IH]; intros s Hu Hm; subst.
  - by simplify_eq/=.
  - simpl in Hm. destruct (step s o r) eqn:E; [|done]. eauto.
Qed.

(** The operations that satisfy [P] in a trace. *)
Definition count_ops (P : Op → bool) (tr : list (event Reply)) : nat :=
  length (List.filter (λ e, P (projT1 e)) tr).

Lemma count_ops_app P tr1 tr2 : count_ops P (tr1 ++ tr2) = (count_ops P tr1 + count_ops P tr2)%nat.
Proof. unfold count_ops. by rewrite List.filter_app, length_app. Qed.

Lemma count_ops_one P o r : count_ops P [ev o r] = if P o then 1%nat else 0%nat.
Proof. unfold count_ops. simpl. by destruct (P o). Qed.

(** Programs whose operations all satisfy [P], however they are answered. *)
Fixpoint calls_only {A} (P : Op → Prop) (p : prog Op Reply A) : Prop :=
  match p with
  | Ret _ => True
  | Call o k => P o ∧ ∀ r, calls_only P (k r)
  end.

Lemma calls_only_op (P : Op → Prop) o : P o → calls_only P (op o).
Proof. done. Qed.

Lemma calls_only_bind {A B} P (p : prog Op Reply A) (f : A → prog Op Reply B) :
  calls_only P p → (∀ a, calls_only P (f a)) → calls_only P (p ≫= f).
Proof.
  intros Hp Hf. induction p as [a|o k IH]; [apply Hf|]. destruct Hp as [Ho Hk].
  split; [done|]. intros r. by apply IH.
Qed.

Lemma calls_only_reaches {A} P (p q : prog Op Reply A) tr e :
  calls_only P p → reaches p tr q → e ∈ tr → P (projT1 e).
Proof.
  intros Hp Hr. induction Hr as [p|o k r tr q Hr IH]; intros He; [by apply not_elem_of_nil in He|].
  destruct Hp as [Ho Hk]. apply elem_of_cons in He as [->|He]; [exact Ho|]. by apply IH.
Qed.

Lemma reaches_inv {A} (p q : prog Op Reply A) tr : reaches p tr q →
  match tr, p with
  | [], _ => q = p
  | e :: tr, Call o k => ∃ r, e = ev o r ∧ reaches (k r) tr q
  | _ :: _, Ret _ => False
  end.
Proof. destruct 1; eauto. Qed.

(** A trace of two programs in turn: still within the first, or past it. *)
Lemma reaches_bind_inv {A B} (p : prog Op Reply A) (f : A → prog Op Reply B) tr q : reaches (p ≫= f) tr q →
  (∃ p', reaches p tr p') ∨ ∃ tr1 tr2 a, tr = tr1 ++ tr2 ∧ reaches p tr1 (Ret a) ∧ reaches (f a) tr2 q.
Proof.
  revert tr. induction p as [a|o k IH]; intros tr Hr; [right; exists [], tr, a; by split_and!; [|constructor|]|].
  destruct tr as [|e tr]; apply reaches_inv in Hr; [left; eexists; constructor|]. destruct Hr as (r & -> & Hr).
  destruct (IH r tr Hr) as [[p' Hp']|(tr1 & tr2 & a & -> & H1 & H2)].
  - left. exists p'. by constructor.
  - right. exists (ev o r :: tr1), tr2, a. split_and!; [done|by constructor|done].
Qed.

(** A sequence that has returned: its first part has, and then its second. *)
Lemma reaches_bind_Ret {A B} (p : prog Op Reply A) (f : A → prog Op Reply B) tr b : reaches (p ≫= f) tr (Ret b) →
  ∃ tr1 tr2 a, tr = tr1 ++ tr2 ∧ reaches p tr1 (Ret a) ∧ reaches (f a) tr2 (Ret b).
Proof.
  revert tr. induction p as [a|o k IH]; intros tr Hr; [exists [], tr, a; by split_and!; [|constructor|]|].
  destruct tr as [|e tr]; apply reaches_inv in Hr; [discriminate Hr|]. destruct Hr as (r & -> & Hr).
  destruct (IH r tr Hr) as (tr1 & tr2 & a & -> & H1 & H2).
  exists (ev o r :: tr1), tr2, a. split_and!; [done|by constructor|done].
Qed.

(** A program followed by a pure function asks what the program asks. *)
Lemma reaches_map {A B} (p : prog Op Reply A) (g : A → B) tr q :
  reaches (p ≫= λ a, mret (g a)) tr q → ∃ p', reaches p tr p'.
Proof.
  revert tr. induction p as [a|o k IH]; intros [|e tr] Hr%reaches_inv; [eexists; constructor|done|eexists; constructor|].
  destruct Hr as (r & -> & Hr). destruct (IH r tr Hr) as [p' Hp']. exists p'. by constructor.
Qed.

Lemma interp_bind {W A B} h (w : W) (p : prog Op Reply A) (f : A → prog Op Reply B) :
  interp h w (p ≫= f) = let '(w', a) := interp h w p in interp h w' (f a).
Proof.
  revert w. induction p as [a|o k IH]; intros w; [done|].
  simpl. destruct (h w o) as [w' r]. apply IH.
Qed.
End Prog.

(** [calls_only] for a program written out, one construct at a time. *)
Ltac calls_only_tac :=
  repeat match goal with
  | |- calls_only _ (mret _) => exact I
  | |- calls_only _ (Ret _) => exact I
  | |- calls_only _ (_ ≫= _) => apply calls_only_bind; [|intros ?]
  | |- calls_only _ (match _ with _ => _ end) => case_match
  | |- calls_only _ (let _ := _ in _) => cbv zeta
  | |- calls_only _ _ => apply calls_only_op; solve [exact I|done]
  end.

(** ** Results: a value or an error *)

Inductive result (E A : Type) : Type :=
| Ok (a : A)
| Err (e : E).
Arguments Ok {E A} a.
Arguments Err {E A} e.

#[export] Instance result_eq_dec {E A} `{EqDecision E, EqDecision A} : EqDecision (result E A).
Proof. solve_decision. Defined.

#[export] Instance result_ret {E} : MRet (result E) := λ A a, Ok a.
#[export] Instance result_bind {E} : MBind (result E) := λ A B f r,
  match r with Ok a => f a | Err e => Err e end.

(** A Go loop that updates a state and may return early with an error. *)
Fixpoint foldM {E S X} (body : S → X → result E S) (s : S) (l : list X) : result E S :=
  match l with
  | [] => Ok s
  | x :: l => match body s x with Ok s => foldM body s l | Err e => Err e end
  end.

(** A guard clause: fail with [e] when [b] holds. *)
Definition fail_if {E} (b : bool) (e : E) : result E unit := if b then Err e else Ok tt.

Lemma bind_Ok {E A B} (r : result E A) (f : A → result E B) b :
  (r ≫= f) = Ok b ↔ ∃ a, r = Ok a ∧ f a = Ok b.
Proof. destruct r as [a|e]; simpl; split; [eauto| |done|]; intros (?&[=]&?); by subst. Qed.

Lemma fail_if_Ok {E} b (e : E) u : fail_if b e = Ok u ↔ b = false.
Proof. destruct b, u; simpl; split; congruence. Qed.

(** A loop whose body checks [P] and then updates the state with [f]. *)
Lemma foldM_check {E S X} (body : S → X → result E S) (P : S → X → Prop) (f : S → X → S) :
  (∀ s x s', body s x = Ok s' ↔ P s x ∧ s' = f s x) →
  ∀ l s s', foldM body s l = Ok s' ↔
    (∀ l1 x l2, l = l1 ++ x :: l2 → P (foldl f s l1) x) ∧ s' = foldl f s l.
Proof.
  intros Hb l. induction l as [|x l IH]; intros s s'; simpl.
  - split; [|by intros [_ ->]]. intros [= ->]. split; [|done]. intros [|??] ?? ?; simplify_eq.
  - destruct (body s x) as [s1|e] eqn:Hx.
    + apply Hb in Hx as [HP ->]. rewrite IH. split.
      * intros [Hall ->]. split; [|done]. intros [|y l1] z l2 [= -> ->]; [done|]. eapply Hall; eauto.
      * intros [Hall ->]. split; [|done]. intros l1 z l2 ->. apply (Hall (x :: l1) z l2). done.
    + split; [done|]. intros [Hall _]. assert (HP : P s x) by exact (Hall [] x l eq_refl).
      assert (body s x = Ok (f s x)) by (apply Hb; eauto). congruence.
Qed.

(** ** Finite maps built by a loop *)

Lemma foldl_insert {V} (l : list (string * V)) (m : gmap string V) :
  foldl (λ m kv, <[kv.1 := kv.2]> m) m l = list_to_map (reverse l) ∪ m.
Proof.
  revert m. induction l as [|[k v] l IH]; intros m; cbn [foldl fst snd].
  - by rewrite reverse_nil, list_to_map_nil, (left_id_L ∅ (∪)).
  - rewrite IH, reverse_cons, list_to_map_app, list_to_map_cons, list_to_map_nil, insert_empty.
    rewrite <- (assoc_L (∪)). f_equal. by rewrite <- insert_union_singleton_l.
Qed.

Lemma foldl_insert_NoDup {V} (l : list (string * V)) :
  NoDup l.*1 → foldl (λ m kv, <[kv.1 := kv.2]> m) (∅ : gmap string V) l = list_to_map l.
Proof.
  intros Hl. rewrite foldl_insert, (right_id_L ∅ (∪)).
  apply list_to_map_proper; [|apply reverse_Permutation].
  by rewrite fmap_reverse, reverse_Permutation.
Qed.

(** A check against every earlier element of a list is [NoDup] of the keys. *)
Lemma prefix_NoDup {X K} (key : X → K) (R : X → Prop) (l : list X) :
  (∀ l1 x l2, l = l1 ++ x :: l2 → R x ∧ key x ∉ (key <$> l1)) ↔
  Forall R l ∧ NoDup (key <$> l).
Proof.
  induction l as [|x l IH] using rev_ind; simpl.
  - split; [intros _; split; constructor|]. by intros _ [|??] ?? [=].
  - rewrite Forall_app, Forall_singleton, fmap_app, NoDup_app. simpl. split.
    + intros H. destruct (proj1 IH) as [HR HN].
      { intros l1 y l2 ->. apply (H l1 y (l2 ++ [x])). by rewrite <- app_assoc. }
      destruct (H l x [] eq_refl) as [HRx Hx].
      split; [done|]. split; [done|]. split; [|apply NoDup_singleton].
      intros k Hk ->%list_elem_of_singleton. done.
    + intros [[HR HRx] (HN & Hd & _)] l1 y l2 Heq.
      destruct l2 as [|z l2 _] using rev_ind.
      * apply app_inj_tail in Heq as [-> ->]. split; [done|].
        intros Hin. apply (Hd _ Hin). by apply list_elem_of_singleton.
      * rewrite app_comm_cons, app_assoc in Heq. apply app_inj_tail in Heq as [-> ->].
        destruct (proj2 IH (conj HR HN) l1 y l2 eq_refl). done.
Qed.

Lemma foldl_fmap {S X Y} (g : X → Y) (h : S → Y → S) s l :
  foldl (λ s x, h s (g x)) s l = foldl h s (g <$> l).
Proof. revert s. induction l; intros s; simpl; auto. Qed.

(** A loop that inserts under fresh keys. *)
Lemma foldM_insert {E V X} (body : gmap string V → X → result E (gmap string V))
    (R : X → Prop) (key : X → string) (val : X → V) :
  (∀ m x m', body m x = Ok m' ↔ (R x ∧ m !! key x = None) ∧ m' = <[key x := val x]> m) →
  ∀ l m', foldM body ∅ l = Ok m' ↔
    (Forall R l ∧ NoDup (key <$> l)) ∧ m' = list_to_map ((λ x, (key x, val x)) <$> l).
Proof.
  intros Hb l m'. rewrite (foldM_check _ _ _ Hb), <- prefix_NoDup.
  assert (Hpre : ∀ l1, foldl (λ (m : gmap string V) x, <[key x := val x]> m) ∅ l1 =
            (list_to_map (reverse ((λ x, (key x, val x)) <$> l1)) : gmap string V)).
  { intros l1. rewrite (foldl_fmap (λ x, (key x, val x)) (λ m kv, <[kv.1:=kv.2]> m)).
    by rewrite foldl_insert, (right_id_L ∅ (∪)). }
  assert (Hk : ∀ l1, ((λ x, (key x, val x)) <$> l1).*1 = key <$> l1).
  { intros l1. by rewrite <- list_fmap_compose. }
  setoid_rewrite Hpre. setoid_rewrite <- not_elem_of_list_to_map.
  setoid_rewrite fmap_reverse. setoid_rewrite Hk. setoid_rewrite elem_of_reverse.
  split; intros [H1 H2]; (split; [exact H1|]); rewrite H2; [|symmetry];
    (apply list_to_map_proper; [|apply reverse_Permutation]);
    rewrite fmap_reverse, reverse_Permutation, Hk; by apply prefix_NoDup in H1 as [_ ?].
Qed.

Lemma foldl_add (l : list string) (m : gset string) :
  foldl (λ m x, {[x]} ∪ m) m l = list_to_set l ∪ m.
Proof.
  revert m. induction l as [|x l IH]; intros m; simpl; [by rewrite (left_id_L ∅ (∪))|].
  rewrite IH, (assoc_L (∪)). f_equal. apply (comm_L (∪)).
Qed.

(** A loop that adds fresh elements to a set. *)
Lemma foldM_add {E} (body : gset string → string → result E (gset string)) (R : string → Prop) :
  (∀ m x m', body m x = Ok m' ↔ (R x ∧ x ∉ m) ∧ m' = {[x]} ∪ m) →
  ∀ l m', foldM body ∅ l = Ok m' ↔ (Forall R l ∧ NoDup l) ∧ m' = list_to_set l.
Proof.
  intros Hb l m'. rewrite (foldM_check _ _ _ Hb). setoid_rewrite foldl_add. rewrite !(right_id_L ∅ (∪)).
  pose proof (prefix_NoDup id R l) as Hp. rewrite list_fmap_id in Hp. rewrite <- Hp.
  setoid_rewrite (right_id_L (A:=gset string) ∅ (∪)). setoid_rewrite not_elem_of_list_to_set.
  by setoid_rewrite list_fmap_id.
Qed.

(** ** Counting *)

(** Replacing one element changes a count by that element only. *)
Lemma filter_insert_count {X} (f : X → bool) (l : list X) i x y :
  l !! i = Some x →
  (length (List.filter f (<[i := y]> l)) + (if f x then 1 else 0) =
   length (List.filter f l) + (if f y then 1 else 0))%nat.
Proof.
  revert i. induction l as [|z l IH]; intros [|i] Hi; simplify_eq/=.
  - destruct (f x), (f y); simpl; lia.
  - specialize (IH i Hi). destruct (f z); simpl; lia.
Qed.

Lemma filter_snoc_count {X} (f : X → bool) (l : list X) x :
  length (List.filter f (l ++ [x])) = (length (List.filter f l) + (if f x then 1 else 0))%nat.
Proof. rewrite List.filter_app, length_app. simpl. by destruct (f x). Qed.

(** ** Strings *)

(** [strings.Join]. *)
Fixpoint strings_Join (l : list string) (sep : string) : string :=
  match l with
  | [] => ""
  | [s] => s
  | s :: l => s +:+ sep +:+ strings_Join l sep
  end.

(** [fmt]'s [%t]. *)
Definition fmt_t (b : bool) : string := if b then "true" else "false".

Lemma append_inj_l (s t t' : string) : s +:+ t = s +:+ t' → t = t'.
Proof. induction s as [|c s IH]; simpl; [done|]. intros H. simplify_eq. auto. Qed.

Lemma append_assoc (s t u : string) : (s +:+ t) +:+ u = s +:+ t +:+ u.
Proof. induction s as [|c s IH]; [done|]. exact (f_equal (String c) IH). Qed.

(** ** Automation *)

Create HintDb sentry discriminated.

(** Case analysis on every Go comparison in the goal and the hypotheses. *)
Ltac go_cases := repeat (case_bool_decide; simplify_eq/=; try done).

(** Comparisons of a value with itself. *)
Ltac go_refl :=
  repeat match goal with
  | |- context [bool_decide (?x = ?x)] => rewrite (bool_decide_true (x = x)) by reflexivity
  end.

(** The conjuncts of a guard that held. *)
Ltac guard_true :=
  repeat match goal with
  | H : _ && _ = true |- _ => apply andb_prop in H as [? ?]
  | H : bool_decide _ = true |- _ => apply bool_decide_eq_true in H
  end.

(** Destruct the scrutinee of a [match] or [if] in hypothesis [H], keeping
    the equations. *)
Ltac split_in H :=
  repeat (match type of H with
          | context [match ?x with _ => _ end] => destruct x eqn:?; simplify_eq/=
          end; try done).

(** Enumerate membership hypotheses in explicit lists of constants; close the
    impossible cases and membership goals. *)
Ltac enum_in :=
  repeat match goal with
  | H : _ ∈ [] |- _ => by apply not_elem_of_nil in H
  | H : _ ∈ _ :: _ |- _ => apply elem_of_cons in H as [H|H]
  end.
Ltac in_list := repeat (first [by left | apply list_elem_of_here | apply list_elem_of_further]).
