(* ===== verification/GoBase.v ===== *)
(** * The parts of Go and of its standard library the sources use

    Instants and durations, byte strings, big-endian integers, hexadecimal
    text, the character-class patterns given to [regexp.MustCompile], and
    errors with [errors.Is] and [Error()]. *)

From S2P Require Import Prelude.
Open Scope Z_scope.

(** ** Time

    A [time.Time] is an instant: nanoseconds since January 1, year 1, 00:00
    UTC, which is Go's zero time. [UTC()] changes the location, not the
    instant. A [time.Duration] is a number of nanoseconds. *)

Abbreviation Time := Z (only parsing).
Abbreviation Duration := Z (only parsing).
Definition zeroTime : Time := 0.
Definition IsZero (t : Time) : bool := (t == zeroTime)%go.
Definition UTC (t : Time) : Time := t.
Definition Second : Duration := 1000000000.
Definition Millisecond : Duration := 1000000.
Definition Minute : Duration := 60 * Second.
Definition Hour : Duration := 60 * Minute.

(** ** Integers

A Go int64: the value modulo 2^64 in two's complement. *)
Definition int64 (x : Z) : Z := (x + 2 ^ 63) mod 2 ^ 64 - 2 ^ 63.

Lemma int64_small x : - 2 ^ 63 <= x < 2 ^ 63 → int64 x = x.
Proof. intros Hx. unfold int64. rewrite Z.mod_small; lia. Qed.

Lemma int64_add x y : int64 (int64 x + y) = int64 (x + y).
Proof.
  unfold int64. f_equal. replace ((x + 2 ^ 63) mod 2 ^ 64 - 2 ^ 63 + y + 2 ^ 63)
    with ((x + 2 ^ 63) mod 2 ^ 64 + y) by lia. rewrite Z.add_mod_idemp_l by done. f_equal. lia.
Qed.

(** ** Byte strings *)

Definition byte_of (a : Ascii.ascii) : Z := Z.of_N (Ascii.N_of_ascii a).
Definition ascii_of (b : Z) : Ascii.ascii := Ascii.ascii_of_N (Z.to_N b).

Fixpoint bytes_of_string (s : string) : list Z :=
  match s with
  | EmptyString => []
  | String a s => byte_of a :: bytes_of_string s
  end.

Fixpoint string_of_bytes (l : list Z) : string :=
  match l with
  | [] => EmptyString
  | b :: l => String (ascii_of b) (string_of_bytes l)
  end.

(** Go's [len] on a string: its number of bytes. *)
Definition len (s : string) : Z := Z.of_nat (String.length s).

Definition is_byte (b : Z) : Prop := 0 <= b < 256.

(** [binary.BigEndian.PutUint64] and its 32-bit counterpart: the [n] low bytes
    of [v], most significant first. *)
Fixpoint big_endian (n : nat) (v : Z) : list Z :=
  match n with
  | O => []
  | S n => big_endian n (Z.shiftr v 8) ++ [Z.land v 255]
  end.

(** The value of a big-endian byte sequence. *)
Definition be_value (l : list Z) : Z := foldl (λ acc b, acc * 256 + b) 0 l.

(** [hex.EncodeToString]. *)
Definition hex_digit (d : Z) : Ascii.ascii :=
  ascii_of (if d <? 10 then 48 + d else 87 + d).
Definition hex_byte (b : Z) : string :=
  String (hex_digit (Z.shiftr b 4)) (String (hex_digit (Z.land b 15)) EmptyString).
Fixpoint hex_encode (l : list Z) : string :=
  match l with
  | [] => EmptyString
  | b :: l => hex_byte b +:+ hex_encode l
  end.

(** ** Patterns

    Every pattern of the sources has the shape [^[first][rest]{m,n}$]: a class
    for the first byte, a class for the others and bounds on the length. Go's
    [$] without the [m] flag matches only at the end of the text, and no class
    contains a byte above 127, so matching bytes is matching runes. *)

Definition in_range (lo hi : Z) (a : Ascii.ascii) : bool := (lo <=? byte_of a) && (byte_of a <=? hi).
Definition upper := in_range 65 90.
Definition lower := in_range 97 122.
Definition digit := in_range 48 57.
Definition one_of (s : string) (a : Ascii.ascii) : bool :=
  bool_decide (a ∈ String.list_ascii_of_string s).

Record pattern := { first_class : Ascii.ascii → bool; rest_class : Ascii.ascii → bool;
                    min_len : Z; max_len : Z }.

Definition MatchString (p : pattern) (s : string) : bool :=
  (min_len p <=? len s) && (len s <=? max_len p) &&
  match s with
  | EmptyString => true
  | String a s => first_class p a && forallb (rest_class p) (String.list_ascii_of_string s)
  end.

(** A pattern that has one class for all bytes. *)
Definition uniform (c : Ascii.ascii → bool) (lo hi : Z) : pattern :=
  {| first_class := c; rest_class := c; min_len := lo; max_len := hi |}.

(** ** Facts about bytes *)

Lemma length_bytes_of_string s : length (bytes_of_string s) = String.length s.
Proof. induction s as [|a s IH]; simpl; auto. Qed.

Lemma byte_of_range a : is_byte (byte_of a).
Proof.
  unfold is_byte, byte_of. pose proof (Ascii.N_ascii_bounded a). lia.
Qed.

Lemma bytes_of_string_app s t : bytes_of_string (s +:+ t) = bytes_of_string s ++ bytes_of_string t.
Proof. induction s as [|a s IH]; [done|]. exact (f_equal (cons (byte_of a)) IH). Qed.

Lemma bytes_of_string_is_byte s : Forall is_byte (bytes_of_string s).
Proof. induction s; simpl; constructor; auto using byte_of_range. Qed.

Lemma ascii_of_byte_of a : ascii_of (byte_of a) = a.
Proof. unfold ascii_of, byte_of. rewrite N2Z.id. apply Ascii.ascii_N_embedding. Qed.

Lemma byte_of_ascii_of b : is_byte b → byte_of (ascii_of b) = b.
Proof.
  unfold is_byte, ascii_of, byte_of. intros Hb.
  rewrite Ascii.N_ascii_embedding by lia. lia.
Qed.

(** Strings and their bytes are in bijection. *)
Lemma string_of_bytes_of_string s : string_of_bytes (bytes_of_string s) = s.
Proof. induction s as [|a s IH]; simpl; [done|]. by rewrite ascii_of_byte_of, IH. Qed.

Lemma bytes_of_string_of_bytes l : Forall is_byte l → bytes_of_string (string_of_bytes l) = l.
Proof. induction 1; simpl; [done|]. rewrite byte_of_ascii_of by done. by f_equal. Qed.

#[export] Instance bytes_of_string_inj : Inj (=) (=) bytes_of_string.
Proof.
  intros s t H. rewrite <- (string_of_bytes_of_string s), H.
  apply string_of_bytes_of_string.
Qed.

Lemma length_big_endian n v : length (big_endian n v) = n.
Proof. revert v. induction n as [|n IH]; intros v; simpl; [done|]. rewrite length_app, IH. simpl. lia. Qed.

Lemma be_value_snoc l b : be_value (l ++ [b]) = be_value l * 256 + b.
Proof. unfold be_value. by rewrite foldl_app. Qed.

Lemma land_255 v : Z.land v 255 = v mod 256.
Proof. change 255 with (Z.ones 8). by rewrite Z.land_ones by lia. Qed.

(** Reading back a big-endian encoding gives the value modulo its width. *)
Lemma be_value_big_endian n v : be_value (big_endian n v) = v mod 256 ^ Z.of_nat n.
Proof.
  revert v. induction n as [|n IH]; intros v; [by rewrite Z.mod_1_r|].
  cbn [big_endian]. rewrite be_value_snoc, IH, land_255, Z.shiftr_div_pow2 by lia.
  change (2 ^ 8) with 256. rewrite Nat2Z.inj_succ, Z.pow_succ_r by lia.
  rewrite Z.rem_mul_r by (try apply Z.pow_nonzero; lia). lia.
Qed.

Lemma big_endian_inj n v w :
  0 <= v < 256 ^ Z.of_nat n → 0 <= w < 256 ^ Z.of_nat n →
  big_endian n v = big_endian n w → v = w.
Proof.
  intros Hv Hw H. apply (f_equal be_value) in H.
  rewrite !be_value_big_endian in H. rewrite !Z.mod_small in H by lia. done.
Qed.

Lemma big_endian_is_byte n v : Forall is_byte (big_endian n v).
Proof.
  revert v. induction n as [|n IH]; intros v; simpl; [constructor|].
  apply Forall_app. split; [apply IH|]. constructor; [|constructor].
  unfold is_byte. rewrite land_255. apply Z.mod_pos_bound. lia.
Qed.

(** Hexadecimal text determines the bytes. *)
Definition unhex_digit (a : Ascii.ascii) : Z := let c := byte_of a in if c <? 58 then c - 48 else c - 87.
Definition unhex_byte (a b : Ascii.ascii) : Z := unhex_digit a * 16 + unhex_digit b.

Lemma unhex_hex_byte b : is_byte b →
  unhex_byte (hex_digit (Z.shiftr b 4)) (hex_digit (Z.land b 15)) = b.
Proof.
  intros Hb.
  assert (Hall : forallb (λ b, unhex_byte (hex_digit (Z.shiftr b 4)) (hex_digit (Z.land b 15)) =? b)
                   (seqZ 0 256) = true) by (vm_compute; reflexivity).
  rewrite forallb_forall in Hall. apply Z.eqb_eq, Hall.
  apply list_elem_of_In, elem_of_seqZ. unfold is_byte in Hb. lia.
Qed.

Lemma hex_encode_inj l l' : Forall is_byte l → Forall is_byte l' →
  hex_encode l = hex_encode l' → l = l'.
Proof.
  intros Hl. revert l'. induction Hl as [|b l Hb Hl IH]; intros l' Hl'.
  - destruct l'; [done|]. discriminate.
  - destruct Hl' as [|b' l' Hb' Hl']; [discriminate|]. cbn. intros H.
    injection H as Hhi Hlo Hrest. f_equal; [|auto].
    rewrite <- (unhex_hex_byte b), <- (unhex_hex_byte b') by done. congruence.
Qed.

Lemma string_length_append s t : String.length (s +:+ t) = (String.length s + String.length t)%nat.
Proof. induction s as [|a s IH]; [done|]. exact (f_equal S IH). Qed.

Lemma length_hex_encode l : String.length (hex_encode l) = (2 * length l)%nat.
Proof.
  induction l as [|b l IH]; [done|].
  change (hex_encode (b :: l)) with (hex_byte b +:+ hex_encode l).
  rewrite string_length_append, IH. simpl. lia.
Qed.

(** An accepted text has a length within the pattern's bounds. *)
Lemma MatchString_len p s : MatchString p s = true → min_len p <= len s <= max_len p.
Proof. unfold MatchString. rewrite !andb_true_iff, !Z.leb_le. tauto. Qed.

Lemma MatchString_nonempty p s : MatchString p s = true → 1 <= min_len p → s ≠ "".
Proof. intros H Hp ->. apply MatchString_len in H. unfold len in H. simpl in H. lia. Qed.

(** ** Strings compared byte by byte, as Go's < and SQLite's ORDER BY do *)

Fixpoint text_leb (s t : string) : bool :=
  match s, t with
  | EmptyString, _ => true
  | String _ _, EmptyString => false
  | String a s, String b t =>
      if byte_of a =? byte_of b then text_leb s t else byte_of a <? byte_of b
  end.

Lemma text_leb_total s t : text_leb s t = true ∨ text_leb t s = true.
Proof.
  revert t. induction s as [|a s IH]; intros [|b t]; cbn; auto.
  rewrite (Z.eqb_sym (byte_of b)). destruct (Z.eqb_spec (byte_of a) (byte_of b)); [apply IH|].
  rewrite !Z.ltb_lt. lia.
Qed.

Definition text_le (s t : string) : Prop := text_leb s t = true.
#[export] Instance text_le_dec : RelDecision text_le.
Proof. unfold text_le. intros s t. apply _. Defined.
#[export] Instance text_le_total : Total text_le.
Proof. intros s t. apply text_leb_total. Qed.
#[export] Instance text_le_trans : Transitive text_le.
Proof.
  unfold text_le. intros s. induction s as [|a s IH]; intros [|b t] [|c u]; cbn; try done.
  intros Hab Hbc. destruct (Z.eqb_spec (byte_of a) (byte_of b)), (Z.eqb_spec (byte_of b) (byte_of c)),
    (Z.eqb_spec (byte_of a) (byte_of c)); rewrite ?Z.ltb_lt in *; try lia. by eapply IH.
Qed.
