(* ===== verification/GoText.v ===== *)
(** * Go's strings, unicode/utf8 and unicode packages, as far as they are used

    Strings are byte sequences; runes are decoded from them as
    [utf8.DecodeRune] and [utf8.DecodeLastRune] do. *)

From S2P Require Import Prelude GoBase.
Open Scope Z_scope.
Open Scope go_scope.

(** ** strings.Split and strings.Cut with a one-byte separator *)

Fixpoint strings_Split (s : string) (sep : Ascii.ascii) : list string :=
  match s with
  | EmptyString => [""]
  | String a s =>
      if a == sep then "" :: strings_Split s sep
      else match strings_Split s sep with
           | w :: ws => String a w :: ws
           | [] => [String a ""]
           end
  end.

(** The text before and after the first separator, if there is one. *)
Fixpoint strings_Cut (s : string) (sep : Ascii.ascii) : option (string * string) :=
  match s with
  | EmptyString => None
  | String a s =>
      if a == sep then Some ("", s)
      else match strings_Cut s sep with
           | Some (before, after) => Some (String a before, after)
           | None => None
           end
  end.

(** ** UTF-8 *)

Definition RuneError : Z := 65533.
Definition between (lo hi b : Z) : bool := (lo <=? b) && (b <=? hi).
Definition RuneStart (b : Z) : bool := negb (Z.land b 192 =? 128).

(** The accepted range of the second byte after a given first byte; [None] for
    a first byte that starts no multi-byte sequence. The first component is the
    number of bytes of the sequence. *)
Definition second_range (b0 : Z) : option (nat * (Z * Z)) :=
  if between 194 223 b0 then Some (2%nat, (128, 191))
  else if b0 =? 224 then Some (3%nat, (160, 191))
  else if between 225 236 b0 || between 238 239 b0 then Some (3%nat, (128, 191))
  else if b0 =? 237 then Some (3%nat, (128, 159))
  else if b0 =? 240 then Some (4%nat, (144, 191))
  else if between 241 243 b0 then Some (4%nat, (128, 191))
  else if b0 =? 244 then Some (4%nat, (128, 143))
  else None.

(** [utf8.DecodeRune]: the rune and its width. *)
Definition DecodeRune (p : list Z) : Z * nat :=
  match p with
  | [] => (RuneError, 0%nat)
  | b0 :: rest =>
      if b0 <? 128 then (b0, 1%nat)
      else match second_range b0, rest with
      | Some (2%nat, (lo, hi)), b1 :: _ =>
          if between lo hi b1 then (Z.lor (Z.shiftl (Z.land b0 31) 6) (Z.land b1 63), 2%nat)
          else (RuneError, 1%nat)
      | Some (3%nat, (lo, hi)), b1 :: b2 :: _ =>
          if between lo hi b1 && between 128 191 b2
          then (Z.lor (Z.shiftl (Z.land b0 15) 12) (Z.lor (Z.shiftl (Z.land b1 63) 6) (Z.land b2 63)), 3%nat)
          else (RuneError, 1%nat)
      | Some (4%nat, (lo, hi)), b1 :: b2 :: b3 :: _ =>
          if between lo hi b1 && between 128 191 b2 && between 128 191 b3
          then (Z.lor (Z.shiftl (Z.land b0 7) 18)
                  (Z.lor (Z.shiftl (Z.land b1 63) 12) (Z.lor (Z.shiftl (Z.land b2 63) 6) (Z.land b3 63))), 4%nat)
          else (RuneError, 1%nat)
      | _, _ => (RuneError, 1%nat)
      end
  end.

(** [utf8.DecodeLastRune]: the last rune start among the last four bytes
    decides. [p] is not empty. *)
Definition DecodeLastRune (p : list Z) : Z * nat :=
  match last p with
  | None => (RuneError, 0%nat)
  | Some b =>
      if b <? 128 then (b, 1%nat)
      else
        let n := length p in
        let starts k := (k <=? n)%nat && match p !! (n - k)%nat with Some c => RuneStart c | None => false end in
        let try_from k := let '(r, size) := DecodeRune (drop (n - k) p) in
                          if (size =? k)%nat then (r, k) else (RuneError, 1%nat) in
        if starts 2%nat then try_from 2%nat
        else if starts 3%nat then try_from 3%nat
        else if starts 4%nat then try_from 4%nat
        else (RuneError, 1%nat)
  end.

(** [unicode.IsSpace]: the Latin-1 spaces and the White_Space property. *)
Definition IsSpace (r : Z) : bool :=
  between 9 13 r || (r =? 32) || (r =? 133) || (r =? 160) || (r =? 5760) || between 8192 8202 r ||
  (r =? 8232) || (r =? 8233) || (r =? 8239) || (r =? 8287) || (r =? 12288).

(** ** strings.TrimSpace and strings.IndexFunc(s, unicode.IsSpace) >= 0

    [fuel] is the number of bytes: every rune takes at least one. *)

Fixpoint trim_left (fuel : nat) (p : list Z) : list Z :=
  match fuel, p with
  | S fuel, _ :: _ => let '(r, n) := DecodeRune p in if IsSpace r then trim_left fuel (drop n p) else p
  | _, _ => p
  end.
Fixpoint trim_right (fuel : nat) (p : list Z) : list Z :=
  match fuel, p with
  | S fuel, _ :: _ => let '(r, n) := DecodeLastRune p in
                      if IsSpace r then trim_right fuel (take (length p - n) p) else p
  | _, _ => p
  end.
Fixpoint any_rune (f : Z → bool) (fuel : nat) (p : list Z) : bool :=
  match fuel, p with
  | S fuel, _ :: _ => let '(r, n) := DecodeRune p in f r || any_rune f fuel (drop n p)
  | _, _ => false
  end.

Definition TrimSpace (s : string) : string :=
  let b := bytes_of_string s in
  let b := trim_left (length b) b in
  string_of_bytes (trim_right (length b) b).
Definition ContainsSpace (s : string) : bool :=
  let b := bytes_of_string s in any_rune IsSpace (length b) b.

(** U+3000 and U+00A0 are spaces; a lone continuation byte is not. *)
Example trim_examples :
  TrimSpace "  a b " = "a b" ∧
  bytes_of_string (TrimSpace (string_of_bytes [227; 128; 128; 97; 194; 160])) = [97] ∧
  bytes_of_string (TrimSpace (string_of_bytes [128; 97; 160])) = [128; 97; 160] ∧
  TrimSpace "   " = "" ∧ ContainsSpace "key with" = true ∧
  ContainsSpace (string_of_bytes [107; 226; 128; 131; 107]) = true ∧ ContainsSpace "key-with" = false.
Proof. vm_compute. done. Qed.
