(* ===== verification/GoTime.v ===== *)
(** * Go's time package, as far as timestamps are stored as text

    The proleptic Gregorian calendar as [Time.Date] and [time.Date] compute it,
    [Format] and [Parse] with the layout time.RFC3339Nano in UTC, and the proof
    that parsing what was formatted gives the instant back for the years that
    RFC 3339 has. *)

From Stdlib Require Import Ascii.
From S2P Require Import Prelude GoBase.
Open Scope Z_scope.
Open Scope go_scope.

(** ** The calendar

    Days are counted from January 1, year 1. *)

Definition isLeap (year : Z) : bool :=
  (year mod 4 == 0) && ((year mod 100 != 0) || (year mod 400 == 0)).

(** Days of a common year before the month with this index. *)
Definition daysBefore (month : Z) : Z :=
  default 365 ([0; 31; 59; 90; 120; 151; 181; 212; 243; 273; 304; 334; 365] !! Z.to_nat month).

Definition daysIn (month year : Z) : Z :=
  if month =? 2 then if isLeap year then 29 else 28 else daysBefore month - daysBefore (month - 1).

(** Month and day of the day with index [yday] in a year. *)
Definition month_day (leap : bool) (yday : Z) : Z * Z :=
  if leap && (yday =? 59) then (2, 29)
  else
    let day := if leap && (59 <? yday) then yday - 1 else yday in
    let month := day / 31 in
    if daysBefore (month + 1) <=? day then (month + 2, day - daysBefore (month + 1) + 1)
    else (month + 1, day - daysBefore month + 1).

(** Cycles of 400, 100, 4 and 1 years; the last of four shorter ones may have
    the extra day, hence [Z.min 3]. *)
Definition year_yday (days : Z) : Z * Z :=
  let n400 := days / 146097 in
  let d := days - 146097 * n400 in
  let n100 := Z.min 3 (d / 36524) in
  let d := d - 36524 * n100 in
  let n4 := d / 1461 in
  let d := d - 1461 * n4 in
  let n1 := Z.min 3 (d / 365) in
  (1 + 400 * n400 + 100 * n100 + 4 * n4 + n1, d - 365 * n1).

Record civil := { c_year : Z; c_month : Z; c_day : Z; c_hour : Z; c_min : Z; c_sec : Z; c_nsec : Z }.

Definition Day : Duration := 24 * Hour.

Definition civil_of (t : Time) : civil :=
  let '(year, yday) := year_yday (t / Day) in
  let '(month, day) := month_day (isLeap year) yday in
  let ns := t mod Day in
  {| c_year := year; c_month := month; c_day := day; c_hour := ns / Hour;
     c_min := ns mod Hour / Minute; c_sec := ns mod Hour mod Minute / Second;
     c_nsec := ns mod Hour mod Minute mod Second |}.

Definition days_of_date (year month day : Z) : Z :=
  let y := year - 1 in
  365 * y + y / 4 - y / 100 + y / 400 +
  daysBefore (month - 1) + (if isLeap year && (3 <=? month) then 1 else 0) + (day - 1).

(** [time.Date] in UTC, of fields in their ranges. *)
Definition Date (c : civil) : Time :=
  days_of_date (c_year c) (c_month c) (c_day c) * Day +
  c_hour c * Hour + c_min c * Minute + c_sec c * Second + c_nsec c.

(** ** Decimal digits *)

Definition digit_char (d : Z) : Ascii.ascii := ascii_of (48 + d).

(** The [w] low decimal digits of [n]. *)
Fixpoint fixed (w : nat) (n : Z) : string :=
  match w with
  | O => ""
  | S w => fixed w (n / 10) +:+ String (digit_char (n mod 10)) ""
  end.

(** [appendInt]: at least [w] digits. *)
Definition appendInt (x : Z) (w : nat) : string :=
  (if x <? 0 then "-" else "") +:+
  (if Z.abs x <? 10 ^ Z.of_nat w then fixed w (Z.abs x) else pretty (Z.to_N (Z.abs x))).

Definition digit_val (a : Ascii.ascii) : Z := byte_of a - 48.
Fixpoint dec_from (acc : Z) (s : string) : Z :=
  match s with
  | EmptyString => acc
  | String a s => dec_from (acc * 10 + digit_val a) s
  end.

(** The text without its trailing zeros. *)
Fixpoint trim_zeros (s : string) : string :=
  match s with
  | EmptyString => ""
  | String a s => match trim_zeros s with
                  | EmptyString => if digit_val a =? 0 then "" else String a ""
                  | t => String a t
                  end
  end.

(** ** Format(time.RFC3339Nano) of a time in UTC *)

Definition appendNano (nsec : Z) : string :=
  if nsec =? 0 then "" else "." +:+ trim_zeros (fixed 9 nsec).

Definition format_date (c : civil) : string :=
  appendInt (c_year c) 4 +:+ "-" +:+ appendInt (c_month c) 2 +:+ "-" +:+ appendInt (c_day c) 2.

Definition format_rfc3339nano (t : Time) : string :=
  let c := civil_of t in
  format_date c +:+ "T" +:+ appendInt (c_hour c) 2 +:+ ":" +:+ appendInt (c_min c) 2 +:+ ":" +:+
  appendInt (c_sec c) 2 +:+ appendNano (c_nsec c) +:+ "Z".

(** ** Parse(time.RFC3339Nano, _)

    A step takes its field off the front of the text. Every error is [None]:
    the caller discards which one it was. *)

(** [getnum]: two digits, or one where the field is not of fixed width. *)
Definition getnum (fixed_width : bool) (s : string) : option (Z * string) :=
  match s with
  | String a s =>
      if digit a then
        match s with
        | String b s' => if digit b then Some (digit_val a * 10 + digit_val b, s')
                         else if fixed_width then None else Some (digit_val a, s)
        | EmptyString => if fixed_width then None else Some (digit_val a, s)
        end
      else None
  | EmptyString => None
  end.

Definition getyear (s : string) : option (Z * string) :=
  match s with
  | String a (String b (String c (String d s))) =>
      if digit a && digit b && digit c && digit d
      then Some (dec_from 0 (String a (String b (String c (String d "")))), s) else None
  | _ => None
  end.

Definition skip (c : Ascii.ascii) (s : string) : option string :=
  match s with
  | String a s => if a == c then Some s else None
  | EmptyString => None
  end.

(** The longest prefix of digits. *)
Fixpoint span_digits (s : string) : string * string :=
  match s with
  | String a s' => if digit a then let '(d, r) := span_digits s' in (String a d, r) else ("", s)
  | EmptyString => ("", "")
  end.

(** [parseNanoseconds]: nine digits count. *)
Definition parse_nanoseconds (ds : string) : Z :=
  let ds := String.substring 0 9 ds in dec_from 0 ds * 10 ^ (9 - len ds).

(** An optional fraction: a dot or a comma and at least one digit. *)
Definition getfraction (s : string) : Z * string :=
  match s with
  | String a s' =>
      if one_of ".," a then
        match span_digits s' with
        | (EmptyString, _) => (0, s)
        | (ds, r) => (parse_nanoseconds ds, r)
        end
      else (0, s)
  | EmptyString => (0, s)
  end.

(** "Z", or a sign and hours and minutes: the offset in seconds. *)
Definition getzone (s : string) : option (Z * string) :=
  match s with
  | String a s =>
      if a == "Z"%char then Some (0, s)
      else
        '(hr, s) ← getnum true s; s ← skip ":" s; '(mm, s) ← getnum true s;
        if (24 <? hr) || (60 <? mm) then None
        else if a == "+"%char then Some ((hr * 60 + mm) * 60, s)
        else if a == "-"%char then Some (- ((hr * 60 + mm) * 60), s)
        else None
  | EmptyString => None
  end.

Definition between_incl (lo hi x : Z) : bool := (lo <=? x) && (x <=? hi).

Definition parse_rfc3339nano (s : string) : option Time :=
  '(year, s) ← getyear s; s ← skip "-" s;
  '(month, s) ← getnum true s; s ← skip "-" s;
  '(day, s) ← getnum true s; s ← skip "T" s;
  '(hour, s) ← getnum false s; s ← skip ":" s;
  '(min, s) ← getnum true s; s ← skip ":" s;
  '(sec, s) ← getnum true s;
  let '(nsec, s) := getfraction s in
  '(zone, s) ← getzone s;
  if between_incl 1 12 month && between_incl 1 (daysIn month year) day && (hour <? 24) &&
     (min <? 60) && (sec <? 60) && (s == "")
  then Some (Date {| c_year := year; c_month := month; c_day := day; c_hour := hour;
                     c_min := min; c_sec := sec; c_nsec := nsec |} - zone * Second)
  else None.

(** ** The calendar is a bijection *)

Lemma year_yday_spec days : let '(year, yday) := year_yday days in
  let y := year - 1 in
  365 * y + y / 4 - y / 100 + y / 400 + yday = days ∧
  0 <= yday < (if isLeap year then 366 else 365).
Proof.
  unfold year_yday. cbv zeta.
  set (a := days / 146097). set (d1 := days - 146097 * a).
  assert (H1 : 0 <= d1 < 146097) by (subst d1 a; Z.div_mod_to_equations; lia).
  set (b := Z.min 3 (d1 / 36524)). set (d2 := d1 - 36524 * b).
  assert (H2 : 0 <= b <= 3 ∧ 0 <= d2 <= 36524 ∧ (d2 = 36524 → b = 3))
    by (subst d2 b; Z.div_mod_to_equations; lia).
  set (c := d2 / 1461). set (d3 := d2 - 1461 * c).
  assert (H3 : 0 <= c <= 24 ∧ 0 <= d3 < 1461 ∧ (d3 = 1460 → c = 24 → b = 3))
    by (subst d3 c; Z.div_mod_to_equations; lia).
  set (e := Z.min 3 (d3 / 365)).
  assert (H4 : 0 <= e <= 3 ∧ 0 <= d3 - 365 * e <= 365 ∧ (d3 - 365 * e = 365 → e = 3 ∧ d3 = 1460))
    by (subst e; Z.div_mod_to_equations; lia).
  set (y := 1 + 400 * a + 100 * b + 4 * c + e).
  assert (Hy : (y - 1) / 4 = 100 * a + 25 * b + c ∧ (y - 1) / 100 = 4 * a + b ∧ (y - 1) / 400 = a)
    by (subst y; Z.div_mod_to_equations; lia).
  destruct Hy as (-> & -> & ->). split; [subst y d3 d2 d1; lia|].
  split; [lia|]. unfold isLeap. destruct (Z.eq_dec (d3 - 365 * e) 365) as [Hd|]; [|case_match; lia].
  destruct H4 as (_ & _ & H4). destruct (H4 Hd) as [He Hd3].
  rewrite (bool_decide_true (y mod 4 = 0)) by (subst y; Z.div_mod_to_equations; lia). simpl.
  destruct (Z.eq_dec c 24) as [Hc|Hc].
  - destruct H3 as (_ & _ & H3). specialize (H3 Hd3 Hc).
    rewrite (bool_decide_true (y mod 400 = 0)) by (subst y; Z.div_mod_to_equations; lia).
    rewrite orb_true_r. lia.
  - rewrite (bool_decide_false (y mod 100 = 0)) by (subst y; Z.div_mod_to_equations; lia). simpl. lia.
Qed.

(** Every day of a year, by evaluation. *)
Lemma month_day_spec year yday : 0 <= yday < (if isLeap year then 366 else 365) →
  let '(month, day) := month_day (isLeap year) yday in
  1 <= month <= 12 ∧ 1 <= day <= daysIn month year ∧
  daysBefore (month - 1) + (if isLeap year && (3 <=? month) then 1 else 0) + (day - 1) = yday.
Proof.
  set (ok (leap : bool) (yday : Z) :=
         let '(month, day) := month_day leap yday in
         between_incl 1 12 month &&
         between_incl 1 (if month =? 2 then if leap then 29 else 28
                         else daysBefore month - daysBefore (month - 1)) day &&
         (daysBefore (month - 1) + (if leap && (3 <=? month) then 1 else 0) + (day - 1) =? yday)).
  assert (Hall : forallb (ok false) (seqZ 0 365) && forallb (ok true) (seqZ 0 366) = true)
    by (vm_compute; reflexivity).
  apply andb_true_iff in Hall as [Hf Ht]. rewrite forallb_forall in Hf, Ht. intros Hy.
  assert (Hok : ok (isLeap year) yday = true).
  { destruct (isLeap year); [apply Ht|apply Hf]; apply list_elem_of_In, elem_of_seqZ; lia. }
  unfold ok in Hok. unfold daysIn. destruct (month_day (isLeap year) yday) as [month day].
  unfold between_incl in Hok. rewrite !andb_true_iff, !Z.leb_le, Z.eqb_eq in Hok. tauto.
Qed.

(** The fields of an instant are in their ranges and determine it. *)
Lemma civil_of_spec t : let c := civil_of t in
  Date c = t ∧ 1 <= c_month c <= 12 ∧ 1 <= c_day c <= daysIn (c_month c) (c_year c) ∧
  0 <= c_hour c < 24 ∧ 0 <= c_min c < 60 ∧ 0 <= c_sec c < 60 ∧ 0 <= c_nsec c < Second.
Proof.
  unfold civil_of. pose proof (year_yday_spec (t / Day)) as Hy.
  destruct (year_yday (t / Day)) as [year yday]. destruct Hy as [Hy Hr].
  pose proof (month_day_spec year yday Hr) as Hm.
  destruct (month_day (isLeap year) yday) as [month day]. destruct Hm as (Hm & Hd & Hs).
  cbn [c_year c_month c_day c_hour c_min c_sec c_nsec].
  pose proof (Z.mod_pos_bound t Day eq_refl) as B1. set (n1 := t mod Day) in *.
  pose proof (Z.mod_pos_bound n1 Hour eq_refl) as B2. set (n2 := n1 mod Hour) in *.
  pose proof (Z.mod_pos_bound n2 Minute eq_refl) as B3. set (n3 := n2 mod Minute) in *.
  pose proof (Z.mod_pos_bound n3 Second eq_refl) as B4.
  split; [|split_and!; try lia; first [apply Z.div_pos; [lia|done]|apply Z.div_lt_upper_bound; unfold Day, Hour, Minute, Second in *; lia]].
  unfold Date. cbn [c_year c_month c_day c_hour c_min c_sec c_nsec].
  assert (E : days_of_date year month day = t / Day) by (unfold days_of_date; lia). rewrite E.
  pose proof (Z.div_mod t Day). pose proof (Z.div_mod n1 Hour).
  pose proof (Z.div_mod n2 Minute). pose proof (Z.div_mod n3 Second).
  fold n1 in H. fold n2 in H0. fold n3 in H1. unfold Day, Hour, Minute, Second in *. lia.
Qed.

(** ** The round trip *)

(** The instants whose year has four digits. *)
Definition four_digit_year (t : Time) : Prop := -366 * Day <= t < 3652059 * Day.

Lemma four_digit_year_spec t : four_digit_year t → 0 <= c_year (civil_of t) <= 9999.
Proof.
  unfold four_digit_year, civil_of. intros Ht. pose proof (year_yday_spec (t / Day)) as Hy.
  destruct (year_yday (t / Day)) as [year yday]. destruct (month_day _ _). simpl.
  destruct Hy as [Hy Hr]. assert (Hd : -366 <= t / Day < 3652059).
  { split; [by apply Z.div_le_lower_bound; [|lia]|by apply Z.div_lt_upper_bound; [|lia]]. }
  assert (0 <= yday < 366) by (destruct (isLeap year); lia).
  destruct (Z.eq_dec year (-1)) as [->|]; [change (0 <= yday < 365) in Hr; change (-731 + yday = t / Day) in Hy; lia|].
  destruct (Z.eq_dec year 10000) as [->|]; [change (3652059 + yday = t / Day) in Hy; lia|].
  set (y := year - 1) in *.
  pose proof (Z.div_mod y 4). pose proof (Z.mod_pos_bound y 4).
  pose proof (Z.div_mod y 100). pose proof (Z.mod_pos_bound y 100).
  pose proof (Z.div_mod y 400). pose proof (Z.mod_pos_bound y 400). lia.
Qed.

Lemma digit_digit_char d : 0 <= d < 10 → digit (digit_char d) = true ∧ digit_val (digit_char d) = d.
Proof.
  intros Hd. unfold digit, in_range, digit_val, digit_char.
  rewrite byte_of_ascii_of by (unfold is_byte; lia). rewrite andb_true_iff, !Z.leb_le. lia.
Qed.

(** *** Digits *)

Lemma dec_from_app s t acc : dec_from acc (s +:+ t) = dec_from (dec_from acc s) t.
Proof. revert acc. induction s as [|a s IH]; intros acc; [done|]. apply IH. Qed.

Lemma dec_from_fixed w n acc : dec_from acc (fixed w n) = acc * 10 ^ Z.of_nat w + n mod 10 ^ Z.of_nat w.
Proof.
  revert n. induction w as [|w IH]; intros n; [simpl; rewrite Z.mod_1_r; lia|].
  cbn [fixed]. rewrite dec_from_app, IH. cbn [dec_from].
  destruct (digit_digit_char (n mod 10)) as [_ ->]; [apply Z.mod_pos_bound; lia|].
  rewrite Nat2Z.inj_succ, Z.pow_succ_r by lia.
  rewrite (Z.rem_mul_r n 10) by (try apply Z.pow_nonzero; lia). lia.
Qed.

Fixpoint all_digits (s : string) : bool :=
  match s with EmptyString => true | String a s => digit a && all_digits s end.

Lemma all_digits_app s t : all_digits (s +:+ t) = all_digits s && all_digits t.
Proof.
  induction s as [|a s IH]; [done|]. change (digit a && all_digits (s +:+ t) = digit a && all_digits s && all_digits t).
  by rewrite IH, andb_assoc.
Qed.

Lemma all_digits_fixed w n : all_digits (fixed w n) = true.
Proof.
  revert n. induction w as [|w IH]; intros n; [done|]. cbn [fixed]. rewrite all_digits_app, IH.
  cbn. rewrite andb_true_r. apply digit_digit_char, Z.mod_pos_bound. lia.
Qed.

Lemma length_fixed w n : String.length (fixed w n) = w.
Proof.
  revert n. induction w as [|w IH]; intros n; [done|]. cbn [fixed].
  rewrite string_length_append, IH. simpl. lia.
Qed.

Lemma appendInt_fixed x w : 0 <= x < 10 ^ Z.of_nat w → appendInt x w = fixed w x.
Proof.
  intros Hx. unfold appendInt. replace (x <? 0) with false by (symmetry; apply Z.ltb_ge; lia).
  rewrite Z.abs_eq by lia. by replace (x <? 10 ^ Z.of_nat w) with true by (symmetry; apply Z.ltb_lt; lia).
Qed.

(** Trimming drops zeros only, all of the last ones. *)
Lemma trim_zeros_spec s : all_digits s = true →
  all_digits (trim_zeros s) = true ∧ (String.length (trim_zeros s) ≤ String.length s)%nat ∧
  ∀ acc, dec_from acc s = dec_from acc (trim_zeros s) *
                          10 ^ Z.of_nat (String.length s - String.length (trim_zeros s)).
Proof.
  induction s as [|a s IH]; [simpl; intros _; split_and!; [done..|]; intros; lia|].
  cbn [all_digits trim_zeros]. intros [Ha Hs]%andb_true_iff. destruct (IH Hs) as (Hd & Hl & Hv).
  destruct (trim_zeros s) as [|b t] eqn:E.
  - destruct (digit_val a =? 0) eqn:Ez; cbn [all_digits String.length dec_from].
    + split_and!; [done|simpl; lia|]. intros acc. rewrite Hv. cbn [String.length dec_from].
      apply Z.eqb_eq in Ez. rewrite Ez, !Nat.sub_0_r, (Nat2Z.inj_succ (String.length s)), Z.pow_succ_r by lia. lia.
    + rewrite Ha. split_and!; [done|simpl; lia|]. intros acc. by rewrite Hv.
  - cbn [all_digits String.length dec_from] in *. rewrite Ha. split_and!; [done|simpl in *; lia|].
    intros acc. rewrite Hv. do 2 f_equal.
Qed.

Lemma trim_zeros_nonempty s acc : dec_from acc s ≠ 0 → acc = 0 → all_digits s = true → trim_zeros s ≠ "".
Proof.
  intros Hv -> Hd E. apply Hv. destruct (trim_zeros_spec s Hd) as (_ & _ & ->). by rewrite E.
Qed.

(** *** Each step of the parser takes back the field that was written *)

Lemma getnum_fixed b n s : 0 <= n < 100 → getnum b (fixed 2 n +:+ s) = Some (n, s).
Proof.
  intros Hn. change (fixed 2 n +:+ s) with
    (String (digit_char (n / 10 mod 10)) (String (digit_char (n mod 10)) s)). cbn [getnum].
  destruct (digit_digit_char (n / 10 mod 10)) as [-> ->]; [apply Z.mod_pos_bound; lia|].
  destruct (digit_digit_char (n mod 10)) as [-> ->]; [apply Z.mod_pos_bound; lia|].
  do 2 f_equal. Z.div_mod_to_equations. lia.
Qed.

Lemma getyear_fixed n s : 0 <= n < 10000 → getyear (fixed 4 n +:+ s) = Some (n, s).
Proof.
  intros Hn. pose proof (dec_from_fixed 4 n 0) as Hv. pose proof (all_digits_fixed 4 n) as Hd.
  rewrite Z.mod_small in Hv by (change (10 ^ Z.of_nat 4) with 10000; lia).
  pose proof (length_fixed 4 n) as Hl. destruct (fixed 4 n) as [|a [|b [|c [|d [|]]]]]; try done.
  cbn [all_digits] in Hd. change ("" +:+ s) with s.
  change (String a (String b (String c (String d ""))) +:+ s)
    with (String a (String b (String c (String d s)))). cbn [getyear].
  destruct (digit a), (digit b), (digit c), (digit d); try done. cbn [andb]. by rewrite Hv.
Qed.

Lemma span_digits_app s c r : all_digits s = true → digit c = false →
  span_digits (s +:+ String c r) = (s, String c r).
Proof.
  intros Hs Hc. induction s as [|a s IH].
  - change ("" +:+ String c r) with (String c r). cbn. by rewrite Hc.
  - cbn [all_digits] in Hs. apply andb_true_iff in Hs as [Ha Hs].
    change (String a s +:+ String c r) with (String a (s +:+ String c r)). cbn [span_digits].
    by rewrite Ha, IH.
Qed.

Lemma substring_all n s : (String.length s ≤ n)%nat → String.substring 0 n s = s.
Proof. revert n. induction s as [|a s IH]; intros [|n] Hn; simpl in *; try lia; f_equal; auto with lia. Qed.

Lemma parse_nanoseconds_trim n : 0 <= n < Second → parse_nanoseconds (trim_zeros (fixed 9 n)) = n.
Proof.
  intros Hn. destruct (trim_zeros_spec (fixed 9 n) (all_digits_fixed 9 n)) as (_ & Hl & Hv).
  rewrite length_fixed in Hl, Hv. specialize (Hv 0). rewrite dec_from_fixed in Hv.
  rewrite Z.mod_small in Hv by (change (10 ^ Z.of_nat 9) with Second; lia).
  unfold parse_nanoseconds. cbv zeta. rewrite substring_all by done. unfold len.
  rewrite Nat2Z.inj_sub in Hv by done. change (Z.of_nat 9) with 9 in Hv. lia.
Qed.

Lemma getfraction_appendNano n : 0 <= n < Second → getfraction (appendNano n +:+ "Z") = (n, "Z").
Proof.
  intros Hn. unfold appendNano. destruct (Z.eqb_spec n 0) as [->|Hz]; [done|].
  rewrite append_assoc. change ("." +:+ (trim_zeros (fixed 9 n) +:+ "Z"))
    with (String "." (trim_zeros (fixed 9 n) +:+ "Z")). unfold getfraction.
  replace (one_of ".," ".") with true by reflexivity.
  destruct (trim_zeros_spec (fixed 9 n) (all_digits_fixed 9 n)) as (Hd & _ & _).
  rewrite span_digits_app by done.
  pose proof (parse_nanoseconds_trim n Hn) as Hp.
  destruct (trim_zeros (fixed 9 n)) eqn:E; [|by rewrite Hp].
  exfalso. apply (trim_zeros_nonempty (fixed 9 n) 0); [|done|apply all_digits_fixed|done].
  rewrite dec_from_fixed, Z.mod_small by (change (10 ^ Z.of_nat 9) with Second; lia). lia.
Qed.

Lemma skip_here c s : skip c (String c s) = Some s.
Proof. cbn. by rewrite bool_decide_true. Qed.

Lemma daysIn_small month year : 1 <= month <= 12 → daysIn month year < 100.
Proof.
  intros Hm. unfold daysIn. assert (Hb : forallb (λ m, daysBefore m - daysBefore (m - 1) <? 100) (seqZ 1 12) = true) by done.
  rewrite forallb_forall in Hb. repeat case_match; [lia..|].
  apply Z.ltb_lt, Hb, list_elem_of_In, elem_of_seqZ. lia.
Qed.

(** Parsing what was formatted gives the instant back. *)
Lemma parse_format t : four_digit_year t → parse_rfc3339nano (format_rfc3339nano t) = Some t.
Proof.
  intros Ht. pose proof (four_digit_year_spec t Ht) as Hy.
  destruct (civil_of_spec t) as (Hdate & Hmo & Hd & Hh & Hmi & Hs & Hn).
  unfold format_rfc3339nano, format_date. set (c := civil_of t) in *.
  pose proof (daysIn_small (c_month c) (c_year c) Hmo) as Hd'.
  rewrite !append_assoc, !appendInt_fixed by (simpl; lia). unfold parse_rfc3339nano.
  rewrite getyear_fixed by lia. cbn [mbind option_bind].
  repeat (first
    [ match goal with |- context [skip ?c (?l +:+ ?s)] => change (l +:+ s) with (String c s) end; rewrite skip_here
    | rewrite getnum_fixed by lia ]; cbn [mbind option_bind]).
  rewrite getfraction_appendNano by done. cbn [mbind option_bind getzone].
  rewrite (bool_decide_true ("Z"%char = "Z"%char)) by done. cbn [mbind option_bind].
  unfold between_incl. rewrite !(proj2 (Z.leb_le _ _)), !(proj2 (Z.ltb_lt _ _)), bool_decide_true by (done || lia).
  cbn [andb]. f_equal. rewrite Z.mul_0_l, Z.sub_0_r, <- Hdate. clearbody c. by destruct c.
Qed.
