(* ===== verification/GoJson.v ===== *)
(** * encoding/json on a slice of strings

    [Marshal] and [Unmarshal] of a []string, the only use the stores make of
    the package, with the proof that valid UTF-8 texts survive. Texts are byte
    sequences; every error of the decoder is [None]. *)

From S2P Require Import Prelude GoBase GoText.
Open Scope Z_scope.
Open Scope go_scope.

(** ** Marshal *)

Definition hex (d : Z) : Z := if d <? 10 then 48 + d else 87 + d.

(** An ASCII byte inside a string: the quote, the backslash, the control
    characters and, for HTML, the three of less-than, greater-than and ampersand
    are escaped. *)
Definition escape_byte (b : Z) : list Z :=
  if (b =? 92) || (b =? 34) then [92; b]
  else if b =? 8 then [92; 98]
  else if b =? 12 then [92; 102]
  else if b =? 10 then [92; 110]
  else if b =? 13 then [92; 114]
  else if b =? 9 then [92; 116]
  else if (b <? 32) || (b =? 60) || (b =? 62) || (b =? 38)
  then [92; 117; 48; 48; hex (Z.shiftr b 4); hex (Z.land b 15)]
  else [b].

(** One rune at a time; invalid bytes become the replacement character and the
    two Unicode line separators are escaped. [fuel] is the number of bytes. *)
Fixpoint encode_chars (fuel : nat) (p : list Z) : list Z :=
  match fuel, p with
  | S fuel, b :: rest =>
      if b <? 128 then escape_byte b ++ encode_chars fuel rest
      else let '(r, size) := DecodeRune p in
           (if (r =? RuneError) && (size =? 1)%nat then [92; 117; 102; 102; 102; 100]
            else if (r =? 8232) || (r =? 8233) then [92; 117; 50; 48; 50; hex (Z.land r 15)]
            else take size p) ++ encode_chars fuel (drop size p)
  | _, _ => []
  end.

Definition encode_string (s : string) : list Z :=
  let p := bytes_of_string s in 34 :: encode_chars (length p) p ++ [34].

Fixpoint encode_elements (l : list string) : list Z :=
  match l with
  | [] => []
  | [s] => encode_string s
  | s :: l => encode_string s ++ 44 :: encode_elements l
  end.

(** No reasons is the nil slice, written as null. *)
Definition json_Marshal (l : list string) : string :=
  match l with
  | [] => "null"
  | _ => string_of_bytes (91 :: encode_elements l ++ [93])
  end.

(** ** Unmarshal *)

Definition unhex (b : Z) : option Z :=
  if between 48 57 b then Some (b - 48)
  else if between 97 102 b then Some (b - 87)
  else if between 65 70 b then Some (b - 55)
  else None.

(** The four digits of a \u escape. *)
Definition getu4 (p : list Z) : option (Z * list Z) :=
  match p with
  | a :: b :: c :: d :: p =>
      a ← unhex a; b ← unhex b; c ← unhex c; d ← unhex d;
      Some (a * 4096 + b * 256 + c * 16 + d, p)
  | _ => None
  end.

(** [utf8.EncodeRune]; surrogates and values above the last rune become the
    replacement character. *)
Definition EncodeRune (r : Z) : list Z :=
  let r := if between 55296 57343 r || (1114111 <? r) || (r <? 0) then RuneError else r in
  if r <? 128 then [r]
  else if r <? 2048 then [192 + Z.shiftr r 6; 128 + Z.land r 63]
  else if r <? 65536 then [224 + Z.shiftr r 12; 128 + Z.land (Z.shiftr r 6) 63; 128 + Z.land r 63]
  else [240 + Z.shiftr r 18; 128 + Z.land (Z.shiftr r 12) 63;
        128 + Z.land (Z.shiftr r 6) 63; 128 + Z.land r 63].

(** A \u escape, after the u: a surrogate pair is one rune, a lone surrogate the
    replacement character. *)
Definition unescape_u (p : list Z) : option (list Z * list Z) :=
  '(r, p) ← getu4 p;
  if between 55296 57343 r then
    match p with
    | 92 :: 117 :: p' =>
        '(r1, p') ← getu4 p';
        if between 55296 56319 r && between 56320 57343 r1
        then Some (EncodeRune ((r - 55296) * 1024 + (r1 - 56320) + 65536), p')
        else Some (EncodeRune RuneError, p)
    | _ => Some (EncodeRune RuneError, p)
    end
  else Some (EncodeRune r, p).

Definition unescape (p : list Z) : option (list Z * list Z) :=
  match p with
  | b :: p =>
      if (b =? 34) || (b =? 92) || (b =? 47) then Some ([b], p)
      else if b =? 98 then Some ([8], p)
      else if b =? 102 then Some ([12], p)
      else if b =? 110 then Some ([10], p)
      else if b =? 114 then Some ([13], p)
      else if b =? 116 then Some ([9], p)
      else if b =? 117 then unescape_u p
      else None
  | [] => None
  end.

(** The characters up to the closing quote, and what follows it. *)
Fixpoint decode_chars (fuel : nat) (p : list Z) : option (list Z * list Z) :=
  match fuel, p with
  | S fuel, b :: rest =>
      if b =? 34 then Some ([], rest)
      else if b =? 92 then
        '(c, rest) ← unescape rest; '(s, rest) ← decode_chars fuel rest; Some (c ++ s, rest)
      else if b <? 32 then None
      else if b <? 128 then '(s, rest) ← decode_chars fuel rest; Some (b :: s, rest)
      else let '(r, size) := DecodeRune p in
           '(s, rest) ← decode_chars fuel (drop size p);
           Some ((if (r =? RuneError) && (size =? 1)%nat then EncodeRune RuneError else take size p) ++ s, rest)
  | _, _ => None
  end.

Fixpoint skip_space (p : list Z) : list Z :=
  match p with
  | b :: p' => if (b =? 32) || (b =? 9) || (b =? 10) || (b =? 13) then skip_space p' else p
  | [] => []
  end.

(** An element of the array: a string, or null, which leaves the zero value.
    Any other JSON value is an error for a string. *)
Definition decode_element (p : list Z) : option (string * list Z) :=
  match p with
  | 34 :: p => '(s, rest) ← decode_chars (length p) p; Some (string_of_bytes s, rest)
  | 110 :: 117 :: 108 :: 108 :: p => Some ("", p)
  | _ => None
  end.

Fixpoint decode_elements (fuel : nat) (p : list Z) : option (list string * list Z) :=
  match fuel with
  | O => None
  | S fuel =>
      '(s, p) ← decode_element (skip_space p);
      match skip_space p with
      | 44 :: p => '(l, p) ← decode_elements fuel p; Some (s :: l, p)
      | 93 :: p => Some ([s], p)
      | _ => None
      end
  end.

Definition json_Unmarshal (text : string) : option (list string) :=
  match skip_space (bytes_of_string text) with
  | 110 :: 117 :: 108 :: 108 :: p => if skip_space p == [] then Some [] else None
  | 91 :: p =>
      match skip_space p with
      | 93 :: p => if skip_space p == [] then Some [] else None
      | p => '(l, p) ← decode_elements (length p) p; if skip_space p == [] then Some l else None
      end
  | _ => None
  end.

Example json_examples :
  json_Marshal ["A"; "<b> & c"; string_of_bytes [195; 169; 34; 226; 128; 168; 255]] =
    string_of_bytes ([91; 34; 65; 34; 44; 34] ++
      bytes_of_string "\u003cb\u003e \u0026 c" ++ [34; 44; 34; 195; 169; 92; 34] ++
      bytes_of_string "\u2028\ufffd" ++ [34; 93]) ∧
  json_Unmarshal " [ ] " = Some [] ∧ json_Unmarshal "[null]" = Some [""] ∧
  json_Unmarshal "[1]" = None ∧ json_Unmarshal "null" = Some [] ∧
  (bytes_of_string <$> (json_Unmarshal
     (string_of_bytes ([91; 34] ++ bytes_of_string "\ud83d\ude00\ud83dx" ++ [34; 32; 93])) ≫= head))
    = Some [240; 159; 152; 128; 239; 191; 189; 120].
Proof. vm_compute. done. Qed.

(** ** Valid UTF-8 survives *)

(** [utf8.Valid]. *)
Fixpoint valid_utf8_bytes (fuel : nat) (p : list Z) : bool :=
  match fuel, p with
  | S fuel, _ :: _ => let '(r, size) := DecodeRune p in
                      negb ((r =? RuneError) && (size =? 1)%nat) && valid_utf8_bytes fuel (drop size p)
  | _, _ => true
  end.
Definition ValidString (s : string) : bool :=
  let p := bytes_of_string s in valid_utf8_bytes (length p) p.

(** A multi-byte rune is read off its own bytes. *)
Lemma DecodeRune_local p y : match p with [] => False | b :: _ => 128 <= b end →
  let '(r, size) := DecodeRune p in
  (r =? RuneError) && (size =? 1)%nat = false →
  (1 < size ≤ length p)%nat ∧ DecodeRune (take size p ++ y) = (r, size).
Proof.
  destruct p as [|b0 rest]; [done|]. intros Hb. unfold DecodeRune.
  replace (b0 <? 128) with false by (symmetry; apply Z.ltb_ge; lia).
  destruct (second_range b0) as [[n [lo hi]]|] eqn:E; [|done].
  destruct n as [|[|[|[|[|n]]]]]; try done;
    destruct rest as [|b1 rest]; try done; try (destruct rest as [|b2 rest]; try done);
    try (destruct rest as [|b3 rest]; try done); simpl;
    match goal with |- context [if ?c then _ else _] => destruct c eqn:Hc end; try done; intros _;
    (split; [simpl; lia|]); simpl; rewrite E, ?Hc; try done;
    replace (b0 <? 128) with false by (symmetry; apply Z.ltb_ge; lia); done.
Qed.

(** Evaluates one step of the decoder on known bytes. *)
Ltac decode_step Hd :=
  cbn [decode_chars app]; revert Hd; generalize decode_chars; intros D Hd; lazy;
  lazy in Hd; rewrite Hd; reflexivity.

(** An escaped ASCII byte is read back: each of the 128 by evaluation. *)
Lemma decode_escape b fuel p s rest : 0 <= b < 128 → decode_chars fuel p = Some (s, rest) →
  decode_chars (S fuel) (escape_byte b ++ p) = Some (b :: s, rest).
Proof.
  intros Hb Hd.
  assert (Hall : Forall (λ b, decode_chars (S fuel) (escape_byte b ++ p) = Some (b :: s, rest)) (seqZ 0 128)).
  { let l := eval vm_compute in (seqZ 0 128) in change (seqZ 0 128) with l.
    repeat (apply Forall_cons; split; [clear Hb; cbn [escape_byte]; decode_step Hd|]). by apply Forall_nil. }
  rewrite Forall_forall in Hall. apply Hall, elem_of_seqZ. lia.
Qed.

Lemma lor_shiftl a b n : 0 <= n → 0 <= b < 2 ^ n → Z.lor (Z.shiftl a n) b = a * 2 ^ n + b.
Proof.
  intros Hn Hb. rewrite <- (Z.shiftl_mul_pow2 a n) by done. symmetry. apply Z.add_nocarry_lor.
  apply Z.bits_inj'. intros i Hi. rewrite Z.land_spec, Z.bits_0.
  destruct (Z.lt_ge_cases i n); [by rewrite Z.shiftl_spec_low|].
  replace (Z.testbit b i) with false; [apply andb_false_r|].
  symmetry. destruct (Z.eq_dec b 0) as [->|]; [apply Z.bits_0|].
  apply Z.bits_above_log2; [lia|]. apply Z.log2_lt_pow2; [lia|].
  eapply Z.lt_le_trans; [apply Hb|]. apply Z.pow_le_mono_r; lia.
Qed.

Lemma lor_6 a b : 0 <= b < 64 → Z.lor (Z.shiftl a 6) b = a * 64 + b.
Proof. intros. by apply (lor_shiftl a b 6). Qed.
Lemma lor_12 a b : 0 <= b < 4096 → Z.lor (Z.shiftl a 12) b = a * 4096 + b.
Proof. intros. by apply (lor_shiftl a b 12). Qed.
Lemma lor_18 a b : 0 <= b < 262144 → Z.lor (Z.shiftl a 18) b = a * 262144 + b.
Proof. intros. by apply (lor_shiftl a b 18). Qed.
Lemma land_63 v : Z.land v 63 = v mod 64.
Proof. by apply (Z.land_ones v 6). Qed.
Lemma mod_64 v : 0 <= v mod 64 < 64.
Proof. by apply Z.mod_pos_bound. Qed.

(** The value of a multi-byte rune, from its bytes. *)
Lemma rune_2 b0 b1 : Z.lor (Z.shiftl (Z.land b0 31) 6) (Z.land b1 63) = b0 mod 32 * 64 + b1 mod 64.
Proof. rewrite land_63, lor_6 by apply mod_64. f_equal. f_equal. by apply (Z.land_ones b0 5). Qed.
Lemma rune_3 b0 b1 b2 :
  Z.lor (Z.shiftl (Z.land b0 15) 12) (Z.lor (Z.shiftl (Z.land b1 63) 6) (Z.land b2 63)) =
  b0 mod 16 * 4096 + (b1 mod 64 * 64 + b2 mod 64).
Proof.
  rewrite !land_63, lor_6 by apply mod_64. pose proof (mod_64 b1). pose proof (mod_64 b2).
  rewrite lor_12 by lia. f_equal. f_equal. by apply (Z.land_ones b0 4).
Qed.
Lemma rune_4 b0 b1 b2 b3 :
  Z.lor (Z.shiftl (Z.land b0 7) 18)
    (Z.lor (Z.shiftl (Z.land b1 63) 12) (Z.lor (Z.shiftl (Z.land b2 63) 6) (Z.land b3 63))) =
  b0 mod 8 * 262144 + (b1 mod 64 * 4096 + (b2 mod 64 * 64 + b3 mod 64)).
Proof.
  rewrite !land_63, lor_6 by apply mod_64.
  pose proof (mod_64 b1). pose proof (mod_64 b2). pose proof (mod_64 b3).
  rewrite lor_12 by lia. rewrite lor_18 by lia. f_equal. f_equal. by apply (Z.land_ones b0 3).
Qed.

(** The bytes of the two line separators. *)
Lemma DecodeRune_sep p r size : DecodeRune p = (r, size) → r = 8232 ∨ r = 8233 →
  take size p = [226; 128; 168 + (r - 8232)] ∧ Z.land r 15 = 8 + (r - 8232).
Proof.
  intros Hd Hr. split; [|by destruct Hr as [-> | ->]].
  destruct p as [|b0 rest]; [simpl in Hd; unfold RuneError in Hd; injection Hd; lia|]. unfold DecodeRune in Hd.
  destruct (b0 <? 128) eqn:H0; [apply Z.ltb_lt in H0; injection Hd as <- <-; lia|].
  destruct (second_range b0) as [[n [lo hi]]|] eqn:E; [|unfold RuneError in Hd; injection Hd; lia].
  assert (Hb : (n = 2%nat ∧ 194 <= b0 <= 223) ∨ (n = 3%nat ∧ 224 <= b0 <= 239 ∧ 128 <= lo ∧ hi <= 191) ∨
               (n = 4%nat ∧ 240 <= b0 <= 244 ∧ 128 <= lo ∧ hi <= 191 ∧ (b0 = 240 → 144 <= lo))).
  { revert E. unfold second_range, between.
    repeat match goal with |- context [if ?c then _ else _] => destruct c eqn:? end; intros E;
      simplify_eq; rewrite ?orb_true_iff, ?orb_false_iff, ?andb_true_iff, ?Z.leb_le, ?Z.eqb_eq, ?Z.eqb_neq in *; lia. }
  destruct Hb as [[-> Hb]|[(-> & Hb & ?)|(-> & Hb & ?)]];
    destruct rest as [|b1 rest]; try (unfold RuneError in Hd; injection Hd; lia);
    try (destruct rest as [|b2 rest]; try (unfold RuneError in Hd; injection Hd; lia));
    try (destruct rest as [|b3 rest]; try (unfold RuneError in Hd; injection Hd; lia));
    match type of Hd with context [if ?c then _ else _] => destruct c eqn:Hc end;
    try (unfold RuneError in Hd; injection Hd; lia);
    unfold between in Hc; rewrite ?andb_true_iff, ?Z.leb_le in Hc; injection Hd as <- <-;
    rewrite ?rune_2, ?rune_3, ?rune_4 in *.
  all: try (Z.div_mod_to_equations; lia).
  all: cbn; Z.div_mod_to_equations; assert (b0 = 226 ∧ b1 = 128) as [-> ->] by lia; do 3 f_equal; lia.
Qed.

(** ** The round trip *)

Lemma DecodeRune_size p : p ≠ [] → (1 ≤ (DecodeRune p).2)%nat.
Proof.
  destruct p as [|b0 rest]; [done|]. intros _. unfold DecodeRune.
  repeat case_match; simpl; lia.
Qed.

Lemma decode_escape_sep k d fuel p s rest : (k = 0 ∨ k = 1) → d = hex (8 + k) →
  decode_chars fuel p = Some (s, rest) →
  decode_chars (S fuel) ([92; 117; 50; 48; 50; d] ++ p) = Some ([226; 128; 168 + k] ++ s, rest).
Proof. intros [-> | ->] -> Hd; decode_step Hd. Qed.

Lemma decode_rune b c fuel p s rest r size : 128 <= b → DecodeRune ((b :: c) ++ p) = (r, size) →
  (r =? RuneError) && (size =? 1)%nat = false → length (b :: c) = size →
  decode_chars fuel p = Some (s, rest) →
  decode_chars (S fuel) ((b :: c) ++ p) = Some ((b :: c) ++ s, rest).
Proof.
  intros Hb Hr Hok Hl Hd. change ((b :: c) ++ p) with (b :: (c ++ p)) in *. cbn [decode_chars].
  rewrite !(proj2 (Z.eqb_neq b _)), !(proj2 (Z.ltb_ge b _)) by lia. rewrite Hr, Hok.
  change (b :: c ++ p) with ((b :: c) ++ p). subst size. rewrite drop_app_length, take_app_length, Hd. done.
Qed.

(** Characters that were encoded are read back up to the closing quote. *)
Lemma decode_encode_chars fuel p rest : Forall is_byte p → (length p ≤ fuel)%nat →
  valid_utf8_bytes fuel p = true →
  ∀ n, (length p < n)%nat → decode_chars n (encode_chars fuel p ++ 34 :: rest) = Some (p, rest).
Proof.
  revert p. induction fuel as [|fuel IH]; intros p Hp Hl Hv n Hn.
  { destruct p; [|simpl in Hl; lia]. destruct n; [simpl in Hn; lia|]. done. }
  destruct n as [|n]; [lia|]. destruct p as [|b p]; [done|].
  cbn [encode_chars]. destruct (b <? 128) eqn:Hb.
  - apply Z.ltb_lt in Hb. apply Forall_cons in Hp as [Hb' Hp]. rewrite <- app_assoc.
    apply decode_escape; [unfold is_byte in Hb'; lia|]. apply IH; simpl in *; [done|lia| |lia].
    cbn in Hv. by rewrite (proj2 (Z.ltb_lt b 128) Hb), andb_true_iff in Hv; destruct Hv.
  - apply Z.ltb_ge in Hb. cbn [valid_utf8_bytes] in Hv.
    pose proof (DecodeRune_local (b :: p)) as Hloc.
    destruct (DecodeRune (b :: p)) as [r size] eqn:E.
    apply andb_true_iff in Hv as [Hok Hv]. apply negb_true_iff in Hok. rewrite Hok.
    destruct (Hloc [] Hb Hok) as [Hs _].
    assert (IH' : ∀ m, (length (drop size (b :: p)) < m)%nat →
      decode_chars m (encode_chars fuel (drop size (b :: p)) ++ 34 :: rest) =
      Some (drop size (b :: p), rest)).
    { apply IH; [by apply Forall_drop| |done]. rewrite length_drop. simpl in *. lia. }
    specialize (IH' n). rewrite length_drop in IH'. rewrite <- app_assoc.
    assert (Hn' : (length (b :: p) - size < n)%nat) by (simpl in *; lia). specialize (IH' Hn').
    replace (Some (b :: p, rest)) with (Some (take size (b :: p) ++ drop size (b :: p), rest))
      by (by rewrite take_drop).
    destruct ((r =? 8232) || (r =? 8233)) eqn:Hsep.
    + assert (Hr : r = 8232 ∨ r = 8233) by (by rewrite orb_true_iff, !Z.eqb_eq in Hsep).
      destruct (DecodeRune_sep _ _ _ E Hr) as [-> ->].
      apply decode_escape_sep; [lia|done|exact IH'].
    + destruct (Hloc (encode_chars fuel (drop size (b :: p)) ++ 34 :: rest) Hb Hok) as [_ Hdec].
      remember (take size (b :: p)) as c eqn:Hc. assert (Hcl : length c = size) by (subst c; rewrite length_take; lia).
      destruct c as [|b' c]; [simpl in Hcl; lia|].
      assert (b' = b) as -> by (destruct size; [lia|]; simpl in Hc; congruence).
      eapply decode_rune; [done|exact Hdec|done|done|exact IH'].
Qed.

Lemma is_byte_escape b : is_byte b → Forall is_byte (escape_byte b).
Proof.
  intros Hb. assert (Hall : Forall (λ b, Forall is_byte (escape_byte b)) (seqZ 0 256)).
  { apply Forall_forall. intros x Hx%elem_of_seqZ. unfold escape_byte, hex, is_byte.
    assert (Z.land x 15 = x mod 16) by (by apply (Z.land_ones x 4)).
    assert (Z.shiftr x 4 = x / 16) by (by rewrite Z.shiftr_div_pow2).
    assert (0 <= x mod 16 < 16) by (by apply Z.mod_pos_bound).
    assert (0 <= x / 16 < 16) by (split; [apply Z.div_pos; lia|apply Z.div_lt_upper_bound; lia]).
    repeat case_match; repeat (apply Forall_cons; split); try apply Forall_nil; try done; lia. }
  rewrite Forall_forall in Hall. apply Hall, elem_of_seqZ. unfold is_byte in Hb. lia.
Qed.

(** A list of known bytes. *)
Ltac known_bytes := repeat (apply Forall_cons; split; [done|]); by apply Forall_nil.

Lemma encode_chars_is_byte fuel p : Forall is_byte p → Forall is_byte (encode_chars fuel p).
Proof.
  revert p. induction fuel as [|fuel IH]; intros p Hp; [constructor|].
  destruct p as [|b p]; [constructor|]. cbn [encode_chars].
  destruct (b <? 128); [apply Forall_app; inversion_clear Hp; split; [by apply is_byte_escape|by apply IH]|].
  destruct (DecodeRune (b :: p)) as [r size] eqn:E.
  apply Forall_app. split; [|by apply IH, Forall_drop].
  destruct ((r =? RuneError) && _); [known_bytes|].
  destruct ((r =? 8232) || (r =? 8233)) eqn:Hs; [|by apply Forall_take].
  apply orb_true_iff in Hs. rewrite !Z.eqb_eq in Hs. destruct Hs as [-> | ->]; known_bytes.
Qed.

Lemma encode_elements_is_byte l : Forall is_byte (encode_elements l).
Proof.
  induction l as [|s l IH]; [constructor|].
  assert (Forall is_byte (encode_string s)).
  { unfold encode_string. apply Forall_cons. split; [done|]. apply Forall_app. split; [|known_bytes].
    apply encode_chars_is_byte, bytes_of_string_is_byte. }
  destruct l; [done|]. apply Forall_app. split; [done|]. by apply Forall_cons.
Qed.

Lemma length_encode_elements s l : (length l < length (encode_elements (s :: l)))%nat.
Proof.
  revert s. induction l as [|s' l IH]; intros s; [simpl; lia|]. specialize (IH s').
  change (encode_elements (s :: s' :: l)) with (encode_string s ++ 44 :: encode_elements (s' :: l)).
  rewrite length_app. simpl in *. lia.
Qed.

Lemma DecodeRune_size4 p : ((DecodeRune p).2 ≤ 4)%nat.
Proof. unfold DecodeRune. repeat case_match; simpl; lia. Qed.

Lemma length_encode_chars fuel p : (length p ≤ fuel)%nat → (length p ≤ length (encode_chars fuel p))%nat.
Proof.
  revert p. induction fuel as [|fuel IH]; intros p Hl; [lia|]. destruct p as [|b p]; [simpl; lia|].
  cbn [encode_chars]. destruct (b <? 128).
  - rewrite length_app. assert (1 ≤ length (escape_byte b))%nat by (unfold escape_byte; repeat case_match; simpl; lia).
    specialize (IH p). simpl in *. lia.
  - pose proof (DecodeRune_size4 (b :: p)) as H4. pose proof (DecodeRune_size (b :: p)) as H1.
    destruct (DecodeRune (b :: p)) as [r size]. cbn in H4, H1.
    rewrite length_app. specialize (IH (drop size (b :: p))). rewrite length_drop in IH.
    assert (IH' := IH ltac:(simpl in *; specialize (H1 ltac:(done)); lia)).
    repeat case_match; rewrite ?length_take; simpl in *; lia.
Qed.

(** One encoded string is read back in front of anything. *)
Lemma decode_encode_string s rest : ValidString s = true →
  decode_element (encode_string s ++ rest) = Some (s, rest).
Proof.
  intros Hv. unfold encode_string. cbn [app decode_element]. rewrite <- app_assoc. cbn [app].
  rewrite decode_encode_chars; [|apply bytes_of_string_is_byte|done|exact Hv|].
  - cbn. by rewrite string_of_bytes_of_string.
  - rewrite length_app. pose proof (length_encode_chars _ (bytes_of_string s) (le_n _)). simpl. lia.
Qed.

Lemma decode_encode_elements s l rest fuel : Forall (λ s, ValidString s = true) (s :: l) →
  (length l < fuel)%nat →
  decode_elements fuel (encode_elements (s :: l) ++ 93 :: rest) = Some (s :: l, rest).
Proof.
  revert s fuel. induction l as [|s' l IH]; intros s fuel Hv Hl; (destruct fuel as [|fuel]; [lia|]);
    apply Forall_cons in Hv as [Hs Hv]; cbn [decode_elements].
  - change (encode_elements [s]) with (encode_string s).
    replace (skip_space (encode_string s ++ 93 :: rest)) with (encode_string s ++ 93 :: rest) by done.
    rewrite decode_encode_string by done. done.
  - change (encode_elements (s :: s' :: l)) with (encode_string s ++ 44 :: encode_elements (s' :: l)).
    rewrite <- app_assoc. cbn [app].
    set (r := 44 :: encode_elements (s' :: l) ++ 93 :: rest).
    replace (skip_space (encode_string s ++ r)) with (encode_string s ++ r) by done.
    rewrite decode_encode_string by done. subst r. cbn [mbind option_bind skip_space]. cbn [Z.eqb Pos.eqb orb].
    simpl in Hl. by rewrite IH by (done || lia).
Qed.

(** Reading back a written list of valid UTF-8 texts gives the list. *)
Lemma json_roundtrip l : Forall (λ s, ValidString s = true) l → json_Unmarshal (json_Marshal l) = Some l.
Proof.
  destruct l as [|s l]; [done|]. intros Hv. unfold json_Marshal, json_Unmarshal.
  rewrite bytes_of_string_of_bytes.
  2:{ apply Forall_cons. split; [done|]. apply Forall_app. split; [apply encode_elements_is_byte|known_bytes]. }
  cbn [skip_space]. cbn [Z.eqb Pos.eqb orb].
  assert (Hh : ∃ q, encode_elements (s :: l) ++ [93] = 34 :: q).
  { destruct l; [by eexists|]. cbn [encode_elements]. unfold encode_string. by eexists. }
  destruct Hh as [q Hq]. pose proof (length_encode_elements s l) as Hlen.
  pose proof (decode_encode_elements s l [] (length (34 :: q)) Hv) as Hd.
  rewrite Hq in *. cbn [skip_space]. cbn [Z.eqb Pos.eqb orb]. rewrite Hd; [done|].
  rewrite <- Hq, length_app. cbn [length]. lia.
Qed.
