(* ===== verification/JsonScan.v ===== *)
(** * encoding/json: the scanner of the decoder

    The byte-by-byte scanner with which [json.Decoder] finds the end of the next
    value of its input: a state, and a stack of the objects and arrays that are
    open. Here the scanner also builds the value. A string keeps the bytes
    between its quotes, as in the input; [GoJson] has the unquoting. The text
    of a number is not kept, since no destination takes one. *)

From S2P Require Import Prelude GoBase GoText GoJson.
Open Scope Z_scope.
Open Scope go_scope.

#[warnings="-register-all"]
Inductive json : Type :=
| JNull
| JBool (b : bool)
| JNumber
| JString (raw : list Z)
| JArray (vs : list json)
| JObject (ms : list (list Z * json)).

(** What the scanner expects next. The values of [EndValue], [Literal] and the
    bytes of the string states are what has been read, the bytes reversed. *)
Inductive lex : Type :=
| BeginValue | BeginValueOrEmpty | BeginString | BeginStringOrEmpty
| EndValue (v : json)
| InString (raw : list Z) | InStringEsc (raw : list Z) | InStringEscU (n : nat) (raw : list Z)
| Neg | Num0 | Num1 | Dot | Dot0 | Exp | ExpSign | Exp0
| Literal (rest : list Z) (v : json).

(** The open objects and arrays with what they hold so far, reversed. *)
Inductive frame : Type :=
| ObjectKey (ms : list (list Z * json))
| ObjectValue (ms : list (list Z * json)) (key : list Z)
| ArrayValue (vs : list json).

Record scan_state := { sc_lex : lex; sc_stack : list frame }.

(** Go on; the value ended with this byte; it ended before this byte; error. *)
Inductive step_result : Type :=
| Next (st : scan_state)
| Ended (v : json)
| EndedBefore (v : json)
| Bad.

Definition maxNestingDepth : Z := 10000.

Definition isSpace (b : Z) : bool := (b =? 32) || (b =? 9) || (b =? 13) || (b =? 10).
Definition isDigit (b : Z) : bool := between 48 57 b.
Definition isHex (b : Z) : bool := between 48 57 b || between 97 102 b || between 65 70 b.

Definition next (l : lex) (fs : list frame) : step_result := Next {| sc_lex := l; sc_stack := fs |}.

Definition push (f : frame) (l : lex) (fs : list frame) : step_result :=
  if Z.of_nat (length fs) <? maxNestingDepth then next l (f :: fs) else Bad.

Definition begin_value (fs : list frame) (b : Z) : step_result :=
  if isSpace b then next BeginValue fs
  else if b =? 123 then push (ObjectKey []) BeginStringOrEmpty fs
  else if b =? 91 then push (ArrayValue []) BeginValueOrEmpty fs
  else if b =? 34 then next (InString []) fs
  else if b =? 45 then next Neg fs
  else if b =? 48 then next Num0 fs
  else if b =? 116 then next (Literal [114; 117; 101] (JBool true)) fs
  else if b =? 102 then next (Literal [97; 108; 115; 101] (JBool false)) fs
  else if b =? 110 then next (Literal [117; 108; 108] JNull) fs
  else if between 49 57 b then next Num1 fs
  else Bad.

Definition begin_string (fs : list frame) (b : Z) : step_result :=
  if isSpace b then next BeginString fs
  else if b =? 34 then next (InString []) fs
  else Bad.

(** An object or array has been closed. *)
Definition closed (v : json) (fs : list frame) : step_result :=
  match fs with [] => Ended v | _ => next (EndValue v) fs end.

(** After a value: what the innermost open object or array allows. *)
Definition end_value (v : json) (fs : list frame) (b : Z) : step_result :=
  match fs with
  | [] => EndedBefore v
  | f :: fs' =>
      if isSpace b then next (EndValue v) fs
      else match f with
      | ObjectKey ms =>
          match v with
          | JString key => if b =? 58 then next BeginValue (ObjectValue ms key :: fs') else Bad
          | _ => Bad
          end
      | ObjectValue ms key =>
          if b =? 44 then next BeginString (ObjectKey ((key, v) :: ms) :: fs')
          else if b =? 125 then closed (JObject (rev ((key, v) :: ms))) fs'
          else Bad
      | ArrayValue vs =>
          if b =? 44 then next BeginValue (ArrayValue (v :: vs) :: fs')
          else if b =? 93 then closed (JArray (rev (v :: vs))) fs'
          else Bad
      end
  end.

Definition step (st : scan_state) (b : Z) : step_result :=
  let fs := sc_stack st in
  match sc_lex st with
  | BeginValue => begin_value fs b
  | BeginValueOrEmpty =>
      if isSpace b then next BeginValueOrEmpty fs
      else if b =? 93 then match fs with ArrayValue _ :: fs' => closed (JArray []) fs' | _ => Bad end
      else begin_value fs b
  | BeginString => begin_string fs b
  | BeginStringOrEmpty =>
      if isSpace b then next BeginStringOrEmpty fs
      else if b =? 125 then match fs with ObjectKey _ :: fs' => closed (JObject []) fs' | _ => Bad end
      else begin_string fs b
  | EndValue v => end_value v fs b
  | InString raw =>
      if b =? 34 then next (EndValue (JString (rev raw))) fs
      else if b =? 92 then next (InStringEsc (b :: raw)) fs
      else if b <? 32 then Bad
      else next (InString (b :: raw)) fs
  | InStringEsc raw =>
      if bool_decide (b ∈ [98; 102; 110; 114; 116; 92; 47; 34]) then next (InString (b :: raw)) fs
      else if b =? 117 then next (InStringEscU 4 (b :: raw)) fs
      else Bad
  | InStringEscU n raw =>
      if isHex b then next (match n with S (S n) => InStringEscU (S n) (b :: raw) | _ => InString (b :: raw) end) fs
      else Bad
  | Neg => if b =? 48 then next Num0 fs else if between 49 57 b then next Num1 fs else Bad
  | Num1 => if isDigit b then next Num1 fs
            else if b =? 46 then next Dot fs
            else if (b =? 101) || (b =? 69) then next Exp fs
            else end_value JNumber fs b
  | Num0 => if b =? 46 then next Dot fs
            else if (b =? 101) || (b =? 69) then next Exp fs
            else end_value JNumber fs b
  | Dot => if isDigit b then next Dot0 fs else Bad
  | Dot0 => if isDigit b then next Dot0 fs
            else if (b =? 101) || (b =? 69) then next Exp fs
            else end_value JNumber fs b
  | Exp => if (b =? 43) || (b =? 45) then next ExpSign fs else if isDigit b then next Exp0 fs else Bad
  | ExpSign => if isDigit b then next Exp0 fs else Bad
  | Exp0 => if isDigit b then next Exp0 fs else end_value JNumber fs b
  | Literal rest v =>
      match rest with
      | c :: rest => if b =? c then next (match rest with [] => EndValue v | _ => Literal rest v end) fs else Bad
      | [] => Bad
      end
  end.

(** The next value of the input and what follows it; no value yet; an error. *)
Inductive scanned : Type :=
| Value (v : json) (rest : list Z)
| More (st : scan_state)
| SyntaxError.

Fixpoint scan (st : scan_state) (p : list Z) : scanned :=
  match p with
  | [] => More st
  | b :: p' =>
      match step st b with
      | Next st => scan st p'
      | Ended v => Value v p'
      | EndedBefore v => Value v p
      | Bad => SyntaxError
      end
  end.

Definition scan_start : scan_state := {| sc_lex := BeginValue; sc_stack := [] |}.

Example scan_examples :
  let on s := scan scan_start (bytes_of_string s) in
  on " { } x" = Value (JObject []) [32; 120] ∧ on "[1,-0.5e+3 , true,null]" = Value (JArray [JNumber; JNumber; JBool true; JNull]) [] ∧
  on "12 " = Value JNumber [32] ∧ on "01" = Value JNumber [49] ∧ on "[01]" = SyntaxError ∧ on "[1,]" = SyntaxError ∧
  on "{,}" = SyntaxError ∧ on "nul" = More {| sc_lex := Literal [108] JNull; sc_stack := [] |} ∧ on "[}" = SyntaxError ∧ on "-" = More {| sc_lex := Neg; sc_stack := [] |}.
Proof. vm_compute. done. Qed.

(** Scanning a prefix first. *)
Lemma scan_app st p q :
  scan st (p ++ q) =
  match scan st p with
  | More st' => scan st' q
  | Value v rest => Value v (rest ++ q)
  | SyntaxError => SyntaxError
  end.
Proof.
  revert st. induction p as [|b p IH]; intros st; [done|]. cbn [app scan]. by destruct (step st b).
Qed.

(** ** Objects end with their brace *)

Definition scalar (v : json) : Prop := match v with JArray _ | JObject _ => False | _ => True end.

Definition ends_late (st : scan_state) : Prop :=
  match sc_lex st with
  | EndValue v => sc_stack st = [] → scalar v
  | Literal _ v => scalar v
  | _ => True
  end.

Lemma end_value_late v fs b st : scalar v ∨ fs ≠ [] → end_value v fs b = Next st → ends_late st.
Proof.
  intros Hv. unfold end_value. destruct fs as [|f fs]; [done|]. unfold next, closed.
  repeat case_match; intros [= <-]; done.
Qed.

Lemma step_late st b st' : ends_late st → step st b = Next st' → ends_late st'.
Proof.
  intros Hl. destruct st as [l fs]. unfold ends_late in Hl. unfold step. cbn [sc_lex sc_stack] in *.
  assert (Hend : ∀ v, scalar v ∨ fs ≠ [] → end_value v fs b = Next st' → ends_late st')
    by (intros v; apply end_value_late).
  destruct l; unfold begin_value, begin_string, push, next, closed; repeat case_match; intros Hst;
    first [discriminate Hst
          |by apply (Hend JNumber); [left|]
          |by eapply Hend; [|exact Hst]; destruct fs; [left; apply Hl|right]
          |injection Hst as <-; unfold ends_late; cbn [sc_lex sc_stack]; repeat case_match; done].
Qed.

Lemma scan_late st p st' : ends_late st → scan st p = More st' → ends_late st'.
Proof.
  revert st. induction p as [|b p IH]; intros st Hl; cbn [scan]; [by intros [= <-]|].
  destruct (step st b) as [st1| | |] eqn:E; try done. intros Hs. eapply IH; [|exact Hs]. by eapply step_late.
Qed.

(** A value that ends only with the byte after it is no object and no array. *)
Lemma ended_before_scalar st b v : ends_late st → step st b = EndedBefore v → scalar v.
Proof.
  intros Hl. destruct st as [l fs]. unfold step, ends_late in *. cbn [sc_lex sc_stack] in *.
  destruct l; unfold begin_value, begin_string, push, end_value, closed, next;
    repeat case_match; intros Hst; simplify_eq; try done; by apply Hl.
Qed.

(** ** Encoded strings are scanned to their closing quote *)

Lemma scan_raw raw b fs p : 32 <= b → b ≠ 34 → b ≠ 92 →
  scan {| sc_lex := InString raw; sc_stack := fs |} (b :: p) = scan {| sc_lex := InString (b :: raw); sc_stack := fs |} p.
Proof.
  intros Hb H34 H92. cbn [scan]. unfold step. cbn [sc_lex sc_stack].
  by rewrite !(proj2 (Z.eqb_neq b _)), (proj2 (Z.ltb_ge b 32)) by done.
Qed.

Lemma scan_escape raw b fs p : 0 <= b < 128 →
  scan {| sc_lex := InString raw; sc_stack := fs |} (escape_byte b ++ p) =
  scan {| sc_lex := InString (rev (escape_byte b) ++ raw); sc_stack := fs |} p.
Proof.
  intros Hb. assert (Hall : Forall (λ b,
    scan {| sc_lex := InString raw; sc_stack := fs |} (escape_byte b ++ p) =
    scan {| sc_lex := InString (rev (escape_byte b) ++ raw); sc_stack := fs |} p) (seqZ 0 128)).
  { let l := eval vm_compute in (seqZ 0 128) in change (seqZ 0 128) with l.
    repeat (apply Forall_cons; split; [reflexivity|]). by apply Forall_nil. }
  rewrite Forall_forall in Hall. apply Hall, elem_of_seqZ. lia.
Qed.

(** The bytes of a multi-byte rune. *)
Lemma DecodeRune_high p r size : DecodeRune p = (r, size) → match p with [] => False | b :: _ => 128 <= b end →
  (r =? RuneError) && (size =? 1)%nat = false → Forall (λ b, 128 <= b) (take size p).
Proof.
  destruct p as [|b0 rest]; [done|]. intros Hd Hb Hok. unfold DecodeRune in Hd.
  rewrite (proj2 (Z.ltb_ge b0 128)) in Hd by done.
  destruct (second_range b0) as [[n [lo hi]]|] eqn:E; [|by injection Hd as <- <-].
  assert (Hlo : 128 <= lo).
  { revert E. unfold second_range. repeat case_match; intros [=]; subst; lia. }
  destruct n as [|[|[|[|[|n]]]]]; try (by injection Hd as <- <-);
    destruct rest as [|b1 rest]; try (by injection Hd as <- <-);
    try (destruct rest as [|b2 rest]; try (by injection Hd as <- <-));
    try (destruct rest as [|b3 rest]; try (by injection Hd as <- <-));
    match type of Hd with context [if ?c then _ else _] => destruct c eqn:Hc end;
    try (by injection Hd as <- <-);
    unfold between in Hc; rewrite ?andb_true_iff, ?Z.leb_le in Hc; injection Hd as <- <-; cbn;
    repeat (apply Forall_cons; split; [lia|]); by apply Forall_nil.
Qed.

Lemma scan_high l : Forall (λ b, 128 <= b) l → ∀ raw fs p,
  scan {| sc_lex := InString raw; sc_stack := fs |} (l ++ p) =
  scan {| sc_lex := InString (rev l ++ raw); sc_stack := fs |} p.
Proof.
  induction 1 as [|b l Hb _ IH]; intros raw fs p; [done|]. cbn [app rev].
  rewrite scan_raw by lia. rewrite IH, <- app_assoc. done.
Qed.

(** The bytes of an encoded text. *)
Lemma scan_encode_chars fuel p raw fs rest : Forall is_byte p →
  scan {| sc_lex := InString raw; sc_stack := fs |} (encode_chars fuel p ++ rest) =
  scan {| sc_lex := InString (rev (encode_chars fuel p) ++ raw); sc_stack := fs |} rest.
Proof.
  revert p raw. induction fuel as [|fuel IH]; intros p raw Hp; [done|].
  destruct p as [|b p]; [done|]. cbn [encode_chars]. destruct (b <? 128) eqn:Hb.
  - apply Forall_cons in Hp as [Hb' Hp]. rewrite <- app_assoc, scan_escape, IH by (done || unfold is_byte in Hb'; lia).
    by rewrite rev_app_distr, <- app_assoc.
  - apply Z.ltb_ge in Hb. destruct (DecodeRune (b :: p)) as [r size] eqn:E.
    set (c := if (r =? RuneError) && (size =? 1)%nat then _ else _).
    assert (Hc : ∀ raw q, scan {| sc_lex := InString raw; sc_stack := fs |} (c ++ q) =
                          scan {| sc_lex := InString (rev c ++ raw); sc_stack := fs |} q).
    { intros raw' q. subst c. destruct ((r =? RuneError) && (size =? 1)%nat) eqn:Hok; [reflexivity|].
      destruct ((r =? 8232) || (r =? 8233)) eqn:Hsep; [|by apply scan_high, (DecodeRune_high _ r)].
      rewrite orb_true_iff, !Z.eqb_eq in Hsep. destruct Hsep as [-> | ->]; reflexivity. }
    rewrite <- app_assoc, Hc, IH by (by apply Forall_drop). by rewrite rev_app_distr, <- app_assoc.
Qed.

(** An encoded string, read as a key or as a value. *)
Definition encoded (s : string) : list Z := encode_chars (length (bytes_of_string s)) (bytes_of_string s).

Lemma scan_string s fs rest :
  scan {| sc_lex := InString []; sc_stack := fs |} (encoded s ++ 34 :: rest) =
  scan {| sc_lex := EndValue (JString (encoded s)); sc_stack := fs |} rest.
Proof.
  unfold encoded. rewrite scan_encode_chars by apply bytes_of_string_is_byte. rewrite app_nil_r.
  cbn [scan]. unfold step. cbn [sc_lex sc_stack Z.eqb Pos.eqb]. by rewrite rev_involutive.
Qed.

(** ** Unquoting *)

(** The text of a string literal, given the bytes between its quotes. *)
Definition unquote (raw : list Z) : string :=
  match decode_chars (S (length raw)) (raw ++ [34]) with
  | Some (p, _) => string_of_bytes p
  | None => ""
  end.

Lemma unquote_encoded s : ValidString s = true → unquote (encoded s) = s.
Proof.
  intros Hv. unfold unquote, encoded.
  rewrite decode_encode_chars; [|apply bytes_of_string_is_byte|done|exact Hv|].
  - apply string_of_bytes_of_string.
  - pose proof (length_encode_chars _ (bytes_of_string s) (le_n _)). lia.
Qed.

(** ** Every scanned string can be unquoted *)

(** The bytes between the quotes of a string literal. *)
Inductive chars : list Z → Prop :=
| chars_nil : chars []
| chars_plain b l : 32 <= b → b ≠ 34 → b ≠ 92 → chars l → chars (b :: l)
| chars_esc e l : e ∈ [98; 102; 110; 114; 116; 92; 47; 34] → chars l → chars (92 :: e :: l)
| chars_u a b c d l : Forall (λ x, isHex x = true) [a; b; c; d] → chars l → chars (92 :: 117 :: a :: b :: c :: d :: l).

Lemma chars_app l l' : chars l → chars l' → chars (l ++ l').
Proof.
  induction 1; intros Hl'; [done|apply chars_plain; auto|apply chars_esc; auto|apply chars_u; auto].
Qed.

Lemma chars_high l n : chars l → Forall (λ b, 128 <= b) (take n (l ++ [34])) →
  ∃ l', drop n (l ++ [34]) = l' ++ [34] ∧ chars l' ∧ (length l' + n = length l)%nat.
Proof.
  intros Hl. revert n. induction Hl as [|b l Hb H34 H92 Hl IH|e l He Hl IH|a b c d l Hh Hl IH]; intros [|n] Hn.
  - exists []. split_and!; [done|constructor|done].
  - cbn in Hn. apply Forall_cons in Hn as [? _]. lia.
  - exists (b :: l). split_and!; [done|by constructor|cbn; lia].
  - cbn in Hn. apply Forall_cons in Hn as [_ Hn]. destruct (IH n Hn) as (l' & Hd & Hc & Hlen).
    exists l'. split_and!; [done|done|cbn; lia].
  - exists (92 :: e :: l). split_and!; [done|by apply chars_esc|cbn; lia].
  - cbn in Hn. apply Forall_cons in Hn as [? _]. lia.
  - exists (92 :: 117 :: a :: b :: c :: d :: l). split_and!; [done|by apply chars_u|cbn; lia].
  - cbn in Hn. apply Forall_cons in Hn as [? _]. lia.
Qed.

Lemma unhex_isHex b : isHex b = true → is_Some (unhex b).
Proof.
  unfold isHex, unhex. destruct (between 48 57 b); [by eexists|]. destruct (between 97 102 b); [by eexists|].
  destruct (between 65 70 b); [by eexists|done].
Qed.

Lemma getu4_hex a b c d p : Forall (λ x, isHex x = true) [a; b; c; d] → ∃ r, getu4 (a :: b :: c :: d :: p) = Some (r, p).
Proof.
  intros Hh. repeat (apply Forall_cons in Hh as [?%unhex_isHex Hh]).
  repeat match goal with H : is_Some _ |- _ => destruct H as [? H] end.
  cbn. by simplify_option_eq; eauto.
Qed.

Lemma unescape_u_chars a b c d l : Forall (λ x, isHex x = true) [a; b; c; d] → chars l →
  ∃ out l', unescape_u (a :: b :: c :: d :: l ++ [34]) = Some (out, l' ++ [34]) ∧ chars l' ∧ (length l' ≤ length l)%nat.
Proof.
  intros Hh Hl. unfold unescape_u. destruct (getu4_hex a b c d (l ++ [34]) Hh) as [r Hr]. rewrite Hr.
  cbn [mbind option_bind]. clear Hr Hh. set (p := l ++ [34]).
  assert (Hlone : ∀ x : list Z, ∃ out l', Some (x, p) = Some (out, l' ++ [34]) ∧ chars l' ∧ (length l' ≤ length l)%nat)
    by (intros x; exists x, l; split_and!; done || lia).
  destruct (between 55296 57343 r); [|apply Hlone].
  destruct p as [|x p'] eqn:Ep; [by destruct l|].
  destruct (decide (x = 92)) as [->|Hx]; [|repeat case_match; (apply Hlone || congruence)].
  inversion Hl as [|y l1 Hy H34 H92 Hl1|e l1 He Hl1|a' b' c' d' l1 Hh' Hl1]; subst l; unfold p in Ep; try done;
    injection Ep; intros; subst; try done.
  - assert (e ≠ 117) by (by enum_in; subst). repeat case_match; (apply Hlone || congruence).
  - destruct (getu4_hex a' b' c' d' (l1 ++ [34]) Hh') as [r1 Hr1]. rewrite Hr1. cbn [mbind option_bind].
    destruct (_ && _); [|apply Hlone]. eexists _, l1. split_and!; [done|done|cbn; lia].
Qed.

(** After a backslash: some text, and what is left of the literal. *)
Lemma unescape_chars l : chars (92 :: l) →
  ∃ out l', unescape (l ++ [34]) = Some (out, l' ++ [34]) ∧ chars l' ∧ (length l' < length l)%nat.
Proof.
  intros Hl. inversion Hl as [|? ? ? ? H92 ?|e l0 He Hl0|a b c d l0 Hh Hl0]; subst; [done| |].
  - enum_in; subst; eexists _, l0; (split_and!; [reflexivity|done|cbn; lia]).
  - destruct (unescape_u_chars a b c d l0 Hh Hl0) as (out & l' & E & Hc & Hlen).
    exists out, l'. split_and!; [exact E|done|cbn; lia].
Qed.

Lemma decode_chars_total n : ∀ l fuel, (length l ≤ n)%nat → (length l < fuel)%nat → chars l →
  ∃ p, decode_chars fuel (l ++ [34]) = Some (p, []).
Proof.
  induction n as [|n IH]; intros l fuel Hn Hf Hl; (destruct fuel as [|fuel]; [lia|]).
  { destruct l; [by eexists|cbn in Hn; lia]. }
  destruct l as [|b l]; [by eexists|]. cbn in Hn, Hf. cbn [app decode_chars].
  destruct (b =? 34) eqn:E34; [apply Z.eqb_eq in E34; inversion Hl; subst; lia|].
  destruct (Z.eqb_spec b 92) as [->|H92].
  - destruct (unescape_chars l Hl) as (out & l' & -> & Hl' & Hlen). cbn [mbind option_bind].
    destruct (IH l' fuel) as [p Hp]; [lia|lia|done|]. rewrite Hp. by eexists.
  - inversion Hl as [|? ? Hb ? ? Hl0| |]; subst; try done. rewrite (proj2 (Z.ltb_ge b 32)) by done.
    destruct (b <? 128) eqn:E128.
    + destruct (IH l fuel) as [p Hp]; [lia|lia|done|]. rewrite Hp. by eexists.
    + apply Z.ltb_ge in E128. destruct (DecodeRune (b :: l ++ [34])) as [r size] eqn:Ed.
      destruct ((r =? RuneError) && (size =? 1)%nat) eqn:Eok.
      * apply andb_true_iff in Eok as [_ ->%Nat.eqb_eq]. rewrite skipn_cons, drop_0.
        destruct (IH l fuel) as [p Hp]; [lia|lia|done|]. rewrite Hp. by eexists.
      * pose proof (DecodeRune_high _ _ _ Ed E128 Eok) as Hh.
        pose proof (DecodeRune_size (b :: l ++ [34])) as Hs. rewrite Ed in Hs. cbn in Hs. specialize (Hs ltac:(done)).
        destruct (chars_high (b :: l) size Hl Hh) as (l' & Hd & Hl' & Hlen). cbn in Hlen.
        change (drop size (b :: l ++ [34])) with (drop size ((b :: l) ++ [34])). rewrite Hd.
        destruct (IH l' fuel) as [p Hp]; [lia|lia|done|]. rewrite Hp. by eexists.
Qed.

Lemma unquote_total l : chars l → ∃ p, decode_chars (S (length l)) (l ++ [34]) = Some (p, []).
Proof. intros Hl. apply (decode_chars_total (length l)); [done|lia|done]. Qed.

(** The strings of a value are literals. *)
#[warnings="-register-all"]
Inductive literal : json → Prop :=
| lit_null : literal JNull
| lit_bool b : literal (JBool b)
| lit_number : literal JNumber
| lit_string raw : chars raw → literal (JString raw)
| lit_array vs : Forall literal vs → literal (JArray vs)
| lit_object ms : Forall (λ m, chars m.1 ∧ literal m.2) ms → literal (JObject ms).

Definition literal_frame (f : frame) : Prop :=
  match f with
  | ObjectKey ms => Forall (λ m, chars m.1 ∧ literal m.2) ms
  | ObjectValue ms key => chars key ∧ Forall (λ m, chars m.1 ∧ literal m.2) ms
  | ArrayValue vs => Forall literal vs
  end.

Definition literal_lex (l : lex) : Prop :=
  match l with
  | EndValue v | Literal _ v => literal v
  | InString raw => chars (rev raw)
  | InStringEsc raw => ∃ raw', raw = 92 :: raw' ∧ chars (rev raw')
  | InStringEscU n raw => (1 ≤ n ≤ 4)%nat ∧ ∃ hs raw', raw = hs ++ 117 :: 92 :: raw' ∧ (length hs + n = 4)%nat ∧
                          Forall (λ x, isHex x = true) hs ∧ chars (rev raw')
  | _ => True
  end.

Definition literal_state (st : scan_state) : Prop := literal_lex (sc_lex st) ∧ Forall literal_frame (sc_stack st).
Definition literal_result (r : step_result) : Prop :=
  match r with Next st => literal_state st | Ended v | EndedBefore v => literal v | Bad => True end.

Lemma closed_literal v fs : literal v → Forall literal_frame fs → literal_result (closed v fs).
Proof. intros Hv Hfs. by destruct fs. Qed.

Lemma end_value_literal v fs b : literal v → Forall literal_frame fs → literal_result (end_value v fs b).
Proof.
  intros Hv Hfs. unfold end_value. destruct fs as [|f fs]; [done|].
  destruct (isSpace b); [by split|]. apply Forall_cons in Hfs as [Hf Hfs].
  destruct f as [ms|ms key|vs]; cbn in Hf.
  - destruct v as [| | |key| |]; try done. case_match; [|done]. inversion Hv; subst. split; [done|]. by constructor.
  - destruct Hf as [Hk Hms]. assert (Hms' : Forall (λ m, chars m.1 ∧ literal m.2) ((key, v) :: ms)) by by constructor.
    case_match; [split; [done|]; by constructor|]. case_match; [|done]. apply closed_literal; [|done].
    constructor. by apply Forall_rev.
  - assert (Hvs : Forall literal (v :: vs)) by by constructor.
    case_match; [split; [done|]; by constructor|]. case_match; [|done]. apply closed_literal; [|done].
    constructor. by apply Forall_rev.
Qed.

Lemma begin_value_literal fs b : Forall literal_frame fs → literal_result (begin_value fs b).
Proof.
  intros Hfs. unfold begin_value, push, next. repeat case_match; cbn; try done;
    split; cbn; try constructor; try done; try (by constructor); constructor.
Qed.

Lemma begin_string_literal fs b : Forall literal_frame fs → literal_result (begin_string fs b).
Proof. intros Hfs. unfold begin_string. repeat case_match; cbn; try done; split; cbn; try done; constructor. Qed.

Lemma in_string_literal raw b fs : chars (rev raw) → Forall literal_frame fs →
  literal_result (step {| sc_lex := InString raw; sc_stack := fs |} b).
Proof.
  intros Hr Hfs. unfold step. cbn [sc_lex sc_stack]. destruct (Z.eqb_spec b 34) as [|H34]; [split; [by constructor|done]|].
  destruct (Z.eqb_spec b 92) as [->|H92]; [split; [by exists raw|done]|].
  destruct (Z.ltb_spec b 32) as [|H32]; [done|]. split; [|done]. cbn. apply chars_app; [done|].
  apply chars_plain; [done..|constructor].
Qed.

Lemma in_esc_literal raw b fs : literal_lex (InStringEsc raw) → Forall literal_frame fs →
  literal_result (step {| sc_lex := InStringEsc raw; sc_stack := fs |} b).
Proof.
  intros (raw' & -> & Hr) Hfs. unfold step. cbn [sc_lex sc_stack]. case_bool_decide as He.
  - split; [|done]. cbn. rewrite <- app_assoc. apply chars_app; [done|]. apply chars_esc; [done|constructor].
  - destruct (Z.eqb_spec b 117) as [->|]; [|done]. split; [|done]. split; [lia|]. by exists [], raw'.
Qed.

Lemma in_u_literal n raw b fs : literal_lex (InStringEscU n raw) → Forall literal_frame fs →
  literal_result (step {| sc_lex := InStringEscU n raw; sc_stack := fs |} b).
Proof.
  intros (Hn & hs & raw' & -> & Hlen & Hh & Hr) Hfs. unfold step. cbn [sc_lex sc_stack].
  destruct (isHex b) eqn:Hb; [|done]. split; [|done]. destruct n as [|[|n]]; [lia| |].
  - destruct hs as [|d [|c [|a [|]]]]; cbn in Hlen; try lia. cbn. rewrite <- !app_assoc. apply chars_app; [done|].
    cbn. apply chars_u; [|constructor]. repeat (apply Forall_cons in Hh as [? Hh]). repeat (apply Forall_cons; split; [done|]). done.
  - split; [lia|]. exists (b :: hs), raw'. split_and!; [done|cbn; lia|by constructor|done].
Qed.

Lemma step_literal st b : literal_state st → literal_result (step st b).
Proof.
  destruct st as [l fs]. intros [Hl Hfs]. cbn in Hl, Hfs.
  pose proof (end_value_literal JNumber fs b lit_number Hfs) as Hnum.
  destruct l; auto using in_string_literal, in_esc_literal, in_u_literal;
    try (unfold step; cbn [sc_lex sc_stack]; by repeat (case_match; [by split|]));
    try (unfold step; cbn [sc_lex sc_stack]; by auto using begin_value_literal, begin_string_literal, end_value_literal).
  - unfold step. cbn [sc_lex sc_stack]. case_match; [by split|]. case_match; [|by apply begin_value_literal].
    destruct fs as [|[]]; try done. apply Forall_cons in Hfs as [_ Hfs]. apply closed_literal; [by constructor|done].
  - unfold step. cbn [sc_lex sc_stack]. case_match; [by split|]. case_match; [|by apply begin_string_literal].
    destruct fs as [|[]]; try done. apply Forall_cons in Hfs as [_ Hfs]. apply closed_literal; [by constructor|done].
  - unfold step. cbn [sc_lex sc_stack]. destruct rest as [|c rest]; [done|]. case_match; [|done].
    split; [|done]. by destruct rest.
Qed.

(** A scanned value has only strings that can be unquoted. *)
Lemma scan_literal st p v rest : literal_state st → scan st p = Value v rest → literal v.
Proof.
  revert st. induction p as [|b p IH]; intros st Hst; cbn [scan]; [done|].
  pose proof (step_literal st b Hst) as Hr. destruct (step st b) as [st'|v'|v'|]; [by apply IH| | |done];
    by intros [= <- _].
Qed.

Lemma scan_start_literal : literal_state scan_start.
Proof. by split. Qed.
