(* ===== verification/Unquote.v ===== *)
(** * encoding/json: unquoted strings are valid UTF-8

    Whatever the bytes of a JSON text, the strings the decoder makes of it are
    valid UTF-8: invalid bytes and lone surrogates become the replacement
    character. So a decoded text survives being encoded again. *)

From S2P Require Import Prelude GoBase GoText GoJson JsonScan.
Open Scope Z_scope.
Open Scope go_scope.

(** The bytes of one rune, as DecodeRune reads them in front of anything. *)
Definition rune (c : list Z) : Prop := ∀ y,
  (DecodeRune (c ++ y)).2 = length c ∧ (0 < length c)%nat ∧
  ((DecodeRune (c ++ y)).1 =? RuneError) && (length c =? 1)%nat = false.

Inductive utf8 : list Z → Prop :=
| utf8_nil : utf8 []
| utf8_rune c s : rune c → utf8 s → utf8 (c ++ s).

Lemma utf8_valid p : utf8 p → ∀ fuel, valid_utf8_bytes fuel p = true.
Proof.
  induction 1 as [|c s Hc _ IH]; intros [|fuel]; try done.
  destruct (Hc s) as (Hsz & Hpos & Herr). cbn [valid_utf8_bytes].
  destruct (c ++ s) as [|b l] eqn:E; [done|]. destruct (DecodeRune (b :: l)) as [r size]. cbn in Hsz, Herr. subst size.
  rewrite Herr. rewrite <- E, drop_app_length. apply IH.
Qed.

Lemma utf8_ValidString p : Forall is_byte p → utf8 p → ValidString (string_of_bytes p) = true.
Proof. intros Hb Hu. unfold ValidString. rewrite bytes_of_string_of_bytes by done. by apply utf8_valid. Qed.

Lemma ascii_rune b : b < 128 → rune [b].
Proof.
  intros Hb y. cbn [app DecodeRune]. rewrite (proj2 (Z.ltb_lt b 128)) by done. cbn.
  split_and!; [done|lia|]. rewrite andb_true_r. apply Z.eqb_neq. unfold RuneError. lia.
Qed.

(** Decides the comparisons of a goal about bytes. *)
Ltac byte_cases :=
  unfold between;
  repeat (match goal with
  | |- context [?a <? ?b] => destruct (Z.ltb_spec a b); try lia
  | |- context [?a <=? ?b] => destruct (Z.leb_spec a b); try lia
  | |- context [?a =? ?b] => destruct (Z.eqb_spec a b); try lia
  end; cbn [andb orb length Nat.eqb snd]).

Lemma rune_2_bytes b0 b1 : 194 <= b0 <= 223 → 128 <= b1 <= 191 → rune [b0; b1].
Proof.
  intros H0 H1 y. cbn [app]. unfold DecodeRune, second_range. rewrite (proj2 (Z.ltb_ge b0 128)) by lia.
  byte_cases; split_and!; try done; try lia; by rewrite andb_false_r.
Qed.

Lemma rune_3_bytes b0 b1 b2 : 224 <= b0 <= 239 → 128 <= b1 <= 191 → 128 <= b2 <= 191 →
  (b0 = 224 → 160 <= b1) → (b0 = 237 → b1 <= 159) → rune [b0; b1; b2].
Proof.
  intros H0 H1 H2 Ha Hb y. cbn [app]. unfold DecodeRune, second_range. rewrite (proj2 (Z.ltb_ge b0 128)) by lia.
  byte_cases; split_and!; try done; try lia; by rewrite andb_false_r.
Qed.

Lemma rune_4_bytes b0 b1 b2 b3 : 240 <= b0 <= 244 → 128 <= b1 <= 191 → 128 <= b2 <= 191 → 128 <= b3 <= 191 →
  (b0 = 240 → 144 <= b1) → (b0 = 244 → b1 <= 143) → rune [b0; b1; b2; b3].
Proof.
  intros H0 H1 H2 H3 Ha Hb y. cbn [app]. unfold DecodeRune, second_range. rewrite (proj2 (Z.ltb_ge b0 128)) by lia.
  byte_cases; split_and!; try done; try lia; by rewrite andb_false_r.
Qed.

(** Every encoded rune. *)
Lemma EncodeRune_rune r : rune (EncodeRune r) ∧ Forall is_byte (EncodeRune r).
Proof.
  unfold EncodeRune. cbv zeta.
  set (v := if between 55296 57343 r || (1114111 <? r) || (r <? 0) then RuneError else r).
  assert (Hv : 0 <= v <= 1114111 ∧ ¬ (55296 <= v <= 57343)).
  { unfold v, RuneError. byte_cases; lia. }
  clearbody v. rewrite !land_63, !Z.shiftr_div_pow2 by lia.
  change (2 ^ 6) with 64. change (2 ^ 12) with 4096. change (2 ^ 18) with 262144.
  pose proof (mod_64 v). pose proof (mod_64 (v / 64)). pose proof (mod_64 (v / 4096)).
  assert (Hd : v = 64 * (v / 64) + v mod 64 ∧ v / 64 = 64 * (v / 4096) + v / 64 mod 64 ∧
               v / 4096 = 64 * (v / 262144) + v / 4096 mod 64).
  { change 4096 with (64 * 64). change 262144 with (64 * 64 * 64). rewrite <- !Z.div_div by lia.
    split_and!; apply Z.div_mod; lia. }
  destruct Hd as (Hd1 & Hd2 & Hd3). unfold is_byte.
  destruct (Z.ltb_spec v 128); [split; [by apply ascii_rune|repeat constructor; lia]|].
  destruct (Z.ltb_spec v 2048); [split; [apply rune_2_bytes; lia|repeat constructor; lia]|].
  destruct (Z.ltb_spec v 65536); [split; [apply rune_3_bytes; lia|repeat constructor; lia]|].
  split; [apply rune_4_bytes; lia|repeat constructor; lia].
Qed.

(** What DecodeRune accepts in a text is a rune. *)
Lemma DecodeRune_rune p r size : DecodeRune p = (r, size) → match p with [] => False | b :: _ => 128 <= b end →
  (r =? RuneError) && (size =? 1)%nat = false → rune (take size p) ∧ Forall is_byte (take size p).
Proof.
  destruct p as [|b0 rest]; [done|]. intros Hd Hb Hok. unfold DecodeRune in Hd.
  rewrite (proj2 (Z.ltb_ge b0 128)) in Hd by done.
  destruct (second_range b0) as [[n [lo hi]]|] eqn:E; [|by injection Hd as <- <-].
  assert (Hlo : n = 2%nat ∧ 194 <= b0 <= 223 ∧ lo = 128 ∧ hi = 191 ∨
                n = 3%nat ∧ 224 <= b0 <= 239 ∧ 128 <= lo ∧ hi <= 191 ∧ (b0 = 224 → lo = 160) ∧ (b0 = 237 → hi = 159) ∨
                n = 4%nat ∧ 240 <= b0 <= 244 ∧ 128 <= lo ∧ hi <= 191 ∧ (b0 = 240 → lo = 144) ∧ (b0 = 244 → hi = 143)).
  { revert E. unfold second_range. byte_cases; intros [= <- <- <-]; lia. }
  unfold is_byte.
  destruct Hlo as [(-> & H)|[(-> & H)|(-> & H)]];
    destruct rest as [|b1 rest]; try (by injection Hd as <- <-);
    try (destruct rest as [|b2 rest]; try (by injection Hd as <- <-));
    try (destruct rest as [|b3 rest]; try (by injection Hd as <- <-));
    match type of Hd with context [if ?c then _ else _] => destruct c eqn:Hc end;
    try (by injection Hd as <- <-);
    unfold between in Hc; rewrite ?andb_true_iff, ?Z.leb_le in Hc; injection Hd as <- <-; cbn [take];
    (split; [first [apply rune_2_bytes|apply rune_3_bytes|apply rune_4_bytes]; lia|repeat constructor; lia]).
Qed.

Definition text (p : list Z) : Prop := utf8 p ∧ Forall is_byte p.

Lemma text_rune c s : rune c → Forall is_byte c → text s → text (c ++ s).
Proof. intros Hc Hb [Hs Hs']. split; [by apply utf8_rune|by apply Forall_app]. Qed.

Lemma text_encode r s : text s → text (EncodeRune r ++ s).
Proof. destruct (EncodeRune_rune r). by apply text_rune. Qed.

Lemma text_ascii b s : 0 <= b < 128 → text s → text ([b] ++ s).
Proof. intros Hb. apply text_rune; [apply ascii_rune; lia|]. apply Forall_singleton. unfold is_byte. lia. Qed.

Lemma unescape_text p c rest s : unescape p = Some (c, rest) → text s → text (c ++ s).
Proof.
  destruct p as [|b p]; [done|]. unfold unescape, unescape_u.
  destruct (_ || _ || _) eqn:Eb.
  { rewrite !orb_true_iff, !Z.eqb_eq in Eb. intros [= <- <-]. apply text_ascii. lia. }
  do 5 (case_match; [by intros [= <- <-]; apply text_ascii|]). case_match; [|done].
  destruct (getu4 p) as [[r p']|]; [|done]. cbn [mbind option_bind]. intros He Hs.
  assert (Henc : ∀ r, text (EncodeRune r ++ s)) by (intros; by apply text_encode).
  revert He Henc. generalize EncodeRune. intros enc He Henc. 
  repeat (case_match; simplify_option_eq); apply Henc.
Qed.

Lemma decode_chars_text fuel p s rest : decode_chars fuel p = Some (s, rest) → text s.
Proof.
  revert p s. induction fuel as [|fuel IH]; intros p s; [done|]. destruct p as [|b p]; [done|]. cbn [decode_chars].
  destruct (b =? 34); [by intros [= <- <-]; split; constructor|]. destruct (b =? 92).
  { destruct (unescape p) as [[c p']|] eqn:Eu; [|done]. cbn [mbind option_bind].
    destruct (decode_chars fuel p') as [[s' p'']|] eqn:E; [|done]. intros [= <- <-].
    eapply unescape_text; [exact Eu|by eapply IH]. }
  destruct (Z.ltb_spec b 32); [done|]. destruct (Z.ltb_spec b 128).
  { destruct (decode_chars fuel p) as [[s' p']|] eqn:E; [|done]. intros [= <- <-].
    apply text_ascii; [lia|by eapply IH]. }
  destruct (DecodeRune (b :: p)) as [r size] eqn:Ed.
  destruct (decode_chars fuel (drop size (b :: p))) as [[s' p']|] eqn:E; [|done]. intros [= <- <-].
  destruct (_ && _) eqn:Eok; [by eapply text_encode, IH|].
  destruct (DecodeRune_rune _ _ _ Ed) as [Hr Hb]; [done|done|]. apply text_rune; [done|done|by eapply IH].
Qed.

(** Every unquoted string is valid UTF-8. *)
Lemma unquote_valid raw : ValidString (unquote raw) = true.
Proof.
  unfold unquote. destruct (decode_chars _ _) as [[p rest]|] eqn:E; [|done].
  apply decode_chars_text in E as [Hu Hb]. by apply utf8_ValidString.
Qed.
