(* ===== verification/Sha256.v ===== *)
(** * SHA-256, as [crypto/sha256] computes it

    FIPS 180-4 on 32-bit words kept as [Z] in [0, 2^32). The round constants
    and the initial state are computed from their definition: the first 32
    bits of the fractional parts of the cube (square) roots of the first
    primes. *)

From S2P Require Import Prelude GoBase.
Open Scope Z_scope.

Module Sha256.

Definition w32 (z : Z) : Z := z mod 2 ^ 32.
Definition rotr (n x : Z) : Z := Z.lor (Z.shiftr x n) (w32 (Z.shiftl x (32 - n))).
Definition shr (n x : Z) : Z := Z.shiftr x n.
Definition not32 (x : Z) : Z := Z.lxor x (2 ^ 32 - 1).

Definition Ch (x y z : Z) : Z := Z.lxor (Z.land x y) (Z.land (not32 x) z).
Definition Maj (x y z : Z) : Z := Z.lxor (Z.lxor (Z.land x y) (Z.land x z)) (Z.land y z).
Definition Sigma0 (x : Z) : Z := Z.lxor (Z.lxor (rotr 2 x) (rotr 13 x)) (rotr 22 x).
Definition Sigma1 (x : Z) : Z := Z.lxor (Z.lxor (rotr 6 x) (rotr 11 x)) (rotr 25 x).
Definition sigma0 (x : Z) : Z := Z.lxor (Z.lxor (rotr 7 x) (rotr 18 x)) (shr 3 x).
Definition sigma1 (x : Z) : Z := Z.lxor (Z.lxor (rotr 17 x) (rotr 19 x)) (shr 10 x).

(** ** Constants *)

Definition is_prime (p : Z) : bool :=
  (2 <=? p) && forallb (λ d, negb (p mod d =? 0)) (seqZ 2 (Z.sqrt p - 1)).
Definition primes (n : nat) : list Z := take n (filter (λ p, is_prime p = true) (seqZ 2 400)).

(** The largest [r] below [2^bits] with [r^3 <= x], bit by bit. *)
Fixpoint cbrt_bits (bits : nat) (r x : Z) : Z :=
  match bits with
  | O => r
  | S n => let r' := r + 2 ^ Z.of_nat n in
           cbrt_bits n (if r' * r' * r' <=? x then r' else r) x
  end.

Definition K : list Z := Eval vm_compute in
  map (λ p, w32 (cbrt_bits 40 0 (Z.shiftl p 96))) (primes 64).
Definition H0 : list Z := Eval vm_compute in
  map (λ p, w32 (Z.sqrt (Z.shiftl p 64))) (primes 8).

(** ** Padding: a one bit, zeros, the length in bits on 64 bits *)

Definition pad (m : list Z) : list Z :=
  let n := Z.of_nat (length m) in
  m ++ [128] ++ replicate (Z.to_nat ((55 - n) mod 64)) 0 ++ big_endian 8 (8 * n).

(** Cut a list into [n] blocks of [k] elements. *)
Fixpoint chunks {A} (k n : nat) (l : list A) : list (list A) :=
  match n with
  | O => []
  | S n => take k l :: chunks k n (drop k l)
  end.

Definition words (block : list Z) : list Z := map be_value (chunks 4 16 block).

(** ** The message schedule, newest word first *)

Fixpoint extend (n : nat) (w : list Z) : list Z :=
  match n with
  | O => w
  | S n =>
      let at_ i := nth i w 0 in
      extend n (w32 (sigma1 (at_ 1%nat) + at_ 6%nat + sigma0 (at_ 14%nat) + at_ 15%nat) :: w)
  end.
Definition schedule (block : list Z) : list Z := rev (extend 48 (rev (words block))).

(** ** Compression *)

Definition round (st : list Z) (kw : Z * Z) : list Z :=
  match st with
  | [a; b; c; d; e; f; g; h] =>
      let t1 := h + Sigma1 e + Ch e f g + kw.1 + kw.2 in
      let t2 := Sigma0 a + Maj a b c in
      [w32 (t1 + t2); a; b; c; w32 (d + t1); e; f; g]
  | _ => st
  end.
Definition compress (st : list Z) (block : list Z) : list Z :=
  zip_with (λ x y, w32 (x + y)) st (foldl round st (zip K (schedule block))).

(** [sha256.Sum256]: 32 bytes. *)
Definition Sum256 (m : list Z) : list Z :=
  let p := pad m in
  concat (map (big_endian 4) (foldl compress H0 (chunks 64 (length p / 64) p))).

(** The digest of a string, as lower-case hexadecimal text. *)
Definition hex_sum (s : string) : string := hex_encode (Sum256 (bytes_of_string s)).

Lemma Sum256_is_byte m : Forall is_byte (Sum256 m).
Proof.
  unfold Sum256. apply Forall_concat, Forall_map, Forall_true.
  intros w. apply big_endian_is_byte.
Qed.

Lemma round_length st kw : length (round st kw) = length st.
Proof. unfold round. by repeat case_match. Qed.

Lemma compress_length st block : length (compress st block) = length st.
Proof.
  unfold compress. rewrite length_zip_with.
  assert (Hl : ∀ l st', length (foldl round st' l) = length st').
  { induction l as [|kw l IH]; intros st'; [done|]. cbn [foldl]. by rewrite IH, round_length. }
  rewrite Hl. apply Nat.min_id.
Qed.

Lemma Sum256_length m : length (Sum256 m) = 32%nat.
Proof.
  unfold Sum256. cbv zeta. generalize (chunks 64 (length (pad m) / 64) (pad m)). intros bs.
  assert (Hst : length (foldl compress H0 bs) = 8%nat).
  { change 8%nat with (length H0). generalize H0. induction bs as [|b bs IH]; intros st; [done|].
    cbn [foldl]. by rewrite IH, compress_length. }
  revert Hst. generalize (foldl compress H0 bs). intros st Hst.
  assert (Hc : ∀ l : list Z, length (concat (map (big_endian 4) l)) = (4 * length l)%nat).
  { induction l as [|x l IH]; [done|]. cbn [map concat]. rewrite length_app, IH. cbn. lia. }
  rewrite Hc, Hst. done.
Qed.

(** The hexadecimal text of a digest determines the digest. *)
Lemma hex_sum_inj s t : hex_sum s = hex_sum t →
  Sum256 (bytes_of_string s) = Sum256 (bytes_of_string t).
Proof. apply hex_encode_inj; apply Sum256_is_byte. Qed.

(** The standard's test vectors. *)
Example sum_empty :
  hex_sum "" = "e3b0c44298fc1c149afbf4c8996fb92427ae41e4649b934ca495991b7852b855".
Proof. vm_compute. reflexivity. Qed.

Example sum_abc :
  hex_sum "abc" = "ba7816bf8f01cfea414140de5dae2223b00361a396177a9cb410ff61f20015ad".
Proof. vm_compute. reflexivity. Qed.

Example sum_two_blocks :
  hex_sum "abcdbcdecdefdefgefghfghighijhijkijkljklmklmnlmnomnopnopq" =
  "248d6a61d20638b8e5c026930c3e6039a33ce45964ff2167f6ecedd419db06c1".
Proof. vm_compute. reflexivity. Qed.

End Sha256.
