(* ===== verification/Contracts.v ===== *)
(** * shared/contracts: wire types, record types, states and error values

    A Go type declared as [type T string] is a [string] here with the source's
    constants, so values outside the constants exist in the model as they do
    in the code. *)

From S2P Require Import Prelude GoBase.
Open Scope Z_scope.
Open Scope go_scope.

(** ** commands.go *)

Abbreviation CommandType := string (only parsing).
Definition CmdModifyRouting : CommandType := "MODIFY_ROUTING".
Definition CmdUpdateCert : CommandType := "UPDATE_CERTIFICATE".
Definition CmdDeletePolicy : CommandType := "DELETE_POLICY".
Definition RootCoreEdgeID : string := "ROOT_CORE_EDGE".
Definition FailingNodeID : string := "FAILING_NODE".
Definition LostResponseNodeID : string := "LOST_RESPONSE_NODE".
Definition UnreachableNodeID : string := "UNREACHABLE_NODE".
Definition PartitionedNodeID : string := "PARTITIONED_NODE".

(** ** proposal.go *)

Record AgentProposal : Set := {
  p_ID : string; p_Type : CommandType; p_TargetID : string; p_Payload : string }.
#[export] Instance AgentProposal_eq_dec : EqDecision AgentProposal.
Proof. solve_decision. Defined.

(** ** decision.go *)

Abbreviation Verdict := string (only parsing).
Definition VerdictAllow : Verdict := "ALLOW".
Definition VerdictDeny : Verdict := "DENY".
Definition VerdictRequireApproval : Verdict := "REQUIRE_APPROVAL".

Abbreviation ReasonCode := string (only parsing).
Definition ReasonAgentUnknown : ReasonCode := "AGENT_UNKNOWN".
Definition ReasonCommandUnknown : ReasonCode := "COMMAND_UNKNOWN".
Definition ReasonCommandNotPermitted : ReasonCode := "COMMAND_NOT_PERMITTED_FOR_AGENT".
Definition ReasonTargetUnregistered : ReasonCode := "TARGET_UNREGISTERED".
Definition ReasonTargetProtected : ReasonCode := "TARGET_PROTECTED".
Definition ReasonEnvironmentDenied : ReasonCode := "ENVIRONMENT_DENIED".
Definition ReasonApprovalRequired : ReasonCode := "APPROVAL_REQUIRED".
Definition ReasonEnvironmentAllowed : ReasonCode := "ENVIRONMENT_ALLOWED".
Definition ReasonPolicyUnavailable : ReasonCode := "POLICY_UNAVAILABLE".
Definition ReasonRequestHashMismatch : ReasonCode := "REQUEST_HASH_MISMATCH".
Definition ReasonIngressDecisionNotFound : ReasonCode := "INGRESS_DECISION_NOT_FOUND".
Definition ReasonIngressDecisionWrongStage : ReasonCode := "INGRESS_DECISION_WRONG_STAGE".
Definition ReasonIngressDecisionNotAllow : ReasonCode := "INGRESS_DECISION_NOT_ALLOW".
Definition ReasonIngressAgentMismatch : ReasonCode := "INGRESS_DECISION_AGENT_MISMATCH".
Definition ReasonIngressHashMismatch : ReasonCode := "INGRESS_DECISION_HASH_MISMATCH".
Definition ReasonIngressIdentityMismatch : ReasonCode := "INGRESS_DECISION_IDENTITY_MISMATCH".
Definition ReasonIngressDecisionAlreadyClaimed : ReasonCode := "INGRESS_DECISION_ALREADY_CLAIMED".

Abbreviation DecisionStage := string (only parsing).
Definition StageIngress : DecisionStage := "INGRESS".
Definition StageWorkflowRevalidation : DecisionStage := "WORKFLOW_REVALIDATION".

Record Decision : Set := {
  d_Verdict : Verdict; d_Reasons : list ReasonCode; d_Environment : string;
  d_PolicyVersion : string; d_PolicyDigest : string }.
#[export] Instance Decision_eq_dec : EqDecision Decision.
Proof. solve_decision. Defined.

Record DecisionRecord : Set := {
  dr_DecisionID : string; dr_Stage : DecisionStage; dr_ProposalID : string;
  dr_AgentID : string; dr_RequestHash : string; dr_Command : CommandType;
  dr_TargetID : string; dr_Environment : string; dr_Verdict : Verdict;
  dr_Reasons : list ReasonCode; dr_PolicyVersion : string; dr_PolicyDigest : string;
  dr_WorkflowID : string; dr_TraceID : string; dr_RecordedAt : Time }.
#[export] Instance DecisionRecord_eq_dec : EqDecision DecisionRecord.
Proof. solve_decision. Defined.

Record ExecutionRequest : Set := {
  er_AgentID : string; er_Proposal : AgentProposal;
  er_IngressDecisionID : string; er_RequestHash : string }.
#[export] Instance ExecutionRequest_eq_dec : EqDecision ExecutionRequest.
Proof. solve_decision. Defined.

Definition RevalidationDeniedErrorType : string := "REVALIDATION_DENIED".
Definition IngressDecisionInvalidErrorType : string := "INGRESS_DECISION_INVALID".

Record IngressVerification : Set := {
  iv_Valid : bool; iv_Reason : ReasonCode; iv_Detail : string }.

(** ** claim.go *)

Abbreviation ClaimState := string (only parsing).
Definition ClaimStateClaimed : ClaimState := "CLAIMED".
Definition ClaimStateExecuting : ClaimState := "EXECUTING".
Definition ClaimStateReconciliationRequired : ClaimState := "RECONCILIATION_REQUIRED".
Definition ClaimStateCompleted : ClaimState := "COMPLETED".
Definition ClaimStateFailed : ClaimState := "FAILED".
Definition ClaimStateReleased : ClaimState := "RELEASED".

Record ClaimOwner : Set := { o_WorkflowID : string; o_RunID : string; o_Token : string }.
#[export] Instance ClaimOwner_eq_dec : EqDecision ClaimOwner.
Proof. solve_decision. Defined.

Definition ClaimOwner_Valid (o : ClaimOwner) : bool :=
  (o_WorkflowID o != "") && (o_RunID o != "") && (o_Token o != "").

Record ExecutionClaim : Set := {
  ec_DecisionID : string; ec_Owner : ClaimOwner; ec_State : ClaimState;
  ec_ClaimedAt : Time; ec_UpdatedAt : Time }.
#[export] Instance ExecutionClaim_eq_dec : EqDecision ExecutionClaim.
Proof. solve_decision. Defined.

Record ClaimRequest : Set := { cr_DecisionID : string; cr_Token : string }.
Record ClaimResult : Set := { cl_Claimed : bool; cl_Reason : ReasonCode; cl_Detail : string }.
Record ClaimTransition : Set := { ct_DecisionID : string; ct_Token : string; ct_To : ClaimState }.
#[export] Instance ClaimRequest_eq_dec : EqDecision ClaimRequest.
Proof. solve_decision. Defined.
#[export] Instance ClaimTransition_eq_dec : EqDecision ClaimTransition.
Proof. solve_decision. Defined.

Definition ExecutionClaimRejectedErrorType : string := "EXECUTION_CLAIM_REJECTED".
Definition ExecutionFenceRejectedErrorType : string := "EXECUTION_FENCE_REJECTED".
Definition ExecutionFenceUnknownErrorType : string := "EXECUTION_FENCE_UNKNOWN".

(** ** outcome.go *)

Abbreviation OutcomeStatus := string (only parsing).
Definition OutcomeSuccess : OutcomeStatus := "SUCCESS".
Definition OutcomeFailure : OutcomeStatus := "FAILURE".
Definition OutcomeUnknown : OutcomeStatus := "UNKNOWN".

Record DispatchOutcome : Set := {
  oc_Status : OutcomeStatus; oc_PartiallyApplied : bool; oc_Detail : string }.
#[export] Instance DispatchOutcome_eq_dec : EqDecision DispatchOutcome.
Proof. solve_decision. Defined.

(** The zero value of the struct. *)
Definition zeroOutcome : DispatchOutcome :=
  {| oc_Status := ""; oc_PartiallyApplied := false; oc_Detail := "" |}.

Definition UnknownOutcome (detail : string) : DispatchOutcome :=
  {| oc_Status := OutcomeUnknown; oc_PartiallyApplied := false; oc_Detail := detail |}.

Definition Checked (o : DispatchOutcome) : DispatchOutcome :=
  if (oc_Status o == OutcomeSuccess) || (oc_Status o == OutcomeUnknown) then
    {| oc_Status := oc_Status o; oc_PartiallyApplied := false; oc_Detail := oc_Detail o |}
  else if oc_Status o == OutcomeFailure then o
  else UnknownOutcome ("adapter reported unrecognised status " +:+ oc_Status o +:+ ": " +:+ oc_Detail o).

Record DispatchRequest : Set := { dq_IdempotencyKey : string; dq_Proposal : AgentProposal }.
Record FencedDispatch : Set := { fd_DecisionID : string; fd_Token : string; fd_Dispatch : DispatchRequest }.
#[export] Instance DispatchRequest_eq_dec : EqDecision DispatchRequest.
Proof. solve_decision. Defined.
#[export] Instance FencedDispatch_eq_dec : EqDecision FencedDispatch.
Proof. solve_decision. Defined.

Definition DispatchFailedErrorType : string := "DISPATCH_FAILED".
Definition DispatchOutcomeUnknownErrorType : string := "DISPATCH_OUTCOME_UNKNOWN".

(** ** audit.go *)

Abbreviation AuditPhase := string (only parsing).
Definition AuditPhaseRevalidation : AuditPhase := "WORKFLOW_REVALIDATION".
Definition AuditPhaseExecutionFence : AuditPhase := "EXECUTION_FENCE".
Definition AuditPhaseDispatch : AuditPhase := "DISPATCH_CONFIG".
Definition AuditPhaseReconciliation : AuditPhase := "DISPATCH_RECONCILIATION".
Definition AuditPhaseCompensation : AuditPhase := "COMPENSATION_ROLLBACK".
Definition AuditPhaseWorkflowComplete : AuditPhase := "WORKFLOW_COMPLETE".
Definition AuditPhaseWorkflowFailed : AuditPhase := "WORKFLOW_FAILED".

Abbreviation AuditVerdict := string (only parsing).
Definition AuditVerdictPass : AuditVerdict := "PASS".
Definition AuditVerdictFail : AuditVerdict := "FAIL".
Definition AuditVerdictUnknown : AuditVerdict := "UNKNOWN".

Record AuditRecord : Set := {
  ar_RecordID : string; ar_ProposalID : string; ar_WorkflowID : string;
  ar_RunID : string; ar_Phase : AuditPhase; ar_Verdict : AuditVerdict;
  ar_TargetID : string; ar_Command : CommandType; ar_Detail : string;
  ar_RecordedAt : Time }.
#[export] Instance AuditRecord_eq_dec : EqDecision AuditRecord.
Proof. solve_decision. Defined.

(** ** Errors

    The package-level values declared with [errors.New], in the packages that
    declare them, with the two of [context] and database/sql's [ErrNoRows]. *)

Inductive sentinel : Set :=
| ErrInvalidDecisionRecord | ErrDecisionConflict | ErrDecisionNotFound
| ErrClaimHeld | ErrClaimNotHeld | ErrClaimNotFound
| NonRetryableInfraError | ErrRootCoreMutation | ErrAuthHandshakeFailed | ErrAuditPersistFailed
| ErrIngressDecisionNotFound | ErrIngressWrongStage | ErrIngressNotAllowed
| ErrIngressAgentMismatch | ErrIngressHashMismatch | ErrIngressIdentityMismatch
| Canceled | DeadlineExceeded | ErrNoRows.
#[export] Instance sentinel_eq_dec : EqDecision sentinel.
Proof. solve_decision. Defined.

Definition sentinel_text (s : sentinel) : string :=
  match s with
  | ErrInvalidDecisionRecord => "decision record is missing required fields"
  | ErrDecisionConflict => "decision record conflicts with an existing record"
  | ErrDecisionNotFound => "decision record not found"
  | ErrClaimHeld => "ingress decision is already claimed by another execution"
  | ErrClaimNotHeld => "execution does not hold the claim in a state that permits this transition"
  | ErrClaimNotFound => "execution claim not found"
  | NonRetryableInfraError => "NON_RETRYABLE_INFRASTRUCTURE_FAULT"
  | ErrRootCoreMutation => "critical compliance breach: autonomous mutation targeting ROOT_CORE_EDGE is blocked"
  | ErrAuthHandshakeFailed => "downstream authentication handshake failed"
  | ErrAuditPersistFailed => "audit trail persistence failed"
  | ErrIngressDecisionNotFound => "ingress decision not found"
  | ErrIngressWrongStage => "ingress decision has wrong stage"
  | ErrIngressNotAllowed => "ingress decision verdict is not ALLOW"
  | ErrIngressAgentMismatch => "ingress decision agent does not match execution agent"
  | ErrIngressHashMismatch => "ingress decision request hash does not match proposal"
  | ErrIngressIdentityMismatch => "ingress decision identity does not match execution"
  | Canceled => "context canceled"
  | DeadlineExceeded => "context deadline exceeded"
  | ErrNoRows => "sql: no rows in result set"
  end.

(** Formatted text: literal pieces and arguments of [%q], kept apart because
    [%q] (strconv.Quote) depends on Unicode tables; [q] below stands for it. *)
Inductive frag : Set := Lit (s : string) | Quo (s : string).
#[export] Instance frag_eq_dec : EqDecision frag.
Proof. solve_decision. Defined.
Definition ftext : Set := list frag.
Definition lit (s : string) : ftext := [Lit s].
Coercion lit : string >-> ftext.

Definition render (q : string → string) (l : ftext) : string :=
  foldr (λ f acc, match f with Lit s => s | Quo s => q s end +:+ acc) "" l.

(** [Text]: [errors.New] or [fmt.Errorf] without [%w]; [Wrap]: [fmt.Errorf]
    with one [%w] between two pieces of text. *)
Inductive error : Set :=
| Sentinel (s : sentinel)
| Text (msg : ftext)
| Wrap (pre : ftext) (cause : error) (post : ftext).
#[export] Instance error_eq_dec : EqDecision error.
Proof. solve_decision. Defined.

Fixpoint errors_Is (e : error) (s : sentinel) : bool :=
  match e with
  | Sentinel s' => s' == s
  | Text _ => false
  | Wrap _ c _ => errors_Is c s
  end.

Fixpoint error_text (q : string → string) (e : error) : string :=
  match e with
  | Sentinel s => sentinel_text s
  | Text m => render q m
  | Wrap pre c post => render q pre +:+ error_text q c +:+ render q post
  end.

(** A context is live or has ended; [ctx.Err()] is then one of two values. *)
Inductive context : Set := CtxLive | CtxCanceled | CtxDeadlineExceeded.
Definition ctx_Err (ctx : context) : option error :=
  match ctx with
  | CtxLive => None
  | CtxCanceled => Some (Sentinel Canceled)
  | CtxDeadlineExceeded => Some (Sentinel DeadlineExceeded)
  end.

(** ** Methods of decision.go *)

Definition DecisionRecord_Validate (r : DecisionRecord) : option error :=
  if (dr_DecisionID r == "") || (dr_Stage r == "") || (dr_ProposalID r == "") ||
     (dr_Verdict r == "") || (dr_RequestHash r == "") || IsZero (dr_RecordedAt r)
  then Some (Sentinel ErrInvalidDecisionRecord)
  else None.

Definition DecisionRecord_Equal (r o : DecisionRecord) : bool :=
  (dr_DecisionID r == dr_DecisionID o) &&
  (dr_Stage r == dr_Stage o) &&
  (dr_ProposalID r == dr_ProposalID o) &&
  (dr_AgentID r == dr_AgentID o) &&
  (dr_RequestHash r == dr_RequestHash o) &&
  (dr_Command r == dr_Command o) &&
  (dr_TargetID r == dr_TargetID o) &&
  (dr_Environment r == dr_Environment o) &&
  (dr_Verdict r == dr_Verdict o) &&
  (dr_Reasons r == dr_Reasons o) &&
  (dr_PolicyVersion r == dr_PolicyVersion o) &&
  (dr_PolicyDigest r == dr_PolicyDigest o) &&
  (dr_WorkflowID r == dr_WorkflowID o) &&
  (dr_TraceID r == dr_TraceID o) &&
  (dr_RecordedAt r == dr_RecordedAt o).

(** ** Theorems *)

(** [Equal] is equality of content. *)
Lemma DecisionRecord_Equal_spec r o : DecisionRecord_Equal r o = true ↔ r = o.
Proof.
  unfold DecisionRecord_Equal. rewrite !andb_true_iff, !bool_decide_eq_true.
  destruct r, o; simpl. split; [|by intros [=]; subst].
  intros H. destruct_and! H. by subst.
Qed.

Lemma DecisionRecord_Equal_refl r : DecisionRecord_Equal r r = true.
Proof. by apply DecisionRecord_Equal_spec. Qed.

(** [Checked] only lets the three known statuses through, and never turns an
    unrecognised one into a confirmed outcome. *)
Lemma Checked_status o :
  oc_Status (Checked o) ∈ [OutcomeSuccess; OutcomeFailure; OutcomeUnknown].
Proof. unfold Checked. repeat case_bool_decide; simpl; set_solver. Qed.

Lemma Checked_confirmed o :
  oc_Status (Checked o) ≠ OutcomeUnknown → oc_Status (Checked o) = oc_Status o.
Proof. unfold Checked. repeat case_bool_decide; simpl; congruence. Qed.

Lemma Checked_partially o :
  oc_PartiallyApplied (Checked o) = true → oc_Status o = OutcomeFailure ∧ oc_PartiallyApplied o = true.
Proof. unfold Checked. repeat case_bool_decide; simpl; try done; auto. Qed.

Lemma Checked_idemp o : Checked (Checked o) = Checked o.
Proof.
  unfold Checked. repeat (case_bool_decide; simpl; try congruence); done.
Qed.

#[export] Hint Resolve DecisionRecord_Equal_refl : sentry.
