(* ===== verification/Policy.v ===== *)
(** * internal/policy/schema.go: policy documents and validated snapshots *)

From stdpp Require Import sorting.
From S2P Require Import Prelude GoBase Sha256 Contracts.
Open Scope Z_scope.
Open Scope go_scope.

Abbreviation EnvironmentMode := string (only parsing).
Definition ModeAllow : EnvironmentMode := "allow".
Definition ModeRequireApproval : EnvironmentMode := "require_approval".
Definition ModeDeny : EnvironmentMode := "deny".

Definition maxParallelTasksLimit : Z := 10000.

(** [^[A-Za-z0-9._:-]{1,64}$] and its siblings. *)
Definition alnum (a : Ascii.ascii) : bool := upper a || lower a || digit a.
Definition versionPattern : pattern := uniform (λ a, alnum a || one_of "._:-" a) 1 64.
Definition environmentPattern : pattern :=
  {| first_class := lower; rest_class := λ a, lower a || digit a || one_of "_-" a;
     min_len := 1; max_len := 32 |}.
Definition commandPattern : pattern :=
  {| first_class := upper; rest_class := λ a, upper a || digit a || one_of "_" a;
     min_len := 1; max_len := 64 |}.
Definition agentIDPattern : pattern := uniform (λ a, alnum a || one_of "._-" a) 1 64.
Definition targetIDPattern : pattern := uniform (λ a, alnum a || one_of "._:-" a) 1 128.

(** ** The decoded document *)

Record agentDocument := { ad_ID : string; ad_Commands : list string }.
Record targetDocument := { td_ID : string; td_Environment : string; td_Protected : option bool }.
Record document := {
  doc_Version : string; doc_MaxParallelTasks : Z;
  doc_Environments : gmap string string; doc_Commands : list string;
  doc_Agents : list agentDocument; doc_Targets : list targetDocument }.

(** ** The snapshot *)

Record Target := { t_ID : string; t_Environment : string; t_Protected : bool }.

Record Snapshot := {
  s_version : string; s_digest : string; s_maxParallelTasks : Z;
  s_environments : gmap string EnvironmentMode; s_commands : gset CommandType;
  s_agents : gmap string (gset CommandType); s_targets : gmap string Target }.

Definition HasCommand (s : Snapshot) (c : CommandType) : bool := bool_decide (c ∈ s_commands s).
Definition HasAgent (s : Snapshot) (agentID : string) : bool :=
  bool_decide (is_Some (s_agents s !! agentID)).
Definition AgentMayUse (s : Snapshot) (agentID : string) (c : CommandType) : bool :=
  match s_agents s !! agentID with
  | None => false
  | Some cmds => bool_decide (c ∈ cmds)
  end.
Definition Snapshot_Target (s : Snapshot) (id : string) : option Target := s_targets s !! id.
(** The mode of an undeclared environment is the zero value, [""]. *)
Definition Snapshot_EnvironmentMode (s : Snapshot) (name : string) : EnvironmentMode * bool :=
  match s_environments s !! name with
  | Some m => (m, true)
  | None => ("", false)
  end.

(** The agents of the policy in byte order; the map has each of them once. *)
Definition Snapshot_AgentIDs (s : Snapshot) : list string := merge_sort text_le (map_to_list (s_agents s)).*1.

Lemma Snapshot_AgentIDs_spec s :
  StronglySorted text_le (Snapshot_AgentIDs s) ∧ NoDup (Snapshot_AgentIDs s) ∧
  ∀ id, id ∈ Snapshot_AgentIDs s ↔ HasAgent s id = true.
Proof.
  unfold Snapshot_AgentIDs. split; [apply (StronglySorted_merge_sort _)|]. split.
  - rewrite (merge_sort_Permutation _ _). apply NoDup_fst_map_to_list.
  - intros id. rewrite (merge_sort_Permutation _ _). unfold HasAgent. rewrite bool_decide_eq_true.
    rewrite list_elem_of_fmap. split.
    + intros ([k x] & -> & Hin%elem_of_map_to_list). by exists x.
    + intros [x Hx]. exists (id, x). by rewrite elem_of_map_to_list.
Qed.

(** ** Errors of [build] and [Parse], one constructor per message *)

Inductive policy_error : Set :=
| DocumentEmpty | DecodeFailed (err : string) | NotOneDocument
| VersionRequired | VersionInvalid (v : string) | MaxParallelTasksRange
| NoEnvironments | EnvironmentNameInvalid (name : string) | EnvironmentModeInvalid (name mode : string)
| NoCommands | CommandInvalid (c : string) | CommandDuplicate (c : string)
| NoAgents | AgentIDInvalid (i : nat) (id : string) | AgentDuplicate (id : string)
| AgentNoCommands (id : string) | AgentCommandUnknown (id c : string) | AgentCommandDuplicate (id c : string)
| NoTargets | TargetIDInvalid (i : nat) (id : string) | TargetDuplicate (id : string)
| TargetEnvironmentUndeclared (id env : string) | TargetProtectedMissing (id : string)
| ReadFailed (err : string).

(** [Error()]; [q] is [fmt]'s [%q]. *)
Definition policy_error_text (q : string → string) (e : policy_error) : string :=
  match e with
  | DocumentEmpty => "policy: document is empty"
  | DecodeFailed err => "policy: decode: " +:+ err
  | NotOneDocument => "policy: file must contain exactly one YAML document"
  | VersionRequired => "policy: version is required"
  | VersionInvalid v => "policy: version " +:+ q v +:+ " is invalid"
  | MaxParallelTasksRange => "policy: max_parallel_tasks must be between 1 and 10000"
  | NoEnvironments => "policy: environments must declare at least one environment"
  | EnvironmentNameInvalid n => "policy: environment name " +:+ q n +:+ " is invalid"
  | EnvironmentModeInvalid n m => "policy: environment " +:+ q n +:+ ": mode " +:+ q m +:+ " must be allow, require_approval or deny"
  | NoCommands => "policy: commands must declare at least one command"
  | CommandInvalid c => "policy: command " +:+ q c +:+ " is invalid"
  | CommandDuplicate c => "policy: command " +:+ q c +:+ " is declared more than once"
  | NoAgents => "policy: agents must declare at least one agent"
  | AgentIDInvalid i id => "policy: agents[" +:+ pretty i +:+ "]: id " +:+ q id +:+ " is invalid"
  | AgentDuplicate id => "policy: agent " +:+ q id +:+ " is declared more than once"
  | AgentNoCommands id => "policy: agent " +:+ q id +:+ ": commands must not be empty"
  | AgentCommandUnknown id c => "policy: agent " +:+ q id +:+ ": command " +:+ q c +:+ " is not in the command catalogue"
  | AgentCommandDuplicate id c => "policy: agent " +:+ q id +:+ ": command " +:+ q c +:+ " is listed more than once"
  | NoTargets => "policy: targets must declare at least one target"
  | TargetIDInvalid i id => "policy: targets[" +:+ pretty i +:+ "]: id " +:+ q id +:+ " is invalid"
  | TargetDuplicate id => "policy: target " +:+ q id +:+ " is declared more than once"
  | TargetEnvironmentUndeclared id env => "policy: target " +:+ q id +:+ ": environment " +:+ q env +:+ " is not declared"
  | TargetProtectedMissing id => "policy: target " +:+ q id +:+ ": protected must be set explicitly"
  | ReadFailed err => "policy: read: " +:+ err
  end.

(** ** build *)

Abbreviation res := (result policy_error).

(** The loop over [doc.Environments]. *)
Definition build_environment (envs : gmap string EnvironmentMode) (kv : string * string)
    : res (gmap string EnvironmentMode) :=
  let '(name, mode) := kv in
  if negb (MatchString environmentPattern name) then Err (EnvironmentNameInvalid name)
  else if (mode == ModeAllow) || (mode == ModeRequireApproval) || (mode == ModeDeny)
  then Ok (<[name := mode]> envs)
  else Err (EnvironmentModeInvalid name mode).

(** The loop over [doc.Commands]. *)
Definition build_command (cmds : gset CommandType) (c : string) : res (gset CommandType) :=
  if negb (MatchString commandPattern c) then Err (CommandInvalid c)
  else if bool_decide (c ∈ cmds) then Err (CommandDuplicate c)
  else Ok ({[c]} ∪ cmds).

(** The inner loop over one agent's commands. *)
Definition build_allowed (catalogue : gset CommandType) (id : string)
    (allowed : gset CommandType) (c : string) : res (gset CommandType) :=
  if negb (bool_decide (c ∈ catalogue)) then Err (AgentCommandUnknown id c)
  else if bool_decide (c ∈ allowed) then Err (AgentCommandDuplicate id c)
  else Ok ({[c]} ∪ allowed).

(** The loop over [doc.Agents]. *)
Definition build_agent (catalogue : gset CommandType)
    (agents : gmap string (gset CommandType)) (ia : nat * agentDocument)
    : res (gmap string (gset CommandType)) :=
  let '(i, a) := ia in
  if negb (MatchString agentIDPattern (ad_ID a)) then Err (AgentIDInvalid i (ad_ID a))
  else if bool_decide (is_Some (agents !! ad_ID a)) then Err (AgentDuplicate (ad_ID a))
  else match ad_Commands a with
       | [] => Err (AgentNoCommands (ad_ID a))
       | _ => allowed ← foldM (build_allowed catalogue (ad_ID a)) ∅ (ad_Commands a);
              Ok (<[ad_ID a := allowed]> agents)
       end.

(** The loop over [doc.Targets]. *)
Definition build_target (envs : gmap string EnvironmentMode)
    (targets : gmap string Target) (it : nat * targetDocument) : res (gmap string Target) :=
  let '(i, t) := it in
  if negb (MatchString targetIDPattern (td_ID t)) then Err (TargetIDInvalid i (td_ID t))
  else if bool_decide (is_Some (targets !! td_ID t)) then Err (TargetDuplicate (td_ID t))
  else if negb (bool_decide (is_Some (envs !! td_Environment t)))
  then Err (TargetEnvironmentUndeclared (td_ID t) (td_Environment t))
  else match td_Protected t with
       | None => Err (TargetProtectedMissing (td_ID t))
       | Some b => Ok (<[td_ID t := {| t_ID := td_ID t; t_Environment := td_Environment t;
                                       t_Protected := b |}]> targets)
       end.

(** [for i, x := range l] *)
Definition indexed {A} (l : list A) : list (nat * A) := zip (seq 0 (length l)) l.

(** [range] is the order in which Go's [for ... range doc.Environments] visits
    the map. The digest is set by [Parse]. *)
Definition build (range : list (string * string)) (doc : document) : res Snapshot :=
  _ ← fail_if (doc_Version doc == "") VersionRequired;
  _ ← fail_if (negb (MatchString versionPattern (doc_Version doc))) (VersionInvalid (doc_Version doc));
  _ ← fail_if ((doc_MaxParallelTasks doc <? 1) || (maxParallelTasksLimit <? doc_MaxParallelTasks doc))
        MaxParallelTasksRange;
  _ ← fail_if (Z.of_nat (size (doc_Environments doc)) =? 0) NoEnvironments;
  envs ← foldM build_environment ∅ range;
  _ ← fail_if (Z.of_nat (length (doc_Commands doc)) =? 0) NoCommands;
  cmds ← foldM build_command ∅ (doc_Commands doc);
  _ ← fail_if (Z.of_nat (length (doc_Agents doc)) =? 0) NoAgents;
  agents ← foldM (build_agent cmds) ∅ (indexed (doc_Agents doc));
  _ ← fail_if (Z.of_nat (length (doc_Targets doc)) =? 0) NoTargets;
  targets ← foldM (build_target envs) ∅ (indexed (doc_Targets doc));
  Ok {| s_version := doc_Version doc; s_digest := "";
        s_maxParallelTasks := doc_MaxParallelTasks doc;
        s_environments := envs; s_commands := cmds; s_agents := agents; s_targets := targets |}.

(** ** Parse *)

(** What the strict YAML decoder (gopkg.in/yaml.v3, [KnownFields(true)])
    answers to the two [Decode] calls on a byte sequence. *)
Inductive yaml_result :=
| YamlEOF
| YamlError (err : string)
| YamlDocument (doc : document) (only : bool).

Definition rawDigest (raw : string) : string := Sha256.hex_sum raw.

Definition with_digest (s : Snapshot) (digest : string) : Snapshot :=
  {| s_version := s_version s; s_digest := digest; s_maxParallelTasks := s_maxParallelTasks s;
     s_environments := s_environments s; s_commands := s_commands s;
     s_agents := s_agents s; s_targets := s_targets s |}.

Section Parse.
Variable yaml : string → yaml_result.
Variable range : gmap string string → list (string * string).

Definition Parse (raw : string) : res Snapshot :=
  match yaml raw with
  | YamlEOF => Err DocumentEmpty
  | YamlError err => Err (DecodeFailed err)
  | YamlDocument doc only =>
      if negb only then Err NotOneDocument
      else s ← build (range (doc_Environments doc)) doc; Ok (with_digest s (rawDigest raw))
  end.
End Parse.

(** ** Specification

    A document is acceptable when every field satisfies the schema; the
    snapshot then holds exactly what the document declares. *)

Definition valid_mode (m : string) : Prop := m = ModeAllow ∨ m = ModeRequireApproval ∨ m = ModeDeny.

Definition valid_agent (catalogue : list string) (a : agentDocument) : Prop :=
  MatchString agentIDPattern (ad_ID a) = true ∧ ad_Commands a ≠ [] ∧
  Forall (λ c, c ∈ catalogue) (ad_Commands a) ∧ NoDup (ad_Commands a).

Definition valid_target (envs : gmap string string) (t : targetDocument) : Prop :=
  MatchString targetIDPattern (td_ID t) = true ∧ is_Some (envs !! td_Environment t) ∧
  is_Some (td_Protected t).

Record valid_document (doc : document) : Prop := {
  vd_version : MatchString versionPattern (doc_Version doc) = true;
  vd_tasks : 1 <= doc_MaxParallelTasks doc <= 10000;
  vd_envs_nonempty : doc_Environments doc ≠ ∅;
  vd_envs : ∀ name mode, doc_Environments doc !! name = Some mode →
              MatchString environmentPattern name = true ∧ valid_mode mode;
  vd_cmds_nonempty : doc_Commands doc ≠ [];
  vd_cmds : Forall (λ c, MatchString commandPattern c = true) (doc_Commands doc);
  vd_cmds_nodup : NoDup (doc_Commands doc);
  vd_agents_nonempty : doc_Agents doc ≠ [];
  vd_agents : Forall (valid_agent (doc_Commands doc)) (doc_Agents doc);
  vd_agents_nodup : NoDup (ad_ID <$> doc_Agents doc);
  vd_targets_nonempty : doc_Targets doc ≠ [];
  vd_targets : Forall (valid_target (doc_Environments doc)) (doc_Targets doc);
  vd_targets_nodup : NoDup (td_ID <$> doc_Targets doc) }.

Definition target_of (t : targetDocument) : Target :=
  {| t_ID := td_ID t; t_Environment := td_Environment t;
     t_Protected := default false (td_Protected t) |}.

Definition snapshot_of (doc : document) : Snapshot :=
  {| s_version := doc_Version doc; s_digest := "";
     s_maxParallelTasks := doc_MaxParallelTasks doc;
     s_environments := doc_Environments doc;
     s_commands := list_to_set (doc_Commands doc);
     s_agents := list_to_map ((λ a, (ad_ID a, list_to_set (ad_Commands a))) <$> doc_Agents doc);
     s_targets := list_to_map ((λ t, (td_ID t, target_of t)) <$> doc_Targets doc) |}.

(** ** The loops of [build] against the specification *)

Lemma build_environment_Ok m kv m' : build_environment m kv = Ok m' ↔
  (MatchString environmentPattern kv.1 = true ∧ valid_mode kv.2) ∧ m' = <[kv.1 := kv.2]> m.
Proof.
  destruct kv as [name mode]. unfold build_environment, valid_mode. simpl.
  destruct (MatchString environmentPattern name); simpl; [|naive_solver].
  repeat case_bool_decide; simpl; naive_solver.
Qed.

Lemma build_environments_Ok (E : gmap string string) range envs :
  range ≡ₚ map_to_list E →
  foldM build_environment ∅ range = Ok envs ↔
  (∀ name mode, E !! name = Some mode →
     MatchString environmentPattern name = true ∧ valid_mode mode) ∧ envs = E.
Proof.
  intros Hp. assert (Hnd : NoDup range.*1) by (rewrite Hp; apply NoDup_fst_map_to_list).
  rewrite (foldM_check _ _ _ build_environment_Ok), foldl_insert_NoDup by done.
  rewrite (list_to_map_proper _ _ Hnd Hp), list_to_map_to_list.
  assert (Hin : ∀ kv, kv ∈ range ↔ E !! kv.1 = Some kv.2).
  { intros [k v]. rewrite Hp. apply elem_of_map_to_list. }
  split; intros [H ->]; (split; [|done]).
  - intros name mode Hm. apply (Hin (name, mode)), list_elem_of_split in Hm as (l1 & l2 & ->).
    by apply (H l1 (name, mode) l2).
  - intros l1 [k v] l2 ->. apply H, (Hin (k, v)). set_solver.
Qed.

Lemma build_command_Ok m c m' : build_command m c = Ok m' ↔
  (MatchString commandPattern c = true ∧ c ∉ m) ∧ m' = {[c]} ∪ m.
Proof.
  unfold build_command. destruct (MatchString commandPattern c); simpl; [|naive_solver].
  case_bool_decide; naive_solver.
Qed.

Lemma build_allowed_Ok cat id m c m' : build_allowed cat id m c = Ok m' ↔
  (c ∈ cat ∧ c ∉ m) ∧ m' = {[c]} ∪ m.
Proof. unfold build_allowed. repeat case_bool_decide; simpl; naive_solver. Qed.

Lemma build_agent_Ok (cat : list string) m ia m' :
  build_agent (list_to_set cat) m ia = Ok m' ↔
  (valid_agent cat ia.2 ∧ m !! ad_ID ia.2 = None) ∧
  m' = <[ad_ID ia.2 := list_to_set (ad_Commands ia.2)]> m.
Proof.
  destruct ia as [i a]. unfold build_agent, valid_agent. simpl.
  destruct (MatchString agentIDPattern (ad_ID a)); simpl; [|naive_solver].
  case_bool_decide as Hd.
  { destruct Hd as [x Hx]. rewrite Hx. naive_solver. }
  apply eq_None_not_Some in Hd.
  destruct (ad_Commands a) as [|c cs] eqn:Hc; [naive_solver|]. rewrite <- Hc.
  rewrite bind_Ok. setoid_rewrite (foldM_add _ _ (build_allowed_Ok (list_to_set cat) (ad_ID a))).
  assert (Hcat : Forall (λ c, c ∈ (list_to_set cat : gset string)) (ad_Commands a) ↔
                 Forall (λ c, c ∈ cat) (ad_Commands a)).
  { apply Forall_proper; [|done]. intros c'. apply elem_of_list_to_set. }
  setoid_rewrite Hcat. split.
  - intros (? & [[? ?] ->] & [= <-]). rewrite Hc in *. by repeat split.
  - intros [[(_ & _ & ? & ?) _] ->]. eauto 10.
Qed.

Lemma build_target_Ok (E : gmap string string) m it m' :
  build_target E m it = Ok m' ↔
  (valid_target E it.2 ∧ m !! td_ID it.2 = None) ∧ m' = <[td_ID it.2 := target_of it.2]> m.
Proof.
  destruct it as [i t]. unfold build_target, valid_target, target_of. simpl.
  destruct (MatchString targetIDPattern (td_ID t)); simpl; [|naive_solver].
  case_bool_decide as Hd.
  { destruct Hd as [x Hx]. rewrite Hx. naive_solver. }
  apply eq_None_not_Some in Hd.
  case_bool_decide; simpl; [|naive_solver].
  destruct (td_Protected t); simpl; [|].
  - split; [intros [= <-]; eauto 10|naive_solver].
  - split; [done|]. intros [[(_ & _ & [? [=]]) _] _].
Qed.

Lemma snd_indexed {A} (l : list A) : (indexed l).*2 = l.
Proof. unfold indexed. apply snd_zip. rewrite length_seq. lia. Qed.

Lemma Forall_indexed {A} (P : A → Prop) (l : list A) :
  Forall (λ ia, P ia.2) (indexed l) ↔ Forall P l.
Proof. rewrite <- (snd_indexed l) at 2. by rewrite Forall_fmap. Qed.

Lemma fmap_indexed {A B} (f : A → B) (l : list A) : ((λ ia, f ia.2) <$> indexed l) = f <$> l.
Proof. rewrite <- (snd_indexed l) at 2. by rewrite <- list_fmap_compose. Qed.

Lemma nonempty_length {A} (l : list A) : (Z.of_nat (length l) =? 0) = false ↔ l ≠ [].
Proof. rewrite Z.eqb_neq. destruct l; simpl; split; try done; lia. Qed.

Lemma nonempty_map_size (m : gmap string string) : (Z.of_nat (size m) =? 0) = false ↔ m ≠ ∅.
Proof.
  rewrite Z.eqb_neq. split.
  - intros H ->. apply H. by rewrite map_size_empty.
  - intros H Hs. apply H, map_size_empty_inv. lia.
Qed.

Lemma build_sound doc range s : range ≡ₚ map_to_list (doc_Environments doc) →
  build range doc = Ok s → valid_document doc ∧ s = snapshot_of doc.
Proof.
  intros Hp. unfold build.
  intros H. repeat (apply bind_Ok in H as (? & Hx & H); revert Hx).
  intros Htargets Htn%fail_if_Ok Hagents Han%fail_if_Ok Hcmds Hcn%fail_if_Ok Henvs
    Hen%fail_if_Ok Hmax%fail_if_Ok Hver%fail_if_Ok _.
  apply (build_environments_Ok _ _ _ Hp) in Henvs as [Henvs ->].
  apply (foldM_add _ _ build_command_Ok) in Hcmds as [[Hc1 Hc2] ->].
  apply (foldM_insert _ _ _ _ (build_agent_Ok (doc_Commands doc))) in Hagents as [[Ha1 Ha2] ->].
  apply (foldM_insert _ _ _ _ (build_target_Ok (doc_Environments doc))) in Htargets as [[Ht1 Ht2] ->].
  rewrite Forall_indexed in Ha1. rewrite Forall_indexed in Ht1.
  rewrite fmap_indexed in Ha2. rewrite fmap_indexed in Ht2.
  injection H as <-. split.
  + rewrite nonempty_map_size in Hen. rewrite nonempty_length in Hcn. rewrite nonempty_length in Han. rewrite nonempty_length in Htn.
    apply negb_false_iff in Hver. apply orb_false_iff in Hmax as [Hm1 Hm2].
    apply Z.ltb_ge in Hm1, Hm2. by constructor.
  + unfold snapshot_of. f_equal; [|].
    * by rewrite (fmap_indexed (λ a, (ad_ID a, list_to_set (ad_Commands a)))).
    * by rewrite (fmap_indexed (λ t, (td_ID t, target_of t))).
Qed.

Lemma build_complete doc range : range ≡ₚ map_to_list (doc_Environments doc) →
  valid_document doc → build range doc = Ok (snapshot_of doc).
Proof.
  intros Hp []. unfold build.
  repeat (apply bind_Ok; eexists; split); try (apply fail_if_Ok).
  - apply bool_decide_eq_false. by apply (MatchString_nonempty versionPattern).
  - by rewrite vd_version0.
  - unfold maxParallelTasksLimit. lia.
  - by apply nonempty_map_size.
  - by apply (build_environments_Ok _ _ _ Hp).
  - by apply nonempty_length.
  - by apply (foldM_add _ _ build_command_Ok).
  - by apply nonempty_length.
  - apply (foldM_insert _ _ _ _ (build_agent_Ok (doc_Commands doc))).
    split; [|reflexivity]. by rewrite Forall_indexed, fmap_indexed.
  - by apply nonempty_length.
  - apply (foldM_insert _ _ _ _ (build_target_Ok (doc_Environments doc))).
    split; [|reflexivity]. by rewrite Forall_indexed, fmap_indexed.
  - unfold snapshot_of. do 2 f_equal.
    + by rewrite (fmap_indexed (λ a, (ad_ID a, list_to_set (ad_Commands a)))).
    + by rewrite (fmap_indexed (λ t, (td_ID t, target_of t))).
  Unshelve. all: exact tt.
Qed.

(** ** The invariant of a validated snapshot *)

Record valid_snapshot (s : Snapshot) : Prop := {
  vs_tasks : 1 <= s_maxParallelTasks s <= 10000;
  vs_envs : ∀ name mode, s_environments s !! name = Some mode →
              MatchString environmentPattern name = true ∧ valid_mode mode;
  vs_cmds : ∀ c, c ∈ s_commands s → MatchString commandPattern c = true;
  vs_agents : ∀ id cmds, s_agents s !! id = Some cmds →
                MatchString agentIDPattern id = true ∧ cmds ≠ ∅ ∧ cmds ⊆ s_commands s;
  vs_targets : ∀ id t, s_targets s !! id = Some t →
                 t_ID t = id ∧ MatchString targetIDPattern id = true ∧
                 is_Some (s_environments s !! t_Environment t) }.

Lemma snapshot_of_valid doc digest : valid_document doc →
  valid_snapshot (with_digest (snapshot_of doc) digest).
Proof.
  intros []. constructor; simpl.
  - done.
  - done.
  - intros c Hc%elem_of_list_to_set. by rewrite Forall_forall in vd_cmds0; auto.
  - intros id cmds Hm%elem_of_list_to_map_2.
    apply list_elem_of_fmap in Hm as (a & [= -> ->] & Ha).
    rewrite Forall_forall in vd_agents0. destruct (vd_agents0 a Ha) as (Hid & Hne & Hsub & _).
    split; [done|]. split.
    + destruct (ad_Commands a); [done|]. set_solver.
    + intros c Hc%elem_of_list_to_set. apply elem_of_list_to_set.
      rewrite Forall_forall in Hsub. auto.
  - intros id t Hm%elem_of_list_to_map_2.
    apply list_elem_of_fmap in Hm as (td & [= -> ->] & Ht).
    rewrite Forall_forall in vd_targets0. by destruct (vd_targets0 td Ht) as (? & ? & _).
Qed.

(** The shipped policy, policies/default.yaml, as the decoder yields it. *)
Definition default_document : document :=
  {| doc_Version := "2026-09-27.1"; doc_MaxParallelTasks := 64;
     doc_Environments := {["staging" := "allow"; "production" := "require_approval"]};
     doc_Commands := ["MODIFY_ROUTING"; "UPDATE_CERTIFICATE"; "DELETE_POLICY"];
     doc_Agents := [{| ad_ID := "agent-sim";
                       ad_Commands := ["MODIFY_ROUTING"; "UPDATE_CERTIFICATE"; "DELETE_POLICY"] |}];
     doc_Targets :=
       [{| td_ID := "ROOT_CORE_EDGE"; td_Environment := "production"; td_Protected := Some true |};
        {| td_ID := "prod-payments-edge"; td_Environment := "production"; td_Protected := Some false |};
        {| td_ID := "edge-node-west-1"; td_Environment := "staging"; td_Protected := Some false |};
        {| td_ID := "FAILING_NODE"; td_Environment := "staging"; td_Protected := Some false |};
        {| td_ID := "LOST_RESPONSE_NODE"; td_Environment := "staging"; td_Protected := Some false |}] |}.

Definition default_snapshot : Snapshot := with_digest (snapshot_of default_document) "d".

Section ParseTheorems.
Variable yaml : string → yaml_result.
Variable range : gmap string string → list (string * string).
(** Go visits every entry of a map exactly once, in an unspecified order. *)
Hypothesis range_all : ∀ m, range m ≡ₚ map_to_list m.

(** C32: [Parse] accepts exactly the texts that decode to one valid document;
    the snapshot then holds what that document declares, whatever order the
    map of environments is visited in, and carries the SHA-256 digest of the
    raw text. *)
Theorem Parse_exact raw s :
  Parse yaml range raw = Ok s ↔
  ∃ doc, yaml raw = YamlDocument doc true ∧ valid_document doc ∧
         s = with_digest (snapshot_of doc) (rawDigest raw).
Proof using range_all.
  unfold Parse. destruct (yaml raw) as [|err|doc []]; simpl; try naive_solver.
  rewrite bind_Ok. split.
  - intros (s' & Hb & [= <-]). apply build_sound in Hb as [? ->]; eauto.
  - intros (doc' & [= <-] & Hv & ->). eexists. split; [|reflexivity]. auto using build_complete.
Qed.

Lemma Parse_ok raw s : Parse yaml range raw = Ok s →
  valid_snapshot s ∧ s_digest s = rawDigest raw.
Proof using range_all.
  unfold Parse. destruct (yaml raw) as [|err|doc []]; simpl; try done.
  rewrite bind_Ok. intros (s' & Hb & [= <-]).
  apply build_sound in Hb as [? ->]; auto using snapshot_of_valid.
Qed.

(** Every snapshot [Parse] returns satisfies the invariant the rest of the
    program relies on: declared modes only, agents confined to the command
    catalogue, targets in declared environments and filed under their own ID,
    and a parallelism bound between 1 and 10000. *)
Theorem Parse_valid raw s : Parse yaml range raw = Ok s →
  valid_snapshot s ∧ s_digest s = rawDigest raw.
Proof using range_all. apply Parse_ok.
Qed.
End ParseTheorems.

Definition default_yaml (raw : string) : yaml_result := YamlDocument default_document true.

Lemma Parse_exact_witness :
  ∃ s, Parse default_yaml map_to_list "raw" = Ok s ∧
  (∃ doc, default_yaml "raw" = YamlDocument doc true ∧ valid_document doc ∧
          s = with_digest (snapshot_of doc) (rawDigest "raw")).
Proof.
  destruct (Parse default_yaml map_to_list "raw") as [s|e] eqn:H.
  - exists s. split; [done|]. apply (Parse_exact default_yaml map_to_list (λ _, reflexivity _) "raw" s), H.
  - exfalso. vm_compute in H. discriminate.
Defined.

Lemma Parse_valid_witness :
  ∃ s, Parse default_yaml map_to_list "raw" = Ok s ∧ valid_snapshot s.
Proof.
  destruct (Parse default_yaml map_to_list "raw") as [s|e] eqn:H.
  - exists s. split; [done|].
    apply (Parse_valid default_yaml map_to_list (λ _, reflexivity _) "raw" s), H.
  - exfalso. vm_compute in H. discriminate.
Defined.

Lemma default_snapshot_valid : valid_snapshot default_snapshot.
Proof.
  apply snapshot_of_valid.
  destruct (build (map_to_list (doc_Environments default_document)) default_document) eqn:H.
  - by apply build_sound in H as [? _].
  - vm_compute in H. discriminate.
Qed.

(** A document with a duplicate target, an undeclared environment or an
    implicit [protected] is refused. *)
Example build_implicit_protected :
  build (map_to_list (doc_Environments default_document))
    {| doc_Version := "1"; doc_MaxParallelTasks := 1;
       doc_Environments := doc_Environments default_document;
       doc_Commands := ["MODIFY_ROUTING"];
       doc_Agents := [{| ad_ID := "a"; ad_Commands := ["MODIFY_ROUTING"] |}];
       doc_Targets := [{| td_ID := "t"; td_Environment := "staging"; td_Protected := None |}] |}
  = Err (TargetProtectedMissing "t").
Proof. vm_compute. reflexivity. Qed.
