(* ===== verification/Config.v ===== *)
(** * internal/config/config.go: settings from the environment

    With time.ParseDuration and strconv.Atoi, whose errors the code discards:
    they are [None] here. *)

From Stdlib Require Import SpecFloat.
From S2P Require Import Prelude GoBase GoTime Contracts.
Open Scope Z_scope.
Open Scope go_scope.

(** ** strconv.Atoi *)

Definition in_int64 (n : Z) : bool := between_incl (- 2 ^ 63) (2 ^ 63 - 1) n.

Definition Atoi (s : string) : option Z :=
  let '(neg, ds) := match s with
                    | String a s' => if one_of "-" a then (true, s') else if one_of "+" a then (false, s') else (false, s)
                    | EmptyString => (false, s)
                    end in
  if negb (ds == "") && all_digits ds then
    let n := if neg : bool then - dec_from 0 ds else dec_from 0 ds in
    if in_int64 n then Some n else None
  else None.

(** ** time.ParseDuration *)

(** [leadingInt]: the digits in front, unless they exceed 2^63. *)
Fixpoint leadingInt (x : Z) (s : string) : option (Z * string) :=
  match s with
  | String a s' =>
      if digit a then
        if 2 ^ 63 / 10 <? x then None
        else let y := x * 10 + digit_val a in if 2 ^ 63 <? y then None else leadingInt y s'
      else Some (x, s)
  | EmptyString => Some (x, s)
  end.

(** [leadingFraction]: the digits in front as a number and the power of ten that
    scales it; digits that would overflow are skipped. *)
Fixpoint leadingFraction (overflow : bool) (x scale : Z) (s : string) : Z * Z * string :=
  match s with
  | String a s' =>
      if digit a then
        if overflow : bool then leadingFraction true x scale s'
        else if (2 ^ 63 - 1) / 10 <? x then leadingFraction true x scale s'
        else let y := x * 10 + digit_val a in
             if 2 ^ 63 <? y then leadingFraction true x scale s'
             else leadingFraction false y (scale * 10) s'
      else (x, scale, s)
  | EmptyString => (x, scale, s)
  end.

(** float64: [float64(x)] of an integer, and the truncation back to one. *)
Definition float64 (x : Z) : spec_float := binary_normalize 53 1024 x 0 false.
Definition trunc (f : spec_float) : Z :=
  match f with
  | S754_finite s m e => let v := Z.shiftl (Z.pos m) e in if s then - v else v
  | _ => 0
  end.
(** [uint64(float64(f) * (float64(unit) / scale))]; the scale, at most 10^19, is
    exact in float64. *)
Definition fraction_ns (f unit scale : Z) : Z :=
  trunc (SFmul 53 1024 (float64 f) (SFdiv 53 1024 (float64 unit) (float64 scale))).

(** The two spellings of the micro sign, U+00B5 and U+03BC. *)
Definition micro_b5 : string := string_of_bytes [194; 181; 115].
Definition micro_bc : string := string_of_bytes [206; 188; 115].
Definition unitMap (u : string) : option Duration :=
  if u == "ns" then Some 1
  else if (u == "us") || (u == micro_b5) || (u == micro_bc) then Some 1000
  else if u == "ms" then Some Millisecond
  else if u == "s" then Some Second
  else if u == "m" then Some Minute
  else if u == "h" then Some Hour
  else None.

(** The characters up to the next digit or dot. *)
Fixpoint span_unit (s : string) : string * string :=
  match s with
  | String a s' => if digit a || one_of "." a then ("", s)
                   else let '(u, r) := span_unit s' in (String a u, r)
  | EmptyString => ("", "")
  end.

(** One number with its unit: nanoseconds, and the rest of the text. *)
Definition parse_term (s : string) : option (Z * string) :=
  match s with
  | EmptyString => None
  | String a _ =>
      if digit a || one_of "." a then
        '(v, s1) ← leadingInt 0 s;
        let pre := s1 != s in
        let '(f, scale, s2, post) :=
          match s1 with
          | String b r => if one_of "." b
                          then let '(f, scale, r') := leadingFraction false 0 1 r in (f, scale, r', r' != r)
                          else (0, 1, s1, false)
          | EmptyString => (0, 1, s1, false)
          end in
        if negb pre && negb post then None
        else
          let '(u, rest) := span_unit s2 in
          if u == "" then None
          else
            unit ← unitMap u;
            if 2 ^ 63 / unit <? v then None
            else
              let v := v * unit + (if 0 <? f then fraction_ns f unit scale else 0) in
              if 2 ^ 63 <? v then None else Some (v, rest)
      else None
  end.

(** [d] is a uint64; every term takes at least one character, so the length of
    the text is fuel enough. *)
Fixpoint parse_terms (fuel : nat) (d : Z) (s : string) : option Z :=
  match s, fuel with
  | EmptyString, _ => Some d
  | _, O => None
  | _, S fuel =>
      '(v, rest) ← parse_term s;
      let d := (d + v) mod 2 ^ 64 in
      if 2 ^ 63 <? d then None else parse_terms fuel d rest
  end.

Definition ParseDuration (orig : string) : option Duration :=
  let '(neg, s) := match orig with
                   | String a s' => if one_of "-+" a then (one_of "-" a, s') else (false, orig)
                   | EmptyString => (false, orig)
                   end in
  if s == "0" then Some 0
  else if s == "" then None
  else
    d ← parse_terms (String.length s) 0 s;
    if neg : bool then Some (int64 (- d)) else if 2 ^ 63 - 1 <? d then None else Some d.

(** ** The configuration *)

Record Config := {
  Addr : string; AgentKeys : string; TemporalHostPort : string; TemporalNamespace : string;
  TaskQueue : string; PolicyPath : string; AuditDBPath : string; OTelServiceName : string;
  OTelExporter : string; ShutdownTimeout : Duration; PolicyReloadEvery : Duration }.

Section Environment.
(** The environment of the process; an absent variable reads as empty. *)
Context (env : gmap string string).
Definition Getenv (key : string) : string := default "" (env !! key).

Definition envOr (key fallback : string) : string :=
  let v := Getenv key in if v != "" then v else fallback.

Definition durationOr (key : string) (fallback : Duration) : Duration :=
  let v := Getenv key in
  if v == "" then fallback
  else match ParseDuration v with
       | None => match Atoi v with
                 | Some n => int64 (n * Second)
                 | None => fallback
                 end
       | Some d => d
       end.

Definition baseFromEnv : Config :=
  {| Addr := envOr "SENTRYGATE_ADDR" ":8080";
     AgentKeys := "";
     TemporalHostPort := envOr "TEMPORAL_HOST_PORT" "localhost:7233";
     TemporalNamespace := envOr "TEMPORAL_NAMESPACE" "default";
     TaskQueue := envOr "TEMPORAL_TASK_QUEUE" "sentrygate-saga";
     PolicyPath := envOr "SENTRYGATE_POLICY_PATH" "policies/default.yaml";
     AuditDBPath := envOr "SENTRYGATE_AUDIT_DB" "data/audit.db";
     OTelServiceName := envOr "OTEL_SERVICE_NAME" "sentrygate";
     OTelExporter := envOr "OTEL_EXPORTER" "stdout";
     ShutdownTimeout := durationOr "SENTRYGATE_SHUTDOWN_TIMEOUT" (10 * Second);
     PolicyReloadEvery := durationOr "SENTRYGATE_POLICY_RELOAD" (5 * Second) |}.

Definition with_keys (cfg : Config) (keys : string) : Config :=
  {| Addr := Addr cfg; AgentKeys := keys; TemporalHostPort := TemporalHostPort cfg;
     TemporalNamespace := TemporalNamespace cfg; TaskQueue := TaskQueue cfg; PolicyPath := PolicyPath cfg;
     AuditDBPath := AuditDBPath cfg; OTelServiceName := OTelServiceName cfg; OTelExporter := OTelExporter cfg;
     ShutdownTimeout := ShutdownTimeout cfg; PolicyReloadEvery := PolicyReloadEvery cfg |}.

Definition LoadFromEnv : result error Config :=
  let cfg := with_keys baseFromEnv (Getenv "SENTRYGATE_AGENT_KEYS") in
  if AgentKeys cfg == ""
  then Err (Text "SENTRYGATE_AGENT_KEYS is required (format: agent-id:key,agent-id:key)")
  else Ok cfg.

Definition LoadWorkerFromEnv : Config := baseFromEnv.
End Environment.

Example durations :
  ParseDuration "1h15m30.918s" = Some 4530918000000 ∧ ParseDuration "-1.5h" = Some (-5400000000000) ∧
  ParseDuration "0" = Some 0 ∧ ParseDuration "5" = None ∧ ParseDuration ".s" = None ∧
  ParseDuration "0.1us" = Some 100 ∧ ParseDuration "9223372036854775808ns" = None ∧
  ParseDuration "-9223372036854775808ns" = Some (- 2 ^ 63) ∧
  ParseDuration "0.3333333333333333333h" = Some 1200000000000 ∧ Atoi "+12" = Some 12 ∧ Atoi "1_0" = None.
Proof. vm_compute. done. Qed.

(** ** Plain numbers are seconds *)

Lemma leadingInt_digits s x : all_digits s = true →
  leadingInt x s = None ∨ ∃ y, leadingInt x s = Some (y, "").
Proof.
  revert x. induction s as [|a s IH]; intros x; cbn; [eauto|]. intros [-> Hs]%andb_true_iff.
  repeat case_match; auto.
Qed.

Lemma parse_term_digits s : all_digits s = true → parse_term s = None.
Proof.
  destruct s as [|a s]; [done|]. intros Hs. unfold parse_term.
  destruct (digit a || one_of "." a); [|done].
  destruct (leadingInt_digits (String a s) 0 Hs) as [->|[y ->]]; [done|].
  cbn [mbind option_bind span_unit]. by destruct (negb _ && _).
Qed.

Lemma digit_no_sign a : digit a = true → one_of "-+" a = false ∧ one_of "-" a = false ∧ one_of "+" a = false.
Proof.
  unfold digit, in_range, one_of. rewrite andb_true_iff, !Z.leb_le. intros Ha.
  repeat split; apply bool_decide_eq_false; cbn; rewrite ?elem_of_cons, elem_of_nil;
    intros Hin; destruct_or! Hin; subst a; revert Ha; vm_compute; intros []; congruence.
Qed.

(** A setting that is a plain decimal number is a number of seconds, as an
    int64 of nanoseconds: exact up to 9223372036 seconds, and wrapped around
    beyond. *)
Theorem plain_number_is_seconds env key fallback v :
  env !! key = Some v → all_digits v = true → v ≠ "" → dec_from 0 v < 2 ^ 63 →
  durationOr env key fallback = int64 (dec_from 0 v * Second).
Proof.
  intros Hv Hd Hne Hn. unfold durationOr, Getenv. rewrite Hv. cbn [default from_option id].
  cbv zeta. rewrite bool_decide_false by done. destruct v as [|a v]; [done|].
  pose proof Hd as Hd'. cbn [all_digits] in Hd'. apply andb_true_iff in Hd' as [Ha _].
  destruct (digit_no_sign a Ha) as (H1 & H2 & H3). unfold ParseDuration. rewrite H1.
  destruct (decide (String a v = "0")) as [->|H0]; [by rewrite bool_decide_true|].
  rewrite !bool_decide_false by done. cbn [String.length parse_terms].
  rewrite parse_term_digits by done. cbn [mbind option_bind].
  unfold Atoi. rewrite H2, H3, Hd, bool_decide_false by done. cbn [negb andb].
  assert (Hnn : ∀ s acc, 0 <= acc → all_digits s = true → 0 <= dec_from acc s).
  { induction s as [|b s IH]; intros acc Hacc; cbn; [done|]. intros [Hb Hs]%andb_true_iff. apply IH; [|done].
    unfold digit, in_range in Hb. rewrite andb_true_iff, !Z.leb_le in Hb. unfold digit_val. lia. }
  specialize (Hnn (String a v) 0 (Z.le_refl 0) Hd).
  unfold in_int64, between_incl. by rewrite !(proj2 (Z.leb_le _ _)) by lia.
Qed.

Definition sample_env (v : string) : gmap string string := {[ "SENTRYGATE_SHUTDOWN_TIMEOUT" := v ]}.

Lemma plain_number_is_seconds_witness :
  durationOr (sample_env "30") "SENTRYGATE_SHUTDOWN_TIMEOUT" (10 * Second) = 30 * Second ∧
  durationOr (sample_env "9223372037") "SENTRYGATE_SHUTDOWN_TIMEOUT" (10 * Second) = -9223372036709551616.
Proof.
  split; [rewrite (plain_number_is_seconds _ _ _ "30")|rewrite (plain_number_is_seconds _ _ _ "9223372037")];
    try reflexivity; done.
Defined.

(** With a unit, the same number is too large to be a duration, and the fallback
    is used: the two notations of a number of seconds do not agree. *)
Lemma seconds_notations_differ :
  durationOr (sample_env "9223372037s") "SENTRYGATE_SHUTDOWN_TIMEOUT" (10 * Second) = 10 * Second ∧
  durationOr (sample_env "9223372037") "SENTRYGATE_SHUTDOWN_TIMEOUT" (10 * Second) < 0.
Proof. vm_compute. done. Qed.
