(* ===== verification/Loader.v ===== *)
(** * internal/policy/loader.go: the active policy and its reloads

    The loader's state is a record; [Load], [NewLoader], [Reload] and [Status]
    are functions of the state, of what reading the policy file gave and of the
    clock. Reloads are serialised by [reloadMu] and every field that [Status]
    reads is written under [mu], so a history is a list of reloads. *)

From S2P Require Import Prelude GoBase Contracts Policy.
Open Scope Z_scope.
Open Scope go_scope.

(** [Status], with [LastReloadErrorAt] as an optional time. *)
Record Status := {
  st_Version : string; st_Digest : string; st_LoadedAt : Time; st_MaxParallelTasks : Z;
  st_ReloadStatus : string; st_LastReloadError : string; st_LastReloadErrorAt : option Time }.

Record Loader := {
  l_current : Snapshot; l_loadedAt : Time;
  l_lastErr : string; l_lastErrAt : Time; l_lastBadKey : string }.

(** What is logged by a reload. *)
Inductive reload_log := LogReloaded (v d pv pd : string) | LogMaxParallel (n : Z) | LogRejected (err v d : string).

Section Loader.
(** The YAML decoder, Go's order of visiting a map, and [fmt]'s [%q]. *)
Variable yaml : string → yaml_result.
Variable range : gmap string string → list (string * string).
Variable q : string → string.

(** [os.ReadFile]'s answer is the file's content or the text of an error. *)
Definition Load (file : result string string) : result policy_error Snapshot :=
  match file with
  | Err e => Err (ReadFailed e)
  | Ok raw => Parse yaml range raw
  end.

Definition NewLoader (file : result string string) (now : Time) : result policy_error Loader :=
  match Load file with
  | Err e => Err e
  | Ok s => Ok {| l_current := s; l_loadedAt := UTC now; l_lastErr := ""; l_lastErrAt := zeroTime;
                  l_lastBadKey := "" |}
  end.

Definition Current (l : Loader) : Snapshot := l_current l.

Definition clearError (l : Loader) : Loader :=
  {| l_current := l_current l; l_loadedAt := l_loadedAt l; l_lastErr := "";
     l_lastErrAt := zeroTime; l_lastBadKey := "" |}.

Definition recordError (badKey err : string) (now : Time) (l : Loader) : Loader * list reload_log :=
  let first := badKey != l_lastBadKey l in
  ({| l_current := l_current l; l_loadedAt := l_loadedAt l; l_lastErr := err;
      l_lastErrAt := UTC now; l_lastBadKey := badKey |},
   if first then [LogRejected err (s_version (l_current l)) (s_digest (l_current l))] else []).

Definition Reload (file : result string string) (now : Time) (l : Loader)
    : (Loader * list reload_log) * option policy_error :=
  match file with
  | Err e =>
      let err := ReadFailed e in
      (recordError ("read:" +:+ policy_error_text q err) (policy_error_text q err) now l, Some err)
  | Ok raw =>
      let cur := l_current l in
      let digest := rawDigest raw in
      if digest == s_digest cur then ((clearError l, []), None)
      else match Parse yaml range raw with
      | Err e => (recordError digest (policy_error_text q e) now l, Some e)
      | Ok next =>
          (({| l_current := next; l_loadedAt := UTC now; l_lastErr := ""; l_lastErrAt := zeroTime;
               l_lastBadKey := "" |},
            LogReloaded (s_version next) (s_digest next) (s_version cur) (s_digest cur) ::
            (if s_maxParallelTasks next =? s_maxParallelTasks cur then []
             else [LogMaxParallel (s_maxParallelTasks next)])), None)
      end
  end.

Definition Loader_Status (l : Loader) : Status :=
  let bad := l_lastErr l != "" in
  {| st_Version := s_version (l_current l); st_Digest := s_digest (l_current l);
     st_LoadedAt := l_loadedAt l; st_MaxParallelTasks := s_maxParallelTasks (l_current l);
     st_ReloadStatus := if bad then "error" else "ok";
     st_LastReloadError := if bad then l_lastErr l else "";
     st_LastReloadErrorAt := if bad then Some (l_lastErrAt l) else None |}.

(** A history: the reads of the file and when they happened. *)
Definition reload_step (l : Loader) (x : result string string * Time) : Loader := (Reload x.1 x.2 l).1.1.
Definition reloads (l : Loader) (xs : list (result string string * Time)) : Loader := foldl reload_step l xs.

(** ** What is active *)

(** The content the active policy should have after a read: the new content
    if it is readable and valid, what was active otherwise. *)
Definition accept (active : string) (file : result string string) : string :=
  match file with
  | Ok raw => match Parse yaml range raw with Ok _ => raw | Err _ => active end
  | Err _ => active
  end.

Hypothesis range_all : ∀ m, range m ≡ₚ map_to_list m.

(** [raw] is the content the active policy was parsed from. *)
Definition serving (l : Loader) (raw : string) : Prop := Parse yaml range raw = Ok (l_current l).

(** A reload keeps what is active, or moves to valid content; content with the
    digest of the active policy is taken to be the active content. *)
Lemma Reload_serving file now l raw : serving l raw →
  serving (reload_step l (file, now)) (accept raw file) ∨
  ∃ raw', file = Ok raw' ∧ rawDigest raw' = rawDigest raw ∧ serving (reload_step l (file, now)) raw.
Proof using range_all.
  unfold serving, reload_step, Reload. intros Hs. destruct file as [raw'|e]; simpl; [|by left].
  pose proof (Parse_ok _ _ range_all _ _ Hs) as [_ Hd].
  case_bool_decide as Hdig; simpl; [right; exists raw'; split_and!; [done|congruence|done]|].
  left. destruct (Parse yaml range raw') eqn:Hp; simpl; [done|]. done.
Qed.

(** C37: An invalid or unreadable policy file never becomes active and never
    disturbs the active policy: after any history of reloads the active
    snapshot is a valid one, parsed from the initial content or from content
    that was read in one of the reloads, and carries the digest of that
    content. *)
Theorem active_policy_valid xs l raw :
  serving l raw →
  ∃ raw', (raw' = raw ∨ ∃ now, (Ok raw', now) ∈ xs) ∧ serving (reloads l xs) raw' ∧
          valid_snapshot (Current (reloads l xs)) ∧ s_digest (Current (reloads l xs)) = rawDigest raw'.
Proof using range_all.
  intros Hs. assert (∃ raw', (raw' = raw ∨ ∃ now, (Ok raw', now) ∈ xs) ∧ serving (reloads l xs) raw')
    as (raw' & Hin & Hr).
  { revert Hs. induction xs as [|[file now] xs IH] using rev_ind; intros Hs; [by eauto|].
    destruct (IH Hs) as (r & Hin & Hr). unfold reloads in *. rewrite foldl_app. simpl.
    assert (Hold : r = raw ∨ ∃ now', (Ok r, now') ∈ xs ++ [(file, now)]) by set_solver.
    destruct (Reload_serving file now _ r Hr) as [Hn|(r' & -> & _ & Hn)]; [|by eauto].
    unfold accept in Hn. destruct file as [raw'|e]; [|by eauto].
    destruct (Parse yaml range raw') eqn:Hp; [|by eauto].
    exists raw'. split; [right; exists now; set_solver|done]. }
  exists raw'. split; [done|]. split; [done|]. exact (Parse_ok _ _ range_all _ _ Hr).
Qed.

(** One reload, branch by branch: a readable file with the active digest
    only clears the recorded error; other valid content becomes active at once
    with its own digest and clears it; unreadable or invalid content keeps the
    active policy and its load time and is reported by [Status] as an error
    with its text and time. *)
Theorem Reload_cases file now l :
  let l' := reload_step l (file, now) in
  let err := (Reload file now l).2 in
  match file with
  | Ok raw =>
      if decide (rawDigest raw = s_digest (Current l))
      then err = None ∧ Current l' = Current l ∧ l_loadedAt l' = l_loadedAt l ∧
           st_ReloadStatus (Loader_Status l') = "ok"
      else match Parse yaml range raw with
      | Ok next => err = None ∧ Current l' = next ∧ s_digest next = rawDigest raw ∧
                   l_loadedAt l' = now ∧ st_ReloadStatus (Loader_Status l') = "ok"
      | Err e => err = Some e ∧ Current l' = Current l ∧ l_loadedAt l' = l_loadedAt l ∧
                 st_LastReloadError (Loader_Status l') = policy_error_text q e ∧
                 st_LastReloadErrorAt (Loader_Status l') = Some now
      end
  | Err e => err = Some (ReadFailed e) ∧ Current l' = Current l ∧ l_loadedAt l' = l_loadedAt l ∧
             st_LastReloadError (Loader_Status l') = "policy: read: " +:+ e ∧
             st_LastReloadErrorAt (Loader_Status l') = Some now
  end.
Proof using range_all.
  assert (Htext : ∀ e, policy_error_text q e ≠ "") by (intros []; discriminate).
  unfold reload_step, Reload, Loader_Status. destruct file as [raw|e]; [cbn [fst snd]|done].
  - destruct (decide (rawDigest raw = s_digest (Current l))) as [Hd|Hd].
    + rewrite bool_decide_true by done. simpl. split_and!; try done.
    + rewrite bool_decide_false by done.
      destruct (Parse yaml range raw) as [next|e] eqn:Hp; simpl.
      * pose proof (Parse_ok _ _ range_all _ _ Hp) as [_ Hdig]. done.
      * rewrite bool_decide_false by done. done.
Qed.
End Loader.

(** ** The shipped policy, reloaded: unreadable, broken, then valid again *)

Definition sample_yaml (raw : string) : yaml_result :=
  if raw == "broken" then YamlError "line 1" else YamlDocument default_document true.
Definition sample_loader : result policy_error Loader := NewLoader sample_yaml map_to_list (Ok "v1") 10.

Lemma sample_served : ∃ l, sample_loader = Ok l ∧ serving sample_yaml map_to_list l "v1".
Proof.
  unfold sample_loader, NewLoader, Load, serving.
  destruct (Parse sample_yaml map_to_list "v1") eqn:E; [by eauto|]. vm_compute in E. discriminate.
Qed.

Lemma active_policy_valid_witness :
  ∃ l, sample_loader = Ok l ∧
  ∃ raw', (raw' = "v1" ∨ ∃ now, (Ok raw', now) ∈ [(Err "EOF", 11); (Ok "broken", 12); (Ok "v2", 13)]) ∧
    serving sample_yaml map_to_list
      (reloads sample_yaml map_to_list id l [(Err "EOF", 11); (Ok "broken", 12); (Ok "v2", 13)]) raw'.
Proof.
  destruct sample_served as (l & Hl & Hs). exists l. split; [exact Hl|].
  destruct (active_policy_valid sample_yaml map_to_list id (λ _, reflexivity _)
    [(Err "EOF", 11); (Ok "broken", 12); (Ok "v2", 13)] l "v1" Hs) as (raw' & Hin & Hsv & _).
  exists raw'. split; [exact Hin|exact Hsv].
Defined.

Lemma Reload_cases_witness :
  ∃ l, sample_loader = Ok l ∧
  Current (reload_step sample_yaml map_to_list id l (Err "EOF", 11)) = Current l ∧
  st_LastReloadError (Loader_Status (reload_step sample_yaml map_to_list id l (Err "EOF", 11))) =
    "policy: read: EOF".
Proof.
  destruct sample_served as (l & Hl & Hs). exists l. split; [exact Hl|].
  destruct (Reload_cases sample_yaml map_to_list id (λ _, reflexivity _) (Err "EOF") 11 l)
    as (_ & Hc & _ & He & _).
  split; [exact Hc|exact He].
Defined.
