(* ===== verification/Reloader.v ===== *)
(** * internal/policy/loader.go: the reload goroutine and Close

    [NewLoader] starts a goroutine that calls [Reload] on every tick until the
    stop channel is closed; [Close] closes it once and waits for the goroutine
    to close the done channel. Both run concurrently with callers of [Reload]
    and [Close], so this part is a step relation. *)

From S2P Require Import Prelude GoBase Contracts Policy Loader.
Open Scope Z_scope.
Open Scope go_scope.

(** Where the goroutine is: at its select, inside [Reload], or returned (or
    never started). *)
Inductive phase := AtSelect | InReload | Exited.
#[export] Instance phase_eq_dec : EqDecision phase.
Proof. solve_decision. Defined.

Record reloader := {
  g_loader : Loader;
  g_loop : phase;
  g_tick : bool;      (* the ticker's channel holds a tick; it has room for one *)
  g_stop : bool;      (* the stop channel is closed *)
  g_done : nat;       (* how often the done channel has been closed *)
  g_stops : nat;      (* how often the stop channel has been closed *)
  g_waiting : nat;    (* calls of Close that wait for the done channel *)
  g_closed : nat      (* calls of Close that have returned *) }.

Section Reloader.
Variable yaml : string → yaml_result.
Variable range : gmap string string → list (string * string).
Variable q : string → string.

(** [NewLoader] with a valid file: a positive interval starts the goroutine,
    otherwise the done channel is closed at once. *)
Definition start (l : Loader) (interval : Duration) : reloader :=
  if 0 <? interval
  then {| g_loader := l; g_loop := AtSelect; g_tick := false; g_stop := false; g_done := 0; g_stops := 0;
          g_waiting := 0; g_closed := 0 |}
  else {| g_loader := l; g_loop := Exited; g_tick := false; g_stop := false; g_done := 1; g_stops := 0;
          g_waiting := 0; g_closed := 0 |}.

Definition set_loop (g : reloader) (p : phase) (tick : bool) (done : nat) : reloader :=
  {| g_loader := g_loader g; g_loop := p; g_tick := tick; g_stop := g_stop g; g_done := done;
     g_stops := g_stops g; g_waiting := g_waiting g; g_closed := g_closed g |}.
Definition reloaded (g : reloader) (x : result string string * Time) (p : phase) : reloader :=
  {| g_loader := reload_step yaml range q (g_loader g) x; g_loop := p; g_tick := g_tick g;
     g_stop := g_stop g; g_done := g_done g; g_stops := g_stops g; g_waiting := g_waiting g;
     g_closed := g_closed g |}.

(** [closeOnce.Do(func() { close(l.stop) })], then [<-l.done]. *)
Definition begin_close (g : reloader) : reloader :=
  {| g_loader := g_loader g; g_loop := g_loop g; g_tick := g_tick g; g_stop := true; g_done := g_done g;
     g_stops := if g_stop g then g_stops g else S (g_stops g); g_waiting := S (g_waiting g);
     g_closed := g_closed g |}.
Definition end_close (g : reloader) : reloader :=
  {| g_loader := g_loader g; g_loop := g_loop g; g_tick := g_tick g; g_stop := g_stop g; g_done := g_done g;
     g_stops := g_stops g; g_waiting := pred (g_waiting g); g_closed := S (g_closed g) |}.

(** The steps of the goroutine and of its ticker. *)
Inductive loop_step : reloader → reloader → Prop :=
| loop_ticks g : g_loop g ≠ Exited → loop_step g (set_loop g (g_loop g) true (g_done g))
| loop_takes_tick g : g_loop g = AtSelect → g_tick g = true →
    loop_step g (set_loop g InReload false (g_done g))
| loop_reloads g file now : g_loop g = InReload → loop_step g (reloaded g (file, now) AtSelect)
| loop_stops g : g_loop g = AtSelect → g_stop g = true →
    loop_step g (set_loop g Exited false (S (g_done g))).

(** And those of its callers. *)
Inductive caller_step : reloader → reloader → Prop :=
| calls_reload g file now : caller_step g (reloaded g (file, now) (g_loop g))
| calls_close g : caller_step g (begin_close g)
| close_returns g : (0 < g_waiting g)%nat → (0 < g_done g)%nat → caller_step g (end_close g).

Definition reloader_step (g g' : reloader) : Prop := loop_step g g' ∨ caller_step g g'.

Record reloader_inv (g : reloader) : Prop := {
  ri_done : g_done g = if decide (g_loop g = Exited) then 1%nat else 0%nat;
  ri_stops : g_stops g = if g_stop g then 1%nat else 0%nat;
  ri_closed : (0 < g_closed g)%nat → g_loop g = Exited ∧ g_stop g = true;
  ri_waiting : (0 < g_waiting g)%nat → g_stop g = true }.

Lemma start_inv l interval : reloader_inv (start l interval).
Proof. unfold start. destruct (0 <? interval); split; cbn; done || lia. Qed.

Lemma reloader_step_inv g g' : reloader_inv g → reloader_step g g' → reloader_inv g'.
Proof.
  intros [Hd Hs Hc Hw] [Hst|Hst]; destruct Hst; split; cbn in *; try done; try lia.
  all: repeat case_decide; try congruence; try (destruct (g_stop g); congruence); try naive_solver lia.
Qed.

Lemma reloader_run_inv g g' : reloader_inv g → rtc reloader_step g g' → reloader_inv g'.
Proof. intros Hg Hr. induction Hr; eauto using reloader_step_inv. Qed.

(** C36: Neither channel is ever closed twice, which would panic. Once a call of
    [Close] has returned, the goroutine has exited and makes no step any more:
    the active policy changes only by explicit calls of [Reload]. And a call of
    [Close] cannot hang: as long as it waits, the goroutine can reach its exit
    in at most two steps, whatever it is doing. *)
Theorem close_stops_reloading l interval g : rtc reloader_step (start l interval) g →
  (g_done g ≤ 1)%nat ∧ (g_stops g ≤ 1)%nat ∧
  ((0 < g_closed g)%nat → ∀ g', ¬ loop_step g g') ∧
  ((0 < g_waiting g)%nat → ∃ g', rtc loop_step g g' ∧ (0 < g_done g')%nat).
Proof.
  intros Hr. destruct (reloader_run_inv _ _ (start_inv l interval) Hr) as [Hd Hs Hc Hw].
  split; [rewrite Hd; case_decide; lia|]. split; [rewrite Hs; case_match; lia|]. split.
  - intros Hcl g' Hst. destruct (Hc Hcl) as [He _]. destruct Hst; congruence.
  - intros Hwt. specialize (Hw Hwt). destruct (g_loop g) eqn:El.
    + eexists. split; [apply rtc_once; by apply loop_stops|]. cbn. lia.
    + eexists. split.
      * eapply rtc_l; [by apply (loop_reloads g (Err "") 0)|].
        apply rtc_once. apply loop_stops; [done|]. exact Hw.
      * cbn. lia.
    + exists g. split; [done|]. rewrite Hd, decide_True by done. lia.
Qed.
End Reloader.

(** A [Close] while the goroutine waits for its ticker. *)
Definition sample_loader : Loader :=
  {| l_current := default_snapshot; l_loadedAt := 1; l_lastErr := ""; l_lastErrAt := zeroTime; l_lastBadKey := "" |}.

Lemma close_stops_reloading_witness :
  let g := begin_close (start sample_loader (5 * Second)) in
  ∃ g', rtc (loop_step (λ _, YamlDocument default_document true) map_to_list id) g g' ∧ (0 < g_done g')%nat.
Proof.
  intros g.
  refine (proj2 (proj2 (proj2 (close_stops_reloading (λ _, YamlDocument default_document true) map_to_list id
    sample_loader (5 * Second) g _))) _).
  - apply rtc_once. right. apply calls_close.
  - cbn. lia.
Defined.
