(* ===== verification/Auth.v ===== *)
(** * internal/auth/agentkeys.go: agent keys and the authentication middleware *)

From S2P Require Import Prelude GoBase GoText Sha256 Policy.
Open Scope Z_scope.
Open Scope go_scope.

Definition MinKeyLength : Z := 16.
Definition maxKeyLength : Z := 256.
(** The same pattern as in the policy schema. *)
Definition keyAgentIDPattern : pattern := uniform (λ a, alnum a || one_of "._-" a) 1 64.

Record keyEntry := { ke_agentID : string; ke_digest : list Z }.
Record Keyring := { k_entries : list keyEntry }.

(** The errors of [ParseAgentKeys]: an entry is named by its position and, once
    it is known to be well formed, by its agent ID. *)
Inductive keys_error : Type :=
| NoEntries
| NotKeyForm (pos : nat) | InvalidAgentID (pos : nat)
| KeyTooShort (pos : nat) (id : string) | KeyTooLong (pos : nat) (id : string)
| KeyHasSpace (pos : nat) (id : string)
| DuplicateID (pos : nat) (id : string) | ReusedKey (pos : nat) (id : string).

Definition keys_error_text (e : keys_error) : string :=
  match e with
  | NoEntries => "agent keys: no entries configured"
  | NotKeyForm pos => "agent keys: entry " +:+ pretty pos +:+ " is not in agent-id:key form"
  | InvalidAgentID pos => "agent keys: entry " +:+ pretty pos +:+ " has an invalid agent id"
  | KeyTooShort pos id => "agent keys: entry " +:+ pretty pos +:+ " (" +:+ id +:+ ") key is shorter than 16 bytes"
  | KeyTooLong pos id => "agent keys: entry " +:+ pretty pos +:+ " (" +:+ id +:+ ") key is longer than 256 bytes"
  | KeyHasSpace pos id => "agent keys: entry " +:+ pretty pos +:+ " (" +:+ id +:+ ") key contains whitespace"
  | DuplicateID pos id => "agent keys: entry " +:+ pretty pos +:+ " duplicates agent id " +:+ id
  | ReusedKey pos id => "agent keys: entry " +:+ pretty pos +:+ " (" +:+ id +:+ ") reuses a key assigned to another agent"
  end.

(** ** ParseAgentKeys *)

Definition colon : Ascii.ascii := ascii_of 58.
Definition comma : Ascii.ascii := ascii_of 44.
Definition dquote : Ascii.ascii := ascii_of 34.

Definition key_digest (key : string) : list Z := Sha256.Sum256 (bytes_of_string key).
Arguments key_digest : simpl never.

(** The variables of the loop. *)
Record keys_state := {
  ks_entries : list keyEntry; ks_seenIDs : gset string; ks_seenKeys : gset (list Z) }.

Definition parse_entry (st : keys_state) (ipart : nat * string) : result keys_error keys_state :=
  let pos := (ipart.1 + 1)%nat in
  match strings_Cut ipart.2 colon with
  | None => Err (NotKeyForm pos)
  | Some (id, key) =>
      _ ← fail_if (negb (MatchString keyAgentIDPattern id)) (InvalidAgentID pos);
      _ ← fail_if (len key <? MinKeyLength) (KeyTooShort pos id);
      _ ← fail_if (maxKeyLength <? len key) (KeyTooLong pos id);
      _ ← fail_if (ContainsSpace key) (KeyHasSpace pos id);
      _ ← fail_if (bool_decide (id ∈ ks_seenIDs st)) (DuplicateID pos id);
      let digest := key_digest key in
      _ ← fail_if (bool_decide (digest ∈ ks_seenKeys st)) (ReusedKey pos id);
      Ok {| ks_entries := ks_entries st ++ [{| ke_agentID := id; ke_digest := digest |}];
            ks_seenIDs := {[id]} ∪ ks_seenIDs st; ks_seenKeys := {[digest]} ∪ ks_seenKeys st |}
  end.

Definition ParseAgentKeys (spec : string) : result keys_error Keyring :=
  let spec := TrimSpace spec in
  if spec == "" then Err NoEntries
  else
    st ← foldM parse_entry {| ks_entries := []; ks_seenIDs := ∅; ks_seenKeys := ∅ |}
           (indexed (strings_Split spec comma));
    Ok {| k_entries := ks_entries st |}.

(** ** Resolve *)

(** crypto/subtle, on equal-length digests. *)
Definition ConstantTimeCompare (x y : list Z) : Z := if bool_decide (x = y) then 1 else 0.
Definition ConstantTimeSelect (v x y : Z) : Z := if v =? 1 then x else y.

Definition resolve_step (digest : list Z) (st : Z * Z) (ie : nat * keyEntry) : Z * Z :=
  let eq := ConstantTimeCompare digest (ke_digest ie.2) in
  (ConstantTimeSelect eq (Z.of_nat ie.1) st.1, Z.lor st.2 eq).

Definition Resolve (k : Keyring) (presented : string) : option string :=
  let digest := key_digest presented in
  let '(match_, found) := foldl (resolve_step digest) (-1, 0) (indexed (k_entries k)) in
  if negb (found =? 1) then None
  else ke_agentID <$> k_entries k !! Z.to_nat match_.

Definition AgentIDs (k : Keyring) : list string := ke_agentID <$> k_entries k.

(** ** The request context and the middleware *)

(** The part of a request context the middleware writes. *)
Definition auth_context : Type := option string.
Definition WithAgentID (ctx : auth_context) (agentID : string) : auth_context := Some agentID.
Definition AgentIDFromContext (ctx : auth_context) : option string :=
  match ctx with Some id => if id != "" then Some id else None | None => None end.

(** A response that has been written: the answer of the middleware itself, or
    of the handler behind it. *)
Inductive answered_by (R : Type) := Unauthorized (status : Z) (body : string) | Served (r : R).
Arguments Unauthorized {R}. Arguments Served {R}.

Definition unauthorized_body : string :=
  "{" +:+ String dquote "status" +:+ String dquote ":" +:+ String dquote "unauthorized" +:+ String dquote "," +:+
  String dquote "error" +:+ String dquote ":" +:+ String dquote "missing or invalid API key" +:+ String dquote "}".

Definition Middleware {R} (k : Keyring) (next : auth_context → R) (apiKey : string) (ctx : auth_context)
    : answered_by R :=
  match Resolve k apiKey with
  | None => Unauthorized 401 unauthorized_body
  | Some agentID => Served (next (WithAgentID ctx agentID))
  end.

(** ** What a keyring accepts *)

(** A well-formed entry of the specification. *)
Definition valid_entry (e : string * string) : Prop :=
  MatchString keyAgentIDPattern e.1 = true ∧ MinKeyLength <= len e.2 <= maxKeyLength ∧
  ContainsSpace e.2 = false.

Definition entry_of (e : string * string) : keyEntry :=
  {| ke_agentID := e.1; ke_digest := key_digest e.2 |}.

(** The entry a part of the specification stands for. *)
Definition part_entry (part : string) : option (string * string) := strings_Cut part colon.

Lemma parse_entry_Ok st ipart st' :
  parse_entry st ipart = Ok st' ↔
  ∃ e, part_entry ipart.2 = Some e ∧ valid_entry e ∧
       (e.1 ∉ ks_seenIDs st) ∧ (key_digest e.2 ∉ ks_seenKeys st) ∧
       st' = {| ks_entries := ks_entries st ++ [entry_of e];
                ks_seenIDs := {[e.1]} ∪ ks_seenIDs st;
                ks_seenKeys := {[key_digest e.2]} ∪ ks_seenKeys st |}.
Proof.
  unfold parse_entry, part_entry. destruct (strings_Cut ipart.2 colon) as [[id key]|]; [|naive_solver].
  repeat setoid_rewrite bind_Ok. repeat setoid_rewrite fail_if_Ok. unfold valid_entry. split.
  - intros (? & Hid & ? & Hmin & ? & Hmax & ? & Hsp & ? & Hni & ? & Hnk & Hst).
    apply negb_false_iff in Hid. apply Z.ltb_ge in Hmin, Hmax.
    apply bool_decide_eq_false in Hni. apply bool_decide_eq_false in Hnk.
    injection Hst as <-. exists (id, key). by split_and!.
  - intros (e & [= <-] & (Hid & Hlen & Hsp) & Hni & Hnk & ->). simpl in *. exists tt.
    split; [by rewrite Hid|]. exists tt. split; [apply Z.ltb_ge; lia|].
    exists tt. split; [apply Z.ltb_ge; lia|]. exists tt. split; [done|].
    exists tt. split; [by apply bool_decide_eq_false|]. exists tt. split; [by apply bool_decide_eq_false|done].
Qed.

(** The entries are well formed and share no ID and no key. *)
Record valid_entries (es : list (string * string)) : Prop := {
  ve_valid : Forall valid_entry es;
  ve_ids : NoDup es.*1;
  ve_keys : NoDup ((λ e, key_digest e.2) <$> es) }.

Lemma parse_entries_Ok l : ∀ st st',
  foldM parse_entry st l = Ok st' →
  ∃ es, part_entry <$> l.*2 = Some <$> es ∧ valid_entries es ∧
    (∀ e, e ∈ es → (e.1 ∉ ks_seenIDs st) ∧ (key_digest e.2 ∉ ks_seenKeys st)) ∧
    ks_entries st' = ks_entries st ++ (entry_of <$> es).
Proof.
  induction l as [|x l IH]; intros st st' H; simpl in H.
  - injection H as <-. exists []. split_and!; [done|split; constructor|set_solver|by rewrite app_nil_r].
  - destruct (parse_entry st x) as [st1|] eqn:Hx; [|done].
    apply parse_entry_Ok in Hx as (e & He & Hv & Hi & Hk & ->).
    destruct (IH _ _ H) as (es & Hl & [Hes Hids Hkeys] & Hnew & Hst). cbn in Hnew, Hst.
    exists (e :: es). split_and!.
    + cbn. rewrite He. f_equal. exact Hl.
    + split; [by constructor|simpl; constructor; [|done]..].
      * intros (e' & Heq & He')%list_elem_of_fmap. destruct (Hnew e' He') as [Hn _].
        destruct Hn. rewrite <- Heq. set_solver.
      * intros (e' & Heq & He')%list_elem_of_fmap. destruct (Hnew e' He') as [_ Hn].
        destruct Hn. rewrite <- Heq. set_solver.
    + intros e' [->|He']%elem_of_cons; [done|]. destruct (Hnew e' He'). set_solver.
    + by rewrite Hst, <- app_assoc.
Qed.

Lemma parse_entries_complete l : ∀ st es,
  part_entry <$> l.*2 = Some <$> es → valid_entries es →
  (∀ e, e ∈ es → (e.1 ∉ ks_seenIDs st) ∧ (key_digest e.2 ∉ ks_seenKeys st)) →
  ∃ st', foldM parse_entry st l = Ok st' ∧ ks_entries st' = ks_entries st ++ (entry_of <$> es).
Proof.
  induction l as [|x l IH]; intros st [|e es] Hl [Hes Hids Hkeys] Hnew; simplify_eq/=.
  - exists st. by rewrite app_nil_r.
  - apply Forall_cons in Hes as [Hv Hes]. apply NoDup_cons in Hids as [Hi Hids].
    apply NoDup_cons in Hkeys as [Hk Hkeys]. destruct (Hnew e) as [Hi0 Hk0]; [by left|].
    destruct (parse_entry st x) as [st1|] eqn:Hx.
    + apply parse_entry_Ok in Hx as (e' & He' & _ & _ & _ & ->). assert (e' = e) as -> by congruence.
      destruct (IH {| ks_entries := ks_entries st ++ [entry_of e]; ks_seenIDs := {[e.1]} ∪ ks_seenIDs st;
                      ks_seenKeys := {[key_digest e.2]} ∪ ks_seenKeys st |} es) as (st' & Hst' & Hent);
        [done|done| |exists st'; split; [done|]; by rewrite Hent; cbn; rewrite <- app_assoc].
      intros e' He1. cbn. destruct (Hnew e') as [Hn1 Hn2]; [by right|].
      assert (e'.1 ∈ es.*1) by (apply list_elem_of_fmap; eauto).
      assert (key_digest e'.2 ∈ (λ e, key_digest e.2) <$> es) by (apply list_elem_of_fmap; eauto).
      set_solver.
    + exfalso. assert (Hok : ∃ st', parse_entry st x = Ok st').
      { eexists. apply parse_entry_Ok. exists e. by split_and!. }
      destruct Hok as [st' Hok]. congruence.
Qed.

Lemma indexed_snd {X} (l : list X) : (indexed l).*2 = l.
Proof. unfold indexed. apply snd_zip. by rewrite length_seq. Qed.

(** ** Resolving a key *)

Lemma Resolve_fold digest es : ∀ n st m f,
  foldl (resolve_step digest) st (zip (seq n (length es)) es) = (m, f) →
  ((digest ∉ ke_digest <$> es) ∧ m = st.1 ∧ f = st.2) ∨
  (∃ i e, es !! i = Some e ∧ ke_digest e = digest ∧ m = Z.of_nat (n + i) ∧ f = Z.lor st.2 1).
Proof.
  induction es as [|e es IH]; intros n st m f H; simpl in H.
  { left. subst. split; [set_solver|done]. }
  destruct (IH (S n) _ _ _ H) as [(Hn & -> & ->)|(i & e' & Hi & He' & -> & ->)];
    unfold resolve_step, ConstantTimeCompare, ConstantTimeSelect; cbn [fst snd];
    case_bool_decide as Heq; cbn [Z.eqb Pos.eqb].
  - right. exists 0%nat, e. split_and!; [done|done|f_equal; lia|done].
  - left. rewrite Z.lor_0_r. split; [|done]. cbn. set_solver.
  - right. exists (S i), e'. split_and!; [done|done|f_equal; lia|]. by rewrite <- Z.lor_assoc.
  - right. exists (S i), e'. rewrite Z.lor_0_r. split_and!; [done|done|f_equal; lia|done].
Qed.

Lemma Resolve_Some k presented id :
  NoDup (ke_digest <$> k_entries k) →
  Resolve k presented = Some id ↔
  ∃ e, e ∈ k_entries k ∧ ke_digest e = key_digest presented ∧ ke_agentID e = id.
Proof.
  intros Hnd. unfold Resolve, indexed.
  destruct (foldl _ _ _) as [m f] eqn:H. apply Resolve_fold in H. cbn [fst snd] in H. destruct H as [(Hn & -> & ->)|(i & e & Hi & He & -> & ->)].
  - split; [done|]. intros (e & Hin & He & _). destruct Hn. rewrite <- He.
    apply list_elem_of_fmap. eauto.
  - simpl. rewrite Nat2Z.id, Hi. simpl. split.
    + intros [= <-]. exists e. split_and!; [by eapply list_elem_of_lookup_2|done..].
    + intros (e' & [j Hj]%list_elem_of_lookup_1 & He' & <-).
      assert (i = j) as ->; [|congruence].
      eapply (NoDup_lookup _ _ _ (ke_digest e)); [exact Hnd|by rewrite list_lookup_fmap, Hi|].
      rewrite list_lookup_fmap, Hj. simpl. congruence.
Qed.

(** [ParseAgentKeys] accepts exactly the specifications that, trimmed, are
    a comma-separated list of agent-id:key entries with valid IDs and keys and
    no ID or key used twice; the keyring then holds their IDs and digests in
    configuration order. *)
Lemma parsed_keys spec k :
  ParseAgentKeys spec = Ok k ↔
  TrimSpace spec ≠ "" ∧ ∃ es, part_entry <$> strings_Split (TrimSpace spec) comma = Some <$> es ∧
    valid_entries es ∧ k = {| k_entries := entry_of <$> es |}.
Proof.
  unfold ParseAgentKeys. cbn zeta. case_bool_decide as Hs; [naive_solver|]. rewrite bind_Ok. split.
  - intros (st & (es & Hl & Hv & _ & He)%parse_entries_Ok & [= <-]). rewrite indexed_snd in Hl.
    split; [done|]. exists es. split_and!; [done|done|by rewrite He].
  - intros (_ & es & Hl & Hv & ->).
    destruct (parse_entries_complete (indexed (strings_Split (TrimSpace spec) comma))
      {| ks_entries := []; ks_seenIDs := ∅; ks_seenKeys := ∅ |} es) as (st & Hst & He).
    + by rewrite indexed_snd.
    + done.
    + intros e _. split; apply not_elem_of_empty.
    + exists st. split; [done|]. by rewrite He.
Qed.

Lemma Resolve_entries es presented id : valid_entries es →
  Resolve {| k_entries := entry_of <$> es |} presented = Some id ↔
  ∃ key, (id, key) ∈ es ∧ key_digest presented = key_digest key.
Proof.
  intros Hv. rewrite Resolve_Some by (cbn; rewrite <- list_fmap_compose; apply (ve_keys _ Hv)). cbn. split.
  - intros (e & ([i key] & -> & Hin)%list_elem_of_fmap & Hd & <-). by exists key.
  - intros (key & Hin & Hd). exists (entry_of (id, key)). split_and!; [apply list_elem_of_fmap; eauto|done..].
Qed.

(** C28: The keyring is the configured one, and identifies agents by their keys
    and by nothing else. Trimmed and split at its commas, the specification is
    accepted exactly when every part is an agent ID and a key of the required
    form and no ID or key is used twice. The agents are then those of the parts,
    in order, and a presented key resolves to an agent exactly when its SHA-256
    digest is that of the key which a part gives this agent. *)
Theorem Resolve_configured spec :
  let parts := strings_Split (TrimSpace spec) comma in
  match ParseAgentKeys spec with
  | Ok k => TrimSpace spec ≠ "" ∧ ∃ es, part_entry <$> parts = Some <$> es ∧ valid_entries es ∧ AgentIDs k = es.*1 ∧
      ∀ presented id, Resolve k presented = Some id ↔ ∃ key, (id, key) ∈ es ∧ key_digest presented = key_digest key
  | Err _ => TrimSpace spec = "" ∨ ∀ es, part_entry <$> parts = Some <$> es → ¬ valid_entries es
  end.
Proof.
  intros parts. destruct (ParseAgentKeys spec) as [k|e] eqn:E.
  - apply parsed_keys in E as (Hs & es & Hl & Hv & ->). split; [done|]. exists es.
    split_and!; [done|done|unfold AgentIDs; cbn; by rewrite <- list_fmap_compose|]. intros. by apply Resolve_entries.
  - destruct (decide (TrimSpace spec = "")) as [Hs|Hs]; [by left|]. right. intros es Hl Hv.
    assert (Hok : ParseAgentKeys spec = Ok {| k_entries := entry_of <$> es |}) by (apply parsed_keys; eauto).
    by rewrite Hok in E.
Qed.

(** A request whose key is not configured is answered with 401 and never
    reaches the handler behind the middleware; any other request reaches it
    with the key's agent, never an empty one, as its authenticated agent. *)
Theorem Middleware_authenticates {R} spec k (next : auth_context → R) apiKey ctx :
  ParseAgentKeys spec = Ok k →
  match Resolve k apiKey with
  | None => Middleware k next apiKey ctx = Unauthorized 401 unauthorized_body
  | Some id => Middleware k next apiKey ctx = Served (next (Some id)) ∧
               AgentIDFromContext (Some id) = Some id ∧ id ∈ AgentIDs k
  end.
Proof.
  intros Hp. unfold Middleware. destruct (Resolve k apiKey) as [id|] eqn:Hr; [|done].
  split; [done|]. apply parsed_keys in Hp as (_ & es & _ & Hv & ->).
  apply Resolve_entries in Hr as (key & Hin & _); [|done].
  split; [|unfold AgentIDs; cbn; rewrite <- list_fmap_compose; apply list_elem_of_fmap; by exists (id, key)].
  pose proof (proj1 (Forall_forall _ _) (ve_valid _ Hv) _ Hin) as (Hid & _). cbn in *.
  case_bool_decide as Hem; [|done]. rewrite Hem in Hid. discriminate.
Qed.

(** ** A keyring with two agents *)

Definition sample_spec : string := " agent-sim:0123456789abcdef,ops.1:fedcba9876543210-x ".
Definition sample_keyring : Keyring :=
  {| k_entries := [entry_of ("agent-sim", "0123456789abcdef"); entry_of ("ops.1", "fedcba9876543210-x")] |}.

Lemma sample_parsed : ParseAgentKeys sample_spec = Ok sample_keyring.
Proof. vm_compute. reflexivity. Qed.

Lemma Middleware_authenticates_witness :
  match Resolve sample_keyring "guess" with
  | None => Middleware sample_keyring (λ c, c) "guess" None = Unauthorized 401 unauthorized_body
  | Some id => Middleware sample_keyring (λ c, c) "guess" None = Served (Some id) ∧
               AgentIDFromContext (Some id) = Some id ∧ id ∈ AgentIDs sample_keyring
  end.
Proof. exact (Middleware_authenticates sample_spec sample_keyring (λ c, c) "guess" None sample_parsed). Defined.

Example sample_resolve :
  Resolve sample_keyring "fedcba9876543210-x" = Some "ops.1" ∧ Resolve sample_keyring "guess" = None ∧
  ParseAgentKeys "a:0123456789abcdef,b:0123456789abcdef" = Err (ReusedKey 2 "b") ∧
  ParseAgentKeys "a:short" = Err (KeyTooShort 1 "a").
Proof. vm_compute. done. Qed.
