(* ===== verification/Decision.v ===== *)
(** * internal/decision: request hash, policy evaluation, ingress verification

    [hash.go], [evaluate.go] and the pure part of [ingress.go]. *)

From S2P Require Import Prelude GoBase Sha256 Contracts Policy.
Open Scope Z_scope.
Open Scope go_scope.

(** ** hash.go *)

Definition requestHashDomain : string := "sentrygate.request.v1".

(** What [RequestHash] writes to the hash for one field: its length on eight
    bytes, then its bytes. *)
Definition hash_field (field : string) : list Z :=
  big_endian 8 (len field) ++ bytes_of_string field.

Definition request_encoding (p : AgentProposal) : list Z :=
  bytes_of_string requestHashDomain ++
  concat (map hash_field [p_ID p; p_Type p; p_TargetID p; p_Payload p]).

Definition RequestHash (p : AgentProposal) : string :=
  hex_encode (Sha256.Sum256 (request_encoding p)).

Lemma RequestHash_nonempty p : RequestHash p ≠ "".
Proof.
  intros E. apply (f_equal String.length) in E. unfold RequestHash in E.
  rewrite length_hex_encode, Sha256.Sum256_length in E. discriminate E.
Qed.

(** ** evaluate.go *)

(** [None] is a nil snapshot. *)
Definition Evaluate (s : option Snapshot) (agentID : string) (p : AgentProposal) : Decision :=
  match s with
  | None => {| d_Verdict := VerdictDeny; d_Reasons := [ReasonPolicyUnavailable];
               d_Environment := ""; d_PolicyVersion := ""; d_PolicyDigest := "" |}
  | Some s =>
      let deny := [] in
      let agentKnown := HasAgent s agentID in
      let deny := if negb agentKnown then deny ++ [ReasonAgentUnknown] else deny in
      let commandKnown := HasCommand s (p_Type p) in
      let deny := if negb commandKnown then deny ++ [ReasonCommandUnknown] else deny in
      let deny := if agentKnown && commandKnown && negb (AgentMayUse s agentID (p_Type p))
                  then deny ++ [ReasonCommandNotPermitted] else deny in
      let target := Snapshot_Target s (p_TargetID p) in
      let environment := match target with Some t => t_Environment t | None => "" end in
      let deny := match target with
                  | None => deny ++ [ReasonTargetUnregistered]
                  | Some t => if t_Protected t then deny ++ [ReasonTargetProtected] else deny
                  end in
      let mode := match target with
                  | Some t => (Snapshot_EnvironmentMode s (t_Environment t)).1
                  | None => ""
                  end in
      let deny := match target with
                  | Some _ => if mode == ModeDeny then deny ++ [ReasonEnvironmentDenied] else deny
                  | None => deny
                  end in
      let d verdict reasons :=
        {| d_Verdict := verdict; d_Reasons := reasons; d_Environment := environment;
           d_PolicyVersion := s_version s; d_PolicyDigest := s_digest s |} in
      if 0 <? Z.of_nat (length deny) then d VerdictDeny deny
      else if mode == ModeRequireApproval then d VerdictRequireApproval [ReasonApprovalRequired]
      else if mode == ModeAllow then d VerdictAllow [ReasonEnvironmentAllowed]
      else d VerdictDeny [ReasonPolicyUnavailable]
  end.

Definition Revalidate (s : option Snapshot) (req : ExecutionRequest) : Decision :=
  let d := Evaluate s (er_AgentID req) (er_Proposal req) in
  if RequestHash (er_Proposal req) != er_RequestHash req then
    let reasons := if d_Verdict d != VerdictDeny then [] else d_Reasons d in
    {| d_Verdict := VerdictDeny; d_Reasons := reasons ++ [ReasonRequestHashMismatch];
       d_Environment := d_Environment d; d_PolicyVersion := d_PolicyVersion d;
       d_PolicyDigest := d_PolicyDigest d |}
  else d.

(** [rand.Text()] is the argument. *)
Definition NewDecisionID (random : string) : string := "dec_" +:+ random.

(** ** ingress.go *)

Definition VerifyIngress (rec : DecisionRecord) (req : ExecutionRequest) (workflowID : string)
    : option error :=
  if (dr_DecisionID rec == "") || (dr_DecisionID rec != er_IngressDecisionID req)
  then Some (Sentinel ErrIngressDecisionNotFound)
  else if dr_Stage rec != StageIngress
  then Some (Wrap "" (Sentinel ErrIngressWrongStage) (": got " +:+ dr_Stage rec))
  else if dr_Verdict rec != VerdictAllow
  then Some (Wrap "" (Sentinel ErrIngressNotAllowed) (": got " +:+ dr_Verdict rec))
  else if dr_AgentID rec != er_AgentID req then Some (Sentinel ErrIngressAgentMismatch)
  else if dr_RequestHash rec != RequestHash (er_Proposal req)
  then Some (Sentinel ErrIngressHashMismatch)
  else if dr_ProposalID rec != p_ID (er_Proposal req)
  then Some (Wrap "" (Sentinel ErrIngressIdentityMismatch) ": proposal ID")
  else if (dr_WorkflowID rec == "") || (dr_WorkflowID rec != workflowID)
  then Some (Wrap "" (Sentinel ErrIngressIdentityMismatch) ": workflow ID")
  else None.

Definition IngressReason (err : error) : option ReasonCode :=
  if errors_Is err ErrIngressDecisionNotFound then Some ReasonIngressDecisionNotFound
  else if errors_Is err ErrIngressWrongStage then Some ReasonIngressDecisionWrongStage
  else if errors_Is err ErrIngressNotAllowed then Some ReasonIngressDecisionNotAllow
  else if errors_Is err ErrIngressAgentMismatch then Some ReasonIngressAgentMismatch
  else if errors_Is err ErrIngressHashMismatch then Some ReasonIngressHashMismatch
  else if errors_Is err ErrIngressIdentityMismatch then Some ReasonIngressIdentityMismatch
  else None.

(** [ExecutionKey] of claim.go. *)
Definition ExecutionKey (decisionID : string) : string := "sentrygate.exec.v1:" +:+ decisionID.

#[export] Instance ExecutionKey_inj : Inj (=) (=) ExecutionKey.
Proof. intros a b H. by apply append_inj_l in H. Qed.

Lemma ExecutionKey_nonempty d : ExecutionKey d ≠ "".
Proof. discriminate. Qed.

(** ** The request hash binds the whole proposal *)

(** Field sizes that fit the eight-byte length prefix, as every Go string's do. *)
Definition encodable (p : AgentProposal) : Prop :=
  Forall (λ f, len f < 2 ^ 64) [p_ID p; p_Type p; p_TargetID p; p_Payload p].

Lemma hash_field_inj f g r r' : len f < 2 ^ 64 → len g < 2 ^ 64 →
  hash_field f ++ r = hash_field g ++ r' → f = g ∧ r = r'.
Proof.
  unfold hash_field. intros Hf Hg H. rewrite <- !app_assoc in H.
  apply app_inj_1 in H as [Hlen H]; [|by rewrite !length_big_endian].
  apply big_endian_inj in Hlen; [|unfold len in *; lia..].
  unfold len in Hlen. apply app_inj_1 in H as [Hfg Hr]; [|rewrite !length_bytes_of_string; lia].
  by apply (inj bytes_of_string) in Hfg.
Qed.

Lemma request_encoding_inj p q : encodable p → encodable q →
  request_encoding p = request_encoding q → p = q.
Proof.
  unfold encodable, request_encoding. rewrite !Forall_cons.
  intros (?&?&?&?&_) (?&?&?&?&_) E. apply app_inj_1 in E as [_ E]; [|done].
  simpl in E.
  apply hash_field_inj in E as [E1 E]; [|done..].
  apply hash_field_inj in E as [E2 E]; [|done..].
  apply hash_field_inj in E as [E3 E]; [|done..].
  apply hash_field_inj in E as [E4 _]; [|done..].
  destruct p, q; simpl in *; congruence.
Qed.

(** C31: two proposals with the same request hash are the same proposal, field
    by field, unless their encodings are two different byte sequences with the
    same SHA-256 digest: the length prefixes leave no other ambiguity. *)
Theorem RequestHash_binding p q : encodable p → encodable q →
  RequestHash p = RequestHash q →
  p = q ∨ (request_encoding p ≠ request_encoding q ∧
           Sha256.Sum256 (request_encoding p) = Sha256.Sum256 (request_encoding q)).
Proof.
  intros Hp Hq H. apply hex_encode_inj in H; [|apply Sha256.Sum256_is_byte..].
  destruct (decide (request_encoding p = request_encoding q)) as [E|E];
    eauto using request_encoding_inj.
Qed.

(** The test suite's example and the shifted-boundary pair of hash_test.go. *)
Definition sample_proposal : AgentProposal :=
  {| p_ID := "p-1"; p_Type := CmdModifyRouting; p_TargetID := "edge-node-west-1"; p_Payload := "{}" |}.

Lemma RequestHash_binding_witness :
  RequestHash sample_proposal = RequestHash sample_proposal ∧
  (sample_proposal = sample_proposal ∨
   (request_encoding sample_proposal ≠ request_encoding sample_proposal ∧
    Sha256.Sum256 (request_encoding sample_proposal) = Sha256.Sum256 (request_encoding sample_proposal))).
Proof.
  split; [reflexivity|]. apply (RequestHash_binding sample_proposal sample_proposal).
  - repeat constructor; vm_compute; reflexivity.
  - repeat constructor; vm_compute; reflexivity.
  - reflexivity.
Defined.

Example field_boundaries :
  RequestHash {| p_ID := "ab"; p_Type := "C"; p_TargetID := "t"; p_Payload := "" |} ≠
  RequestHash {| p_ID := "a"; p_Type := "bC"; p_TargetID := "t"; p_Payload := "" |}.
Proof. vm_compute. discriminate. Qed.

(** ** Evaluation against its decision table *)

(** The deny rules in their documented order, each with the condition on the
    policy under which it applies. *)
Definition deny_table (s : Snapshot) (agentID : string) (p : AgentProposal) : list (bool * ReasonCode) :=
  let target := s_targets s !! p_TargetID p in
  [ (bool_decide (s_agents s !! agentID = None), ReasonAgentUnknown);
    (bool_decide (p_Type p ∉ s_commands s), ReasonCommandUnknown);
    (match s_agents s !! agentID with
     | Some cmds => bool_decide (p_Type p ∈ s_commands s ∧ p_Type p ∉ cmds)
     | None => false end, ReasonCommandNotPermitted);
    (bool_decide (target = None), ReasonTargetUnregistered);
    (match target with Some t => t_Protected t | None => false end, ReasonTargetProtected);
    (match target with
     | Some t => bool_decide (s_environments s !! t_Environment t = Some ModeDeny)
     | None => false end, ReasonEnvironmentDenied) ].

Definition deny_reasons (s : Snapshot) (agentID : string) (p : AgentProposal) : list ReasonCode :=
  (filter (λ c, c.1 = true) (deny_table s agentID p)).*2.

(** The environment's mode, the zero value when there is none. *)
Definition target_mode (s : Snapshot) (p : AgentProposal) : EnvironmentMode :=
  match s_targets s !! p_TargetID p with
  | Some t => default "" (s_environments s !! t_Environment t)
  | None => ""
  end.

(** [Evaluate] collects exactly the reasons of the table, in its order. *)
Lemma Evaluate_unfold s agentID p :
  Evaluate (Some s) agentID p =
  let d v r := {| d_Verdict := v; d_Reasons := r;
                  d_Environment := match s_targets s !! p_TargetID p with
                                   | Some t => t_Environment t | None => "" end;
                  d_PolicyVersion := s_version s; d_PolicyDigest := s_digest s |} in
  if bool_decide (deny_reasons s agentID p ≠ []) then d VerdictDeny (deny_reasons s agentID p)
  else if target_mode s p == ModeRequireApproval then d VerdictRequireApproval [ReasonApprovalRequired]
  else if target_mode s p == ModeAllow then d VerdictAllow [ReasonEnvironmentAllowed]
  else d VerdictDeny [ReasonPolicyUnavailable].
Proof.
  unfold deny_reasons, deny_table, target_mode.
  unfold Evaluate, HasAgent, HasCommand, AgentMayUse, Snapshot_Target, Snapshot_EnvironmentMode.
  destruct (s_agents s !! agentID) as [cmds|];
    destruct (decide (p_Type p ∈ s_commands s)) as [Hc|Hc];
    rewrite ?(bool_decide_eq_true_2 (p_Type p ∈ s_commands s)), ?(bool_decide_eq_false_2 (p_Type p ∈ s_commands s)) by done;
    try (destruct (decide (p_Type p ∈ cmds)));
    destruct (s_targets s !! p_TargetID p) as [[tid env prot]|]; simpl;
    try (destruct prot);
    try (destruct (s_environments s !! env) as [m|]; simpl; try destruct (decide (m = ModeDeny)) as [->|]);
    repeat (case_bool_decide; simpl); try reflexivity; try (exfalso; naive_solver).
Qed.

Lemma filter_none {A} (l : list (bool * A)) :
  (filter (λ c, c.1 = true) l).*2 = [] ↔ Forall (λ c, c.1 = false) l.
Proof.
  induction l as [|[[] x] l IH]; [done|simpl..]; rewrite Forall_cons; simpl; [naive_solver|].
  rewrite IH. naive_solver.
Qed.

(** No deny rule applies exactly when the agent may issue the catalogued
    command and the target is registered, unprotected and not in a denied
    environment. *)
Lemma deny_reasons_nil s agentID p : deny_reasons s agentID p = [] ↔
  ∃ cmds t, s_agents s !! agentID = Some cmds ∧ p_Type p ∈ s_commands s ∧ p_Type p ∈ cmds ∧
            s_targets s !! p_TargetID p = Some t ∧ t_Protected t = false ∧
            s_environments s !! t_Environment t ≠ Some ModeDeny.
Proof.
  unfold deny_reasons, deny_table. rewrite filter_none, !Forall_cons, Forall_nil. simpl.
  rewrite !bool_decide_eq_false. split.
  - intros (Ha & Hc & Hm & Ht & Hp & He & _).
    destruct (s_agents s !! agentID) as [cmds|]; [|done].
    destruct (s_targets s !! p_TargetID p) as [t|]; [|done].
    rewrite bool_decide_eq_false in Hm, He. apply dec_stable in Hc.
    exists cmds, t. repeat split; auto. apply dec_stable. tauto.
  - intros (cmds & t & -> & ? & ? & -> & ? & ?). rewrite !bool_decide_eq_false. naive_solver.
Qed.

(** C27: an agent's proposal is ALLOWed exactly when a policy is active, the
    agent is declared and may issue the command, the command is in the
    catalogue, the target is registered and not protected, and the target's
    environment is set to [allow]. *)
Theorem Evaluate_allow_iff s agentID p :
  d_Verdict (Evaluate s agentID p) = VerdictAllow ↔
  ∃ snap cmds t, s = Some snap ∧ s_agents snap !! agentID = Some cmds ∧
    p_Type p ∈ s_commands snap ∧ p_Type p ∈ cmds ∧
    s_targets snap !! p_TargetID p = Some t ∧ t_Protected t = false ∧
    s_environments snap !! t_Environment t = Some ModeAllow.
Proof.
  destruct s as [s|]; [|simpl; split; [done|naive_solver]].
  rewrite Evaluate_unfold. cbn zeta. unfold target_mode.
  case_bool_decide as Hd; cbn [d_Verdict].
  - split; [done|]. intros (snap & cmds & t & [= <-] & ? & ? & ? & ? & ? & He).
    destruct Hd. apply deny_reasons_nil. exists cmds, t. rewrite He. naive_solver.
  - apply deny_reasons_nil in Hd as (cmds & t & Ha & Hc & Hm & Ht & Hp & He).
    rewrite Ht. destruct (s_environments s !! t_Environment t) as [m|] eqn:E; simpl.
    + split.
      * intros Hv. exists s, cmds, t. repeat case_bool_decide; simplify_eq; naive_solver.
      * intros (? & ? & ? & [= <-] & _ & _ & _ & ? & _ & ?). by simplify_eq.
    + split; [done|]. intros (? & ? & ? & [= <-] & _ & _ & _ & ? & _ & ?). by simplify_eq.
Qed.

(** C29: on a validated policy, the decision is the documented table: DENY with
    every applicable deny reason, in order, when there is one; otherwise the
    target's environment decides between REQUIRE_APPROVAL and ALLOW, each with
    its single reason; the decision names the policy it was made under. *)
Theorem Evaluate_table s agentID p : valid_snapshot s →
  let d := Evaluate (Some s) agentID p in
  (d_PolicyVersion d = s_version s ∧ d_PolicyDigest d = s_digest s) ∧
  (if bool_decide (deny_reasons s agentID p = []) then
     (target_mode s p = ModeRequireApproval ∧
      d_Verdict d = VerdictRequireApproval ∧ d_Reasons d = [ReasonApprovalRequired]) ∨
     (target_mode s p = ModeAllow ∧
      d_Verdict d = VerdictAllow ∧ d_Reasons d = [ReasonEnvironmentAllowed])
   else d_Verdict d = VerdictDeny ∧ d_Reasons d = deny_reasons s agentID p).
Proof.
  intros Hs. cbn zeta. rewrite Evaluate_unfold. cbn zeta. split.
  { repeat case_bool_decide; done. }
  destruct (decide (deny_reasons s agentID p = [])) as [Hd|Hd].
  - rewrite bool_decide_eq_true_2, bool_decide_eq_false_2 by (done || tauto).
    apply deny_reasons_nil in Hd as (cmds & t & _ & _ & _ & Ht & _ & He).
    unfold target_mode. rewrite Ht.
    destruct (vs_targets s Hs _ _ Ht) as (_ & _ & m & Hm). rewrite Hm in *. simpl in *.
    destruct (vs_envs s Hs _ _ Hm) as [_ [-> | [-> | ->]]]; [right|left|congruence]; auto.
  - rewrite bool_decide_eq_false_2, bool_decide_eq_true_2 by done. done.
Qed.

Lemma Evaluate_table_witness :
  valid_snapshot default_snapshot ∧
  d_Verdict (Evaluate (Some default_snapshot) "agent-sim"
     {| p_ID := "p"; p_Type := "REBOOT_ALL"; p_TargetID := "ROOT_CORE_EDGE"; p_Payload := "" |}) = VerdictDeny ∧
  d_Reasons (Evaluate (Some default_snapshot) "agent-sim"
     {| p_ID := "p"; p_Type := "REBOOT_ALL"; p_TargetID := "ROOT_CORE_EDGE"; p_Payload := "" |}) =
     [ReasonCommandUnknown; ReasonTargetProtected].
Proof.
  split; [exact default_snapshot_valid|].
  set (p := {| p_ID := "p"; p_Type := "REBOOT_ALL"; p_TargetID := "ROOT_CORE_EDGE"; p_Payload := "" |}).
  destruct (Evaluate_table default_snapshot "agent-sim" p default_snapshot_valid) as [_ H].
  vm_compute in H. exact H.
Defined.

(** The verdict is always one of the three. *)
Lemma Evaluate_verdict s agentID p :
  d_Verdict (Evaluate s agentID p) ∈ [VerdictDeny; VerdictRequireApproval; VerdictAllow].
Proof.
  destruct s as [s|]; [|set_solver]. rewrite Evaluate_unfold. cbn zeta.
  repeat case_bool_decide; simpl; set_solver.
Qed.

(** Re-validation allows exactly what evaluation allows and whose content
    still has the request hash recorded at ingress; any other content is DENY
    with REQUEST_HASH_MISMATCH as its last reason. *)
Theorem Revalidate_spec s req :
  (d_Verdict (Revalidate s req) = VerdictAllow ↔
   d_Verdict (Evaluate s (er_AgentID req) (er_Proposal req)) = VerdictAllow ∧
   er_RequestHash req = RequestHash (er_Proposal req)) ∧
  (er_RequestHash req ≠ RequestHash (er_Proposal req) →
   d_Verdict (Revalidate s req) = VerdictDeny ∧
   last (d_Reasons (Revalidate s req)) = Some ReasonRequestHashMismatch).
Proof.
  unfold Revalidate. case_bool_decide as Hh; simpl; (split; [split|]); try naive_solver.
  intros _. by rewrite last_snoc.
Qed.

Lemma Revalidate_spec_witness :
  let req := {| er_AgentID := "agent-sim"; er_Proposal := sample_proposal;
                er_IngressDecisionID := "dec_1"; er_RequestHash := "forged" |} in
  d_Verdict (Revalidate (Some default_snapshot) req) = VerdictDeny ∧
  last (d_Reasons (Revalidate (Some default_snapshot) req)) = Some ReasonRequestHashMismatch.
Proof.
  intros req. apply (Revalidate_spec (Some default_snapshot) req). vm_compute. discriminate.
Defined.

(** ** Ingress verification *)

(** The record is an ingress ALLOW for exactly this execution. *)
Record authorizes (rec : DecisionRecord) (req : ExecutionRequest) (workflowID : string) : Prop := {
  au_id : dr_DecisionID rec = er_IngressDecisionID req;
  au_id_nonempty : dr_DecisionID rec ≠ "";
  au_stage : dr_Stage rec = StageIngress;
  au_verdict : dr_Verdict rec = VerdictAllow;
  au_agent : dr_AgentID rec = er_AgentID req;
  au_hash : dr_RequestHash rec = RequestHash (er_Proposal req);
  au_proposal : dr_ProposalID rec = p_ID (er_Proposal req);
  au_workflow : dr_WorkflowID rec = workflowID;
  au_workflow_nonempty : workflowID ≠ "" }.

Lemma VerifyIngress_None rec req workflowID :
  VerifyIngress rec req workflowID = None ↔ authorizes rec req workflowID.
Proof.
  unfold VerifyIngress. split.
  - intros H. repeat case_bool_decide; simplify_eq/=; constructor; congruence.
  - intros []. repeat (case_bool_decide; simpl); congruence.
Qed.

(** C30: [VerifyIngress] accepts a record exactly when it is an INGRESS ALLOW
    for the same decision, agent, proposal content, proposal ID and workflow;
    every rejection carries one of the six reason codes. *)
Theorem VerifyIngress_exact rec req workflowID :
  (VerifyIngress rec req workflowID = None ↔ authorizes rec req workflowID) ∧
  (∀ e, VerifyIngress rec req workflowID = Some e → is_Some (IngressReason e)).
Proof.
  split; [apply VerifyIngress_None|]. unfold VerifyIngress.
  intros e H. repeat (case_bool_decide; simplify_eq/=; try (vm_compute; by eexists)).
Qed.

Lemma VerifyIngress_exact_witness :
  let req := {| er_AgentID := "agent-sim"; er_Proposal := sample_proposal;
                er_IngressDecisionID := "dec_1"; er_RequestHash := RequestHash sample_proposal |} in
  let rec := {| dr_DecisionID := "dec_1"; dr_Stage := StageIngress; dr_ProposalID := "p-1";
                dr_AgentID := "agent-sim"; dr_RequestHash := RequestHash sample_proposal;
                dr_Command := CmdModifyRouting; dr_TargetID := "edge-node-west-1";
                dr_Environment := "staging"; dr_Verdict := VerdictAllow;
                dr_Reasons := [ReasonEnvironmentAllowed]; dr_PolicyVersion := "v"; dr_PolicyDigest := "d";
                dr_WorkflowID := "saga-p-1"; dr_TraceID := ""; dr_RecordedAt := 1 |} in
  authorizes rec req "saga-p-1" ∧
  is_Some (IngressReason (Wrap "" (Sentinel ErrIngressIdentityMismatch) ": workflow ID")).
Proof.
  intros req rec. split.
  - apply (VerifyIngress_exact rec req "saga-p-1"). vm_compute. reflexivity.
  - apply (VerifyIngress_exact rec req "saga-other"). vm_compute. reflexivity.
Defined.
