(* ===== verification/Proxy.v ===== *)
(** * proxy/proxy.go: evaluation slots

    What a request handler asks of its environment, the ingress evaluation as a
    program over it, and the bound on concurrent evaluations. *)

From S2P Require Import Prelude GoBase Contracts Policy Decision Loader.
Open Scope Z_scope.
Open Scope go_scope.

(** ** What handlers ask for *)

(** The answers of [json.Decoder.Decode] on a request body limited by
    [http.MaxBytesReader]: into the proposal, and into the rest. *)
Inductive decode_result := Decoded (p : AgentProposal) | DecodeTooLarge | DecodeError (err : string).
Inductive extra_result := ExtraEOF | ExtraTooLarge | ExtraOther.

(** The answers of [ExecuteWorkflow]: the IDs of a run, or an error. *)
Inductive start_error := AlreadyStarted | StartFailed.
Record StartWorkflowOptions := {
  so_ID : string; so_TaskQueue : string; so_ErrorWhenAlreadyStarted : bool }.

Inductive GateOp : Type :=
| GCtxErr
| GAcquireSlot
| GReleaseSlot
| GCurrent
| GDecode (into : AgentProposal)
| GDecodeExtra
| GRandom
| GTraceID
| GNow
| GAppendDecision (rec : DecisionRecord)
| GExecuteWorkflow (opts : StartWorkflowOptions) (req : ExecutionRequest)
| GListDecisions (proposalID : string)
| GListAudit (proposalID : string)
| GPolicyStatus
| GPing.

Definition GateReply (o : GateOp) : Type :=
  match o with
  | GCtxErr | GAcquireSlot | GAppendDecision _ | GPing => option error
  | GReleaseSlot => unit
  | GCurrent => option Snapshot
  | GDecode _ => decode_result
  | GDecodeExtra => extra_result
  | GRandom | GTraceID => string
  | GNow => Time
  | GExecuteWorkflow _ _ => result start_error (string * string)
  | GListDecisions _ => result error (list DecisionRecord)
  | GListAudit _ => result error (list AuditRecord)
  | GPolicyStatus => Status
  end.

Abbreviation gate := (prog GateOp GateReply).
Definition gop (o : GateOp) : gate (GateReply o) := op o.

(** ** The proposal pool *)

Definition zeroProposal : AgentProposal := {| p_ID := ""; p_Type := ""; p_TargetID := ""; p_Payload := "" |}.
(** Whatever envelope the pool hands out, it is zeroed. *)
Definition AcquireProposal (pooled : option AgentProposal) : AgentProposal := zeroProposal.
Definition ReleaseProposal (p : AgentProposal) : AgentProposal := zeroProposal.

(** ** Evaluation *)

Definition NewSentryProxy_slots (maxParallel : Z) : Z := if maxParallel <? 1 then 1 else maxParallel.

Definition Proxy_Evaluate (agentID : string) (prop : AgentProposal) : gate Contracts.Decision :=
  s ← gop GCurrent;
  mret (Evaluate s agentID prop).

(** [GAcquireSlot] is the [select]: [None] when a slot was taken, the context's
    error when it ended first. *)
Definition EvaluateThrottled (agentID : string) (prop : AgentProposal) : gate (result error Contracts.Decision) :=
  e ← gop GCtxErr;
  match e with
  | Some err => mret (Err err)
  | None =>
      e ← gop GAcquireSlot;
      match e with
      | Some err => mret (Err err)
      | None =>
          d ← Proxy_Evaluate agentID prop;
          _ ← gop GReleaseSlot;
          mret (Ok d)
      end
  end.

(** ** The slot pool under concurrent requests *)

(** Requests in evaluation and the number of values in the channel. *)
Record slots := { sl_used : Z; sl_requests : list (gate (result error Contracts.Decision)) }.

Section Slots.
Context (maxParallel : Z).

(** The channel lets a send through only below its capacity and a receive only
    when it holds a value. *)
Definition slot_effect (o : GateOp) : GateReply o → Z → option Z :=
  match o return GateReply o → Z → option Z with
  | GAcquireSlot => λ r n, match r with
                           | None => if n <? NewSentryProxy_slots maxParallel then Some (n + 1) else None
                           | Some _ => Some n
                           end
  | GReleaseSlot => λ _ n, if 0 <? n then Some (n - 1) else None
  | _ => λ _ n, Some n
  end.

Inductive slot_step : slots → slots → Prop :=
| slot_request s agentID prop :
    slot_step s {| sl_used := sl_used s; sl_requests := sl_requests s ++ [EvaluateThrottled agentID prop] |}
| slot_serve s i o k r n :
    sl_requests s !! i = Some (Call o k) → slot_effect o r (sl_used s) = Some n →
    slot_step s {| sl_used := n; sl_requests := <[i := k r]> (sl_requests s) |}.

(** ** Slots are balanced *)

(** A request that holds a slot is about to read the policy or to give the slot
    back. *)
Definition holding {B} (p : gate B) : bool :=
  match p with Call GCurrent _ | Call GReleaseSlot _ => true | _ => false end.

Definition holding_after (o : GateOp) (r : GateReply o) (h : bool) : bool :=
  match o return GateReply o → bool with
  | GAcquireSlot => λ r, match r with None => true | Some _ => h end
  | GReleaseSlot => λ _, false
  | _ => λ _, h
  end r.

Fixpoint balanced {B} (p : gate B) : Prop :=
  match p with
  | Ret _ => True
  | Call o k => (o = GAcquireSlot → holding p = false) ∧
                ∀ r, balanced (k r) ∧ holding (k r) = holding_after o r (holding p)
  end.

Lemma EvaluateThrottled_balanced agentID prop :
  holding (EvaluateThrottled agentID prop) = false ∧ balanced (EvaluateThrottled agentID prop).
Proof.
  split; [done|]. cbn. split; [done|]. intros [e|]; cbn; [done|]. split; [|done]. split; [done|].
  intros [e|]; cbn; [done|]. split; [|done]. split; [done|]. intros snap. cbn. split; [|done].
  split; [done|]. by intros [].
Qed.

Definition holders (s : slots) : nat := length (List.filter holding (sl_requests s)).

Definition slots_inv (s : slots) : Prop :=
  sl_used s = Z.of_nat (holders s) ∧ sl_used s <= NewSentryProxy_slots maxParallel ∧
  Forall balanced (sl_requests s).

Lemma slot_step_inv s s' : slots_inv s → slot_step s s' → slots_inv s'.
Proof.
  intros (Hu & Hc & Hb) Hst. destruct Hst as [s agentID prop|s i o k r n Hi Hn].
  - destruct (EvaluateThrottled_balanced agentID prop) as [Hh Hbal]. split_and!; [|done|].
    + unfold holders. cbn [sl_used sl_requests]. rewrite filter_snoc_count, Hh, Nat.add_0_r. exact Hu.
    + apply Forall_app. split; [done|by constructor].
  - pose proof (proj1 (Forall_lookup _ _) Hb i _ Hi) as [Hacq Hk]. destruct (Hk r) as [Hbk Hh].
    pose proof (filter_insert_count holding _ _ _ (k r) Hi) as Hcnt. rewrite Hh in Hcnt.
    unfold slots_inv, holders in *. cbn [sl_used sl_requests].
    assert (Hbal : Forall balanced (<[i := k r]> (sl_requests s))) by by apply Forall_insert.
    destruct o; cbn in Hn, Hcnt; simplify_eq; try (split_and!; [lia|lia|done]).
    + destruct r as [e|]; [simplify_eq; split_and!; [lia|lia|done]|].
      destruct (Z.ltb_spec (sl_used s) (NewSentryProxy_slots maxParallel)); simplify_eq.
      split_and!; [lia|lia|done].
    + destruct (Z.ltb_spec 0 (sl_used s)); simplify_eq. split_and!; [lia|lia|done].
Qed.

(** C40: However many requests are evaluated at once, at most [maxParallel]
    (at least one) hold an evaluation slot; the channel holds exactly one value
    per such request, so giving a slot back never blocks; and once every
    request has its answer all slots are free. *)
Theorem slots_bounded s :
  rtc slot_step {| sl_used := 0; sl_requests := [] |} s →
  Z.of_nat (holders s) <= Z.max 1 maxParallel ∧ sl_used s = Z.of_nat (holders s) ∧
  (∀ i k, sl_requests s !! i = Some (Call GReleaseSlot k) → slot_effect GReleaseSlot tt (sl_used s) ≠ None) ∧
  (Forall (λ p, ∃ d, p = Ret d) (sl_requests s) → sl_used s = 0).
Proof.
  intros Hr. assert (Hinv : slots_inv s).
  { assert (H0 : slots_inv {| sl_used := 0; sl_requests := [] |}).
    { split_and!; cbn; [done| |by constructor]. unfold NewSentryProxy_slots. case_match; lia. }
    revert H0. induction Hr; eauto using slot_step_inv. }
  destruct Hinv as (Hu & Hc & Hb). split_and!; [|done| |].
  - unfold NewSentryProxy_slots in Hc. destruct (Z.ltb_spec maxParallel 1); lia.
  - intros i k Hi. cbn. destruct (Z.ltb_spec 0 (sl_used s)) as [|Hle]; [done|]. exfalso.
    assert (Hpos : (0 < holders s)%nat).
    { unfold holders. apply (list_elem_of_lookup_2 _ _ _) in Hi.
      apply list_elem_of_split in Hi as (l1 & l2 & ->).
      rewrite List.filter_app, length_app. cbn. lia. }
    lia.
  - intros Hdone. rewrite Hu. unfold holders. clear -Hdone.
    induction Hdone as [|p l [d ->] Hl IH]; [done|exact IH].
Qed.
End Slots.

(** Two requests and one slot: the second cannot be served a slot. *)
Definition one_waiting : slots :=
  {| sl_used := 1;
     sl_requests := [(d ← Proxy_Evaluate "a" zeroProposal; _ ← gop GReleaseSlot; mret (Ok d));
                     EvaluateThrottled "b" zeroProposal] |}.

Lemma one_waiting_reached : rtc (slot_step 0) {| sl_used := 0; sl_requests := [] |} one_waiting.
Proof.
  eapply rtc_l; [apply (slot_request 0 _ "a" zeroProposal)|].
  eapply rtc_l; [apply (slot_request 0 _ "b" zeroProposal)|].
  eapply rtc_l; [eapply (slot_serve 0 _ 0 GCtxErr _ None 0); reflexivity|].
  eapply rtc_l; [eapply (slot_serve 0 _ 0 GAcquireSlot _ None 1); reflexivity|].
  apply rtc_refl.
Qed.

Lemma slots_bounded_witness : Z.of_nat (holders one_waiting) <= Z.max 1 0.
Proof. exact (proj1 (slots_bounded 0 one_waiting one_waiting_reached)). Defined.
