(* ===== verification/Clients.v ===== *)
(** * proxy/clients.go: the in-memory F5 and Zscaler simulators

    One state record per client and one function per method; [now] is what
    time.Now() returns when the method asks for it. *)

From S2P Require Import Prelude GoBase GoTime Contracts.
Open Scope Z_scope.
Open Scope go_scope.

(** [Time.UnixNano]. *)
Definition unixEpoch : Time := days_of_date 1970 1 1 * Day.
Definition UnixNano (t : Time) : Z := int64 (t - unixEpoch).

(** ** The F5 BIG-IP simulator *)

Module MockF5Client.

Record CertUpdateRequest := {
  VirtualServer : string; CommonName : string; CertPEM : string; KeyPEM : string;
  ChainPEM : string; ACMEOrderID : string }.
Record CertUpdateResult := {
  ProfileName : string; AppliedAt : Time; FingerprintSHA : string; TLSVersion : string }.
Record RoutingUpdateRequest := { PoolName : string; Members : list string; PersistKey : string }.

Record t := {
  authenticated : bool; token : string; appliedCerts : gmap string CertUpdateResult;
  FailAuth : bool; FailCertPush : bool }.

Definition NewMockF5Client : t :=
  {| authenticated := false; token := ""; appliedCerts := ∅; FailAuth := false; FailCertPush := false |}.

Definition Authenticate (ctx : context) (now : Time) (c : t) : t * option error :=
  match ctx_Err ctx with
  | Some err => (c, Some err)
  | None =>
      if FailAuth c then (c, Some (Sentinel ErrAuthHandshakeFailed))
      else ({| authenticated := true; token := "f5-mock-token-" +:+ pretty (UnixNano now);
               appliedCerts := appliedCerts c; FailAuth := FailAuth c; FailCertPush := FailCertPush c |}, None)
  end.

Definition requireAuth (c : t) : option error :=
  if negb (authenticated c) || (token c == "") then Some (Sentinel ErrAuthHandshakeFailed) else None.

Definition UpdateCertificate (ctx : context) (now : Time) (req : CertUpdateRequest) (c : t)
    : t * result error CertUpdateResult :=
  match ctx_Err ctx with
  | Some err => (c, Err err)
  | None =>
      match requireAuth c with
      | Some err => (c, Err err)
      | None =>
          if FailCertPush c then (c, Err (Sentinel NonRetryableInfraError))
          else if (CommonName req == "") || (CertPEM req == "") || (KeyPEM req == "")
          then (c, Err (Wrap "" (Sentinel NonRetryableInfraError) ": incomplete Let's Encrypt certificate bundle"))
          else
            let result :=
              {| ProfileName := "clientssl-" +:+ VirtualServer req; AppliedAt := UTC now;
                 FingerprintSHA := "sha256:mock-" +:+ CommonName req +:+ "-" +:+ ACMEOrderID req;
                 TLSVersion := "TLS1.3" |} in
            ({| authenticated := authenticated c; token := token c;
                appliedCerts := <[VirtualServer req := result]> (appliedCerts c);
                FailAuth := FailAuth c; FailCertPush := FailCertPush c |}, Ok result)
      end
  end.

Definition ModifyRouting (ctx : context) (req : RoutingUpdateRequest) (c : t) : option error :=
  match ctx_Err ctx with
  | Some err => Some err
  | None =>
      match requireAuth c with
      | Some err => Some err
      | None => if PoolName req == ""
                then Some (Wrap "" (Sentinel NonRetryableInfraError) ": empty pool name") else None
      end
  end.

Definition HealthProbe (ctx : context) (c : t) : option error :=
  match ctx_Err ctx with Some err => Some err | None => requireAuth c end.

(** A certificate reaches a virtual server only through an authenticated
    client, and then that server has the result returned and no other changes. *)
Lemma UpdateCertificate_applied ctx now req c c' r :
  UpdateCertificate ctx now req c = (c', Ok r) →
  HealthProbe CtxLive c = None ∧ CertPEM req ≠ "" ∧ KeyPEM req ≠ "" ∧
  appliedCerts c' = <[VirtualServer req := r]> (appliedCerts c).
Proof.
  unfold UpdateCertificate, HealthProbe. simpl. intros Hu. repeat case_match; simplify_eq.
  rewrite !orb_false_iff, !bool_decide_eq_false in *. naive_solver.
Qed.

Lemma UpdateCertificate_refused ctx now req c c' e :
  UpdateCertificate ctx now req c = (c', Err e) → c' = c.
Proof. unfold UpdateCertificate. intros Hu. repeat case_match; by simplify_eq. Qed.
End MockF5Client.

(** ** The Zscaler simulator *)

Module MockZscalerClient.

Abbreviation ZscalerPolicyAction := string (only parsing).
Definition ZscalerActionAllow : ZscalerPolicyAction := "ALLOW".
Definition ZscalerActionBlock : ZscalerPolicyAction := "BLOCK".
Definition ZscalerActionDelete : ZscalerPolicyAction := "DELETE".

Record ZscalerPolicyRequest := {
  q_PolicyID : string; q_Action : ZscalerPolicyAction; q_AppSegment : string;
  q_UserGroup : string; q_SourceIPCIDR : string }.
Record ZscalerPolicyResult := { r_PolicyID : string; r_Revision : Z; r_AppliedAt : Time }.

Record t := {
  authenticated : bool; sessionToken : string; policies : gmap string ZscalerPolicyResult; FailAuth : bool }.

Definition NewMockZscalerClient : t :=
  {| authenticated := false; sessionToken := ""; policies := ∅; FailAuth := false |}.

Definition with_policies (c : t) (m : gmap string ZscalerPolicyResult) : t :=
  {| authenticated := authenticated c; sessionToken := sessionToken c; policies := m; FailAuth := FailAuth c |}.

Definition Authenticate (ctx : context) (now : Time) (c : t) : t * option error :=
  match ctx_Err ctx with
  | Some err => (c, Some err)
  | None =>
      if FailAuth c then (c, Some (Sentinel ErrAuthHandshakeFailed))
      else ({| authenticated := true; sessionToken := "zs-session-" +:+ pretty (UnixNano now);
               policies := policies c; FailAuth := FailAuth c |}, None)
  end.

Definition requireAuth (c : t) : option error :=
  if negb (authenticated c) || (sessionToken c == "") then Some (Sentinel ErrAuthHandshakeFailed) else None.

(** The revision of an absent policy is that of the zero value. *)
Definition revision (c : t) (policyID : string) : Z := default 0 (r_Revision <$> policies c !! policyID).

Definition UpsertPolicy (ctx : context) (now : Time) (req : ZscalerPolicyRequest) (c : t)
    : t * result error ZscalerPolicyResult :=
  match ctx_Err ctx with
  | Some err => (c, Err err)
  | None =>
      match requireAuth c with
      | Some err => (c, Err err)
      | None =>
          if (q_PolicyID req == "") || (q_AppSegment req == "")
          then (c, Err (Wrap "" (Sentinel NonRetryableInfraError) ": incomplete Zero-Trust policy payload"))
          else
            let result := {| r_PolicyID := q_PolicyID req; r_Revision := int64 (revision c (q_PolicyID req) + 1);
                             r_AppliedAt := UTC now |} in
            (with_policies c (<[q_PolicyID req := result]> (policies c)), Ok result)
      end
  end.

Definition DeletePolicy (ctx : context) (policyID : string) (c : t) : t * option error :=
  match ctx_Err ctx with
  | Some err => (c, Some err)
  | None =>
      match requireAuth c with
      | Some err => (c, Some err)
      | None => if policyID == RootCoreEdgeID then (c, Some (Sentinel ErrRootCoreMutation))
                else (with_policies c (delete policyID (policies c)), None)
      end
  end.

Definition GetPolicyRevision (ctx : context) (policyID : string) (c : t) : result error Z :=
  match ctx_Err ctx with
  | Some err => Err err
  | None =>
      match requireAuth c with
      | Some err => Err err
      | None => match policies c !! policyID with
                | None => Err (Text [Lit "policy "; Quo policyID; Lit " not found"])
                | Some p => Ok (r_Revision p)
                end
      end
  end.

(** ** Revisions under any sequence of calls *)

Inductive call : Type :=
| CAuthenticate (ctx : context) (now : Time)
| CUpsert (ctx : context) (now : Time) (req : ZscalerPolicyRequest)
| CDelete (ctx : context) (policyID : string).

Definition is_ok {A} (r : result error A) : bool := match r with Ok _ => true | Err _ => false end.

(** The client and, for policy [p], how often it was written since it was last
    deleted. *)
Definition step (p : string) (x : t * Z) (a : call) : t * Z :=
  let '(c, n) := x in
  match a with
  | CAuthenticate ctx now => ((Authenticate ctx now c).1, n)
  | CUpsert ctx now req =>
      let '(c', r) := UpsertPolicy ctx now req c in
      (c', if is_ok r && (q_PolicyID req == p) then n + 1 else n)
  | CDelete ctx id =>
      let '(c', err) := DeletePolicy ctx id c in
      (c', if (err == None) && (id == p) then 0 else n)
  end.
Definition run (p : string) (calls : list call) : t * Z := foldl (step p) (NewMockZscalerClient, 0) calls.

(** What the client knows of a policy that was written [n] times. *)
Definition counted (p : string) (x : t * Z) : Prop :=
  0 <= x.2 ∧ (x.2 = 0 → policies x.1 !! p = None) ∧
  (0 < x.2 → ∃ r, policies x.1 !! p = Some r ∧ r_PolicyID r = p ∧ r_Revision r = int64 x.2).

Lemma step_counted p x a : counted p x → counted p (step p x a).
Proof.
  destruct x as [c n]. intros (Hn & H0 & H1). cbn in Hn, H0, H1.
  destruct a as [ctx now|ctx now req|ctx id]; cbn.
  - unfold Authenticate. repeat case_match; done.
  - unfold UpsertPolicy. destruct (ctx_Err ctx); [done|]. destruct (requireAuth c); [done|].
    destruct ((q_PolicyID req == "") || _); [done|]. cbn. case_bool_decide as Hp; cbn.
    + split; [|split]; cbn; [lia|lia|]. intros _. subst p. rewrite lookup_insert_eq.
      eexists. split_and!; [done..|]. cbn. unfold revision. destruct (Z.eq_dec n 0) as [->|].
      * by rewrite H0.
      * destruct H1 as (r & -> & _ & Hr); [lia|]. cbn. by rewrite Hr, int64_add.
    + split; [|split]; cbn; [done|..]; by rewrite lookup_insert_ne.
  - unfold DeletePolicy. destruct (ctx_Err ctx); [done|]. destruct (requireAuth c); [done|].
    destruct (id == RootCoreEdgeID); [done|]. cbn. case_bool_decide as Hp; cbn.
    + split; [|split]; cbn; [lia| |lia]. subst. by rewrite lookup_delete_eq.
    + split; [|split]; cbn; [done|..]; by rewrite lookup_delete_ne.
Qed.

Lemma run_counted p calls : counted p (run p calls).
Proof.
  unfold run. assert (Hc : counted p (NewMockZscalerClient, 0)).
  { split; [|split]; cbn; [lia|intros; apply lookup_empty|lia]. }
  revert Hc. generalize (NewMockZscalerClient, 0). induction calls as [|a calls IH]; intros x Hx; [done|].
  cbn. apply IH. by apply step_counted.
Qed.

(** After any sequence of calls, an authenticated client reports as the revision
    of a policy how often it was written since it was last deleted, as an
    int64, and an error exactly when that is never. *)
Theorem revision_counts_writes p calls : let '(c, n) := run p calls in
  requireAuth c = None →
  GetPolicyRevision CtxLive p c =
  if n =? 0 then Err (Text [Lit "policy "; Quo p; Lit " not found"]) else Ok (int64 n).
Proof.
  pose proof (run_counted p calls) as Hc. destruct (run p calls) as [c n]. destruct Hc as (Hn & H0 & H1).
  cbn in *. intros Ha. unfold GetPolicyRevision. cbn. rewrite Ha.
  destruct (Z.eqb_spec n 0) as [->|]; [by rewrite H0|]. by destruct H1 as (r & -> & _ & ->); [lia|].
Qed.

(** The protected policy is never deleted: its count only grows. *)
Lemma root_core_kept c n calls : n <= (foldl (step RootCoreEdgeID) (c, n) calls).2.
Proof.
  revert c n. induction calls as [|a calls IH]; intros c n; cbn [foldl]; [cbn; lia|].
  assert (Hs : n <= (step RootCoreEdgeID (c, n) a).2).
  { destruct a as [ctx now|ctx now req|ctx id]; cbn; [lia|..].
    - destruct (UpsertPolicy ctx now req c) as [c' r]. case_match; cbn; lia.
    - unfold DeletePolicy. destruct (ctx_Err ctx); [done|]. destruct (requireAuth c); [done|].
      case_bool_decide; cbn -[RootCoreEdgeID]; [lia|]. repeat case_match; lia || done. }
  destruct (step RootCoreEdgeID (c, n) a) as [c' n']. cbn in Hs. specialize (IH c' n'). lia.
Qed.
End MockZscalerClient.
