(* ===== verification/Handler.v ===== *)
(** * cmd/sentrygate/handler.go: the HTTP API

    Each handler is a program over [GateOp]. The answers (request bodies, the
    policy, the stores, Temporal) are the environment's. *)

From S2P Require Import Prelude GoBase Contracts Policy Loader Auth Decision Proxy.
Open Scope Z_scope.
Open Scope go_scope.

Definition maxBodyBytes : Z := Z.shiftl 64 10.
Definition proposalIDPattern : pattern := uniform (λ a, alnum a || one_of "._:-" a) 1 128.
Definition proposalIDPattern_String : string := "^[A-Za-z0-9._:-]{1,128}$".

Definition StatusOK : Z := 200.
Definition StatusBadRequest : Z := 400.
Definition StatusUnauthorized : Z := 401.
Definition StatusForbidden : Z := 403.
Definition StatusConflict : Z := 409.
Definition StatusRequestEntityTooLarge : Z := 413.
Definition StatusInternalServerError : Z := 500.
Definition StatusBadGateway : Z := 502.
Definition StatusServiceUnavailable : Z := 503.

Record interceptResponse := {
  ir_Status : string; ir_Verdict : string; ir_Reasons : list string; ir_DecisionID : string;
  ir_ProposalID : string; ir_WorkflowID : string; ir_RunID : string; ir_Next : string; ir_Error : string }.

(** A written response: its status code and what is encoded in its body. *)
Inductive response : Type :=
| JSON (status : Z) (body : interceptResponse)
| JSONDecisions (status : Z) (rows : list DecisionRecord)
| JSONAudit (status : Z) (rows : list AuditRecord)
| JSONStatus (status : Z) (st : Status)
| Plain (status : Z) (text : string).

Definition writeError (status : Z) (statusText msg : string) : response :=
  JSON status {| ir_Status := statusText; ir_Verdict := ""; ir_Reasons := []; ir_DecisionID := "";
                 ir_ProposalID := ""; ir_WorkflowID := ""; ir_RunID := ""; ir_Next := ""; ir_Error := msg |}.

(** ** The read-only handlers *)

Definition healthz : gate response := mret (Plain StatusOK "ok").

Definition readyz : gate response :=
  e ← gop GPing;
  match e with
  | Some _ => mret (Plain StatusServiceUnavailable "audit db not ready")
  | None => mret (Plain StatusOK "ready")
  end.

Definition policyStatus : gate response :=
  st ← gop GPolicyStatus;
  mret (JSONStatus StatusOK st).

Definition decisionsByProposal (id : string) : gate response :=
  if negb (MatchString proposalIDPattern id)
  then mret (writeError StatusBadRequest "invalid" "invalid proposal id")
  else
    r ← gop (GListDecisions id);
    match r with
    | Err _ => mret (writeError StatusInternalServerError "error" "internal error")
    | Ok rows => mret (JSONDecisions StatusOK rows)
    end.

Definition auditByProposal (id : string) : gate response :=
  if negb (MatchString proposalIDPattern id)
  then mret (writeError StatusBadRequest "invalid" "invalid proposal id")
  else
    r ← gop (GListAudit id);
    match r with
    | Err _ => mret (writeError StatusInternalServerError "error" "internal error")
    | Ok rows => mret (JSONAudit StatusOK rows)
    end.

(** ** Decoding a proposal *)

Definition tooLargeMessage : string := "request body exceeds 65536 bytes".

(** The status and message of a failure, or the proposal. *)
Definition decodeProposal (prop : AgentProposal) : gate (result (Z * string) AgentProposal) :=
  r ← gop (GDecode prop);
  match r with
  | DecodeTooLarge => mret (Err (StatusRequestEntityTooLarge, tooLargeMessage))
  | DecodeError err => mret (Err (StatusBadRequest, "invalid agent proposal: " +:+ err))
  | Decoded prop =>
      x ← gop GDecodeExtra;
      match x with
      | ExtraTooLarge => mret (Err (StatusRequestEntityTooLarge, tooLargeMessage))
      | ExtraOther => mret (Err (StatusBadRequest, "invalid agent proposal: unexpected data after JSON object"))
      | ExtraEOF =>
          if negb (MatchString proposalIDPattern (p_ID prop))
          then mret (Err (StatusBadRequest, "invalid agent proposal: id must match " +:+ proposalIDPattern_String))
          else mret (Ok prop)
      end
  end.

(** ** Intercept *)

Section Intercept.
Context (taskQueue : string).

Definition workflowID_of (prop : AgentProposal) : string := "saga-" +:+ p_ID prop.

Definition ingress_record (agentID : string) (prop : AgentProposal) (d : Contracts.Decision)
    (random trace : string) (now : Time) : DecisionRecord :=
  {| dr_DecisionID := NewDecisionID random; dr_Stage := StageIngress; dr_ProposalID := p_ID prop;
     dr_AgentID := agentID; dr_RequestHash := RequestHash prop; dr_Command := p_Type prop;
     dr_TargetID := p_TargetID prop; dr_Environment := d_Environment d; dr_Verdict := d_Verdict d;
     dr_Reasons := d_Reasons d; dr_PolicyVersion := d_PolicyVersion d;
     dr_PolicyDigest := d_PolicyDigest d;
     dr_WorkflowID := if d_Verdict d == VerdictAllow then workflowID_of prop else "";
     dr_TraceID := trace; dr_RecordedAt := UTC now |}.

Definition execution_request (agentID : string) (prop : AgentProposal) (rec : DecisionRecord) : ExecutionRequest :=
  {| er_AgentID := agentID; er_Proposal := prop; er_IngressDecisionID := dr_DecisionID rec;
     er_RequestHash := dr_RequestHash rec |}.

Definition is_err (e : option error) : bool := match e with Some _ => true | None => false end.

(** The part after the decision has been recorded, or could not be. *)
Definition answer_verdict (agentID : string) (prop : AgentProposal) (d : Contracts.Decision)
    (rec : DecisionRecord) (recordErr : option error) : gate response :=
  let resp status wid rid next err :=
    {| ir_Status := status; ir_Verdict := d_Verdict d; ir_Reasons := d_Reasons d;
       ir_DecisionID := if is_err recordErr then "" else dr_DecisionID rec;
       ir_ProposalID := p_ID prop; ir_WorkflowID := wid; ir_RunID := rid; ir_Next := next; ir_Error := err |} in
  if d_Verdict d == VerdictDeny then mret (JSON StatusForbidden (resp "rejected" "" "" "" ""))
  else if d_Verdict d == VerdictRequireApproval
  then mret (JSON StatusForbidden (resp "not_executed" "" "" "" ""))
  else if d_Verdict d != VerdictAllow
  then mret (writeError StatusInternalServerError "error" "internal error")
  else if is_err recordErr
  then mret (writeError StatusServiceUnavailable "unavailable" "decision could not be recorded; proposal not executed")
  else
    r ← gop (GExecuteWorkflow
          {| so_ID := workflowID_of prop; so_TaskQueue := taskQueue; so_ErrorWhenAlreadyStarted := true |}
          (execution_request agentID prop rec));
    match r with
    | Err AlreadyStarted =>
        mret (JSON StatusConflict (resp "not_executed" "" "" ""
          "a workflow for this proposal id is already running; this request was not executed"))
    | Err StartFailed => mret (writeError StatusBadGateway "error" "failed to start workflow")
    | Ok (wid, rid) =>
        mret (JSON StatusOK (resp "accepted" wid rid
          ("GET /v1/decisions/" +:+ p_ID prop +:+ " and /v1/audit/" +:+ p_ID prop) ""))
    end.

Definition intercept (pooled : option AgentProposal) (ctx : auth_context) : gate response :=
  match AgentIDFromContext ctx with
  | None => mret (writeError StatusUnauthorized "unauthorized" "missing or invalid API key")
  | Some agentID =>
      dp ← decodeProposal (AcquireProposal pooled);
      match dp with
      | Err (status, msg) => mret (writeError status "invalid" msg)
      | Ok prop =>
          dr ← EvaluateThrottled agentID prop;
          match dr with
          | Err _ => mret (writeError StatusServiceUnavailable "unavailable" "request cancelled before evaluation")
          | Ok d =>
              random ← gop GRandom;
              trace ← gop GTraceID;
              now ← gop GNow;
              let rec := ingress_record agentID prop d random trace now in
              recordErr ← gop (GAppendDecision rec);
              answer_verdict agentID prop d rec recordErr
          end
      end
  end.
End Intercept.

(** ** The routes *)

Inductive route : Type :=
| RIntercept | RDecisions (id : string) | RAudit (id : string) | RPolicy | RHealthz | RReadyz.

(** The handler behind a route; everything under /v1/ is behind the middleware. *)
Definition protected (taskQueue : string) (pooled : option AgentProposal) (r : route) (ctx : auth_context)
    : gate response :=
  match r with
  | RIntercept => intercept taskQueue pooled ctx
  | RDecisions id => decisionsByProposal id
  | RAudit id => auditByProposal id
  | RPolicy => policyStatus
  | RHealthz => healthz
  | RReadyz => readyz
  end.

Definition newHandler (k : Keyring) (taskQueue : string) (pooled : option AgentProposal) (r : route) (apiKey : string)
    : answered_by (gate response) :=
  match r with
  | RHealthz | RReadyz => Served (protected taskQueue pooled r None)
  | _ => Middleware k (protected taskQueue pooled r) apiKey None
  end.

(** ** What a request may do, and in which order *)

(** A request that is not decided: it is too large, it is no proposal, or its
    context ended. *)
Inductive refusal := TooLarge | Malformed (msg : string) | Cancelled.

(** The answer that refuses a request, given the proposal decoded before it. *)
Definition refusal_at (decoded : option AgentProposal) (e : event GateReply) : option refusal :=
  match e with
  | existT (GDecode _) DecodeTooLarge | existT GDecodeExtra ExtraTooLarge => Some TooLarge
  | existT (GDecode _) (DecodeError err) => Some (Malformed ("invalid agent proposal: " +:+ err))
  | existT GDecodeExtra ExtraOther => Some (Malformed "invalid agent proposal: unexpected data after JSON object")
  | existT GDecodeExtra ExtraEOF =>
      match decoded with
      | Some p => if MatchString proposalIDPattern (p_ID p) then None
                  else Some (Malformed ("invalid agent proposal: id must match " +:+ proposalIDPattern_String))
      | None => None
      end
  | existT GCtxErr (Some _) | existT GAcquireSlot (Some _) => Some Cancelled
  | _ => None
  end.

(** The proposal that was decoded, and the first answer that refused. *)
Definition decoded_by (d : option AgentProposal) (e : event GateReply) : option AgentProposal :=
  match e with existT (GDecode _) (Decoded p) => Some p | _ => d end.
Definition decoded (tr : list (event GateReply)) : option AgentProposal := fold_left decoded_by tr None.
Fixpoint refusal_after (d : option AgentProposal) (tr : list (event GateReply)) : option refusal :=
  match tr with
  | [] => None
  | e :: tr => match refusal_at d e with Some x => Some x | None => refusal_after (decoded_by d e) tr end
  end.
Definition refusal_of (tr : list (event GateReply)) : option refusal := refusal_after None tr.

Definition refusal_response (x : refusal) : response :=
  match x with
  | TooLarge => writeError StatusRequestEntityTooLarge "invalid" tooLargeMessage
  | Malformed msg => writeError StatusBadRequest "invalid" msg
  | Cancelled => writeError StatusServiceUnavailable "unavailable" "request cancelled before evaluation"
  end.

(** What has happened to a request so far. *)
Record gate_state := {
  g_proposal : option AgentProposal;
  g_refusal : option refusal;
  g_policy : option (option Snapshot);
  g_append : option (DecisionRecord * option error);
  g_start : option (result start_error (string * string)) }.
Definition gate_start : gate_state :=
  {| g_proposal := None; g_refusal := None; g_policy := None; g_append := None; g_start := None |}.

(** A request that was refused does nothing more. *)
Definition gate_read (s : gate_state) (e : event GateReply) : gate_state :=
  {| g_proposal := decoded_by (g_proposal s) e; g_refusal := refusal_at (g_proposal s) e; g_policy := g_policy s;
     g_append := g_append s; g_start := g_start s |}.

Definition accepts (rec : DecisionRecord) (req : ExecutionRequest) (workflowID : string) : bool :=
  match VerifyIngress rec req workflowID with None => true | Some _ => false end.

Section Gate.
Context (agentID : string).

(** The verdict on the proposal under the policy that was read. *)
Definition verdict_of (p : AgentProposal) (snap : option Snapshot) : string :=
  d_Verdict (Evaluate snap agentID p).

(** A decision is recorded once, after the policy was read, with the verdict of
    that policy; a workflow is started once, only for an ALLOW whose record was
    written, and with a request that this record lets pass ingress
    verification. Nothing follows a refusal. *)
Definition gate_step (s : gate_state) (o : GateOp) (r : GateReply o) : option gate_state :=
  match g_refusal s with Some _ => None | None =>
  match o return GateReply o → option gate_state with
  | GDecode into => λ r, if into == zeroProposal then Some (gate_read s (ev (GDecode into) r)) else None
  | GDecodeExtra => λ r, match g_proposal s with Some _ => Some (gate_read s (ev GDecodeExtra r)) | None => None end
  | GCtxErr => λ r, Some (gate_read s (ev GCtxErr r))
  | GAcquireSlot => λ r, Some (gate_read s (ev GAcquireSlot r))
  | GCurrent => λ r,
      match g_policy s with
      | None => Some {| g_proposal := g_proposal s; g_refusal := None; g_policy := Some r; g_append := g_append s;
                        g_start := g_start s |}
      | Some _ => None
      end
  | GAppendDecision rec => λ r,
      match g_proposal s, g_policy s, g_append s with
      | Some p, Some snap, None =>
          if (dr_Verdict rec == verdict_of p snap) && (dr_RequestHash rec == RequestHash p) &&
             (dr_AgentID rec == agentID) && (dr_Stage rec == StageIngress) &&
             MatchString proposalIDPattern (p_ID p)
          then Some {| g_proposal := g_proposal s; g_refusal := None; g_policy := g_policy s;
                       g_append := Some (rec, r); g_start := g_start s |}
          else None
      | _, _, _ => None
      end
  | GExecuteWorkflow opts req => λ r,
      match g_proposal s, g_policy s, g_append s, g_start s with
      | Some p, Some snap, Some (rec, None), None =>
          if (er_Proposal req == p) && (er_AgentID req == agentID) && accepts rec req (so_ID opts) &&
             (er_RequestHash req == RequestHash p) && (verdict_of p snap == VerdictAllow) &&
             so_ErrorWhenAlreadyStarted opts
          then Some {| g_proposal := g_proposal s; g_refusal := None; g_policy := g_policy s; g_append := g_append s;
                       g_start := Some r |}
          else None
      | _, _, _, _ => None
      end
  | GListDecisions _ | GListAudit _ | GPolicyStatus | GPing => λ _, None
  | _ => λ _, Some s
  end r end.

Definition body_of (r : response) : interceptResponse :=
  match r with JSON _ b => b | _ => {| ir_Status := ""; ir_Verdict := ""; ir_Reasons := []; ir_DecisionID := "";
    ir_ProposalID := ""; ir_WorkflowID := ""; ir_RunID := ""; ir_Next := ""; ir_Error := "" |} end.
Definition code_of (r : response) : Z :=
  match r with JSON c _ | JSONDecisions c _ | JSONAudit c _ | JSONStatus c _ | Plain c _ => c end.

(** What the response to a decided request says: the verdict and the reasons of
    the policy that was read, the ID of the record if it was written, and the
    run that was started. *)
Definition tells (p : AgentProposal) (snap : option Snapshot) (recorded : string)
    (code : Z) (status wid rid : string) (r : response) : Prop :=
  code_of r = code ∧ ir_Status (body_of r) = status ∧
  ir_Verdict (body_of r) = verdict_of p snap ∧ ir_Reasons (body_of r) = d_Reasons (Evaluate snap agentID p) ∧
  ir_DecisionID (body_of r) = recorded ∧ ir_ProposalID (body_of r) = p_ID p ∧
  ir_WorkflowID (body_of r) = wid ∧ ir_RunID (body_of r) = rid.

Definition decided_answer (p : AgentProposal) (snap : option Snapshot) (rec : DecisionRecord) (e : option error)
    (start : option (result start_error (string * string))) (r : response) : Prop :=
  let told := tells p snap (if is_err e then "" else dr_DecisionID rec) in
  match start with
  | Some (Ok (wid, rid)) => verdict_of p snap = VerdictAllow ∧ e = None ∧ told StatusOK "accepted" wid rid r
  | Some (Err AlreadyStarted) =>
      verdict_of p snap = VerdictAllow ∧ e = None ∧ told StatusConflict "not_executed" "" "" r
  | Some (Err StartFailed) =>
      verdict_of p snap = VerdictAllow ∧ e = None ∧ r = writeError StatusBadGateway "error" "failed to start workflow"
  | None =>
      (verdict_of p snap = VerdictDeny ∧ told StatusForbidden "rejected" "" "" r) ∨
      (verdict_of p snap = VerdictRequireApproval ∧ told StatusForbidden "not_executed" "" "" r) ∨
      (verdict_of p snap = VerdictAllow ∧ is_err e = true ∧
       r = writeError StatusServiceUnavailable "unavailable" "decision could not be recorded; proposal not executed")
  end.

(** What the response says of what happened. *)
Definition gate_answer (r : response) (s : gate_state) : Prop :=
  match g_refusal s with
  | Some x => g_policy s = None ∧ g_append s = None ∧ g_start s = None ∧ r = refusal_response x
  | None =>
      match g_proposal s, g_policy s, g_append s with
      | Some p, Some snap, Some (rec, e) => decided_answer p snap rec e (g_start s) r
      | _, _, _ => False
      end
  end.

#[local] Arguments RequestHash : simpl never.
#[local] Arguments Evaluate : simpl never.
#[local] Arguments VerifyIngress : simpl never.
#[local] Arguments MatchString : simpl never.

(** The record of an ALLOW lets the request it is recorded for pass. *)
Lemma ingress_authorizes prop d random trace now : d_Verdict d = VerdictAllow →
  let rec := ingress_record agentID prop d random trace now in
  authorizes rec (execution_request agentID prop rec) (workflowID_of prop).
Proof. intros Hd rec. split; try done. cbn. by rewrite Hd. Qed.

Lemma ingress_accepts prop d random trace now :
  d_Verdict d = VerdictAllow →
  accepts (ingress_record agentID prop d random trace now)
    (execution_request agentID prop (ingress_record agentID prop d random trace now)) (workflowID_of prop) = true.
Proof. intros Hd. unfold accepts. by rewrite (proj2 (VerifyIngress_None _ _ _) (ingress_authorizes _ _ _ _ _ Hd)). Qed.

Lemma answer_verdict_gated taskQueue prop snap random trace now e :
  let d := Evaluate snap agentID prop in
  let rec := ingress_record agentID prop d random trace now in
  guarded gate_step {| g_proposal := Some prop; g_refusal := None; g_policy := Some snap; g_append := Some (rec, e);
                       g_start := None |}
    (answer_verdict taskQueue agentID prop d rec e) gate_answer.
Proof.
  intros d rec. unfold answer_verdict. pose proof (Evaluate_verdict snap agentID prop) as Hin.
  fold d in Hin.
  case_bool_decide as Hdeny; [cbn; left; by repeat split|].
  case_bool_decide as Happ; [cbn; right; left; by repeat split|].
  assert (Hal : d_Verdict d = VerdictAllow) by (enum_in; congruence).
  rewrite bool_decide_true by done. cbn [negb].
  destruct e as [e|]; cbn [is_err]; [cbn; right; right; auto|].
  apply guarded_call. intros r. eexists. split.
  - cbn [gate_step g_proposal g_refusal g_policy g_append g_start]. unfold verdict_of. fold d.
    change (so_ID _) with (workflowID_of prop).
    pose proof (ingress_accepts prop d random trace now Hal) as Hacc. fold rec in Hacc.
    rewrite Hacc, Hal. cbn. go_refl. reflexivity.
  - destruct r as [[wid rid]|[]]; cbn; by repeat split.
Qed.

Ltac next_reply := eexists; split; [reflexivity|].

Lemma intercept_gated taskQueue pooled :
  agentID ≠ "" → guarded gate_step gate_start (intercept taskQueue pooled (Some agentID)) gate_answer.
Proof.
  intros Hne. unfold intercept, AgentIDFromContext. rewrite bool_decide_false by done. cbn [negb].
  apply guarded_call. intros [p| |err]; next_reply; [|by cbn..].
  apply guarded_call. intros [| |]; next_reply; [|by cbn..].
  set (bad := Some (Malformed ("invalid agent proposal: id must match " +:+ proposalIDPattern_String))).
  change (gate_read _ (ev GDecodeExtra ExtraEOF)) with
    {| g_proposal := Some p; g_refusal := if MatchString proposalIDPattern (p_ID p) then None else bad;
       g_policy := None; g_append := None; g_start := None |}.
  destruct (MatchString proposalIDPattern (p_ID p)) eqn:Hid; cbn [negb]; [|by cbn].
  do 2 (apply guarded_call; intros [e|]; next_reply; [by cbn|]).
  apply guarded_call. intros snap. next_reply.
  apply guarded_call. intros []. next_reply.
  do 3 (apply guarded_call; intros ?; next_reply).
  apply guarded_call. intros e. eexists. split.
  - cbn [gate_step gate_read refusal_at decoded_by g_proposal g_refusal g_policy g_append]. unfold verdict_of. cbn.
    rewrite Hid. go_refl. reflexivity.
  - apply answer_verdict_gated.
Qed.
End Gate.

(** ** Traces of requests *)

Definition is_append (o : GateOp) : bool := match o with GAppendDecision _ => true | _ => false end.
Definition is_start (o : GateOp) : bool := match o with GExecuteWorkflow _ _ => true | _ => false end.

(** The policies that were read, the records that were appended and the starts
    that were asked for, with their answers. *)
Definition policy_of (e : event GateReply) : option (option Snapshot) :=
  match e with existT GCurrent snap => Some snap | _ => None end.
Definition append_of (e : event GateReply) : option (DecisionRecord * option error) :=
  match e with existT (GAppendDecision rec) err => Some (rec, err) | _ => None end.
Definition start_of (e : event GateReply) : option (result start_error (string * string)) :=
  match e with existT (GExecuteWorkflow _ _) r => Some r | _ => None end.

Record gate_trace (tr : list (event GateReply)) (s : gate_state) : Prop := {
  gt_proposal : decoded tr = g_proposal s;
  gt_refusal : refusal_of tr = g_refusal s;
  gt_policy : omap policy_of tr = option_list (g_policy s);
  gt_append : omap append_of tr = option_list (g_append s);
  gt_start : omap start_of tr = option_list (g_start s) }.

Lemma refusal_of_snoc tr e :
  refusal_of (tr ++ [e]) = match refusal_of tr with Some x => Some x | None => refusal_at (decoded tr) e end.
Proof.
  unfold refusal_of, decoded. generalize (@None AgentProposal) as d. induction tr as [|e' tr IH]; intros d; cbn.
  - by destruct (refusal_at d e).
  - by destruct (refusal_at d e').
Qed.

Lemma decoded_snoc tr e : decoded (tr ++ [e]) = decoded_by (decoded tr) e.
Proof. unfold decoded. by rewrite fold_left_app. Qed.

Lemma decoded_in tr p : decoded tr = Some p → ∃ into, ev (Reply:=GateReply) (GDecode into) (Decoded p) ∈ tr.
Proof.
  induction tr as [|[o r] tr IH] using rev_ind; [done|]. rewrite decoded_snoc. intros Hp.
  assert (Hold : decoded tr = Some p → ∃ into, ev (GDecode into) (Decoded p) ∈ tr ++ [ev o r]).
  { intros (into & Hin)%IH. exists into. apply elem_of_app. by left. }
  destruct o; try exact (Hold Hp). destruct r; try exact (Hold Hp). injection Hp as ->.
  exists into. apply elem_of_app. right. apply list_elem_of_here.
Qed.

(** One step notes one new answer, or nothing. *)
Definition noted {X} (x old new : option X) : Prop :=
  match x with Some _ => old = None ∧ new = x | None => new = old end.

Lemma noted_snoc {X} (f : event GateReply → option X) tr e old new :
  omap f tr = option_list old → noted (f e) old new → omap f (tr ++ [e]) = option_list new.
Proof.
  intros Htr Hn. rewrite omap_app, Htr. unfold noted in Hn. cbn.
  destruct (f e); [by destruct Hn as [-> ->]|by rewrite Hn, app_nil_r].
Qed.

Lemma gate_step_effect agentID s o r s' : gate_step agentID s o r = Some s' →
  g_refusal s = None ∧ g_proposal s' = decoded_by (g_proposal s) (ev o r) ∧
  g_refusal s' = refusal_at (g_proposal s) (ev o r) ∧ noted (policy_of (ev o r)) (g_policy s) (g_policy s') ∧
  noted (append_of (ev o r)) (g_append s) (g_append s') ∧ noted (start_of (ev o r)) (g_start s) (g_start s').
Proof.
  unfold gate_step. destruct (g_refusal s) eqn:Er; [done|]. intros Hst. split; [done|].
  destruct o; simplify_eq; cbn [decoded_by refusal_at policy_of append_of start_of noted] in *;
    try (by split_and!); repeat case_match; simplify_eq; unfold gate_read; cbn;
    try match goal with E : g_proposal s = _ |- _ => rewrite E end; by split_and!.
Qed.

Lemma gate_trace_step agentID tr s o r s' :
  gate_trace tr s → gate_step agentID s o r = Some s' → gate_trace (tr ++ [ev o r]) s'.
Proof.
  intros [Hp Hr Hs Ha Hw] (E & Ep & Er & Es & Ea & Ew)%gate_step_effect.
  split; [by rewrite decoded_snoc, Hp|by rewrite refusal_of_snoc, Hr, E, Hp|by eapply noted_snoc..].
Qed.

Lemma gate_traces agentID tr s : monitor (gate_step agentID) gate_start tr = Some s → gate_trace tr s.
Proof.
  revert tr s. apply monitor_trace_inv; [by split|]. intros. by eapply gate_trace_step.
Qed.

Lemma omap_in {X} (f : event GateReply → option X) tr (x : option X) y :
  omap f tr = option_list x → x = Some y → ∃ e, e ∈ tr ∧ f e = Some y.
Proof. intros Hx ->. apply list_elem_of_omap. rewrite Hx. apply list_elem_of_here. Qed.

Lemma policy_in tr s snap : gate_trace tr s → g_policy s = Some snap → ev (Reply:=GateReply) GCurrent snap ∈ tr.
Proof. intros [_ _ Hs _ _] ([[] r] & Hin & He)%(omap_in _ _ _ _ Hs); try done. by injection He as ->. Qed.

Lemma append_in tr s rec e : gate_trace tr s → g_append s = Some (rec, e) →
  ev (Reply:=GateReply) (GAppendDecision rec) e ∈ tr.
Proof. intros [_ _ _ Ha _] ([[] r] & Hin & He)%(omap_in _ _ _ _ Ha); try done. by injection He as -> ->. Qed.

Lemma count_starts tr : count_ops is_start tr = length (omap start_of tr).
Proof.
  induction tr as [|[o r] tr IH]; [done|]. unfold count_ops in *. destruct o; cbn; by rewrite IH.
Qed.

Section Requests.
Context (taskQueue : string) (pooled : option AgentProposal) (agentID : string).
Hypothesis agent_named : agentID ≠ "".

(** What has happened before a workflow is started. *)
Lemma start_authorised tr p i opts req r :
  reaches (intercept taskQueue pooled (Some agentID)) tr p →
  tr !! i = Some (ev (Reply:=GateReply) (GExecuteWorkflow opts req) r) →
  count_ops is_start tr = 1%nat ∧ so_ErrorWhenAlreadyStarted opts = true ∧
  er_AgentID req = agentID ∧ er_RequestHash req = RequestHash (er_Proposal req) ∧
  (∃ into, ev (Reply:=GateReply) (GDecode into) (Decoded (er_Proposal req)) ∈ take i tr) ∧
  ∃ rec snap, ev (Reply:=GateReply) (GAppendDecision rec) None ∈ take i tr ∧
    authorizes rec req (so_ID opts) ∧
    ev (Reply:=GateReply) GCurrent snap ∈ take i tr ∧
    d_Verdict (Evaluate snap agentID (er_Proposal req)) = VerdictAllow.
Proof using agent_named.
  intros Hr Hi.
  destruct (guarded_reaches _ _ _ _ _ _ (intercept_gated agentID taskQueue pooled agent_named) Hr)
    as (s & Hm & _).
  destruct (monitor_lookup _ _ _ _ _ _ _ Hm Hi) as (s1 & s2 & H1 & Hs & H2).
  pose proof (gate_traces _ _ _ H1) as Ht1. pose proof (gate_traces _ _ _ Hm) as Ht.
  unfold gate_step in Hs. destruct (g_refusal s1); [done|]. destruct (g_proposal s1) as [prop|] eqn:Ep; [|done].
  destruct (g_policy s1) as [snap|] eqn:Es; [|done].
  destruct (g_append s1) as [[rec [e|]]|] eqn:Ea; [done| |done].
  destruct (g_start s1) eqn:Est; [done|].
  destruct (_ && _) eqn:Hb; [|done]. injection Hs as <-. guard_true. subst.
  split_and!; try done.
  - pose proof (gt_start _ _ Ht) as Hw. rewrite count_starts, Hw. destruct (g_start s); [done|].
    apply list_elem_of_lookup_2 in Hi. exfalso. assert (Hin : r ∈ omap start_of tr)
      by (apply list_elem_of_omap; by eexists). rewrite Hw in Hin. by apply not_elem_of_nil in Hin.
  - apply decoded_in. by rewrite (gt_proposal _ _ Ht1).
  - exists rec, snap. split_and!; [by eapply append_in| |by eapply policy_in|done].
    unfold accepts in *. destruct (VerifyIngress rec req (so_ID opts)) eqn:Hv; [done|].
    by apply VerifyIngress_None.
Qed.

(** C18: A request starts at most one workflow, and only for a proposal that
    the policy it read allows, after the store has accepted an ingress record
    that authorises exactly the execution request the workflow is given, for
    the workflow ID it is started under; the request is refused instead of
    joined when such a workflow already runs. *)
Theorem intercept_starts_authorised tr p i opts req r :
  reaches (intercept taskQueue pooled (Some agentID)) tr p →
  tr !! i = Some (ev (Reply:=GateReply) (GExecuteWorkflow opts req) r) →
  count_ops is_start tr = 1%nat ∧ so_ErrorWhenAlreadyStarted opts = true ∧
  er_AgentID req = agentID ∧ er_RequestHash req = RequestHash (er_Proposal req) ∧
  ∃ rec snap, ev (Reply:=GateReply) (GAppendDecision rec) None ∈ take i tr ∧
    authorizes rec req (so_ID opts) ∧
    ev (Reply:=GateReply) GCurrent snap ∈ take i tr ∧
    d_Verdict (Evaluate snap agentID (er_Proposal req)) = VerdictAllow.
Proof using agent_named.
  intros Hr Hi. destruct (start_authorised tr p i opts req r Hr Hi) as (Hn & Hj & Ha & Hh & _ & Hrec). done.
Qed.

(** C19: The response tells what happened, on every branch. A request is refused
    without reading the policy, recording or starting anything exactly when an
    answer to it refuses it: 413 when its body is too large, 400 with the reason
    when it is no proposal, 503 when its context ended before it was evaluated.
    Any other request reads the policy once and appends one record, and its
    response carries the verdict and reasons of that policy and the decision ID
    exactly when the record was written: 403 "rejected" for DENY and 403
    "not_executed" for REQUIRE_APPROVAL; for a recorded ALLOW 200 "accepted"
    with the run's IDs when the workflow was started, 409 when one was already
    running and 502 when the start failed; 503 when an ALLOW could not be
    recorded, and then nothing is started. *)
Theorem intercept_answers tr res :
  reaches (intercept taskQueue pooled (Some agentID)) tr (Ret res) →
  match refusal_of tr with
  | Some x => res = refusal_response x ∧ omap policy_of tr = [] ∧ omap append_of tr = [] ∧ omap start_of tr = []
  | None =>
      ∃ p snap rec e start, decoded tr = Some p ∧ omap policy_of tr = [snap] ∧ omap append_of tr = [(rec, e)] ∧
        omap start_of tr = option_list start ∧ decided_answer agentID p snap rec e start res
  end.
Proof using agent_named.
  intros Hr.
  destruct (guarded_reaches _ _ _ _ _ _ (intercept_gated agentID taskQueue pooled agent_named) Hr)
    as (s & Hm & Hans).
  destruct (gate_traces _ _ _ Hm) as [Hp Hx Hs Ha Hw]. change (gate_answer agentID res s) in Hans.
  unfold gate_answer in Hans. rewrite Hx, Hp, Hs, Ha, Hw.
  destruct (g_refusal s) as [x|]; [by destruct Hans as (-> & -> & -> & ->)|].
  destruct (g_proposal s) as [p|], (g_policy s) as [snap|], (g_append s) as [[rec e]|]; try done.
  by exists p, snap, rec, e, (g_start s).
Qed.
End Requests.

(** ** Everything else only reads *)

Definition read_only_step (s : unit) (o : GateOp) (r : GateReply o) : option unit :=
  if is_append o || is_start o then None else Some tt.

Lemma read_only_traces {B} (p : gate B) tr p' Q :
  guarded read_only_step tt p Q → reaches p tr p' →
  count_ops is_append tr = 0%nat ∧ count_ops is_start tr = 0%nat.
Proof.
  intros Hg Hr. destruct (guarded_reaches _ _ _ _ _ _ Hg Hr) as (u & Hm & _).
  revert Hm. apply (monitor_trace_inv read_only_step
    (λ tr _, count_ops is_append tr = 0%nat ∧ count_ops is_start tr = 0%nat)); [done|].
  clear. intros tr [] o r [] [Ha Hs] Hst. unfold read_only_step in Hst.
  rewrite !count_ops_app, !count_ops_one, Ha, Hs. by destruct (is_append o), (is_start o).
Qed.

Lemma protected_read_only taskQueue pooled r ctx :
  r ≠ RIntercept → guarded read_only_step tt (protected taskQueue pooled r ctx) (λ _ _, True).
Proof.
  intros Hr. destruct r as [|id|id| | |]; try done; cbn;
    unfold decisionsByProposal, auditByProposal; try case_match; cbn; try done; intros reply; cbn; by case_match.
Qed.

(** Everything under /v1/ is behind authentication: a request without a
    configured key is answered 401 and does nothing at all, one with a key runs
    the handler as the key's agent; and no handler but [intercept] records a
    decision or starts a workflow. *)
Theorem routes_guarded k taskQueue pooled r apiKey :
  (r ≠ RHealthz → r ≠ RReadyz →
   newHandler k taskQueue pooled r apiKey =
     match Resolve k apiKey with
     | None => Unauthorized 401 unauthorized_body
     | Some id => Served (protected taskQueue pooled r (Some id))
     end) ∧
  (r ≠ RIntercept → ∀ ctx tr p, reaches (protected taskQueue pooled r ctx) tr p →
     count_ops is_append tr = 0%nat ∧ count_ops is_start tr = 0%nat).
Proof.
  split.
  - intros Hh Hy. destruct r; try done; cbn; unfold Middleware; by destruct (Resolve k apiKey).
  - intros Hr ctx tr p. eapply read_only_traces. by apply protected_read_only.
Qed.

(** ** A sample request: the shipped policy allows the sample proposal *)

Definition sample_gate (recorded : option error) (start : result start_error (string * string))
    (u : unit) (o : GateOp) : unit * GateReply o :=
  (u, match o return GateReply o with
      | GCtxErr | GAcquireSlot | GPing => None
      | GAppendDecision _ => recorded
      | GReleaseSlot => tt
      | GCurrent => Some default_snapshot
      | GDecode _ => Decoded sample_proposal
      | GDecodeExtra => ExtraEOF
      | GRandom => "1"
      | GTraceID => ""
      | GNow => 1
      | GExecuteWorkflow _ _ => start
      | GListDecisions _ => Ok []
      | GListAudit _ => Ok []
      | GPolicyStatus => {| st_Version := "v"; st_Digest := "d"; st_LoadedAt := 1; st_MaxParallelTasks := 1;
                            st_ReloadStatus := "ok"; st_LastReloadError := ""; st_LastReloadErrorAt := None |}
      end).
Definition sample_intercept (recorded : option error) (start : result start_error (string * string)) :=
  traced (sample_gate recorded start) tt (intercept "sentrygate-saga" None (Some "agent-sim")).

Definition sample_started := sample_intercept None (Ok ("saga-p-1", "run-1")).
Definition sample_opts : StartWorkflowOptions :=
  {| so_ID := "saga-p-1"; so_TaskQueue := "sentrygate-saga"; so_ErrorWhenAlreadyStarted := true |}.
Definition sample_exec : ExecutionRequest :=
  {| er_AgentID := "agent-sim"; er_Proposal := sample_proposal; er_IngressDecisionID := "dec_1";
     er_RequestHash := RequestHash sample_proposal |}.

Lemma sample_started_reaches :
  reaches (intercept "sentrygate-saga" None (Some "agent-sim")) sample_started.1 (Ret sample_started.2).
Proof. exact (traced_run (sample_gate None (Ok ("saga-p-1", "run-1"))) tt _). Qed.

Lemma intercept_starts_authorised_witness :
  count_ops is_start sample_started.1 = 1%nat.
Proof.
  refine (proj1 (intercept_starts_authorised "sentrygate-saga" None "agent-sim" _ sample_started.1 _ 10
    sample_opts sample_exec (Ok ("saga-p-1", "run-1")) sample_started_reaches _)).
  - discriminate.
  - vm_compute. reflexivity.
Defined.

(** The sample is accepted; the same body with more data after it is refused. *)
Definition sample_trailing (u : unit) (o : GateOp) : unit * GateReply o :=
  match o return unit * GateReply o with
  | GDecodeExtra => (u, ExtraOther)
  | o => sample_gate None (Ok ("saga-p-1", "run-1")) u o
  end.
Definition sample_refused := traced sample_trailing tt (intercept "sentrygate-saga" None (Some "agent-sim")).

Lemma intercept_answers_witness :
  (∃ p snap rec, omap append_of sample_started.1 = [(rec, None)] ∧
     decided_answer "agent-sim" p snap rec None (Some (Ok ("saga-p-1", "run-1"))) sample_started.2) ∧
  sample_refused.2 = writeError 400 "invalid" "invalid agent proposal: unexpected data after JSON object" ∧
  omap append_of sample_refused.1 = [].
Proof.
  split.
  - pose proof (intercept_answers "sentrygate-saga" None "agent-sim" ltac:(discriminate) sample_started.1
      sample_started.2 sample_started_reaches) as H.
    replace (refusal_of sample_started.1) with (@None refusal) in H by (vm_compute; reflexivity).
    destruct H as (p & snap & rec & e & start & _ & _ & Ha & Hw & Hd). exists p, snap, rec.
    assert (e = None) as -> by (vm_compute in Ha; injection Ha; congruence).
    assert (start = Some (Ok ("saga-p-1", "run-1"))) as ->
      by (destruct start; vm_compute in Hw; [injection Hw as <-; reflexivity|discriminate Hw]). exact (conj Ha Hd).
  - pose proof (intercept_answers "sentrygate-saga" None "agent-sim" ltac:(discriminate) sample_refused.1
      sample_refused.2 (traced_run sample_trailing tt _)) as H.
    replace (refusal_of sample_refused.1) with
      (Some (Malformed "invalid agent proposal: unexpected data after JSON object")) in H by (vm_compute; reflexivity).
    destruct H as (H1 & _ & H2 & _). exact (conj H1 H2).
Defined.

(** An ALLOW that could not be recorded starts nothing and answers 503. *)
Example unrecorded_allow :
  code_of (sample_intercept (Some (Text [Lit "disk full"])) (Ok ("saga-p-1", "run-1"))).2 = 503 ∧
  count_ops is_start (sample_intercept (Some (Text [Lit "disk full"])) (Ok ("saga-p-1", "run-1"))).1 = 0%nat ∧
  code_of sample_started.2 = 200.
Proof. vm_compute. done. Qed.
