(* ===== verification/Body.v ===== *)
(** * The body of a proposal request, byte by byte

    [json.Decoder] with [DisallowUnknownFields] on a body behind
    [http.MaxBytesReader], as decodeProposal of cmd/sentrygate/handler.go uses
    it: what its two calls of [Decode] answer for the bytes of a body. The texts
    of the decoder's errors are a parameter. The theorems say which bodies are
    accepted as which proposal, and that what an agent marshals is read back. *)

From S2P Require Import Prelude GoBase GoText GoJson JsonScan Unquote Contracts Policy Auth Decision Proxy Handler.
Open Scope Z_scope.
Open Scope go_scope.

(** ** The decoder *)

Inductive decode_failure : Type :=
| FailSyntax                       (* *json.SyntaxError *)
| FailEOF | FailUnexpectedEOF      (* io.EOF, io.ErrUnexpectedEOF *)
| FailTooLarge                     (* *http.MaxBytesError *)
| FailType                         (* *json.UnmarshalTypeError *)
| FailUnknownField (key : string). (* json: unknown field *)

(** What MaxBytesReader lets through: the first bytes, and whether it then
    fails instead of reporting the end of the body. *)
Record limited := { lm_bytes : list Z; lm_tooLarge : bool }.

Definition MaxBytesReader (limit : Z) (body : list Z) : limited :=
  {| lm_bytes := take (Z.to_nat limit) body; lm_tooLarge := limit <? Z.of_nat (length body) |}.

(** [readValue]: the next value, and the input after it. At the end of the
    input a value that only waited for its delimiter is complete. *)
Definition readValue (r : limited) : result decode_failure (json * limited) :=
  match scan scan_start (lm_bytes r) with
  | Value v rest => Ok (v, {| lm_bytes := rest; lm_tooLarge := lm_tooLarge r |})
  | SyntaxError => Err FailSyntax
  | More st =>
      if lm_tooLarge r then Err FailTooLarge
      else match step st 32 with
           | EndedBefore v => Ok (v, {| lm_bytes := []; lm_tooLarge := false |})
           | _ => if forallb isSpace (lm_bytes r) then Err FailEOF else Err FailUnexpectedEOF
           end
  end.

(** ** Into an AgentProposal *)

Inductive field := FieldID | FieldType | FieldTargetID | FieldPayload.

#[export] Instance field_eq_dec : EqDecision field.
Proof. solve_decision. Defined.

(** The tags of the struct. *)
Definition field_name (f : field) : string :=
  match f with
  | FieldID => "id" | FieldType => "type" | FieldTargetID => "target_id" | FieldPayload => "payload"
  end.

(** Letters in either case; no letter of a tag has a fold outside ASCII. *)
Definition fold_byte (b : Z) : Z := if between 65 90 b then b + 32 else b.
Definition fold_name (s : string) : list Z := fold_byte <$> bytes_of_string s.

Definition field_of (key : string) : option field :=
  List.find (λ f, fold_name key == bytes_of_string (field_name f)) [FieldID; FieldType; FieldTargetID; FieldPayload].

Definition set_field (f : field) (s : string) (p : AgentProposal) : AgentProposal :=
  match f with
  | FieldID => {| p_ID := s; p_Type := p_Type p; p_TargetID := p_TargetID p; p_Payload := p_Payload p |}
  | FieldType => {| p_ID := p_ID p; p_Type := s; p_TargetID := p_TargetID p; p_Payload := p_Payload p |}
  | FieldTargetID => {| p_ID := p_ID p; p_Type := p_Type p; p_TargetID := s; p_Payload := p_Payload p |}
  | FieldPayload => {| p_ID := p_ID p; p_Type := p_Type p; p_TargetID := p_TargetID p; p_Payload := s |}
  end.

(** One member: null leaves the field, any other value than a string is saved
    as an error, and so is a key that is no field. *)
Definition store_member (m : list Z * json) (p : AgentProposal) : AgentProposal * option decode_failure :=
  match field_of (unquote m.1) with
  | None => (p, Some (FailUnknownField (unquote m.1)))
  | Some f =>
      match m.2 with
      | JNull => (p, None)
      | JString raw => (set_field f (unquote raw) p, None)
      | _ => (p, Some FailType)
      end
  end.

(** All members are stored; the first error is reported. *)
Fixpoint store_members (ms : list (list Z * json)) (p : AgentProposal) : AgentProposal * option decode_failure :=
  match ms with
  | [] => (p, None)
  | m :: ms =>
      let '(p, e) := store_member m p in
      let '(p, e') := store_members ms p in
      (p, match e with Some _ => e | None => e' end)
  end.

Definition unmarshal_proposal (v : json) (p : AgentProposal) : AgentProposal * option decode_failure :=
  match v with
  | JNull => (p, None)
  | JObject ms => store_members ms p
  | _ => (p, Some FailType)
  end.

(** ** decodeProposal's two calls *)

(** decodeProposal with the answers of its two calls; it makes no others. *)
Fixpoint run_decoder {B} (decode : AgentProposal → decode_result) (extra : extra_result) (p : gate B) : option B :=
  match p with
  | Ret b => Some b
  | Call o kont =>
      match o return (GateReply o → gate B) → option B with
      | GDecode into => λ kont, run_decoder decode extra (kont (decode into))
      | GDecodeExtra => λ kont, run_decoder decode extra (kont extra)
      | _ => λ _, None
      end kont
  end.

Lemma run_decoder_reaches {B} decode extra (p : gate B) tr b b' : reaches p tr (Ret b) →
  Forall (λ e, match e with
               | existT (GDecode into) r => r = decode into
               | existT GDecodeExtra r => r = extra
               | _ => True
               end) tr →
  run_decoder decode extra p = Some b' → b = b'.
Proof.
  revert p. induction tr as [|e tr IH]; intros p Hr Hb Hrun; apply reaches_inv in Hr.
  { subst p. by injection Hrun. }
  destruct p as [b1|o kont]; [done|]. destruct Hr as (r & -> & Hr). apply Forall_cons in Hb as [He Hb].
  destruct o; cbn in He, Hrun; try done; subst r; by eapply IH.
Qed.

(** decodeProposal, given those answers. *)
Lemma run_decodeProposal decode extra into :
  run_decoder decode extra (decodeProposal into) = Some
    match decode into with
    | DecodeTooLarge => Err (StatusRequestEntityTooLarge, tooLargeMessage)
    | DecodeError err => Err (StatusBadRequest, "invalid agent proposal: " +:+ err)
    | Decoded prop =>
        match extra with
        | ExtraTooLarge => Err (StatusRequestEntityTooLarge, tooLargeMessage)
        | ExtraOther => Err (StatusBadRequest, "invalid agent proposal: unexpected data after JSON object")
        | ExtraEOF =>
            if negb (MatchString proposalIDPattern (p_ID prop))
            then Err (StatusBadRequest, "invalid agent proposal: id must match " +:+ proposalIDPattern_String)
            else Ok prop
        end
    end.
Proof.
  unfold decodeProposal, gop, op. cbn [mbind prog_bind run_decoder].
  destruct (decode into); [|done..]. cbn [mbind prog_bind run_decoder].
  destruct extra; [|done..]. by destruct (negb _).
Qed.

Section Body.
Context (limit : Z) (error_string : decode_failure → string).

Definition decode_answer (body : list Z) (into : AgentProposal) : decode_result :=
  match readValue (MaxBytesReader limit body) with
  | Err FailTooLarge => DecodeTooLarge
  | Err e => DecodeError (error_string e)
  | Ok (v, _) =>
      match unmarshal_proposal v into with
      | (p, None) => Decoded p
      | (_, Some e) => DecodeError (error_string e)
      end
  end.

(** Into a json.RawMessage, which takes any value. *)
Definition extra_answer (body : list Z) : extra_result :=
  match readValue (MaxBytesReader limit body) with
  | Err _ => ExtraOther
  | Ok (_, rest) =>
      match readValue rest with
      | Err FailEOF => ExtraEOF
      | Err FailTooLarge => ExtraTooLarge
      | _ => ExtraOther
      end
  end.

(** The answers a request with this body gets. *)
Definition body_event (body : list Z) (e : event GateReply) : Prop :=
  match e with
  | existT (GDecode into) r => r = decode_answer body into
  | existT GDecodeExtra r => r = extra_answer body
  | _ => True
  end.

Definition decode_body (body : list Z) : result (Z * string) AgentProposal :=
  default (Err (0, "")) (run_decoder (decode_answer body) (extra_answer body) (decodeProposal zeroProposal)).

(** A finished decodeProposal on this body ends with [decode_body]. *)
Lemma decodeProposal_body body tr res :
  reaches (decodeProposal zeroProposal) tr (Ret res) → Forall (body_event body) tr → res = decode_body body.
Proof.
  intros Hr Hb. unfold decode_body. rewrite run_decodeProposal. cbn [default].
  eapply run_decoder_reaches; [exact Hr|exact Hb|apply run_decodeProposal].
Qed.

Lemma decode_body_run body p : decode_body body = Ok p →
  run_decoder (decode_answer body) (extra_answer body) (decodeProposal zeroProposal) = Some (Ok p).
Proof. unfold decode_body. rewrite run_decodeProposal. cbn [default id]. by intros ->. Qed.

(** ** Which bodies are accepted *)

Definition get_field (f : field) (p : AgentProposal) : string :=
  match f with
  | FieldID => p_ID p | FieldType => p_Type p | FieldTargetID => p_TargetID p | FieldPayload => p_Payload p
  end.

(** The strings given to a field, in order. *)
Definition given (f : field) (ms : list (list Z * json)) : list string :=
  omap (λ m, if field_of (unquote m.1) == Some f
             then match m.2 with JString raw => Some (unquote raw) | _ => None end else None) ms.

Definition plain_member (m : list Z * json) : Prop :=
  is_Some (field_of (unquote m.1)) ∧ (m.2 = JNull ∨ ∃ raw, m.2 = JString raw).

Lemma get_set_field f g s p : get_field f (set_field g s p) = if decide (g = f) then s else get_field f p.
Proof. by destruct f, g. Qed.

Lemma store_members_ok ms p p' : store_members ms p = (p', None) →
  Forall plain_member ms ∧ ∀ f, get_field f p' = default (get_field f p) (last (given f ms)).
Proof.
  revert p. induction ms as [|m ms IH]; intros p Hs; cbn in Hs; [by injection Hs as <-|].
  destruct (store_member m p) as [p1 e] eqn:Em, (store_members ms p1) as [p2 e'] eqn:Ems.
  destruct e as [e|]; [done|]. injection Hs as -> ->. destruct (IH p1 Ems) as [Hms Hf].
  unfold store_member in Em. destruct (field_of (unquote m.1)) as [g|] eqn:Eg; [|done].
  assert (Hm : plain_member m).
  { split; [by rewrite Eg|]. destruct (m.2); try done; eauto. }
  split; [by constructor|]. intros f. rewrite Hf. unfold given at 2. cbn [omap list_omap]. fold (given f ms). rewrite Eg.
  destruct (m.2) as [| | |raw| |] eqn:E2; try done; injection Em as <-.
  - by case_bool_decide.
  - rewrite get_set_field. case_bool_decide as Hg.
    + injection Hg as <-. rewrite decide_True by done.
      rewrite last_cons. by destruct (last (given g ms)).
    + rewrite decide_False by congruence. done.
Qed.

Lemma readValue_EOF r : readValue r = Err FailEOF → lm_tooLarge r = false ∧ Forall (λ b, isSpace b = true) (lm_bytes r).
Proof.
  unfold readValue. destruct (scan scan_start (lm_bytes r)) as [v rest|st|]; [done| |done].
  destruct (lm_tooLarge r); [done|]. destruct (step st 32); try done;
    (destruct (forallb isSpace (lm_bytes r)) eqn:E; [|done]); intros _; (split; [done|]);
    rewrite forallb_forall in E; apply Forall_forall; intros b Hb; apply E; by apply list_elem_of_In.
Qed.

Lemma readValue_tooLarge r : readValue r = Err FailTooLarge → lm_tooLarge r = true.
Proof.
  unfold readValue. destruct (scan scan_start (lm_bytes r)) as [v rest|st|]; [done| |done].
  destruct (lm_tooLarge r); [done|]. destruct (step st 32); try done; by destruct (forallb _ _).
Qed.

Lemma readValue_rest r v rest : readValue r = Ok (v, rest) → lm_tooLarge rest = lm_tooLarge r.
Proof.
  unfold readValue. destruct (scan scan_start (lm_bytes r)) as [v' rest'|st|]; [by intros [= _ <-]| |done].
  destruct (lm_tooLarge r); [done|]. destruct (step st 32); try (by destruct (forallb _ _)). by intros [= _ <-].
Qed.

Lemma take_all_body (body : list Z) : Z.of_nat (length body) ≤ limit → take (Z.to_nat limit) body = body.
Proof. intros Hl. apply take_ge. lia. Qed.

Lemma plain_members_stored ms p : Forall plain_member ms → (store_members ms p).2 = None.
Proof.
  intros Hms. revert p. induction Hms as [|m ms [[f Hf] Hv] _ IH]; intros p; [done|]. cbn.
  assert (He : (store_member m p).2 = None).
  { unfold store_member. rewrite Hf. by destruct Hv as [->|[raw ->]]. }
  destruct (store_member m p) as [p1 e]. cbn in He. subst e. specialize (IH p1).
  destruct (store_members ms p1) as [p2 e']. exact IH.
Qed.

Lemma readValue_spaces p : Forall (λ b, isSpace b = true) p →
  readValue {| lm_bytes := p; lm_tooLarge := false |} = Err FailEOF.
Proof.
  intros Hp. unfold readValue. cbn [lm_bytes lm_tooLarge].
  assert (Hs : scan scan_start p = More scan_start).
  { induction Hp as [|b p Hb _ IH]; [done|]. cbn [scan]. unfold step, begin_value. cbn. by rewrite Hb. }
  rewrite Hs. cbn. assert (Hf : forallb isSpace p = true).
  { apply forallb_forall. intros b Hb. rewrite Forall_forall in Hp. apply Hp. by apply list_elem_of_In. }
  by rewrite Hf.
Qed.

Lemma proposal_fields p p' : (∀ f, get_field f p = get_field f p') → p = p'.
Proof.
  intros Hf. destruct p, p'. pose proof (Hf FieldID). pose proof (Hf FieldType).
  pose proof (Hf FieldTargetID). pose proof (Hf FieldPayload). cbn in *. by subst.
Qed.

(** The bytes are an object of known fields, each given strings or null, and
    nothing else but white space; all strings are literals that can be unquoted
    ([unquote_total]). *)
Definition proposal_text (body : list Z) (p : AgentProposal) : Prop := ∃ ms rest,
  scan scan_start body = Value (JObject ms) rest ∧ literal (JObject ms) ∧
  Forall (λ b, isSpace b = true) rest ∧ Forall plain_member ms ∧ ∀ f, get_field f p = default "" (last (given f ms)).

Lemma decode_answer_ok body p : Z.of_nat (length body) ≤ limit → 
  proposal_text body p → decode_answer body zeroProposal = Decoded p ∧ extra_answer body = ExtraEOF.
Proof.
  intros Hl (ms & rest & Hscan & _ & Hrest & Hms & Hf).
  assert (Hr : readValue (MaxBytesReader limit body) =
               Ok (JObject ms, {| lm_bytes := rest; lm_tooLarge := false |})).
  { unfold readValue, MaxBytesReader. cbn [lm_bytes lm_tooLarge]. rewrite take_all_body by done.
    rewrite Hscan, (proj2 (Z.ltb_ge _ _)) by done. done. }
  unfold decode_answer, extra_answer. rewrite Hr, readValue_spaces by done. split; [|done].
  cbn. pose proof (plain_members_stored ms zeroProposal Hms) as He.
  destruct (store_members ms zeroProposal) as [p' e] eqn:Es. cbn in He. subst e. f_equal.
  apply store_members_ok in Es as [_ Hf']. apply proposal_fields. intros f. rewrite Hf, Hf'. by destruct f.
Qed.

Lemma accepts_exactly body p :
  (decode_body body = Ok p ↔
   Z.of_nat (length body) ≤ limit ∧ proposal_text body p ∧ MatchString proposalIDPattern (p_ID p) = true) ∧
  match decode_body body with
  | Ok _ => True
  | Err (code, _) => code = StatusBadRequest ∨
                     code = StatusRequestEntityTooLarge ∧ limit < Z.of_nat (length body)
  end.
Proof.
  unfold decode_body. rewrite run_decodeProposal. cbn [default].
  split; [split|].
  - unfold decode_answer, extra_answer.
    destruct (readValue (MaxBytesReader limit body)) as [[v rest]|e] eqn:Er; [|by destruct e].
    destruct (unmarshal_proposal v zeroProposal) as [p' [e|]] eqn:Eu; [done|].
    destruct (readValue rest) as [[v' rest']|e] eqn:Er'; [done|]. destruct e; try done.
    destruct (negb _) eqn:Hid; [done|]. intros [= <-]. apply negb_false_iff in Hid.
    apply readValue_EOF in Er' as [Hnt Hsp]. pose proof (readValue_rest _ _ _ Er) as Hsz. rewrite Hnt in Hsz. symmetry in Hsz. apply Z.ltb_ge in Hsz.
    split_and!; [done| |done]. unfold readValue, MaxBytesReader in Er. cbn [lm_bytes lm_tooLarge] in Er.
    rewrite take_all_body in Er by done. rewrite (proj2 (Z.ltb_ge _ _)) in Er by done.
    destruct v as [| | | | |ms]; try done.
    + injection Eu as <-. vm_compute in Hid. discriminate Hid.
    + cbn in Eu. apply store_members_ok in Eu as [Hms Hf]. exists ms, (lm_bytes rest).
      destruct (scan scan_start body) as [v1 rest1|st|] eqn:Es; [| |done].
      * injection Er as -> <-. split_and!; try done; [exact (scan_literal _ _ _ _ scan_start_literal Es)|]. intros f. rewrite Hf. by destruct f.
      * destruct (step st 32) eqn:E32; try (by destruct (forallb isSpace body)).
        injection Er as -> _. exfalso.
        refine (ended_before_scalar st 32 (JObject ms) _ E32). by eapply (scan_late scan_start body).
  - intros (Hl & Ht & Hid). destruct (decode_answer_ok body p Hl Ht) as [-> ->]. by rewrite Hid.
  - assert (Hbig : ∀ e, readValue (MaxBytesReader limit body) = Err e → e = FailTooLarge →
      limit < Z.of_nat (length body)).
    { intros e He ->. by apply readValue_tooLarge in He as ?%Z.ltb_lt. }
    unfold decode_answer, extra_answer.
    destruct (readValue (MaxBytesReader limit body)) as [[v rest]|e] eqn:Er.
    + destruct (unmarshal_proposal v zeroProposal) as [p' [e|]]; [by left|].
      destruct (readValue rest) as [[v' rest']|e] eqn:Er'; [by left|].
      destruct e; try (by left); [by destruct (negb _); [left|]|]. right. split; [done|].
      apply readValue_tooLarge in Er'. apply readValue_rest in Er. rewrite Er in Er'. by apply Z.ltb_lt.
    + destruct e; try (by left). right. split; [done|]. by eapply Hbig.
Qed.
End Body.

(** C15: Exactly the well-formed bodies are accepted, each as the proposal it
    spells. decodeProposal accepts a body as [p] if and only if the body has at
    most 65536 bytes, they are one JSON object, with white space around it and
    nothing else, every key of which is a field of the proposal in any case and
    every value a string or null, [p] has in every field the last string given
    to it, and its ID matches the pattern. Every other body is refused with 400,
    or with 413, and with that only if it is longer than the limit. *)
Theorem body_accepted error_string body p :
  (decode_body maxBodyBytes error_string body = Ok p ↔
   Z.of_nat (length body) ≤ maxBodyBytes ∧ proposal_text body p ∧ MatchString proposalIDPattern (p_ID p) = true) ∧
  match decode_body maxBodyBytes error_string body with
  | Ok _ => True
  | Err (code, _) => code = StatusBadRequest ∨
                     code = StatusRequestEntityTooLarge ∧ maxBodyBytes < Z.of_nat (length body)
  end.
Proof. exact (accepts_exactly maxBodyBytes error_string body p). Qed.

(** ** The handler *)

Definition no_start (o : GateOp) : Prop := match o with GExecuteWorkflow _ _ => False | _ => True end.
Definition starts_only (prop : AgentProposal) (o : GateOp) : Prop :=
  match o with GExecuteWorkflow _ req => er_Proposal req = prop | _ => True end.

Lemma decodeProposal_no_start into : calls_only no_start (decodeProposal into).
Proof.
  unfold decodeProposal. apply calls_only_bind; [by apply calls_only_op|]. intros [p| |e]; [|done..].
  apply calls_only_bind; [by apply calls_only_op|]. intros [| |]; [|done..]. by case_match.
Qed.

Lemma intercept_rest_starts taskQueue agentID prop d random trace now :
  calls_only (starts_only prop)
    (recordErr ← gop (GAppendDecision (ingress_record agentID prop d random trace now));
     answer_verdict taskQueue agentID prop d (ingress_record agentID prop d random trace now) recordErr).
Proof.
  apply calls_only_bind; [by apply calls_only_op|]. intros recordErr. unfold answer_verdict.
  do 3 (case_match; [done|]). case_match; [done|]. apply calls_only_bind; [by apply calls_only_op|].
  intros [[wid rid]|[]]; done.
Qed.

(** A request that starts a workflow has decoded the proposal from its body. *)
Lemma start_decoded taskQueue pooled agentID tr p opts req r : agentID ≠ "" →
  reaches (intercept taskQueue pooled (Some agentID)) tr p →
  ev (Reply:=GateReply) (GExecuteWorkflow opts req) r ∈ tr →
  ∃ tr1 tr2, tr = tr1 ++ tr2 ∧ reaches (decodeProposal zeroProposal) tr1 (Ret (Ok (er_Proposal req))).
Proof.
  intros Hne Hr Hin. unfold intercept, AgentIDFromContext in Hr. rewrite bool_decide_false in Hr by done.
  apply reaches_bind_inv in Hr as [[p' Hp']|(tr1 & tr2 & dp & -> & H1 & H2)].
  { by destruct (calls_only_reaches _ _ _ _ _ (decodeProposal_no_start _) Hp' Hin). }
  apply elem_of_app in Hin as [Hin|Hin].
  { by destruct (calls_only_reaches _ _ _ _ _ (decodeProposal_no_start _) H1 Hin). }
  destruct dp as [prop|[code msg]].
  2:{ apply reaches_inv in H2. destruct tr2; [by apply not_elem_of_nil in Hin|done]. }
  exists tr1, tr2. split; [done|].
  assert (Hc : calls_only (starts_only prop)
    (dr ← EvaluateThrottled agentID prop;
     match dr with
     | Err _ => mret (writeError StatusServiceUnavailable "unavailable" "request cancelled before evaluation")
     | Ok d =>
         random ← gop GRandom; trace ← gop GTraceID; now ← gop GNow;
         recordErr ← gop (GAppendDecision (ingress_record agentID prop d random trace now));
         answer_verdict taskQueue agentID prop d (ingress_record agentID prop d random trace now) recordErr
     end)).
  { apply calls_only_bind.
    - unfold EvaluateThrottled, Proxy_Evaluate. repeat (first [case_match|apply calls_only_bind; [by apply calls_only_op|intros ?]|done]).
    - intros [d|e]; [|done]. do 3 (apply calls_only_bind; [by apply calls_only_op|intros ?]).
      apply intercept_rest_starts. }
  pose proof (calls_only_reaches _ _ _ _ _ Hc H2 Hin) as He. cbn in He. by rewrite He.
Qed.

(** ** What an agent marshals is read back *)

(** [json.Marshal] of an AgentProposal. *)
Definition marshal_member (f : field) (p : AgentProposal) : list Z :=
  encode_string (field_name f) ++ 58 :: encode_string (get_field f p).

Definition marshal_proposal (p : AgentProposal) : list Z :=
  123 :: marshal_member FieldID p ++ 44 :: marshal_member FieldType p ++ 44 :: marshal_member FieldTargetID p ++
  44 :: marshal_member FieldPayload p ++ [125].

Lemma encode_string_eq s rest : encode_string s ++ rest = 34 :: encoded s ++ 34 :: rest.
Proof. unfold encode_string, encoded. cbn [app]. by rewrite <- app_assoc. Qed.

Lemma scan_member l ms fs f p rest : l = BeginString ∨ l = BeginStringOrEmpty →
  scan {| sc_lex := l; sc_stack := ObjectKey ms :: fs |} (marshal_member f p ++ rest) =
  scan {| sc_lex := EndValue (JString (encoded (get_field f p)));
          sc_stack := ObjectValue ms (encoded (field_name f)) :: fs |} rest.
Proof.
  intros Hl. unfold marshal_member. rewrite <- app_assoc. cbn [app]. rewrite encode_string_eq.
  transitivity (scan {| sc_lex := InString []; sc_stack := ObjectKey ms :: fs |}
    (encoded (field_name f) ++ 34 :: 58 :: encode_string (get_field f p) ++ rest)).
  { by destruct Hl as [-> | ->]. }
  rewrite scan_string, encode_string_eq.
  transitivity (scan {| sc_lex := InString []; sc_stack := ObjectValue ms (encoded (field_name f)) :: fs |}
    (encoded (get_field f p) ++ 34 :: rest)); [done|]. by rewrite scan_string.
Qed.

Definition members_of (p : AgentProposal) : list (list Z * json) :=
  (λ f, (encoded (field_name f), JString (encoded (get_field f p)))) <$> [FieldID; FieldType; FieldTargetID; FieldPayload].

Lemma scan_open q : scan scan_start (123 :: q) = scan {| sc_lex := BeginStringOrEmpty; sc_stack := [ObjectKey []] |} q.
Proof. done. Qed.
Lemma scan_comma v ms key fs q :
  scan {| sc_lex := EndValue v; sc_stack := ObjectValue ms key :: fs |} (44 :: q) =
  scan {| sc_lex := BeginString; sc_stack := ObjectKey ((key, v) :: ms) :: fs |} q.
Proof. done. Qed.
Lemma scan_close v ms key q :
  scan {| sc_lex := EndValue v; sc_stack := [ObjectValue ms key] |} (125 :: q) = Value (JObject (rev ((key, v) :: ms))) q.
Proof. done. Qed.

Lemma scan_marshal p rest : scan scan_start (marshal_proposal p ++ rest) = Value (JObject (members_of p)) rest.
Proof.
  unfold marshal_proposal. cbn [app]. rewrite scan_open. repeat (rewrite <- app_assoc; cbn [app]).
  rewrite scan_member by (by right). rewrite scan_comma. do 2 (rewrite scan_member, scan_comma by (by left)).
  rewrite scan_member, scan_close by (by left). done.
Qed.

Definition valid_proposal (p : AgentProposal) : bool :=
  ValidString (p_ID p) && ValidString (p_Type p) && ValidString (p_TargetID p) && ValidString (p_Payload p).

Lemma members_text p sp : valid_proposal p = true → Forall (λ b, isSpace b = true) sp →
  proposal_text (marshal_proposal p ++ sp) p.
Proof.
  intros Hv Hsp. exists (members_of p), sp. split; [apply scan_marshal|].
  split; [exact (scan_literal _ _ _ _ scan_start_literal (scan_marshal p sp))|]. split; [done|].
  assert (Hval : ∀ f, ValidString (get_field f p) = true).
  { unfold valid_proposal in Hv. rewrite !andb_true_iff in Hv. by destruct Hv as [[[? ?] ?] ?], f. }
  assert (Hname : ∀ f, unquote (encoded (field_name f)) = field_name f) by (intros f; by apply unquote_encoded; destruct f).
  assert (Hfield : ∀ f, field_of (field_name f) = Some f) by (by intros []).
  split.
  - apply Forall_fmap, Forall_forall. intros f _. unfold plain_member, compose. cbn [fst snd].
    rewrite Hname, Hfield. eauto.
  - intros f. unfold given, members_of. cbn [fmap list_fmap omap list_omap fst snd]. rewrite !Hname, !Hfield.
    assert (Hu : ∀ g, unquote (encoded (get_field g p)) = get_field g p) by (intros g; apply unquote_encoded, Hval).
    rewrite !Hu. by destruct f.
Qed.

(** C24: What an agent marshals is what the proxy evaluates. The JSON text of a
    proposal of valid UTF-8 strings, in any escaping that json.Marshal chooses,
    with white space after it, is decoded to that very proposal, provided its ID
    matches the pattern and the body is within the limit. *)
Theorem proposal_roundtrip error_string p sp :
  valid_proposal p = true → MatchString proposalIDPattern (p_ID p) = true →
  Forall (λ b, isSpace b = true) sp → Z.of_nat (length (marshal_proposal p ++ sp)) ≤ maxBodyBytes →
  decode_body maxBodyBytes error_string (marshal_proposal p ++ sp) = Ok p.
Proof.
  intros Hv Hid Hsp Hl. apply (proj1 (accepts_exactly maxBodyBytes error_string _ p)).
  split_and!; [done|by apply members_text|done].
Qed.

(** The strings of an accepted proposal are valid UTF-8, whatever the bytes. *)
Lemma proposal_text_valid body p : proposal_text body p → valid_proposal p = true.
Proof.
  intros (ms & rest & _ & _ & _ & _ & Hf).
  assert (Hval : ∀ f, ValidString (get_field f p) = true).
  { intros f. rewrite Hf. destruct (last (given f ms)) as [s|] eqn:E; [|done].
    apply last_Some_elem_of in E. unfold given in E. apply list_elem_of_omap in E as (m & _ & Hm).
    case_bool_decide; [|done]. destruct (m.2); try done. injection Hm as <-. apply unquote_valid. }
  unfold valid_proposal. rewrite !andb_true_iff.
  exact (conj (conj (conj (Hval FieldID) (Hval FieldType)) (Hval FieldTargetID)) (Hval FieldPayload)).
Qed.

(** C23: An accepted proposal survives being encoded again. Whatever escapes,
    invalid bytes and lone surrogates the body had, the strings of the proposal
    decoded from it are valid UTF-8, so the proposal that is evaluated and
    hashed is the one that is read from its own JSON text: the text holds
    nothing else, and a request with it as body, if it is within the limit, is
    accepted as the same proposal. *)
Theorem accepted_again error_string body p :
  decode_body maxBodyBytes error_string body = Ok p →
  valid_proposal p = true ∧ proposal_text (marshal_proposal p) p ∧
  (Z.of_nat (length (marshal_proposal p)) ≤ maxBodyBytes →
   decode_body maxBodyBytes error_string (marshal_proposal p) = Ok p).
Proof.
  intros Hd. apply (proj1 (accepts_exactly maxBodyBytes error_string body p)) in Hd as (_ & Ht & Hid).
  assert (Hv := proposal_text_valid body p Ht). split; [done|].
  assert (Ht' : proposal_text (marshal_proposal p) p).
  { rewrite <- (app_nil_r (marshal_proposal p)). by apply members_text. }
  split; [done|]. intros Hl. by apply (proj1 (accepts_exactly maxBodyBytes error_string _ p)).
Qed.

(** ** Examples *)

Definition quoted (s : string) : list Z := 34 :: bytes_of_string s ++ [34].
(** {"id": ..., followed by the rest. *)
Definition with_id (rest : list Z) : list Z := 123 :: quoted "ID" ++ 58 :: 32 :: quoted "p-1" ++ rest.

Definition sample_body : AgentProposal :=
  {| p_ID := "p-1"; p_Type := CmdModifyRouting; p_TargetID := "edge-node-west-1";
     p_Payload := string_of_bytes [123; 34; 119; 34; 58; 32; 60; 195; 169; 226; 128; 168; 10; 92; 62; 125] |}.

Example body_examples :
  let on body := match decode_body maxBodyBytes (λ e, match e with FailUnknownField k => k | _ => "" end) body with
                 | Ok p => (0, p_ID p +:+ "|" +:+ p_Type p) | Err e => e end in
  (* keys in any case, the last of several strings, null ignored *)
  on (with_id (44 :: quoted "type" ++ 58 :: quoted "A" ++ 44 :: quoted "type" ++ 58 :: quoted "B" ++
               bytes_of_string ",
" ++ quoted "Type" ++ bytes_of_string ":null} ")) = (0, "p-1|B") ∧
  (* an unknown field, another type, another value after the object, no end *)
  on (with_id (44 :: quoted "risk" ++ bytes_of_string ":0}")) = (400, "invalid agent proposal: risk") ∧
  on (with_id (44 :: quoted "type" ++ bytes_of_string ":[1]}")) = (400, "invalid agent proposal: ") ∧
  on (with_id (bytes_of_string "} {")) = (400, "invalid agent proposal: unexpected data after JSON object") ∧
  on (with_id []) = (400, "invalid agent proposal: ") ∧ on [] = (400, "invalid agent proposal: ") ∧
  on (bytes_of_string "null") = (400, "invalid agent proposal: id must match " +:+ proposalIDPattern_String) ∧
  (* one byte too many, inside the object and after it *)
  on (with_id (replicate (Z.to_nat (maxBodyBytes - 11)) 32)) = (413, tooLargeMessage) ∧
  on (with_id (125 :: replicate (Z.to_nat (maxBodyBytes - 12)) 32)) = (413, tooLargeMessage) ∧
  on (with_id (125 :: replicate (Z.to_nat (maxBodyBytes - 13)) 32)) = (0, "p-1|").
Proof. vm_compute. repeat split. Qed.

Lemma proposal_roundtrip_witness :
  decode_body maxBodyBytes (λ _, "") (marshal_proposal sample_body ++ [10]) = Ok sample_body.
Proof.
  refine (proposal_roundtrip (λ _, "") sample_body [10] _ _ _ _); [vm_compute; reflexivity..| |].
  - apply Forall_singleton. reflexivity.
  - apply Z.leb_le. vm_compute. reflexivity.
Defined.

(** An invalid byte and a lone surrogate in the payload. *)
Definition odd_body : list Z :=
  with_id (44 :: quoted "payload" ++ 58 :: 34 :: 97 :: 255 :: bytes_of_string "\uD800b" ++ [34; 125]).

Lemma accepted_again_witness :
  let p := {| p_ID := "p-1"; p_Type := ""; p_TargetID := "";
              p_Payload := string_of_bytes [97; 239; 191; 189; 239; 191; 189; 98] |} in
  decode_body maxBodyBytes (λ _, "") odd_body = Ok p ∧
  decode_body maxBodyBytes (λ _, "") (marshal_proposal p) = Ok p.
Proof.
  cbv zeta. split; [vm_compute; reflexivity|].
  refine (proj2 (proj2 (accepted_again (λ _, "") odd_body _ _)) _); [vm_compute; reflexivity|].
  apply Z.leb_le. vm_compute. reflexivity.
Defined.
