(* ===== verification/Router.v ===== *)
(** * The routes of cmd/sentrygate/handler.go, from the request line on

    [newHandler] registers its handlers on two multiplexers of net/http, one
    inside the other. Here is what [http.ServeMux] does with a method and a
    path on patterns of the kinds registered: literal segments, one-segment
    wildcards, and subtrees ("/v1/"). A path is the list of its segments after
    the leading slash, without percent-escapes. *)

From S2P Require Import Prelude GoBase GoText Contracts Policy Loader Auth Decision Proxy Handler.
Open Scope Z_scope.
Open Scope go_scope.

(** ** http.ServeMux *)

Inductive segment := Literal (s : string) | Wildcard.
Record mux_entry (H : Type) := {
  me_method : string;                (* "" when the pattern names none *)
  me_path : list segment;
  me_subtree : bool;                 (* the pattern ends in a slash *)
  me_handler : list string → H       (* given the values of the wildcards *) }.
Arguments me_method {H}. Arguments me_path {H}. Arguments me_subtree {H}. Arguments me_handler {H}.
Arguments Build_mux_entry {H}.

Definition slash : Ascii.ascii := ascii_of 47.
(** "/a/b" is [["a"; "b"]], "/a/" is [["a"; ""]] and "/" is [[""]]. *)
Definition path_segments (path : string) : list string := drop 1 (strings_Split path slash).

(** [path.Clean] on the segments of a rooted path: the kept ones, last first. *)
Definition clean_step (kept : list string) (seg : string) : list string :=
  if (seg == "") || (seg == ".") then kept
  else if seg == ".." then drop 1 kept
  else seg :: kept.
(** [cleanPath]: a trailing slash is put back. *)
Definition cleanPath (path : list string) : list string :=
  match reverse (foldl clean_step [] path) with
  | [] => [""]
  | kept => if last path == Some "" then kept ++ [""] else kept
  end.

(** A wildcard matches one non-empty segment. The values it took, and the rest. *)
Fixpoint match_path (pat : list segment) (path : list string) : option (list string * list string) :=
  match pat, path with
  | [], rest => Some ([], rest)
  | Literal s :: pat, seg :: path => if s == seg then match_path pat path else None
  | Wildcard :: pat, seg :: path =>
      if seg == "" then None
      else match match_path pat path with Some (vs, rest) => Some (seg :: vs, rest) | None => None end
  | _ :: _, [] => None
  end.

Definition match_entry {H} (e : mux_entry H) (path : list string) : option H :=
  match match_path (me_path e) path with
  | Some (vs, []) => if me_subtree e then None else Some (me_handler e vs)
  | Some (vs, _ :: _) => if me_subtree e then Some (me_handler e vs) else None
  | None => None
  end.

(** GET patterns also match HEAD. *)
Definition match_method {H} (e : mux_entry H) (method : string) : bool :=
  (me_method e == "") || (me_method e == method) || ((me_method e == "GET") && (method == "HEAD")).

(** The handlers whose patterns match, whether the method counts or not. No two
    patterns of one multiplexer here match the same path, so precedence between
    patterns does not arise. *)
Definition matches {H} (mux : list (mux_entry H)) (ok : mux_entry H → bool) (path : list string) : list H :=
  omap (λ e, if ok e then match_entry e path else None) mux.

(** "/tree" is redirected to a registered "/tree/". *)
Definition slash_redirect {H} (mux : list (mux_entry H)) (method : string) (path : list string) : bool :=
  match matches mux (λ e, negb (me_subtree e) && match_method e method) path with
  | _ :: _ => false
  | [] => (last path != Some "") &&
          existsb (λ e, me_subtree e && match_method e method &&
                        match match_path (me_path e) path with Some (_, []) => true | _ => false end) mux
  end.

Inductive mux_result (H : Type) := Handle (h : H) | Redirect (path : list string) | MethodNotAllowed | NotFound.
Arguments Handle {H}. Arguments Redirect {H}. Arguments MethodNotAllowed {H}. Arguments NotFound {H}.

Definition ServeMux {H} (mux : list (mux_entry H)) (method : string) (raw : list string) : mux_result H :=
  let path := if method == "CONNECT" then raw else cleanPath raw in
  if slash_redirect mux method path then Redirect (path ++ [""])
  else if path != raw then Redirect path
  else match matches mux (λ e, match_method e method) path with
       | h :: _ => Handle h
       | [] => match matches mux (λ _, true) path with _ :: _ => MethodNotAllowed | [] => NotFound end
       end.

(** ** newHandler *)

(** What is mounted on the outer multiplexer: a handler, or the inner one
    behind the middleware. *)
Inductive mounted := Route (r : route) | Protected.

Definition first_value (vs : list string) : string := default "" (head vs).

Definition protected_mux : list (mux_entry route) :=
  [ Build_mux_entry "POST" [Literal "v1"; Literal "intercept"] false (λ _, RIntercept);
    Build_mux_entry "GET" [Literal "v1"; Literal "decisions"; Wildcard] false (λ vs, RDecisions (first_value vs));
    Build_mux_entry "GET" [Literal "v1"; Literal "audit"; Wildcard] false (λ vs, RAudit (first_value vs));
    Build_mux_entry "GET" [Literal "v1"; Literal "policy"] false (λ _, RPolicy) ].

Definition outer_mux : list (mux_entry mounted) :=
  [ Build_mux_entry "GET" [Literal "healthz"] false (λ _, Route RHealthz);
    Build_mux_entry "GET" [Literal "readyz"] false (λ _, Route RReadyz);
    Build_mux_entry "" [Literal "v1"] true (λ _, Protected) ].

Definition routed {H H'} (r : mux_result H) (k : H → gate (mux_result H')) : gate (mux_result H') :=
  match r with
  | Handle h => k h
  | Redirect p => mret (Redirect p)
  | MethodNotAllowed => mret MethodNotAllowed
  | NotFound => mret NotFound
  end.

Definition serve_http (k : Keyring) (taskQueue : string) (pooled : option AgentProposal)
    (method : string) (path : list string) (apiKey : string) : gate (mux_result response) :=
  let serve r ctx := a ← protected taskQueue pooled r ctx; mret (Handle a) in
  routed (ServeMux outer_mux method path) (λ m,
    match m with
    | Route r => serve r None
    | Protected =>
        match Middleware k (λ ctx, routed (ServeMux protected_mux method path) (λ r, serve r ctx)) apiKey None with
        | Unauthorized status body => mret (Handle (Plain status body))
        | Served p => p
        end
    end).

(** ** Which requests reach which handler *)

Definition reads (method : string) : bool := (method == "GET") || (method == "HEAD").

(** The request line a route is registered for. *)
Definition request_line (r : route) (method : string) (path : list string) : Prop :=
  match r with
  | RIntercept => method = "POST" ∧ path = ["v1"; "intercept"]
  | RDecisions id => reads method ∧ path = ["v1"; "decisions"; id]
  | RAudit id => reads method ∧ path = ["v1"; "audit"; id]
  | RPolicy => reads method ∧ path = ["v1"; "policy"]
  | RHealthz => reads method ∧ path = ["healthz"]
  | RReadyz => reads method ∧ path = ["readyz"]
  end.

Lemma ServeMux_Handle {H} (mux : list (mux_entry H)) method path h :
  ServeMux mux method path = Handle h →
  ∃ e, e ∈ mux ∧ match_method e method = true ∧ match_entry e path = Some h.
Proof.
  unfold ServeMux. cbv zeta. set (p := if method == "CONNECT" then path else cleanPath path).
  destruct (slash_redirect mux method p); [done|]. case_bool_decide as Hp; cbn [negb]; [|done].
  destruct (matches mux _ p) as [|h' l] eqn:E; [by case_match|]. intros [= ->].
  assert (Hin : h ∈ matches mux (λ e, match_method e method) p) by (rewrite E; apply list_elem_of_here).
  apply list_elem_of_omap in Hin as (e & He & Hm). exists e. rewrite Hp in Hm. by case_match.
Qed.

(** The only paths a pattern of literals, or of literals and a last wildcard,
    matches. *)
Lemma match_entry_path {H} (e : mux_entry H) path h :
  match_entry e path = Some h → me_subtree e = false →
  ∃ vs, match_path (me_path e) path = Some (vs, []) ∧ h = me_handler e vs.
Proof.
  unfold match_entry. destruct (match_path _ _) as [[vs [|]]|]; [|by destruct (me_subtree e)|done].
  intros Hh Hs. rewrite Hs in Hh. simplify_eq. eauto.
Qed.

(** Takes apart the equation of a match. *)
Ltac path_of H :=
  repeat match type of H with
  | match match_path _ ?p with _ => _ end = _ => is_var p; destruct p; cbn in H
  | (if bool_decide ?P then _ else _) = _ => destruct (bool_decide_reflect P); cbn in H
  | match (if bool_decide ?P then _ else _) with _ => _ end = _ => destruct (bool_decide_reflect P); cbn in H
  | match match ?p with _ => _ end with _ => _ end = _ => is_var p; destruct p; cbn in H
  | match ?p with _ => _ end = _ => is_var p; destruct p; cbn in H
  | Some _ = Some _ => injection H as H; subst
  | _ => discriminate H
  end.

Lemma read_method {H} (e : mux_entry H) method :
  match_method e method = true → me_method e = "GET" → reads method.
Proof.
  unfold match_method, reads. intros Hm He. revert Hm. rewrite He. rewrite (bool_decide_false ("GET" = "")), (bool_decide_true ("GET" = "GET")) by done.
  repeat case_bool_decide; simplify_eq; done.
Qed.
Lemma post_method {H} (e : mux_entry H) method :
  match_method e method = true → me_method e = "POST" → method = "POST".
Proof. unfold match_method. intros Hm He. revert Hm. rewrite He. repeat case_bool_decide; simplify_eq; naive_solver. Qed.

Lemma protected_line method path r : ServeMux protected_mux method path = Handle r → request_line r method path.
Proof.
  intros (e & He & Hm & Hp)%ServeMux_Handle. unfold protected_mux in He. set_unfold in He.
  destruct He as [->|[->|[->|[->|[]]]]]; apply match_entry_path in Hp as (vs & Hv & ->); try done;
    cbn in Hv; path_of Hv; cbn [request_line me_handler first_value];
    (split; [first [exact (post_method _ _ Hm eq_refl)|exact (read_method _ _ Hm eq_refl)]|done]).
Qed.

Lemma outer_line method path m : ServeMux outer_mux method path = Handle m →
  match m with Route r => request_line r method path ∧ (r = RHealthz ∨ r = RReadyz)
             | Protected => ∃ seg rest, path = "v1" :: seg :: rest end.
Proof.
  intros (e & He & Hm & Hp)%ServeMux_Handle. unfold outer_mux in He. set_unfold in He.
  destruct He as [->|[->|[->|[]]]].
  1,2: apply match_entry_path in Hp as (vs & Hv & ->); try done; cbn in Hv; path_of Hv;
    cbn [request_line me_handler]; (split; [split; [exact (read_method _ _ Hm eq_refl)|done]|by auto]).
  unfold match_entry in Hp. destruct path as [|s path]; cbn in Hp; [done|].
  case_bool_decide; cbn in Hp; [|done]. destruct path; simplify_eq; eauto.
Qed.

(** ** What a request may cause *)

(** What a request with this request line and key may ask of the services. *)
Definition permitted (k : Keyring) (method : string) (path : list string) (apiKey : string) (o : GateOp) : Prop :=
  match o with
  | GPing => request_line RReadyz method path
  | GListDecisions id => request_line (RDecisions id) method path ∧ is_Some (Resolve k apiKey)
  | GListAudit id => request_line (RAudit id) method path ∧ is_Some (Resolve k apiKey)
  | GPolicyStatus => request_line RPolicy method path ∧ is_Some (Resolve k apiKey)
  | GCtxErr | GAcquireSlot | GReleaseSlot | GCurrent | GDecode _ | GDecodeExtra | GRandom | GTraceID | GNow
  | GAppendDecision _ | GExecuteWorkflow _ _ => request_line RIntercept method path ∧ is_Some (Resolve k apiKey)
  end.

Section Routes.
Context (k : Keyring) (taskQueue : string) (pooled : option AgentProposal).
Context (method : string) (path : list string) (apiKey : string).

#[local] Arguments RequestHash : simpl never.
#[local] Arguments Evaluate : simpl never.
#[local] Arguments MatchString : simpl never.
#[local] Arguments ingress_record : simpl never.

Lemma protected_calls r ctx :
  request_line r method path → (r ≠ RHealthz → r ≠ RReadyz → is_Some (Resolve k apiKey)) →
  calls_only (permitted k method path apiKey) (protected taskQueue pooled r ctx).
Proof.
  intros Hl Hk. destruct r; cbn [protected]; try (specialize (Hk ltac:(done) ltac:(done)));
    unfold intercept, decodeProposal, EvaluateThrottled, Proxy_Evaluate, answer_verdict, decisionsByProposal,
      auditByProposal, policyStatus, healthz, readyz; cbv zeta; calls_only_tac;
    apply calls_only_op; by cbn [permitted].
Qed.

Lemma outer_matches_v1 seg rest (ok : mux_entry mounted → bool) :
  omap (λ e, if ok e then match_entry e ("v1" :: seg :: rest) else None) outer_mux =
  if ok (Build_mux_entry "" [Literal "v1"] true (λ _, Protected)) then [Protected] else [].
Proof.
  unfold outer_mux. cbn [omap list_omap].
  by destruct (ok (Build_mux_entry "GET" [Literal "healthz"] _ _)), (ok (Build_mux_entry "GET" [Literal "readyz"] _ _)),
    (ok (Build_mux_entry "" _ _ _)).
Qed.

(** "/v1" is the only path that is redirected for a trailing slash. *)
Lemma slash_redirect_outer q : slash_redirect outer_mux method q = bool_decide (q = ["v1"]).
Proof.
  case_bool_decide as Hq.
  - subst q. unfold slash_redirect, matches, outer_mux. cbn [omap list_omap me_subtree negb].
    repeat match goal with |- context [match_method ?e ?m] => destruct (match_method e m) eqn:? end; done.
  - unfold slash_redirect. destruct (matches _ _ q); [|done]. apply andb_false_iff. right.
    unfold outer_mux. cbn [existsb me_subtree me_path andb orb]. rewrite orb_false_r. apply andb_false_iff. right.
    destruct q as [|s q]; cbn [match_path]; [done|]. case_bool_decide as Hs; cbn; [|done]. by destruct q; subst.
Qed.

(** Under "/v1/" the outer multiplexer hands on a clean path and redirects
    another one to its clean form. *)
Lemma ServeMux_v1 seg rest : let path := "v1" :: seg :: rest in
  let clean := if method == "CONNECT" then path else cleanPath path in
  ServeMux outer_mux method path =
    if clean == path then Handle Protected else Redirect (if clean == ["v1"] then ["v1"; ""] else clean).
Proof.
  intros p clean. unfold ServeMux. cbv zeta. fold clean. rewrite slash_redirect_outer.
  case_bool_decide as Hv; [rewrite Hv; by rewrite bool_decide_false|].
  case_bool_decide as Hc; cbn [negb]; [|done]. rewrite Hc. unfold p, matches. by rewrite outer_matches_v1.
Qed.

Lemma serve_http_calls :
  calls_only (permitted k method path apiKey) (serve_http k taskQueue pooled method path apiKey).
Proof.
  unfold serve_http. cbv zeta.
  destruct (ServeMux outer_mux method path) as [m|p| |] eqn:Ho; cbn [routed]; try exact I.
  apply outer_line in Ho. destruct m as [r|].
  - destruct Ho as [Hl Hr]. apply calls_only_bind; [|by intros ?]. apply protected_calls; [done|].
    intros ??. by destruct Hr.
  - unfold Middleware. destruct (Resolve k apiKey) as [id|] eqn:Hk; [|exact I].
    destruct (ServeMux protected_mux method path) as [r|p| |] eqn:Hm; cbn [routed]; try exact I.
    apply calls_only_bind; [|by intros ?]. apply protected_calls; [by apply protected_line|].
    intros _ _. by rewrite Hk.
Qed.

(** A request that starts a workflow is an authenticated intercept. *)
Lemma serve_http_start tr p opts req r :
  reaches (serve_http k taskQueue pooled method path apiKey) tr p →
  ev (Reply:=GateReply) (GExecuteWorkflow opts req) r ∈ tr →
  ∃ agentID p', Resolve k apiKey = Some agentID ∧ agentID ≠ "" ∧
    reaches (intercept taskQueue pooled (Some agentID)) tr p'.
Proof.
  intros Hr Hin. destruct (calls_only_reaches _ _ _ _ _ serve_http_calls Hr Hin) as [[Hm Hp] [agentID Hk]].
  revert Hr. rewrite Hm, Hp. unfold serve_http. cbv zeta.
  change (ServeMux outer_mux "POST" _) with (Handle (H:=mounted) Protected). cbn [routed].
  unfold Middleware. rewrite Hk.
  change (ServeMux protected_mux "POST" _) with (Handle (H:=route) RIntercept). cbn [routed protected WithAgentID].
  intros [p' Hr]%reaches_map. exists agentID, p'. split_and!; [done| |done].
  intros ->. apply reaches_inv in Hr. destruct tr; [by apply not_elem_of_nil in Hin|done].
Qed.

(** C20: Which request may do what, from its request line on: whatever the
    method, path and key, a decision is recorded or a workflow started only by
    a POST of exactly /v1/intercept, a trail is read only by a GET or HEAD of
    the path that names its proposal, and each of these only with a key that
    resolves to an agent. Without such a key a request of a clean path under
    /v1/ is answered 401, whether the path exists or not, and one of a path that
    is not clean is redirected to its clean form (/v1 with its slash); neither
    asks any service for anything. *)
Theorem http_routes :
  calls_only (permitted k method path apiKey) (serve_http k taskQueue pooled method path apiKey) ∧
  (∀ seg rest, path = "v1" :: seg :: rest → Resolve k apiKey = None →
     let clean := if method == "CONNECT" then path else cleanPath path in
     serve_http k taskQueue pooled method path apiKey =
       mret (if clean == path then Handle (Plain StatusUnauthorized unauthorized_body)
             else Redirect (if clean == ["v1"] then ["v1"; ""] else clean))).
Proof.
  split; [exact serve_http_calls|]. intros seg rest Hpath Hk. unfold serve_http. cbv zeta.
  rewrite Hpath, ServeMux_v1. unfold Middleware. rewrite Hk. by case_bool_decide.
Qed.
End Routes.

(** ** The paths the responses name *)

Lemma clean_named a b id : id ∉ [""; "."; ".."] → a ∉ [""; "."; ".."] → b ∉ [""; "."; ".."] →
  cleanPath [a; b; id] = [a; b; id].
Proof.
  intros Hid Ha Hb. set_unfold. unfold cleanPath, clean_step. cbn [foldl].
  rewrite !(bool_decide_false (_ = (_ : string))) by naive_solver. cbn [orb]. change (reverse [id; b; a]) with [a; b; id].
  cbn [last]. by rewrite bool_decide_false by naive_solver.
Qed.

Lemma ServeMux_clean {H} (mux : list (mux_entry H)) method path : cleanPath path = path →
  ServeMux mux method path =
    if slash_redirect mux method path then Redirect (path ++ [""])
    else match matches mux (λ e, match_method e method) path with
         | h :: _ => Handle h
         | [] => match matches mux (λ _, true) path with _ :: _ => MethodNotAllowed | [] => NotFound end
         end.
Proof.
  intros Hc. unfold ServeMux. rewrite Hc.
  assert (E : (if method == "CONNECT" then path else path) = path) by by case_bool_decide.
  rewrite E. by rewrite (bool_decide_true (path = path)).
Qed.

(** The trail and the decisions of a proposal are read under the paths that
    intercept returns as [next], unless its ID is "." or "..". *)
Lemma next_paths_served method id :
  reads method → id ∉ [""; "."; ".."] →
  ServeMux outer_mux method ["v1"; "decisions"; id] = Handle Protected ∧
  ServeMux protected_mux method ["v1"; "decisions"; id] = Handle (RDecisions id) ∧
  ServeMux protected_mux method ["v1"; "audit"; id] = Handle (RAudit id).
Proof.
  intros Hm Hid.
  assert (Hc : ∀ b, b ∈ ["decisions"; "audit"] → cleanPath ["v1"; b; id] = ["v1"; b; id]).
  { intros b Hb. apply clean_named; set_solver. }
  assert (Hne : id ≠ "") by set_solver.
  assert (Hg : method = "GET" ∨ method = "HEAD").
  { revert Hm. unfold reads. repeat case_bool_decide; naive_solver. }
  split_and!.
  - rewrite ServeMux_v1, Hc by set_solver. rewrite bool_decide_true; [done|by case_bool_decide].
  - rewrite ServeMux_clean by (apply Hc; set_solver). destruct id; [done|]. by destruct Hg as [->| ->].
  - rewrite ServeMux_clean by (apply Hc; set_solver). destruct id; [done|]. by destruct Hg as [->| ->].
Qed.

(** Both excluded IDs are accepted by intercept, and for them the path returned
    as [next] is redirected to "/v1/" and names nothing. *)
Theorem dot_ids_not_served :
  ∀ id, id ∈ ["."; ".."] →
    MatchString proposalIDPattern id = true ∧
    ∃ p, ServeMux outer_mux "GET" (path_segments ("/v1/decisions/" +:+ id)) = Redirect p ∧
         ∀ r, ServeMux protected_mux "GET" p ≠ Handle r.
Proof.
  intros id Hid. set_unfold. destruct Hid as [->|[->|[]]].
  - split; [done|]. exists ["v1"; "decisions"]. by split; [|vm_compute].
  - split; [done|]. exists ["v1"; ""]. by split; [|vm_compute].
Qed.
