(* ===== verification/Wire.v ===== *)
(** * The bodies of the responses

    [writeJSON] encodes a response with [json.NewEncoder]; a client reads it
    back with [json.Unmarshal]. Here are both, on bytes: the members of the
    structs in the order of their tags, with omitempty, and the decoder's rules
    for members that are unknown, repeated, null or of another type. What the
    server writes of decisions, audit rows and answers is what a client reads. *)

From S2P Require Import Prelude GoBase GoText GoTime GoJson JsonScan Contracts Policy Loader Handler Body.
Open Scope Z_scope.
Open Scope go_scope.

(** ** Encoding *)

(** The values of struct members. *)
Inductive value : Type :=
| VText (s : string)
| VTexts (l : list string)
| VTime (t : Time)
| VInt (n : Z).

(** [",omitempty"] on the member leaves an empty value out. *)
Record member := { mb_name : string; mb_omitempty : bool; mb_value : value }.
Definition plain (name : string) (v : value) : member := {| mb_name := name; mb_omitempty := false; mb_value := v |}.
Definition optional (name : string) (v : value) : member := {| mb_name := name; mb_omitempty := true; mb_value := v |}.

Definition is_empty (v : value) : bool :=
  match v with VText s => s == "" | VTexts l => l == [] | VInt n => n =? 0 | VTime _ => false end.

Fixpoint separated (bs : list (list Z)) : list Z :=
  match bs with
  | [] => []
  | [b] => b
  | b :: bs => b ++ 44 :: separated bs
  end.

Definition null : list Z := [110; 117; 108; 108].

(** [Time.MarshalJSON] fails on a year that does not have four digits. *)
Definition encode_value (v : value) : option (list Z) :=
  match v with
  | VText s => Some (encode_string s)
  | VTexts [] => Some null
  | VTexts l => Some (91 :: separated (encode_string <$> l) ++ [93])
  | VTime t => if between_incl 0 9999 (c_year (civil_of t)) then Some (34 :: bytes_of_string (format_rfc3339nano t) ++ [34])
               else None
  | VInt n => Some (bytes_of_string (pretty n))
  end.

Definition written_members (ms : list member) : list member :=
  List.filter (λ m, negb (mb_omitempty m && is_empty (mb_value m))) ms.

Definition encode_member (m : member) : option (list Z) :=
  v ← encode_value (mb_value m); Some (encode_string (mb_name m) ++ 58 :: v).

Definition encode_struct (ms : list member) : option (list Z) :=
  bs ← mapM encode_member (written_members ms); Some (123 :: separated bs ++ [125]).

Definition encode_structs (rows : list (list member)) : option (list Z) :=
  bs ← mapM encode_struct rows; Some (91 :: separated bs ++ [93]).

(** The tags of the structs. *)
Definition response_members (r : interceptResponse) : list member :=
  [ plain "status" (VText (ir_Status r)); optional "verdict" (VText (ir_Verdict r));
    optional "reasons" (VTexts (ir_Reasons r)); optional "decision_id" (VText (ir_DecisionID r));
    optional "proposal_id" (VText (ir_ProposalID r)); optional "workflow_id" (VText (ir_WorkflowID r));
    optional "run_id" (VText (ir_RunID r)); optional "next" (VText (ir_Next r)); optional "error" (VText (ir_Error r)) ].

Definition decision_members (r : DecisionRecord) : list member :=
  [ plain "decision_id" (VText (dr_DecisionID r)); plain "stage" (VText (dr_Stage r));
    plain "proposal_id" (VText (dr_ProposalID r)); plain "agent_id" (VText (dr_AgentID r));
    plain "request_hash" (VText (dr_RequestHash r)); plain "command" (VText (dr_Command r));
    plain "target_id" (VText (dr_TargetID r)); plain "environment" (VText (dr_Environment r));
    plain "verdict" (VText (dr_Verdict r)); plain "reasons" (VTexts (dr_Reasons r));
    plain "policy_version" (VText (dr_PolicyVersion r)); plain "policy_digest" (VText (dr_PolicyDigest r));
    plain "workflow_id" (VText (dr_WorkflowID r)); plain "trace_id" (VText (dr_TraceID r));
    plain "recorded_at" (VTime (dr_RecordedAt r)) ].

Definition audit_members (r : AuditRecord) : list member :=
  [ plain "record_id" (VText (ar_RecordID r)); plain "proposal_id" (VText (ar_ProposalID r));
    plain "workflow_id" (VText (ar_WorkflowID r)); plain "run_id" (VText (ar_RunID r));
    plain "phase" (VText (ar_Phase r)); plain "verdict" (VText (ar_Verdict r));
    plain "target_id" (VText (ar_TargetID r)); plain "command" (VText (ar_Command r));
    plain "detail" (VText (ar_Detail r)); plain "recorded_at" (VTime (ar_RecordedAt r)) ].

Definition status_members (st : Status) : list member :=
  [ plain "version" (VText (st_Version st)); plain "digest" (VText (st_Digest st));
    plain "loaded_at" (VTime (st_LoadedAt st)); plain "max_parallel_tasks" (VInt (st_MaxParallelTasks st));
    plain "reload_status" (VText (st_ReloadStatus st)); optional "last_reload_error" (VText (st_LastReloadError st)) ] ++
  match st_LastReloadErrorAt st with Some t => [plain "last_reload_error_at" (VTime t)] | None => [] end.

(** The encoder ends a value with a newline; after an error it has written
    nothing, and the status code has been sent. *)
Definition writeJSON (b : option (list Z)) : list Z := match b with Some b => b ++ [10] | None => [] end.

(** [http.Error] ends the text with a newline too; readyz uses it. *)
Definition http_Error (text : string) : list Z := bytes_of_string text ++ [10].

Definition response_body (r : response) : list Z :=
  match r with
  | JSON _ r => writeJSON (encode_struct (response_members r))
  | JSONDecisions _ rows => writeJSON (encode_structs (decision_members <$> rows))
  | JSONAudit _ rows => writeJSON (encode_structs (audit_members <$> rows))
  | JSONStatus _ st => writeJSON (encode_struct (status_members st))
  | Plain status text => if status == StatusServiceUnavailable then http_Error text else bytes_of_string text
  end.

(** ** Decoding *)

(** The type of a member of the destination. *)
Inductive kind := KText | KTexts | KTime.

(** The members that have been stored, by their tag, and the array behind the
    slice of strings. *)
Record stored := { sd_values : gmap string value; sd_array : list string }.
Definition nothing : stored := {| sd_values := ∅; sd_array := [] |}.
Definition put (name : string) (v : value) (st : stored) : stored :=
  {| sd_values := <[name := v]> (sd_values st); sd_array := sd_array st |}.
Definition put_texts (name : string) (l array : list string) (st : stored) : stored :=
  {| sd_values := <[name := VTexts l]> (sd_values st); sd_array := array |}.

Definition text_at (st : stored) (name : string) : string :=
  match sd_values st !! name with Some (VText s) => s | _ => "" end.
Definition texts_at (st : stored) (name : string) : list string :=
  match sd_values st !! name with Some (VTexts l) => l | _ => [] end.
Definition time_at (st : stored) (name : string) : Time :=
  match sd_values st !! name with Some (VTime t) => t | _ => zeroTime end.

(** The folding of names: ASCII letters, and the two runes outside ASCII that
    fold to one, the long s and the Kelvin sign. *)
Fixpoint fold_bytes (p : list Z) : list Z :=
  match p with
  | 197 :: 191 :: p => 115 :: fold_bytes p
  | 226 :: 132 :: 170 :: p => 107 :: fold_bytes p
  | b :: p => fold_byte b :: fold_bytes p
  | [] => []
  end.

Definition slot_of (slots : list (string * kind)) (key : string) : option (string * kind) :=
  List.find (λ f, fold_bytes (bytes_of_string key) == bytes_of_string f.1) slots.

(** An array of strings. A null, or a value of another type, which is an error,
    leaves what the slice's array has at that place. *)
Fixpoint store_elements (vs : list json) (array : list string) : list string * bool :=
  match vs with
  | [] => ([], false)
  | v :: vs =>
      let keep := default "" (head array) in
      let '(l, e) := store_elements vs (tail array) in
      match v with
      | JString raw => (unquote raw :: l, e)
      | JNull => (keep :: l, e)
      | _ => (keep :: l, true)
      end
  end.

(** What is stored of a value, and whether there was an error. The
    [UnmarshalJSON] of a time has the bytes between the quotes. *)
Definition store_value (name : string) (k : kind) (v : json) (st : stored) : stored * bool :=
  match k, v with
  | KText, JNull | KTime, JNull => (st, false)
  | KText, JString raw => (put name (VText (unquote raw)) st, false)
  | KTexts, JNull | KTexts, JArray [] => (put_texts name [] [] st, false)
  | KTexts, JArray vs =>
      let '(l, e) := store_elements vs (sd_array st) in (put_texts name l (l ++ drop (length l) (sd_array st)) st, e)
  | KTime, JString raw =>
      match parse_rfc3339nano (string_of_bytes raw) with
      | Some t => (put name (VTime t) st, false)
      | None => (st, true)
      end
  | _, _ => (st, true)
  end.

(** Unknown members are skipped. *)
Fixpoint store_fields (slots : list (string * kind)) (ms : list (list Z * json)) (st : stored) : stored * bool :=
  match ms with
  | [] => (st, false)
  | m :: ms =>
      let '(st, e) := match slot_of slots (unquote m.1) with
                      | Some (name, k) => store_value name k m.2 st
                      | None => (st, false)
                      end in
      let '(st, e') := store_fields slots ms st in (st, e || e')
  end.

Definition store_struct (slots : list (string * kind)) (v : json) : stored * bool :=
  match v with
  | JNull => (nothing, false)
  | JObject ms => store_fields slots ms nothing
  | _ => (nothing, true)
  end.

Fixpoint store_structs (slots : list (string * kind)) (vs : list json) : list stored * bool :=
  match vs with
  | [] => ([], false)
  | v :: vs =>
      let '(r, e) := store_struct slots v in
      let '(l, e') := store_structs slots vs in (r :: l, e || e')
  end.

(** [json.Unmarshal] first checks that the bytes are one value. *)
Definition one_value (data : list Z) : option json :=
  match scan scan_start data with
  | Value v rest => if forallb isSpace rest then Some v else None
  | More st => match step st 32 with EndedBefore v => Some v | _ => None end
  | SyntaxError => None
  end.

(** What is in the destination afterwards, whether or not there was an error. *)
Definition unmarshal_struct (slots : list (string * kind)) (data : list Z) : stored :=
  match one_value data with Some v => (store_struct slots v).1 | None => nothing end.

(** Into a slice of structs; [None] is an error. *)
Definition unmarshal_structs (slots : list (string * kind)) (data : list Z) : option (list stored) :=
  match one_value data with
  | Some JNull => Some []
  | Some (JArray vs) => let '(l, e) := store_structs slots vs in if e then None else Some l
  | _ => None
  end.

(** ** The records a client reads *)

Definition decision_slots : list (string * kind) :=
  [ ("decision_id", KText); ("stage", KText); ("proposal_id", KText); ("agent_id", KText); ("request_hash", KText);
    ("command", KText); ("target_id", KText); ("environment", KText); ("verdict", KText); ("reasons", KTexts);
    ("policy_version", KText); ("policy_digest", KText); ("workflow_id", KText); ("trace_id", KText);
    ("recorded_at", KTime) ].
Definition read_decision (st : stored) : DecisionRecord :=
  {| dr_DecisionID := text_at st "decision_id"; dr_Stage := text_at st "stage"; dr_ProposalID := text_at st "proposal_id";
     dr_AgentID := text_at st "agent_id"; dr_RequestHash := text_at st "request_hash"; dr_Command := text_at st "command";
     dr_TargetID := text_at st "target_id"; dr_Environment := text_at st "environment"; dr_Verdict := text_at st "verdict";
     dr_Reasons := texts_at st "reasons"; dr_PolicyVersion := text_at st "policy_version";
     dr_PolicyDigest := text_at st "policy_digest"; dr_WorkflowID := text_at st "workflow_id";
     dr_TraceID := text_at st "trace_id"; dr_RecordedAt := time_at st "recorded_at" |}.

Definition audit_slots : list (string * kind) :=
  [ ("record_id", KText); ("proposal_id", KText); ("workflow_id", KText); ("run_id", KText); ("phase", KText);
    ("verdict", KText); ("target_id", KText); ("command", KText); ("detail", KText); ("recorded_at", KTime) ].
Definition read_audit (st : stored) : AuditRecord :=
  {| ar_RecordID := text_at st "record_id"; ar_ProposalID := text_at st "proposal_id"; ar_WorkflowID := text_at st "workflow_id";
     ar_RunID := text_at st "run_id"; ar_Phase := text_at st "phase"; ar_Verdict := text_at st "verdict";
     ar_TargetID := text_at st "target_id"; ar_Command := text_at st "command"; ar_Detail := text_at st "detail";
     ar_RecordedAt := time_at st "recorded_at" |}.

(** The client's own struct: it has four of the members. *)
Definition response_slots : list (string * kind) :=
  [ ("status", KText); ("verdict", KText); ("reasons", KTexts); ("decision_id", KText) ].
Record client_response := { cr_status : string; cr_verdict : string; cr_reasons : list string; cr_decision_id : string }.
Definition read_response (st : stored) : client_response :=
  {| cr_status := text_at st "status"; cr_verdict := text_at st "verdict"; cr_reasons := texts_at st "reasons";
     cr_decision_id := text_at st "decision_id" |}.

Definition unmarshal_response (data : list Z) : client_response := read_response (unmarshal_struct response_slots data).
Definition unmarshal_decisions (data : list Z) : option (list DecisionRecord) :=
  List.map read_decision <$> unmarshal_structs decision_slots data.
Definition unmarshal_audit (data : list Z) : option (list AuditRecord) :=
  List.map read_audit <$> unmarshal_structs audit_slots data.

Example unmarshal_examples :
  let b s := bytes_of_string s in let q s := [34] ++ b s ++ [34] in
  let r := unmarshal_response ([123] ++ q "STATUS" ++ [58] ++ q "ok" ++ [44] ++ q "reasons" ++ b ":[" ++ q "A" ++ b "," ++ q "B" ++
                               b "]," ++ q "reason\u017f" ++ b ":[null]," ++ q "verdict" ++ b ":1," ++ q "other" ++ b ":{}} ") in
  r = {| cr_status := "ok"; cr_verdict := ""; cr_reasons := ["A"]; cr_decision_id := "" |} ∧
  unmarshal_audit (b "[{},null]") = Some [read_audit nothing; read_audit nothing] ∧ unmarshal_audit (b "[") = None ∧
  unmarshal_audit (b "null") = Some [] ∧ unmarshal_audit ([91; 123] ++ q "phase" ++ b ":1}]") = None.
Proof. vm_compute. done. Qed.

(** ** Reading what was written *)

(** The bytes [b] are read as [v] wherever a value may stand that has [d]
    levels of objects and arrays. *)
Definition value_start (l : lex) : Prop := l = BeginValue ∨ l = BeginValueOrEmpty.
Definition reads_as (d : Z) (b : list Z) (v : json) : Prop := ∀ l f fs rest,
  value_start l → Z.of_nat (length (f :: fs)) + d <= maxNestingDepth →
  scan {| sc_lex := l; sc_stack := f :: fs |} (b ++ rest) = scan {| sc_lex := EndValue v; sc_stack := f :: fs |} rest.

(** What follows an object or array that has been closed. *)
Definition closes (v : json) (fs : list frame) (rest : list Z) : scanned :=
  match fs with [] => Value v rest | _ => scan {| sc_lex := EndValue v; sc_stack := fs |} rest end.

Lemma reads_string s : reads_as 0 (encode_string s) (JString (encoded s)).
Proof.
  intros l f fs rest Hl _. rewrite encode_string_eq.
  transitivity (scan {| sc_lex := InString []; sc_stack := f :: fs |} (encoded s ++ 34 :: rest));
    [by destruct Hl as [-> | ->]|apply scan_string].
Qed.

Lemma reads_null : reads_as 0 null JNull.
Proof. intros l f fs rest Hl _. by destruct Hl as [-> | ->]. Qed.

(** Bytes that stand for themselves in a string. *)
Definition literal_byte (b : Z) : Prop := 32 <= b ∧ b ≠ 34 ∧ b ≠ 92.

Lemma scan_literal_bytes p fs rest : Forall literal_byte p → ∀ raw,
  scan {| sc_lex := InString raw; sc_stack := fs |} (p ++ rest) =
  scan {| sc_lex := InString (rev p ++ raw); sc_stack := fs |} rest.
Proof.
  induction 1 as [|b p (Hb & Hq & Hs) _ IH]; intros raw; [done|]. cbn [app]. rewrite scan_raw by done.
  rewrite IH. cbn [rev]. by rewrite <- app_assoc.
Qed.

Lemma reads_literal p : Forall literal_byte p → reads_as 0 (34 :: p ++ [34]) (JString p).
Proof.
  intros Hp l f fs rest Hl _. cbn [app]. rewrite <- app_assoc. cbn [app].
  transitivity (scan {| sc_lex := InString []; sc_stack := f :: fs |} (p ++ 34 :: rest)); [by destruct Hl as [-> | ->]|].
  rewrite scan_literal_bytes, app_nil_r by done. cbn [scan]. unfold step. cbn [sc_lex sc_stack Z.eqb Pos.eqb].
  by rewrite rev_involutive.
Qed.

Lemma reads_weaken d d' b v : d <= d' → reads_as d b v → reads_as d' b v.
Proof. intros Hd Hr l f fs rest Hl Hn. apply Hr; [done|lia]. Qed.

Lemma separated_cons b b' bs : separated (b :: b' :: bs) = b ++ 44 :: separated (b' :: bs).
Proof. done. Qed.

Lemma scan_elements d bs vs : Forall2 (reads_as d) bs vs → bs ≠ [] → ∀ l acc fs rest,
  value_start l → Z.of_nat (length fs) + 1 + d <= maxNestingDepth →
  scan {| sc_lex := l; sc_stack := ArrayValue acc :: fs |} (separated bs ++ 93 :: rest) =
  closes (JArray (rev acc ++ vs)) fs rest.
Proof.
  induction 1 as [|b v bs vs Hb Hbs IH]; intros Hne l acc fs rest Hl Hn; [done|].
  destruct Hbs as [|b' v' bs vs Hb' Hbs].
  - cbn [separated]. rewrite Hb by (done || cbn [length]; lia). by destruct fs.
  - rewrite separated_cons, <- app_assoc. cbn [app]. rewrite Hb by (done || cbn [length]; lia).
    transitivity (scan {| sc_lex := BeginValue; sc_stack := ArrayValue (v :: acc) :: fs |} (separated (b' :: bs) ++ 93 :: rest));
      [done|]. rewrite IH by (done || by left). cbn [rev]. by rewrite <- app_assoc.
Qed.

Definition reads_member (d : Z) (b : list Z) (m : list Z * json) : Prop :=
  ∃ name c, b = encode_string name ++ 58 :: c ∧ m.1 = encoded name ∧ reads_as d c m.2.

Lemma scan_key d b m l acc fs rest : reads_member d b m → l = BeginString ∨ l = BeginStringOrEmpty →
  Z.of_nat (length fs) + 1 + d <= maxNestingDepth →
  scan {| sc_lex := l; sc_stack := ObjectKey acc :: fs |} (b ++ rest) =
  scan {| sc_lex := EndValue m.2; sc_stack := ObjectValue acc m.1 :: fs |} rest.
Proof.
  intros (name & c & -> & -> & Hc) Hl Hn. rewrite <- app_assoc. cbn [app]. rewrite encode_string_eq.
  transitivity (scan {| sc_lex := InString []; sc_stack := ObjectKey acc :: fs |}
    (encoded name ++ 34 :: 58 :: c ++ rest)); [by destruct Hl as [-> | ->]|]. rewrite scan_string.
  transitivity (scan {| sc_lex := BeginValue; sc_stack := ObjectValue acc (encoded name) :: fs |} (c ++ rest)); [done|].
  apply Hc; [by left|cbn [length]; lia].
Qed.

Lemma scan_fields d bs ms : Forall2 (reads_member d) bs ms → bs ≠ [] → ∀ l acc fs rest,
  l = BeginString ∨ l = BeginStringOrEmpty → Z.of_nat (length fs) + 1 + d <= maxNestingDepth →
  scan {| sc_lex := l; sc_stack := ObjectKey acc :: fs |} (separated bs ++ 125 :: rest) =
  closes (JObject (rev acc ++ ms)) fs rest.
Proof.
  induction 1 as [|b m bs ms Hb Hbs IH]; intros Hne l acc fs rest Hl Hn; [done|].
  destruct Hbs as [|b' m' bs ms Hb' Hbs].
  - cbn [separated]. rewrite (scan_key d b m) by done. destruct m. by destruct fs.
  - rewrite separated_cons, <- app_assoc. cbn [app]. rewrite (scan_key d b m) by done. destruct m as [key v].
    transitivity (scan {| sc_lex := BeginString; sc_stack := ObjectKey ((key, v) :: acc) :: fs |} (separated (b' :: bs) ++ 125 :: rest));
      [done|]. rewrite IH by (done || by left). cbn [rev]. by rewrite <- app_assoc.
Qed.

Lemma scan_array d bs vs l fs rest : Forall2 (reads_as d) bs vs → value_start l →
  Z.of_nat (length fs) + 1 + d <= maxNestingDepth → 0 <= d →
  scan {| sc_lex := l; sc_stack := fs |} (91 :: separated bs ++ 93 :: rest) = closes (JArray vs) fs rest.
Proof.
  intros Hbs Hl Hn Hd.
  transitivity (scan {| sc_lex := BeginValueOrEmpty; sc_stack := ArrayValue [] :: fs |} (separated bs ++ 93 :: rest)).
  { destruct Hl as [-> | ->]; cbn [scan step sc_lex sc_stack]; unfold begin_value, push;
      cbn [isSpace Z.eqb Pos.eqb orb]; by rewrite (proj2 (Z.ltb_lt _ _)) by lia. }
  destruct Hbs as [|b v bs vs Hb Hbs]; [by destruct fs|].
  apply (scan_elements d (b :: bs) (v :: vs)); [by constructor|done|by right|done].
Qed.

Lemma scan_object d bs ms l fs rest : Forall2 (reads_member d) bs ms → value_start l →
  Z.of_nat (length fs) + 1 + d <= maxNestingDepth → 0 <= d →
  scan {| sc_lex := l; sc_stack := fs |} (123 :: separated bs ++ 125 :: rest) = closes (JObject ms) fs rest.
Proof.
  intros Hbs Hl Hn Hd.
  transitivity (scan {| sc_lex := BeginStringOrEmpty; sc_stack := ObjectKey [] :: fs |} (separated bs ++ 125 :: rest)).
  { destruct Hl as [-> | ->]; cbn [scan step sc_lex sc_stack]; unfold begin_value, push;
      cbn [isSpace Z.eqb Pos.eqb orb]; by rewrite (proj2 (Z.ltb_lt _ _)) by lia. }
  destruct Hbs as [|b m bs ms Hb Hbs]; [by destruct fs|].
  apply (scan_fields d (b :: bs) (m :: ms)); [by constructor|done|by right|done].
Qed.

Lemma reads_array d bs vs : Forall2 (reads_as d) bs vs → 0 <= d → reads_as (d + 1) (91 :: separated bs ++ [93]) (JArray vs).
Proof.
  intros Hbs Hd l f fs rest Hl Hn. cbn [app]. rewrite <- app_assoc. cbn [app].
  by rewrite (scan_array d bs vs) by (done || lia).
Qed.

Lemma reads_object d bs ms : Forall2 (reads_member d) bs ms → 0 <= d →
  reads_as (d + 1) (123 :: separated bs ++ [125]) (JObject ms).
Proof.
  intros Hbs Hd l f fs rest Hl Hn. cbn [app]. rewrite <- app_assoc. cbn [app].
  by rewrite (scan_object d bs ms) by (done || lia).
Qed.

(** ** The text of a time *)

Definition literal_text (s : string) : Prop := Forall literal_byte (bytes_of_string s).

Lemma literal_app s t : literal_text s → literal_text t → literal_text (s +:+ t).
Proof. unfold literal_text. rewrite bytes_of_string_app. intros. by apply Forall_app. Qed.

Lemma literal_digits s : all_digits s = true → literal_text s.
Proof.
  induction s as [|a s IH]; [intros; apply Forall_nil_2|]. cbn [all_digits]. intros [Ha Hs]%andb_true_iff.
  apply Forall_cons. split; [|by apply IH]. unfold digit, in_range in Ha. unfold literal_byte. lia.
Qed.

Lemma literal_time t : four_digit_year t → literal_text (format_rfc3339nano t).
Proof.
  intros Ht. pose proof (four_digit_year_spec t Ht) as Hy.
  destruct (civil_of_spec t) as (_ & Hmo & Hd & Hh & Hmi & Hs & Hn).
  pose proof (daysIn_small (c_month (civil_of t)) (c_year (civil_of t)) Hmo) as Hd'.
  unfold format_rfc3339nano, format_date. cbv zeta. rewrite !appendInt_fixed by (simpl; lia).
  assert (Hnano : literal_text (appendNano (c_nsec (civil_of t)))).
  { unfold appendNano. destruct (_ =? 0); [apply Forall_nil_2|]. apply literal_app; [repeat constructor; done|].
    apply literal_digits, trim_zeros_spec, all_digits_fixed. }
  repeat match goal with |- literal_text (_ +:+ _) => apply literal_app end;
    first [apply literal_digits, all_digits_fixed|exact Hnano|repeat constructor; done].
Qed.

(** ** Values, structs and listings *)

(** What a client can read back: texts of valid UTF-8, times of four-digit
    years. *)
Definition readable_value (v : value) : Prop :=
  match v with
  | VText s => ValidString s = true
  | VTexts l => Forall (λ s, ValidString s = true) l
  | VTime t => four_digit_year t
  | VInt _ => False
  end.

Definition json_of (v : value) : json :=
  match v with
  | VText s => JString (encoded s)
  | VTexts [] => JNull
  | VTexts l => JArray ((λ s, JString (encoded s)) <$> l)
  | VTime t => JString (bytes_of_string (format_rfc3339nano t))
  | VInt _ => JNumber
  end.

Lemma encode_value_reads v : readable_value v → ∃ b, encode_value v = Some b ∧ reads_as 1 b (json_of v).
Proof.
  destruct v as [s|l|t|n]; cbn [readable_value encode_value json_of]; intros Hv; [| | |done].
  - eexists. split; [done|]. apply (reads_weaken 0); [lia|apply reads_string].
  - destruct l as [|s l]; eexists; (split; [done|]); [apply (reads_weaken 0); [lia|apply reads_null]|].
    apply (reads_array 0); [|lia]. generalize (s :: l). intros l'. induction l'; constructor; [apply reads_string|done].
  - eexists. split.
    + pose proof (four_digit_year_spec t Hv). unfold between_incl. by rewrite !(proj2 (Z.leb_le _ _)) by lia.
    + apply (reads_weaken 0); [lia|]. by apply reads_literal, literal_time.
Qed.

Definition json_member (m : member) : list Z * json := (encoded (mb_name m), json_of (mb_value m)).
Definition readable_members (ms : list member) : Prop := Forall (λ m, readable_value (mb_value m)) ms.

Lemma encode_members_reads ms : readable_members ms →
  ∃ bs, mapM encode_member ms = Some bs ∧ Forall2 (reads_member 1) bs (json_member <$> ms).
Proof.
  induction 1 as [|m ms Hm _ (bs & E & IH)]; [by exists []|].
  destruct (encode_value_reads _ Hm) as (b & Eb & Hb). exists ((encode_string (mb_name m) ++ 58 :: b) :: bs).
  assert (Em : encode_member m = Some (encode_string (mb_name m) ++ 58 :: b)) by (unfold encode_member; by rewrite Eb).
  cbn [mapM]. rewrite Em. cbn [mbind option_bind]. rewrite E. split; [done|].
  constructor; [by exists (mb_name m), b|done].
Qed.

Lemma written_readable ms : readable_members ms → readable_members (written_members ms).
Proof. unfold readable_members. rewrite !Forall_forall. intros H m [Hm _]%list_elem_of_In%List.filter_In. apply H. by apply list_elem_of_In. Qed.

Definition struct_json (ms : list member) : json := JObject (json_member <$> written_members ms).

Lemma encode_struct_reads ms : readable_members ms → ∃ bs,
  encode_struct ms = Some (123 :: separated bs ++ [125]) ∧ Forall2 (reads_member 1) bs (json_member <$> written_members ms).
Proof.
  intros Hm. destruct (encode_members_reads _ (written_readable _ Hm)) as (bs & E & Hbs). exists bs.
  unfold encode_struct. by rewrite E.
Qed.

Lemma encode_structs_reads rows : Forall readable_members rows → ∃ bs,
  encode_structs rows = Some (91 :: separated bs ++ [93]) ∧ Forall2 (reads_as 2) bs (struct_json <$> rows).
Proof.
  intros Hr. assert (∃ bs, mapM encode_struct rows = Some bs ∧ Forall2 (reads_as 2) bs (struct_json <$> rows)) as (bs & E & Hbs).
  { induction Hr as [|ms rows Hm _ (bs & E & IH)]; [by exists []|].
    destruct (encode_struct_reads ms Hm) as (b & Eb & Hb). eexists. cbn [mapM]. rewrite Eb. cbn [mbind option_bind].
    rewrite E. split; [done|]. constructor; [by apply (reads_object 1)|done]. }
  exists bs. unfold encode_structs. by rewrite E.
Qed.

(** The encoder's output is one value. *)
Lemma struct_value ms : readable_members ms → one_value (writeJSON (encode_struct ms)) = Some (struct_json ms).
Proof.
  intros (bs & -> & Hbs)%encode_struct_reads. unfold one_value, writeJSON, scan_start. cbn [app].
  rewrite <- app_assoc. cbn [app]. by rewrite (scan_object 1 bs _ BeginValue [] [10] Hbs) by (done || by left).
Qed.
Lemma structs_value rows : Forall readable_members rows →
  one_value (writeJSON (encode_structs rows)) = Some (JArray (struct_json <$> rows)).
Proof.
  intros (bs & -> & Hbs)%encode_structs_reads. unfold one_value, writeJSON, scan_start. cbn [app].
  rewrite <- app_assoc. cbn [app]. by rewrite (scan_array 2 bs _ BeginValue [] [10] Hbs) by (done || by left).
Qed.

(** ** The destination afterwards *)

Definition kind_of (v : value) : kind :=
  match v with VText _ => KText | VTexts _ => KTexts | VTime _ | VInt _ => KTime end.

Lemma store_elements_encoded l array : Forall (λ s, ValidString s = true) l →
  store_elements ((λ s, JString (encoded s)) <$> l) array = (l, false).
Proof.
  intros Hl. revert array. induction Hl as [|s l Hs _ IH]; intros array; [done|].
  cbn [fmap list_fmap store_elements]. rewrite IH. by rewrite unquote_encoded.
Qed.

Lemma store_value_readable name v st : readable_value v → ∃ a,
  store_value name (kind_of v) (json_of v) st = ({| sd_values := <[name := v]> (sd_values st); sd_array := a |}, false).
Proof.
  destruct v as [s|l|t|n]; cbn [readable_value kind_of json_of store_value]; intros Hv; [| | |done].
  - rewrite unquote_encoded by done. by eexists.
  - destruct l as [|s l]; [by eexists|]. change ((λ s, JString (encoded s)) <$> s :: l) with
      (JString (encoded s) :: ((λ s, JString (encoded s)) <$> l)). cbn [store_value].
    rewrite (store_elements_encoded (s :: l)) by done. by eexists.
  - rewrite string_of_bytes_of_string, parse_format by done. by eexists.
Qed.

(** The member is one of the destination, with the same type, or none of it. *)
Definition fits (slots : list (string * kind)) (m : member) : Prop :=
  ValidString (mb_name m) = true ∧
  (slot_of slots (mb_name m) = None ∨ slot_of slots (mb_name m) = Some (mb_name m, kind_of (mb_value m))).

Fixpoint values_of (slots : list (string * kind)) (ms : list member) (acc : gmap string value) : gmap string value :=
  match ms with
  | [] => acc
  | m :: ms => values_of slots ms (match slot_of slots (mb_name m) with
                                   | Some _ => <[mb_name m := mb_value m]> acc
                                   | None => acc
                                   end)
  end.

Lemma store_fields_fits slots ms st : Forall (fits slots) ms → readable_members ms → ∃ a,
  store_fields slots (json_member <$> ms) st = ({| sd_values := values_of slots ms (sd_values st); sd_array := a |}, false).
Proof.
  intros Hf. revert st. induction Hf as [|m ms [Hn Hs] _ IH]; intros st Hr; [exists (sd_array st); by destruct st|].
  apply Forall_cons in Hr as [Hm Hr]. cbn [fmap list_fmap store_fields values_of json_member fst snd].
  rewrite unquote_encoded by done. destruct Hs as [Hs|Hs]; rewrite Hs.
  - destruct (IH st Hr) as [a ->]. by exists a.
  - destruct (store_value_readable (mb_name m) _ st Hm) as [a ->].
    destruct (IH {| sd_values := <[mb_name m := mb_value m]> (sd_values st); sd_array := a |} Hr) as [a' ->]. by exists a'.
Qed.

Lemma written_fits slots ms : Forall (fits slots) ms → Forall (fits slots) (written_members ms).
Proof. rewrite !Forall_forall. intros H m [Hm _]%list_elem_of_In%List.filter_In. apply H. by apply list_elem_of_In. Qed.

Lemma store_struct_fits slots ms : Forall (fits slots) ms → readable_members ms → ∃ a,
  store_struct slots (struct_json ms) =
  ({| sd_values := values_of slots (written_members ms) ∅; sd_array := a |}, false).
Proof. intros Hf Hr. apply (store_fields_fits slots _ nothing); [by apply written_fits|by apply written_readable]. Qed.

(** A listing of rows of one type. *)
Lemma unmarshal_rows {R} slots (members : R → list member) (back : stored → R) rows :
  (∀ r, Forall (fits slots) (members r)) →
  (∀ r a, back {| sd_values := values_of slots (written_members (members r)) ∅; sd_array := a |} = r) →
  Forall (λ r, readable_members (members r)) rows →
  List.map back <$> unmarshal_structs slots (writeJSON (encode_structs (members <$> rows))) = Some rows.
Proof.
  intros Hfit Hof Hr. unfold unmarshal_structs. rewrite structs_value by by apply Forall_fmap.
  assert (∃ l, store_structs slots (struct_json <$> (members <$> rows)) = (l, false) ∧ List.map back l = rows) as (l & -> & El).
  { induction Hr as [|r rows Hm _ (l & El & Hl)]; [by exists []|]. destruct (store_struct_fits slots _ (Hfit r) Hm) as [a Ea].
    eexists. cbn [fmap list_fmap store_structs]. rewrite Ea, El. split; [done|]. cbn. by rewrite Hof, Hl. }
  cbn. by rewrite El.
Qed.

Ltac fitting := repeat apply Forall_cons_2; try apply Forall_nil_2; (split; [vm_compute; reflexivity|]);
  first [left; vm_compute; reflexivity | right; vm_compute; reflexivity].

Lemma decision_fits r : Forall (fits decision_slots) (decision_members r).
Proof. unfold decision_members. fitting. Qed.
Lemma decision_values r a :
  read_decision {| sd_values := values_of decision_slots (written_members (decision_members r)) ∅; sd_array := a |} = r.
Proof. destruct r. vm_compute. reflexivity. Qed.

Lemma audit_fits r : Forall (fits audit_slots) (audit_members r).
Proof. unfold audit_members. fitting. Qed.
Lemma audit_values r a :
  read_audit {| sd_values := values_of audit_slots (written_members (audit_members r)) ∅; sd_array := a |} = r.
Proof. destruct r. vm_compute. reflexivity. Qed.

Lemma response_fits r : Forall (fits response_slots) (response_members r).
Proof. unfold response_members. fitting. Qed.

Lemma values_skip slots m ms acc : slot_of slots (mb_name m) = None →
  values_of slots (written_members (m :: ms)) acc = values_of slots (written_members ms) acc.
Proof. intros Hm. unfold written_members. cbn [List.filter]. destruct (negb _); [|done]. cbn [values_of]. by rewrite Hm. Qed.

Lemma values_keep slots m ms acc : slot_of slots (mb_name m) ≠ None →
  values_of slots (written_members (m :: ms)) acc = values_of slots (written_members ms)
    (if mb_omitempty m && is_empty (mb_value m) then acc else <[mb_name m := mb_value m]> acc).
Proof.
  intros Hm. unfold written_members. cbn [List.filter]. destruct (_ && _); [done|]. cbn [negb values_of].
  by destruct (slot_of slots (mb_name m)).
Qed.

(** What the client reads of an answer. *)
Definition seen_by_client (r : interceptResponse) : client_response :=
  {| cr_status := ir_Status r; cr_verdict := ir_Verdict r; cr_reasons := ir_Reasons r; cr_decision_id := ir_DecisionID r |}.

Lemma response_values r a :
  read_response {| sd_values := values_of response_slots (written_members (response_members r)) ∅; sd_array := a |} =
  seen_by_client r.
Proof.
  unfold response_members. do 4 (rewrite values_keep by (vm_compute; done)). do 5 (rewrite values_skip by (vm_compute; reflexivity)).
  destruct r as [status verdict reasons id]. cbn [optional plain mb_omitempty mb_value mb_name is_empty andb ir_Status ir_Verdict ir_Reasons ir_DecisionID].
  repeat case_bool_decide; subst; vm_compute; reflexivity.
Qed.

(** C22: The bytes of a response say what the server answered. An answer, a
    listing of decisions or a listing of audit rows, written by the server's
    encoder with its tags and omitted members and read by a client's decoder,
    is what the handler answered, whatever characters the texts have to escape,
    as long as they are valid UTF-8 and the times have years of four digits. *)
Theorem response_read_back :
  (∀ status r, readable_members (response_members r) →
     unmarshal_response (response_body (JSON status r)) = seen_by_client r) ∧
  (∀ status rows, Forall (λ r, readable_members (decision_members r)) rows →
     unmarshal_decisions (response_body (JSONDecisions status rows)) = Some rows) ∧
  (∀ status rows, Forall (λ r, readable_members (audit_members r)) rows →
     unmarshal_audit (response_body (JSONAudit status rows)) = Some rows).
Proof.
  split_and!; intros status.
  - intros r Hr. unfold unmarshal_response, unmarshal_struct, response_body. rewrite struct_value by done.
    destruct (store_struct_fits response_slots _ (response_fits r) Hr) as [a ->]. apply response_values.
  - intros rows. apply unmarshal_rows; [apply decision_fits|apply decision_values].
  - intros rows. apply unmarshal_rows; [apply audit_fits|apply audit_values].
Qed.

Definition sample_answer : interceptResponse :=
  {| ir_Status := "accepted"; ir_Verdict := VerdictAllow; ir_Reasons := ["ENVIRONMENT_ALLOWED"; "a < b & c"];
     ir_DecisionID := "dec_1"; ir_ProposalID := "p-1"; ir_WorkflowID := "saga-p-1"; ir_RunID := "";
     ir_Next := "GET /v1/decisions/p-1 and /v1/audit/p-1"; ir_Error := "" |}.

Lemma response_read_back_witness :
  unmarshal_response (response_body (JSON StatusOK sample_answer)) =
    {| cr_status := "accepted"; cr_verdict := VerdictAllow; cr_reasons := ["ENVIRONMENT_ALLOWED"; "a < b & c"];
       cr_decision_id := "dec_1" |} ∧
  unmarshal_audit (response_body (JSONAudit StatusOK [])) = Some [].
Proof.
  destruct response_read_back as (Hr & _ & Ha). split; [|apply Ha; constructor].
  apply (Hr StatusOK sample_answer). repeat apply Forall_cons_2; try apply Forall_nil_2; cbn [mb_value plain optional readable_value];
    first [vm_compute; reflexivity | repeat apply Forall_cons_2; try apply Forall_nil_2; vm_compute; reflexivity].
Defined.
