(* ===== verification/Store.v ===== *)
(** * internal/decision/store.go and claim.go: decision records and claims

    The [Store] and [ClaimStore] interfaces as a class of operations with a
    class of laws, the claim state machine, and the in-memory implementation.
    Clients (the workflow's activities and the interleaved system) are proved
    against the laws. *)

From S2P Require Import Prelude GoBase Contracts Decision.
Open Scope Z_scope.
Open Scope go_scope.

(** ** The claim state machine of claim.go *)

Definition ClaimSources (to : ClaimState) : option (list ClaimState) :=
  if to == ClaimStateExecuting then Some [ClaimStateClaimed]
  else if to == ClaimStateReconciliationRequired then
    Some [ClaimStateExecuting; ClaimStateReconciliationRequired]
  else if to == ClaimStateCompleted then
    Some [ClaimStateExecuting; ClaimStateReconciliationRequired; ClaimStateCompleted]
  else if to == ClaimStateFailed then
    Some [ClaimStateExecuting; ClaimStateReconciliationRequired; ClaimStateFailed]
  else if to == ClaimStateReleased then Some [ClaimStateClaimed; ClaimStateReleased]
  else None.

Definition ClaimHeldError (c : ExecutionClaim) : error :=
  Wrap "" (Sentinel ErrClaimHeld)
    (": state=" +:+ ec_State c +:+ " workflow_id=" +:+ o_WorkflowID (ec_Owner c) +:+
     " run_id=" +:+ o_RunID (ec_Owner c)).

(** A claim with a new state and update time. *)
Definition set_state (c : ExecutionClaim) (to : ClaimState) (at_ : Time) : ExecutionClaim :=
  {| ec_DecisionID := ec_DecisionID c; ec_Owner := ec_Owner c; ec_State := to;
     ec_ClaimedAt := ec_ClaimedAt c; ec_UpdatedAt := UTC at_ |}.

(** ** The interfaces

    The first argument of an operation is its context. *)

Class StoreOps (S : Type) : Type := {
  append_decision : context → DecisionRecord → S → S * option error;
  get_decision : context → string → S → result error DecisionRecord;
  claim_execution : context → string → ClaimOwner → Time → S → S * option error;
  advance_claim : context → string → ClaimOwner → ClaimState → Time → S → S * option error;
  get_claim : context → string → S → result error ExecutionClaim }.

(** A record up to its reasons and its time. *)
Definition core (r : DecisionRecord) : DecisionRecord :=
  {| dr_DecisionID := dr_DecisionID r; dr_Stage := dr_Stage r; dr_ProposalID := dr_ProposalID r;
     dr_AgentID := dr_AgentID r; dr_RequestHash := dr_RequestHash r; dr_Command := dr_Command r;
     dr_TargetID := dr_TargetID r; dr_Environment := dr_Environment r; dr_Verdict := dr_Verdict r;
     dr_Reasons := []; dr_PolicyVersion := dr_PolicyVersion r; dr_PolicyDigest := dr_PolicyDigest r;
     dr_WorkflowID := dr_WorkflowID r; dr_TraceID := dr_TraceID r; dr_RecordedAt := zeroTime |}.

(** What an implementation promises, in terms of the records and the claims it
    holds: a record is never changed once written, a claim is created or taken
    over only when unclaimed or RELEASED, and moves only under its owner and
    along [ClaimSources]; an operation that returns an error changed nothing.
    [put_record] and [put_time] are what a written record and a written time
    are when read: a store that keeps them as text may lose reasons that are no
    valid text and times outside the range of its format, and nothing else. *)
Class StoreSpec (S : Type) `{StoreOps S} : Type := {
  decisions : S → gmap string DecisionRecord;
  claims : S → gmap string ExecutionClaim;
  store_inv : S → Prop;
  put_record : DecisionRecord → DecisionRecord;
  put_time : Time → Time;
  put_record_core rec : core (put_record rec) = core rec;
  claim_filed s d c : store_inv s → claims s !! d = Some c → ec_DecisionID c = d;
  append_decision_ok ctx rec s s' : store_inv s →
    append_decision ctx rec s = (s', None) →
    store_inv s' ∧ claims s' = claims s ∧ DecisionRecord_Validate rec = None ∧
    ((decisions s !! dr_DecisionID rec = None ∧
      decisions s' = <[dr_DecisionID rec := put_record rec]> (decisions s)) ∨
     (decisions s !! dr_DecisionID rec = Some rec ∧ s' = s));
  append_decision_err ctx rec s s' e : store_inv s →
    append_decision ctx rec s = (s', Some e) → s' = s;
  get_decision_ok ctx d s r : store_inv s →
    get_decision ctx d s = Ok r → decisions s !! d = Some r ∧ dr_DecisionID r = d;
  get_decision_err ctx d s e : store_inv s →
    get_decision ctx d s = Err e → errors_Is e ErrDecisionNotFound = true → decisions s !! d = None;
  claim_execution_ok ctx d o t s s' : store_inv s →
    claim_execution ctx d o t s = (s', None) →
    store_inv s' ∧ decisions s' = decisions s ∧ d ≠ "" ∧ ClaimOwner_Valid o = true ∧
    is_Some (decisions s !! d) ∧
    (((∀ c, claims s !! d = Some c → ec_State c = ClaimStateReleased) ∧
      claims s' = <[d := {| ec_DecisionID := d; ec_Owner := o; ec_State := ClaimStateClaimed;
                            ec_ClaimedAt := put_time t; ec_UpdatedAt := put_time t |}]> (claims s)) ∨
     (∃ c, claims s !! d = Some c ∧ ec_Owner c = o ∧ ec_State c = ClaimStateClaimed ∧ s' = s));
  claim_execution_err ctx d o t s s' e : store_inv s →
    claim_execution ctx d o t s = (s', Some e) →
    s' = s ∧ (errors_Is e ErrClaimHeld = true →
              ∃ c, claims s !! d = Some c ∧ ec_State c ≠ ClaimStateReleased ∧
                   (ec_Owner c ≠ o ∨ ec_State c ≠ ClaimStateClaimed));
  advance_claim_ok ctx d o to t s s' : store_inv s →
    advance_claim ctx d o to t s = (s', None) →
    store_inv s' ∧ decisions s' = decisions s ∧
    ∃ c from, claims s !! d = Some c ∧ ec_Owner c = o ∧ ClaimSources to = Some from ∧
              ec_State c ∈ from ∧ claims s' = <[d := set_state c to (put_time t)]> (claims s);
  advance_claim_err ctx d o to t s s' e : store_inv s →
    advance_claim ctx d o to t s = (s', Some e) →
    s' = s ∧ (errors_Is e ErrClaimNotHeld = true →
              ∀ c from, claims s !! d = Some c → ClaimSources to = Some from →
                        ec_Owner c = o → ec_State c ∉ from);
  get_claim_ok ctx d s c : store_inv s → get_claim ctx d s = Ok c → claims s !! d = Some c;
  get_claim_err ctx d s e : store_inv s →
    get_claim ctx d s = Err e → errors_Is e ErrClaimNotFound = true → claims s !! d = None }.

(** ** MemoryStore *)

Module MemoryStore.

Record t := {
  records : list DecisionRecord;
  byID : gmap string nat;
  claims : gmap string ExecutionClaim }.

Definition NewMemoryStore : t := {| records := []; byID := ∅; claims := ∅ |}.

(** The error of an index outside a slice, where Go panics; [inv] below excludes it. *)
Definition index_panic : error := Text "runtime error: index out of range".

Definition AppendDecision (ctx : context) (rec : DecisionRecord) (m : t) : t * option error :=
  match ctx_Err ctx with
  | Some err => (m, Some err)
  | None =>
      match DecisionRecord_Validate rec with
      | Some err => (m, Some err)
      | None =>
          match byID m !! dr_DecisionID rec with
          | Some i =>
              match records m !! i with
              | Some r => if DecisionRecord_Equal r rec then (m, None)
                          else (m, Some (Sentinel ErrDecisionConflict))
              | None => (m, Some index_panic)
              end
          | None =>
              ({| records := records m ++ [rec];
                  byID := <[dr_DecisionID rec := length (records m)]> (byID m);
                  claims := claims m |}, None)
          end
      end
  end.

Definition GetDecision (ctx : context) (decisionID : string) (m : t) : result error DecisionRecord :=
  match ctx_Err ctx with
  | Some err => Err err
  | None =>
      match byID m !! decisionID with
      | None => Err (Sentinel ErrDecisionNotFound)
      | Some i => match records m !! i with
                  | Some r => Ok r
                  | None => Err index_panic
                  end
      end
  end.

Definition ListDecisionsByProposal (ctx : context) (proposalID : string) (m : t)
    : result error (list DecisionRecord) :=
  match ctx_Err ctx with
  | Some err => Err err
  | None => Ok (filter (λ r, dr_ProposalID r = proposalID) (records m))
  end.

Definition All (m : t) : list DecisionRecord := records m.

Definition ClaimExecution (ctx : context) (decisionID : string) (owner : ClaimOwner)
    (at_ : Time) (m : t) : t * option error :=
  match ctx_Err ctx with
  | Some err => (m, Some err)
  | None =>
      if (decisionID == "") || negb (ClaimOwner_Valid owner)
      then (m, Some (Text [Lit "invalid claim for decision "; Quo decisionID]))
      else match byID m !! decisionID with
      | None => (m, Some (Sentinel ErrDecisionNotFound))
      | Some _ =>
          let put := {| records := records m; byID := byID m;
                        claims := <[decisionID :=
                          {| ec_DecisionID := decisionID; ec_Owner := owner;
                             ec_State := ClaimStateClaimed; ec_ClaimedAt := UTC at_;
                             ec_UpdatedAt := UTC at_ |}]> (claims m) |} in
          match claims m !! decisionID with
          | None => (put, None)
          | Some c =>
              if ec_State c == ClaimStateReleased then (put, None)
              else if (ec_Owner c == owner) && (ec_State c == ClaimStateClaimed) then (m, None)
              else (m, Some (ClaimHeldError c))
          end
      end
  end.

Definition AdvanceClaim (ctx : context) (decisionID : string) (owner : ClaimOwner)
    (to : ClaimState) (at_ : Time) (m : t) : t * option error :=
  match ctx_Err ctx with
  | Some err => (m, Some err)
  | None =>
      match ClaimSources to with
      | None => (m, Some (Wrap "" (Sentinel ErrClaimNotHeld) [Lit ": invalid target state "; Quo to]))
      | Some from =>
          match claims m !! decisionID with
          | None => (m, Some (Sentinel ErrClaimNotHeld))
          | Some c =>
              if (ec_Owner c != owner) || negb (bool_decide (ec_State c ∈ from))
              then (m, Some (Sentinel ErrClaimNotHeld))
              else ({| records := records m; byID := byID m;
                       claims := <[decisionID := set_state c to at_]> (claims m) |}, None)
          end
      end
  end.

Definition GetClaim (ctx : context) (decisionID : string) (m : t) : result error ExecutionClaim :=
  match ctx_Err ctx with
  | Some err => Err err
  | None =>
      match claims m !! decisionID with
      | None => Err (Sentinel ErrClaimNotFound)
      | Some c => Ok c
      end
  end.

(** ** Invariant *)

Definition claim_states : list ClaimState :=
  [ClaimStateClaimed; ClaimStateExecuting; ClaimStateReconciliationRequired;
   ClaimStateCompleted; ClaimStateFailed; ClaimStateReleased].

(** The index maps each decision ID to the position of the one record that has
    it, every record is complete, and every claim is filed under its decision,
    which is recorded, has a complete owner and a declared state. *)
Record inv (m : t) : Prop := {
  inv_index : ∀ id i, byID m !! id = Some i ↔ ∃ r, records m !! i = Some r ∧ dr_DecisionID r = id;
  inv_records : ∀ i r, records m !! i = Some r → DecisionRecord_Validate r = None;
  inv_claims : ∀ d c, claims m !! d = Some c →
    ec_DecisionID c = d ∧ is_Some (byID m !! d) ∧ ClaimOwner_Valid (ec_Owner c) = true ∧
    ec_State c ∈ claim_states }.

(** The records by ID. *)
Definition decisions (m : t) : gmap string DecisionRecord :=
  omap (λ i, records m !! i) (byID m).

Lemma lookup_decisions m d r : inv m →
  decisions m !! d = Some r ↔ ∃ i, records m !! i = Some r ∧ dr_DecisionID r = d.
Proof.
  intros Hm. unfold decisions. rewrite lookup_omap. split.
  - destruct (byID m !! d) as [i|] eqn:E; [|done]. simpl. intros Hr.
    apply (inv_index m Hm) in E as (r' & Hr' & <-). simplify_eq. eauto.
  - intros (i & Hr & <-). assert (E : byID m !! dr_DecisionID r = Some i) by (apply inv_index; eauto).
    by rewrite E.
Qed.

Lemma index_in_range m id i : inv m → byID m !! id = Some i → (i < length (records m))%nat.
Proof. intros Hm (r & Hr & _)%(inv_index m Hm). by eapply lookup_lt_Some. Qed.

Lemma ClaimSources_states to from : ClaimSources to = Some from → to ∈ claim_states.
Proof.
  unfold ClaimSources, claim_states. intros H.
  repeat case_bool_decide; simplify_eq; set_solver.
Qed.

Lemma NewMemoryStore_inv : inv NewMemoryStore.
Proof. constructor; simpl; [|done..]. intros id i. rewrite lookup_empty. naive_solver. Qed.

Lemma append_new_inv m rec : inv m → DecisionRecord_Validate rec = None →
  byID m !! dr_DecisionID rec = None →
  inv {| records := records m ++ [rec];
         byID := <[dr_DecisionID rec := length (records m)]> (byID m); claims := claims m |}.
Proof.
  intros Hm Hv Hn. constructor; simpl.
  - intros id i. rewrite lookup_insert. case_decide as Hid; subst.
    + split; [intros [= <-]; exists rec; by rewrite list_lookup_middle|].
      intros (r & [Hr|[<- _]]%lookup_snoc_Some & Hr'); [|done].
      destruct Hr as [_ Hr]. exfalso.
      assert (byID m !! dr_DecisionID rec = Some i) by (apply inv_index; eauto). congruence.
    + rewrite (inv_index m Hm). setoid_rewrite lookup_snoc_Some. split.
      * intros (r & Hr & <-). exists r. split; [left|done]. split; [|done]. by eapply lookup_lt_Some.
      * intros (r & [[_ Hr]|[_ <-]] & Hr'); [eauto|done].
  - intros i r [[_ Hr]|[_ <-]]%lookup_snoc_Some; [by eapply inv_records|done].
  - intros d c Hc. destruct (inv_claims m Hm d c Hc) as (? & ? & ? & ?).
    rewrite lookup_insert_is_Some. destruct (decide (dr_DecisionID rec = d)); auto 6.
Qed.

Lemma append_new_decisions m rec : inv m → byID m !! dr_DecisionID rec = None →
  decisions {| records := records m ++ [rec];
               byID := <[dr_DecisionID rec := length (records m)]> (byID m); claims := claims m |} =
  <[dr_DecisionID rec := rec]> (decisions m).
Proof.
  intros Hm Hn. apply map_eq. intros id. unfold decisions. simpl.
  rewrite lookup_omap, !lookup_insert. case_decide; subst; simpl.
  - by rewrite list_lookup_middle.
  - rewrite lookup_omap. destruct (byID m !! id) as [i|] eqn:E; [simpl|done].
    apply lookup_app_l. by eapply index_in_range.
Qed.

Lemma put_claim_inv m d c : inv m → ec_DecisionID c = d → is_Some (byID m !! d) →
  ClaimOwner_Valid (ec_Owner c) = true → ec_State c ∈ claim_states →
  inv {| records := records m; byID := byID m; claims := <[d := c]> (claims m) |}.
Proof.
  intros Hm Hd Hb Ho Hs. constructor; simpl.
  - apply (inv_index m Hm).
  - apply (inv_records m Hm).
  - intros d' c'. rewrite lookup_insert_Some. intros [[<- <-]|[_ Hc]]; [done|].
    by apply (inv_claims m Hm).
Qed.

End MemoryStore.

(** ** MemoryStore implements the interface *)

#[export] Instance memory_ops : StoreOps MemoryStore.t := {
  append_decision := MemoryStore.AppendDecision;
  get_decision := MemoryStore.GetDecision;
  claim_execution := MemoryStore.ClaimExecution;
  advance_claim := MemoryStore.AdvanceClaim;
  get_claim := MemoryStore.GetClaim }.

Module MemoryStoreFacts.
Import MemoryStore.

Lemma append_ok ctx rec m m' : inv m → AppendDecision ctx rec m = (m', None) →
  inv m' ∧ claims m' = claims m ∧ DecisionRecord_Validate rec = None ∧
  ((decisions m !! dr_DecisionID rec = None ∧
    decisions m' = <[dr_DecisionID rec := rec]> (decisions m)) ∨
   (decisions m !! dr_DecisionID rec = Some rec ∧ m' = m)).
Proof.
  unfold AppendDecision. intros Hm H. destruct (ctx_Err ctx); [done|].
  destruct (DecisionRecord_Validate rec) eqn:Hv; [done|].
  destruct (byID m !! dr_DecisionID rec) as [i|] eqn:Hb.
  - destruct (records m !! i) as [r|] eqn:Hr; [|done].
    destruct (DecisionRecord_Equal r rec) eqn:E; [|done].
    apply DecisionRecord_Equal_spec in E as ->. injection H as <-.
    assert (Hd : decisions m !! dr_DecisionID rec = Some rec) by (apply lookup_decisions; eauto).
    split_and!; [done..|by right].
  - injection H as <-. split_and!; [by apply append_new_inv|done..|]. left.
    split; [unfold decisions; by rewrite lookup_omap, Hb|]. by apply append_new_decisions.
Qed.

Lemma append_err ctx rec m m' e : AppendDecision ctx rec m = (m', Some e) → m' = m.
Proof. unfold AppendDecision. intros H. repeat case_match; by simplify_eq. Qed.

Lemma get_ok ctx d m r : inv m → GetDecision ctx d m = Ok r →
  decisions m !! d = Some r ∧ dr_DecisionID r = d.
Proof.
  unfold GetDecision. intros Hm H. destruct (ctx_Err ctx); [done|].
  destruct (byID m !! d) as [i|] eqn:Hb; [|done].
  destruct (records m !! i) as [r'|] eqn:Hr; [|done]. injection H as <-.
  apply (inv_index m Hm) in Hb as (r'' & ? & ?). simplify_eq.
  split; [|done]. apply lookup_decisions; eauto.
Qed.

Lemma ctx_Err_not_sentinel ctx e s : ctx_Err ctx = Some e → s ≠ Canceled → s ≠ DeadlineExceeded →
  errors_Is e s = false.
Proof. destruct ctx; simpl; intros; simplify_eq; simpl; apply bool_decide_eq_false; congruence. Qed.

Lemma get_err ctx d m e : inv m → GetDecision ctx d m = Err e →
  errors_Is e ErrDecisionNotFound = true → decisions m !! d = None.
Proof.
  unfold GetDecision. intros Hm H. destruct (ctx_Err ctx) as [e'|] eqn:Hc.
  - injection H as <-. by rewrite (ctx_Err_not_sentinel _ _ _ Hc).
  - destruct (byID m !! d) as [i|] eqn:Hb; [|by unfold decisions; rewrite lookup_omap, Hb].
    destruct (records m !! i); [done|]. by injection H as <-.
Qed.

Lemma claim_ok ctx d o t m m' : inv m → ClaimExecution ctx d o t m = (m', None) →
  inv m' ∧ decisions m' = decisions m ∧ d ≠ "" ∧ ClaimOwner_Valid o = true ∧
  is_Some (decisions m !! d) ∧
  (((∀ c, claims m !! d = Some c → ec_State c = ClaimStateReleased) ∧
    claims m' = <[d := {| ec_DecisionID := d; ec_Owner := o; ec_State := ClaimStateClaimed;
                          ec_ClaimedAt := UTC t; ec_UpdatedAt := UTC t |}]> (claims m)) ∨
   (∃ c, claims m !! d = Some c ∧ ec_Owner c = o ∧ ec_State c = ClaimStateClaimed ∧ m' = m)).
Proof.
  unfold ClaimExecution. intros Hm H. destruct (ctx_Err ctx); [done|].
  case_bool_decide as Hd; [done|]. destruct (ClaimOwner_Valid o) eqn:Ho; [|done]. simpl in H.
  destruct (byID m !! d) as [i|] eqn:Hb; [|done].
  assert (Hdec : is_Some (decisions m !! d)).
  { pose proof Hb as Hb'. apply (inv_index m Hm) in Hb' as (r & Hr & ?).
    exists r. apply lookup_decisions; eauto. }
  assert (Hput : inv {| records := records m; byID := byID m;
     claims := <[d := {| ec_DecisionID := d; ec_Owner := o; ec_State := ClaimStateClaimed;
                         ec_ClaimedAt := UTC t; ec_UpdatedAt := UTC t |}]> (claims m) |}).
  { apply put_claim_inv; simpl; eauto. set_solver. }
  destruct (claims m !! d) as [c|] eqn:Hc.
  - case_bool_decide as Hrel.
    + injection H as <-. split_and!; [done..|]. left. split; [|done]. naive_solver.
    + repeat case_bool_decide; simplify_eq/=. split_and!; [done..|]. right. eauto.
  - injection H as <-. split_and!; [done..|]. left. split; [|done]. naive_solver.
Qed.

Lemma claim_err ctx d o t m m' e : ClaimExecution ctx d o t m = (m', Some e) →
  m' = m ∧ (errors_Is e ErrClaimHeld = true →
    ∃ c, claims m !! d = Some c ∧ ec_State c ≠ ClaimStateReleased ∧
         (ec_Owner c ≠ o ∨ ec_State c ≠ ClaimStateClaimed)).
Proof.
  unfold ClaimExecution. intros H. destruct (ctx_Err ctx) eqn:Hx.
  { simplify_eq. split; [done|]. by rewrite (ctx_Err_not_sentinel _ _ _ Hx). }
  case_match; [by simplify_eq|]. case_match; [|by simplify_eq].
  destruct (claims m !! d) as [c|]; [|done].
  repeat case_bool_decide; simplify_eq/=; (split; [done|]); intros _; exists c; naive_solver.
Qed.

Lemma advance_ok ctx d o to t m m' : inv m → AdvanceClaim ctx d o to t m = (m', None) →
  inv m' ∧ decisions m' = decisions m ∧
  ∃ c from, claims m !! d = Some c ∧ ec_Owner c = o ∧ ClaimSources to = Some from ∧
            ec_State c ∈ from ∧ claims m' = <[d := set_state c to t]> (claims m).
Proof.
  unfold AdvanceClaim. intros Hm H. destruct (ctx_Err ctx); [done|].
  destruct (ClaimSources to) as [from|] eqn:Hs; [|done].
  destruct (claims m !! d) as [c|] eqn:Hc; [|done].
  repeat case_bool_decide; simplify_eq/=.
  destruct (inv_claims m Hm d c Hc) as (? & ? & ? & ?).
  split; [apply put_claim_inv; simpl; eauto using ClaimSources_states|].
  split; [done|]. by exists c, from.
Qed.

Lemma advance_err ctx d o to t m m' e : AdvanceClaim ctx d o to t m = (m', Some e) →
  m' = m ∧ (errors_Is e ErrClaimNotHeld = true →
    ∀ c from, claims m !! d = Some c → ClaimSources to = Some from →
              ec_Owner c = o → ec_State c ∉ from).
Proof.
  unfold AdvanceClaim. intros H. destruct (ctx_Err ctx) eqn:Hx.
  { simplify_eq. split; [done|]. by rewrite (ctx_Err_not_sentinel _ _ _ Hx). }
  destruct (ClaimSources to) as [from|]; [|by simplify_eq].
  destruct (claims m !! d) as [c|]; [|by simplify_eq].
  repeat case_bool_decide; simplify_eq/=; (split; [done|]); naive_solver.
Qed.

Lemma claim_filed m d c : inv m → claims m !! d = Some c → ec_DecisionID c = d.
Proof. intros Hm Hc. by destruct (inv_claims m Hm d c Hc). Qed.

Lemma get_claim_some ctx d m c : GetClaim ctx d m = Ok c → claims m !! d = Some c.
Proof. unfold GetClaim. intros H. repeat case_match; by simplify_eq. Qed.

Lemma get_claim_none ctx d m e : GetClaim ctx d m = Err e →
  errors_Is e ErrClaimNotFound = true → claims m !! d = None.
Proof.
  unfold GetClaim. intros H. destruct (ctx_Err ctx) eqn:Hx.
  - simplify_eq. by rewrite (ctx_Err_not_sentinel _ _ _ Hx).
  - by case_match.
Qed.
End MemoryStoreFacts.

#[export] Instance memory_spec : StoreSpec MemoryStore.t := {
  decisions := MemoryStore.decisions;
  claims := MemoryStore.claims;
  store_inv := MemoryStore.inv;
  put_record := λ rec, rec;
  put_time := UTC;
  put_record_core := λ rec, eq_refl;
  claim_filed := MemoryStoreFacts.claim_filed;
  append_decision_ok := MemoryStoreFacts.append_ok;
  append_decision_err := λ ctx rec s s' e _, MemoryStoreFacts.append_err ctx rec s s' e;
  get_decision_ok := MemoryStoreFacts.get_ok;
  get_decision_err := MemoryStoreFacts.get_err;
  claim_execution_ok := MemoryStoreFacts.claim_ok;
  claim_execution_err := λ ctx d o t s s' e _, MemoryStoreFacts.claim_err ctx d o t s s' e;
  advance_claim_ok := MemoryStoreFacts.advance_ok;
  advance_claim_err := λ ctx d o to t s s' e _, MemoryStoreFacts.advance_err ctx d o to t s s' e;
  get_claim_ok := λ ctx d s c _, MemoryStoreFacts.get_claim_some ctx d s c;
  get_claim_err := λ ctx d s e _, MemoryStoreFacts.get_claim_none ctx d s e }.

(** ** What MemoryStore answers, case by case *)

(** Appending a complete record under a live context succeeds exactly
    when its ID is new or the stored record is equal. A new record is then
    found under its ID and is last in insertion order, an equal one changes
    nothing, and a different one is refused with ErrDecisionConflict and
    changes nothing. *)
Theorem AppendDecision_cases rec m :
  MemoryStore.inv m → DecisionRecord_Validate rec = None →
  match MemoryStore.decisions m !! dr_DecisionID rec with
  | None => ∃ m', MemoryStore.AppendDecision CtxLive rec m = (m', None) ∧
                  MemoryStore.GetDecision CtxLive (dr_DecisionID rec) m' = Ok rec ∧
                  MemoryStore.All m' = MemoryStore.All m ++ [rec]
  | Some r => MemoryStore.AppendDecision CtxLive rec m =
              (m, if decide (r = rec) then None else Some (Sentinel ErrDecisionConflict))
  end.
Proof.
  intros Hm Hv. unfold MemoryStore.AppendDecision. simpl. rewrite Hv.
  unfold MemoryStore.decisions. rewrite lookup_omap.
  destruct (MemoryStore.byID m !! dr_DecisionID rec) as [i|] eqn:Hb; simpl.
  - pose proof Hb as Hb'. apply (MemoryStore.inv_index m Hm) in Hb' as (r & Hr & _). rewrite Hr.
    destruct (DecisionRecord_Equal r rec) eqn:E.
    + apply DecisionRecord_Equal_spec in E as ->. by rewrite decide_True.
    + rewrite decide_False; [done|]. intros ->. by rewrite DecisionRecord_Equal_refl in E.
  - eexists. split; [reflexivity|]. unfold MemoryStore.GetDecision. simpl.
    by rewrite lookup_insert_eq, list_lookup_middle.
Qed.
