(* ===== verification/Database.v ===== *)
(** * The database of internal/audit: tables and statements

    The three tables of sqlite.go's schema, as rows of text in rowid order, and
    every SQL statement of sqlite.go and claims.go as an operation on them. A
    statement is atomic: SQLite serialises writers, and a statement that fails
    changes nothing. *)

From S2P Require Import Prelude GoBase Contracts.
From stdpp Require Import sorting.
Open Scope Z_scope.
Open Scope go_scope.

(** ** Rows *)

Record audit_row : Set := {
  au_record_id : string; au_proposal_id : string; au_workflow_id : string; au_run_id : string;
  au_phase : string; au_verdict : string; au_target_id : string; au_command : string;
  au_detail : string; au_recorded_at : string }.
#[export] Instance audit_row_eq_dec : EqDecision audit_row.
Proof. solve_decision. Defined.

Record decision_row : Set := {
  de_decision_id : string; de_stage : string; de_proposal_id : string; de_agent_id : string;
  de_request_hash : string; de_command : string; de_target_id : string; de_environment : string;
  de_verdict : string; de_reasons : string; de_policy_version : string; de_policy_digest : string;
  de_workflow_id : string; de_trace_id : string; de_recorded_at : string }.
#[export] Instance decision_row_eq_dec : EqDecision decision_row.
Proof. solve_decision. Defined.

Record claim_row : Set := {
  cl_decision_id : string; cl_workflow_id : string; cl_run_id : string; cl_claim_token : string;
  cl_state : string; cl_claimed_at : string; cl_updated_at : string }.
#[export] Instance claim_row_eq_dec : EqDecision claim_row.
Proof. solve_decision. Defined.

Record Db : Set := {
  audit_records : list audit_row;
  decision_records : list decision_row;
  execution_claims : list claim_row }.

Definition empty_db : Db := {| audit_records := []; decision_records := []; execution_claims := [] |}.

Definition set_audit (db : Db) (l : list audit_row) : Db :=
  {| audit_records := l; decision_records := decision_records db; execution_claims := execution_claims db |}.
Definition set_decisions (db : Db) (l : list decision_row) : Db :=
  {| audit_records := audit_records db; decision_records := l; execution_claims := execution_claims db |}.
Definition set_claims (db : Db) (l : list claim_row) : Db :=
  {| audit_records := audit_records db; decision_records := decision_records db; execution_claims := l |}.

(** The row with this primary key, if there is one. *)
Fixpoint row_with {R} (key : R → string) (k : string) (l : list R) : option R :=
  match l with
  | [] => None
  | r :: l => if key r == k then Some r else row_with key k l
  end.

(** The CHECK constraint on execution_claims.state. *)
Definition check_states : list string :=
  ["CLAIMED"; "EXECUTING"; "RECONCILIATION_REQUIRED"; "COMPLETED"; "FAILED"; "RELEASED"].

(** ** Statements, and the calls of os and database/sql that open the file *)

Inductive SqlOp : Type :=
| MkdirAll (dir : string)
| SqlOpen (dsn : string)
| Migrate
| CloseDb
| TimeNow
| PingDb
| InsertAudit (row : audit_row)
| SelectAuditByProposal (proposal_id : string)
| SelectAuditByID (record_id : string)
| InsertDecision (row : decision_row)
| SelectDecision (decision_id : string)
| SelectDecisionsByProposal (proposal_id : string)
| UpsertClaim (decision_id workflow_id run_id claim_token claimed_at updated_at : string)
| UpdateClaim (to updated_at decision_id workflow_id run_id claim_token : string) (from : list string)
| SelectClaim (decision_id : string).

(** An executed statement answers with its result, whose RowsAffected may
    fail; a single-row query with the row, or none; a query with the rows it
    delivered and what [rows.Err()] said after them. *)
Definition SqlReply (o : SqlOp) : Type :=
  match o with
  | MkdirAll _ | SqlOpen _ | Migrate | CloseDb | PingDb => option error
  | TimeNow => Time
  | InsertAudit _ | InsertDecision _ | UpsertClaim _ _ _ _ _ _ | UpdateClaim _ _ _ _ _ _ _ =>
      result error (result error Z)
  | SelectAuditByProposal _ => result error (list audit_row * option error)
  | SelectDecisionsByProposal _ => result error (list decision_row * option error)
  | SelectAuditByID _ => result error (option audit_row)
  | SelectDecision _ => result error (option decision_row)
  | SelectClaim _ => result error (option claim_row)
  end.

Abbreviation sql := (prog SqlOp SqlReply) (only parsing).
Definition query (o : SqlOp) : sql (SqlReply o) := op o.

(** ** What a statement does *)

(** ORDER BY recorded_at ASC, record_id ASC compares the texts byte by byte. *)
Definition audit_order (r1 r2 : audit_row) : Prop :=
  (if au_recorded_at r1 == au_recorded_at r2 then text_leb (au_record_id r1) (au_record_id r2)
   else text_leb (au_recorded_at r1) (au_recorded_at r2)) = true.
#[export] Instance audit_order_dec : RelDecision audit_order.
Proof. unfold audit_order. intros r1 r2. apply _. Defined.

#[export] Instance audit_order_total : Total audit_order.
Proof.
  intros r1 r2. unfold audit_order.
  rewrite (bool_decide_ext (au_recorded_at r2 = au_recorded_at r1) (au_recorded_at r1 = au_recorded_at r2)) by done.
  case_bool_decide; apply text_leb_total.
Qed.

(** The rows an UPDATE of a claim selects, and the row it leaves. *)
Definition update_selects (d wf run tok : string) (from : list string) (r : claim_row) : bool :=
  (cl_decision_id r == d) && (cl_workflow_id r == wf) && (cl_run_id r == run) &&
  (cl_claim_token r == tok) && bool_decide (cl_state r ∈ from).
Definition set_row_state (to ts : string) (r : claim_row) : claim_row :=
  {| cl_decision_id := cl_decision_id r; cl_workflow_id := cl_workflow_id r; cl_run_id := cl_run_id r;
     cl_claim_token := cl_claim_token r; cl_state := to; cl_claimed_at := cl_claimed_at r;
     cl_updated_at := ts |}.

Definition foreign_key_failed : error := Text "constraint failed: FOREIGN KEY constraint failed (787)".
Definition check_failed : error := Text "constraint failed: CHECK constraint failed (275)".

(** Replaces the row that has this key. *)
Definition replace_row {R} (key : R → string) (new : R) (l : list R) : list R :=
  (λ r, if key r == key new then new else r) <$> l.

(** The values of the INSERT, which are the excluded row of its conflict clause. *)
Definition claimed_row (d wf run tok claimed updated : string) : claim_row :=
  {| cl_decision_id := d; cl_workflow_id := wf; cl_run_id := run; cl_claim_token := tok;
     cl_state := "CLAIMED"; cl_claimed_at := claimed; cl_updated_at := updated |}.

Definition upsert_claim (row : claim_row) (db : Db) : Db * result error (result error Z) :=
  match row_with cl_decision_id (cl_decision_id row) (execution_claims db) with
  | Some existing =>
      if cl_state existing == "RELEASED"
      then (set_claims db (replace_row cl_decision_id row (execution_claims db)), Ok (Ok 1))
      else (db, Ok (Ok 0))
  | None =>
      match row_with de_decision_id (cl_decision_id row) (decision_records db) with
      | None => (db, Err foreign_key_failed)
      | Some _ => (set_claims db (execution_claims db ++ [row]), Ok (Ok 1))
      end
  end.

Definition update_claim (to ts d wf run tok : string) (from : list string) (db : Db)
    : Db * result error (result error Z) :=
  let sel := update_selects d wf run tok from in
  let n := length (List.filter sel (execution_claims db)) in
  if (0 <? Z.of_nat n) && negb (bool_decide (to ∈ check_states)) then (db, Err check_failed)
  else (set_claims db ((λ r, if sel r then set_row_state to ts r else r) <$> execution_claims db),
        Ok (Ok (Z.of_nat n))).

(** INSERT ... ON CONFLICT DO NOTHING. *)
Definition insert_audit (row : audit_row) (db : Db) : Db * result error (result error Z) :=
  match row_with au_record_id (au_record_id row) (audit_records db) with
  | Some _ => (db, Ok (Ok 0))
  | None => (set_audit db (audit_records db ++ [row]), Ok (Ok 1))
  end.
Definition insert_decision (row : decision_row) (db : Db) : Db * result error (result error Z) :=
  match row_with de_decision_id (de_decision_id row) (decision_records db) with
  | Some _ => (db, Ok (Ok 0))
  | None => (set_decisions db (decision_records db ++ [row]), Ok (Ok 1))
  end.

(** The SELECTs: a trail in the order of its times and IDs, decisions in rowid
    order, and single rows by primary key. *)
Definition select_trail (p : string) (db : Db) : list audit_row :=
  merge_sort audit_order (filter (λ r, au_proposal_id r = p) (audit_records db)).
Definition select_decisions (p : string) (db : Db) : list decision_row :=
  filter (λ r, de_proposal_id r = p) (decision_records db).
Definition select_audit (id : string) (db : Db) : option audit_row := row_with au_record_id id (audit_records db).
Definition select_decision (id : string) (db : Db) : option decision_row :=
  row_with de_decision_id id (decision_records db).
Definition select_claim (d : string) (db : Db) : option claim_row := row_with cl_decision_id d (execution_claims db).
Arguments insert_audit row db /. Arguments insert_decision row db /. Arguments select_trail p db /.
Arguments select_decisions p db /. Arguments select_audit id db /. Arguments select_decision id db /.
Arguments select_claim d db /.

(** A call on the database. [now] is what time.Now() returns. CREATE TABLE IF
    NOT EXISTS leaves existing tables as they are; a new file has empty tables. *)
Definition db_exec (now : Time) (db : Db) (o : SqlOp) : Db * SqlReply o :=
  match o return Db * SqlReply o with
  | MkdirAll _ | SqlOpen _ | Migrate | CloseDb | PingDb => (db, None)
  | TimeNow => (db, now)
  | InsertAudit row => insert_audit row db
  | SelectAuditByProposal p => (db, Ok (select_trail p db, None))
  | SelectAuditByID id => (db, Ok (select_audit id db))
  | InsertDecision row => insert_decision row db
  | SelectDecision id => (db, Ok (select_decision id db))
  | SelectDecisionsByProposal p => (db, Ok (select_decisions p db, None))
  | UpsertClaim d wf run tok claimed updated => upsert_claim (claimed_row d wf run tok claimed updated) db
  | UpdateClaim to ts d wf run tok from => update_claim to ts d wf run tok from db
  | SelectClaim d => (db, Ok (select_claim d db))
  end.

(** The answer of a statement that did not succeed. *)
Definition fails (o : SqlOp) : error → SqlReply o :=
  match o return error → SqlReply o with
  | MkdirAll _ | SqlOpen _ | Migrate | CloseDb | PingDb => λ e, Some e
  | TimeNow => λ _, zeroTime
  | InsertAudit _ | InsertDecision _ | UpsertClaim _ _ _ _ _ _ | UpdateClaim _ _ _ _ _ _ _
  | SelectAuditByProposal _ | SelectDecisionsByProposal _ | SelectAuditByID _ | SelectDecision _
  | SelectClaim _ => λ e, Err e
  end.

(** The calls that take a context. *)
Definition takes_ctx (o : SqlOp) : bool :=
  match o with MkdirAll _ | SqlOpen _ | Migrate | CloseDb | TimeNow => false | _ => true end.

(** database/sql does not execute a statement of an ended context. *)
Definition db_run (ctx : context) (now : Time) (db : Db) (o : SqlOp) : Db * SqlReply o :=
  match ctx_Err ctx with
  | Some e => if takes_ctx o then (db, fails o e) else db_exec now db o
  | None => db_exec now db o
  end.

(** ** Invariant: the constraints of the schema *)

Record db_inv (db : Db) : Prop := {
  pk_audit : NoDup (au_record_id <$> audit_records db);
  pk_decisions : NoDup (de_decision_id <$> decision_records db);
  pk_claims : NoDup (cl_decision_id <$> execution_claims db);
  fk_claims : ∀ r, r ∈ execution_claims db →
    is_Some (row_with de_decision_id (cl_decision_id r) (decision_records db));
  check_claims : ∀ r, r ∈ execution_claims db → cl_state r ∈ check_states }.

(** ** Rows by key *)

Section Rows.
Context {R : Type} (key : R → string).

Lemma row_with_Some k l r : row_with key k l = Some r → r ∈ l ∧ key r = k.
Proof.
  induction l as [|x l IH]; simpl; [done|]. case_bool_decide; [intros [= <-]; by split; [left|]|].
  intros [? ?]%IH. by split; [right|].
Qed.

Lemma row_with_None k l : row_with key k l = None ↔ k ∉ key <$> l.
Proof.
  induction l as [|x l IH]; simpl; [split; [intros _; apply not_elem_of_nil|done]|].
  rewrite not_elem_of_cons. case_bool_decide; [naive_solver|]. rewrite IH. naive_solver.
Qed.

Lemma row_with_elem l r : NoDup (key <$> l) → r ∈ l → row_with key (key r) l = Some r.
Proof.
  induction l as [|x l IH]; simpl; [by intros _ ?%not_elem_of_nil|].
  intros [Hx Hl]%NoDup_cons [->|Hr]%elem_of_cons; [by rewrite bool_decide_true|].
  rewrite bool_decide_false; [by apply IH|]. intros E. apply Hx. rewrite E. by apply list_elem_of_fmap_2.
Qed.

Lemma row_with_app k l l' : row_with key k (l ++ l') =
  match row_with key k l with Some r => Some r | None => row_with key k l' end.
Proof. induction l as [|x l IH]; simpl; [done|]. by case_bool_decide. Qed.

(** Changing rows without changing their keys. *)
Lemma row_with_map (f : R → R) k l : (∀ r, key (f r) = key r) →
  row_with key k (f <$> l) = f <$> row_with key k l.
Proof.
  intros Hf. induction l as [|x l IH]; simpl; [done|]. rewrite Hf. by case_bool_decide.
Qed.

Lemma keys_map (f : R → R) (l : list R) : (∀ r, key (f r) = key r) → key <$> (f <$> l) = key <$> l.
Proof. intros Hf. rewrite <- list_fmap_compose. apply list_fmap_ext. intros. apply Hf. Qed.

Lemma NoDup_keys_snoc l r : NoDup (key <$> l) → row_with key (key r) l = None → NoDup (key <$> (l ++ [r])).
Proof.
  intros Hl Hr%row_with_None. rewrite fmap_app. apply NoDup_app. split_and!; [done| |apply NoDup_singleton].
  intros x Hx ->%list_elem_of_singleton. done.
Qed.

(** The table as a map from keys. *)
Definition table {A} (f : R → A) (l : list R) : gmap string A := list_to_map ((λ r, (key r, f r)) <$> l).

Lemma lookup_table {A} (f : R → A) l k : table f l !! k = f <$> row_with key k l.
Proof.
  unfold table. induction l as [|x l IH]; simpl; [apply lookup_empty|].
  rewrite lookup_insert. case_bool_decide as Hk; case_decide; try done.
Qed.

Lemma table_snoc {A} (f : R → A) l r : row_with key (key r) l = None →
  table f (l ++ [r]) = <[key r := f r]> (table f l).
Proof.
  intros Hr. apply map_eq. intros k. rewrite lookup_insert, !lookup_table, row_with_app. simpl.
  case_decide as Hk; [subst; rewrite Hr; by rewrite bool_decide_true|].
  rewrite bool_decide_false by done. by destruct (row_with key k l).
Qed.

(** Changing the one row that has a key. *)
Lemma table_update {A} (f : R → A) (g : R → R) l d r :
  row_with key d l = Some r → (∀ x, key (g x) = key x) →
  (∀ x, x ∈ l → key x ≠ d → g x = x) →
  table f (g <$> l) = <[d := f (g r)]> (table f l).
Proof.
  intros Hr Hk Hg. apply map_eq. intros k. rewrite lookup_insert, !lookup_table, row_with_map by done.
  case_decide; [subst; by rewrite Hr|].
  destruct (row_with key k l) as [x|] eqn:E; [|done]. apply row_with_Some in E as [? ?]. simpl.
  rewrite Hg; [done|done|congruence].
Qed.
End Rows.

(** ** The statements keep the constraints *)

Lemma replace_row_keys {R} (key : R → string) new x : key (if key x == key new then new else x) = key x.
Proof. case_bool_decide; congruence. Qed.

Lemma set_row_keys d wf run tok from to ts x :
  cl_decision_id (if update_selects d wf run tok from x then set_row_state to ts x else x) = cl_decision_id x.
Proof. by case_match. Qed.

Lemma row_with_grow {R} (key : R → string) k l r :
  is_Some (row_with key k l) → is_Some (row_with key k (l ++ [r])).
Proof. intros [x Hx]. rewrite row_with_app, Hx. eauto. Qed.

Lemma filter_length_0 {A} (f : A → bool) l x :
  Z.of_nat (length (List.filter f l)) = 0 → x ∈ l → f x = false.
Proof.
  intros Hn Hx. destruct (f x) eqn:E; [|done]. exfalso.
  assert (Hin : x ∈ List.filter f l) by (by apply list_elem_of_In, List.filter_In; rewrite <- list_elem_of_In).
  destruct (List.filter f l); [by apply not_elem_of_nil in Hin|]. simpl in Hn. lia.
Qed.

Lemma db_exec_inv now db o : db_inv db → db_inv (db_exec now db o).1.
Proof.
  intros [Ha Hd Hc Hf Hk]. destruct o; simpl; try done.
  - destruct (row_with _ _ _) eqn:E; [done|]. constructor; simpl; auto using NoDup_keys_snoc.
  - destruct (row_with _ _ _) eqn:E; [done|].
    constructor; simpl; auto using NoDup_keys_snoc, row_with_grow.
  - unfold upsert_claim. destruct (row_with _ _ (execution_claims db)) as [x|] eqn:E.
    + case_bool_decide; [|done]. constructor; simpl; auto.
      * unfold replace_row. by rewrite keys_map by apply replace_row_keys.
      * intros r (y & -> & Hy)%list_elem_of_fmap. rewrite replace_row_keys. auto.
      * intros r (y & -> & Hy)%list_elem_of_fmap. case_bool_decide; [|auto]. simpl. left.
    + destruct (row_with de_decision_id _ _) eqn:E'; [|done].
      constructor; simpl; auto using NoDup_keys_snoc.
      * intros r [Hr| ->%list_elem_of_singleton]%elem_of_app; [auto|]. simpl in E' |- *. by rewrite E'.
      * intros r [Hr| ->%list_elem_of_singleton]%elem_of_app; [auto|]. simpl. left.
  - unfold update_claim. destruct ((0 <? _) && _) eqn:E; [done|]. constructor; simpl; auto.
    + by rewrite keys_map by (intros; apply set_row_keys).
    + intros r (y & -> & Hy)%list_elem_of_fmap. rewrite set_row_keys. auto.
    + intros r (y & -> & Hy)%list_elem_of_fmap. destruct (update_selects _ _ _ _ _ y) eqn:Hs; [|auto]. simpl.
      apply andb_false_iff in E as [E|E]; [|by apply negb_false_iff, bool_decide_eq_true in E].
      apply Z.ltb_ge in E. rewrite (filter_length_0 _ (execution_claims db) y) in Hs; [done|lia|done].
Qed.

Lemma db_run_inv ctx now db o : db_inv db → db_inv (db_run ctx now db o).1.
Proof.
  intros Hdb. unfold db_run. destruct (ctx_Err ctx); [|by apply db_exec_inv].
  destruct (takes_ctx o); [done|by apply db_exec_inv].
Qed.

Lemma empty_db_inv : db_inv empty_db.
Proof. constructor; simpl; try apply NoDup_nil_2; by intros r ?%not_elem_of_nil. Qed.

(** At most one row has the key, so an UPDATE changes at most one. *)
Lemma update_count d wf run tok from l : NoDup (cl_decision_id <$> l) →
  length (List.filter (update_selects d wf run tok from) l) =
  match row_with cl_decision_id d l with
  | Some r => if update_selects d wf run tok from r then 1%nat else 0%nat
  | None => 0%nat
  end.
Proof.
  induction l as [|x l IH]; [done|]. intros [Hx Hl]%NoDup_cons. simpl. case_bool_decide as Hk.
  - specialize (IH Hl). rewrite (proj2 (row_with_None cl_decision_id d l)) in IH by (by rewrite <- Hk).
    destruct (update_selects _ _ _ _ _ x); simpl; by rewrite IH.
  - rewrite <- (IH Hl). replace (update_selects d wf run tok from x) with false; [done|].
    unfold update_selects. by rewrite bool_decide_false.
Qed.
