(* ===== verification/Sqlite.v ===== *)
(** * internal/audit/sqlite.go and claims.go: the SQLite store

    The methods of [Store] as programs over the statements of [Database], in
    the order of the source, and the proof that the store keeps the promises of
    [StoreSpec]. *)

From S2P Require Import Prelude GoBase GoText GoTime GoJson Contracts Decision Store Database.
Open Scope Z_scope.
Open Scope go_scope.

(** ** Columns and values *)

Definition formatTime (t : Time) : string := format_rfc3339nano (UTC t).

Definition parseTime (s : string) : result error Time :=
  match parse_rfc3339nano s with
  | Some t => Ok t
  | None => Err (Text "stored timestamp is not RFC 3339")
  end.

#[global] Arguments formatTime : simpl never.
#[global] Arguments parseTime : simpl never.
#[global] Arguments format_rfc3339nano : simpl never.
#[global] Arguments parse_rfc3339nano : simpl never.
#[global] Arguments json_Marshal : simpl never.
#[global] Arguments json_Unmarshal : simpl never.

(** [strings.Contains]. *)
Definition strings_Contains (s sub : string) : bool :=
  match String.index 0 sub s with Some _ => true | None => false end.

(** What QueryRow(...).Scan sees: the row, or ErrNoRows. *)
Definition one_row {R} (reply : result error (option R)) : result error R :=
  match reply with
  | Ok (Some r) => Ok r
  | Ok None => Err (Sentinel ErrNoRows)
  | Err e => Err e
  end.

(** The bound parameters of the INSERT of a record. *)
Definition audit_params (r : AuditRecord) : audit_row :=
  {| au_record_id := ar_RecordID r; au_proposal_id := ar_ProposalID r; au_workflow_id := ar_WorkflowID r;
     au_run_id := ar_RunID r; au_phase := ar_Phase r; au_verdict := ar_Verdict r;
     au_target_id := ar_TargetID r; au_command := ar_Command r; au_detail := ar_Detail r;
     au_recorded_at := formatTime (ar_RecordedAt r) |}.

Definition decision_params (r : DecisionRecord) : decision_row :=
  {| de_decision_id := dr_DecisionID r; de_stage := dr_Stage r; de_proposal_id := dr_ProposalID r;
     de_agent_id := dr_AgentID r; de_request_hash := dr_RequestHash r; de_command := dr_Command r;
     de_target_id := dr_TargetID r; de_environment := dr_Environment r; de_verdict := dr_Verdict r;
     de_reasons := json_Marshal (dr_Reasons r); de_policy_version := dr_PolicyVersion r;
     de_policy_digest := dr_PolicyDigest r; de_workflow_id := dr_WorkflowID r;
     de_trace_id := dr_TraceID r; de_recorded_at := formatTime (dr_RecordedAt r) |}.

(** A record from a row's columns, with the two that are parsed given. *)
Definition audit_of (r : audit_row) (t : Time) : AuditRecord :=
  {| ar_RecordID := au_record_id r; ar_ProposalID := au_proposal_id r; ar_WorkflowID := au_workflow_id r;
     ar_RunID := au_run_id r; ar_Phase := au_phase r; ar_Verdict := au_verdict r;
     ar_TargetID := au_target_id r; ar_Command := au_command r; ar_Detail := au_detail r;
     ar_RecordedAt := t |}.

Definition decision_of (r : decision_row) (reasons : list ReasonCode) (t : Time) : DecisionRecord :=
  {| dr_DecisionID := de_decision_id r; dr_Stage := de_stage r; dr_ProposalID := de_proposal_id r;
     dr_AgentID := de_agent_id r; dr_RequestHash := de_request_hash r; dr_Command := de_command r;
     dr_TargetID := de_target_id r; dr_Environment := de_environment r; dr_Verdict := de_verdict r;
     dr_Reasons := reasons; dr_PolicyVersion := de_policy_version r;
     dr_PolicyDigest := de_policy_digest r; dr_WorkflowID := de_workflow_id r;
     dr_TraceID := de_trace_id r; dr_RecordedAt := t |}.

Definition claim_of (r : claim_row) (claimed updated : Time) : ExecutionClaim :=
  {| ec_DecisionID := cl_decision_id r;
     ec_Owner := {| o_WorkflowID := cl_workflow_id r; o_RunID := cl_run_id r; o_Token := cl_claim_token r |};
     ec_State := cl_state r; ec_ClaimedAt := claimed; ec_UpdatedAt := updated |}.

(** A record with another time. *)
Definition with_time (r : AuditRecord) (t : Time) : AuditRecord :=
  {| ar_RecordID := ar_RecordID r; ar_ProposalID := ar_ProposalID r; ar_WorkflowID := ar_WorkflowID r;
     ar_RunID := ar_RunID r; ar_Phase := ar_Phase r; ar_Verdict := ar_Verdict r;
     ar_TargetID := ar_TargetID r; ar_Command := ar_Command r; ar_Detail := ar_Detail r;
     ar_RecordedAt := t |}.

Module Sqlite.

Definition busyTimeoutMillis : Z := 5000.

Section Methods.
(** [fmt]'s %q, and the message of encoding/json for a text it rejects. *)
Context (q : string → string) (json_error : string → string).

(** *** Opening and closing *)

Definition dsn (path : string) : string :=
  path +:+ "?_pragma=busy_timeout(" +:+ pretty busyTimeoutMillis +:+
  ")&_pragma=journal_mode(WAL)&_pragma=foreign_keys(1)".

(** [dir] is filepath.Dir(path). SetMaxOpenConns(1) makes statements of one
    process wait for each other. *)
Definition Open (path dir : string) : sql (option error) :=
  mkdirErr ← query (MkdirAll dir);
  match mkdirErr with
  | Some err => mret (Some (Wrap "audit db dir: " err ""))
  | None =>
      openErr ← query (SqlOpen (dsn path));
      match openErr with
      | Some err => mret (Some (Wrap "open sqlite: " err ""))
      | None =>
          migrateErr ← query Migrate;
          match migrateErr with
          | Some err => _ ← query CloseDb; mret (Some err)
          | None => mret None
          end
      end
  end.

Definition Close : sql (option error) := query CloseDb.
Definition Ping : sql (option error) := query PingDb.

(** *** Audit records *)

Definition scanAudit (sc : result error audit_row) : result error AuditRecord :=
  match sc with
  | Err err => Err err
  | Ok r => match parseTime (au_recorded_at r) with
            | Err err => Err err
            | Ok t => Ok (audit_of r t)
            end
  end.

Definition auditByID (id : string) : sql (result error AuditRecord) :=
  reply ← query (SelectAuditByID id); mret (scanAudit (one_row reply)).

(** ErrAuditPersistFailed with a cause, and with a message. *)
Definition persist_failed (err : error) : error :=
  Wrap "" (Sentinel ErrAuditPersistFailed) (": " +:+ error_text q err).
Definition different_content (id : string) : error :=
  Wrap "" (Sentinel ErrAuditPersistFailed) (": record " +:+ id +:+ " already exists with different content").

Definition Append (record : AuditRecord) : sql (option error) :=
  if (ar_RecordID record == "") || (ar_ProposalID record == "") || (ar_Phase record == "")
  then mret (Some (Sentinel ErrAuditPersistFailed))
  else
    record ← (if IsZero (ar_RecordedAt record)
              then now ← query TimeNow; mret (with_time record (UTC now)) else mret record);
    res ← query (InsertAudit (audit_params record));
    match res with
    | Err err => mret (Some (persist_failed err))
    | Ok (Err err) => mret (Some err)
    | Ok (Ok n) =>
        if n =? 1 then mret None
        else
          existing ← auditByID (ar_RecordID record);
          match existing with
          | Err err => mret (Some (persist_failed err))
          | Ok existing =>
              let sameTime := ar_RecordedAt existing =? ar_RecordedAt record in
              if negb sameTime || (with_time existing zeroTime != with_time record zeroTime)
              then mret (Some (different_content (ar_RecordID record)))
              else mret None
          end
    end.

(** The loop over rows.Next(): the first row that does not scan ends it. *)
Fixpoint scan_rows {R A} (scan : result error R → result error A) (rows : list R) : result error (list A) :=
  match rows with
  | [] => Ok []
  | r :: rows => match scan (Ok r) with
                 | Err err => Err err
                 | Ok a => match scan_rows scan rows with Err err => Err err | Ok l => Ok (a :: l) end
                 end
  end.

Definition collect {R A} (scan : result error R → result error A)
    (reply : result error (list R * option error)) : result error (list A) :=
  match reply with
  | Err err => Err err
  | Ok (rows, rowsErr) =>
      match scan_rows scan rows with
      | Err err => Err err
      | Ok out => match rowsErr with Some err => Err err | None => Ok out end
      end
  end.

Definition ListByProposal (proposalID : string) : sql (result error (list AuditRecord)) :=
  reply ← query (SelectAuditByProposal proposalID); mret (collect scanAudit reply).

(** *** Decision records *)

Definition scanDecision (sc : result error decision_row) : result error DecisionRecord :=
  match sc with
  | Err err => Err err
  | Ok r =>
      match json_Unmarshal (de_reasons r) with
      | None => Err (Wrap "decode reasons: " (Text (json_error (de_reasons r))) "")
      | Some reasons =>
          match parseTime (de_recorded_at r) with
          | Err err => Err err
          | Ok t => Ok (decision_of r reasons t)
          end
      end
  end.

(** json.Marshal of a slice of strings does not fail. *)
Definition AppendDecision (rec : DecisionRecord) : sql (option error) :=
  match DecisionRecord_Validate rec with
  | Some err => mret (Some err)
  | None =>
      res ← query (InsertDecision (decision_params rec));
      match res with
      | Err err => mret (Some (Wrap "insert decision: " err ""))
      | Ok (Err err) => mret (Some err)
      | Ok (Ok n) =>
          if n =? 1 then mret None
          else
            reply ← query (SelectDecision (dr_DecisionID rec));
            match scanDecision (one_row reply) with
            | Err err => mret (Some (Wrap "read existing decision: " err ""))
            | Ok existing =>
                if negb (DecisionRecord_Equal existing rec)
                then mret (Some (Sentinel ErrDecisionConflict)) else mret None
            end
      end
  end.

Definition GetDecision (decisionID : string) : sql (result error DecisionRecord) :=
  reply ← query (SelectDecision decisionID);
  mret match scanDecision (one_row reply) with
       | Err err => if errors_Is err ErrNoRows then Err (Sentinel ErrDecisionNotFound)
                    else Err (Wrap "read decision: " err "")
       | Ok r => Ok r
       end.

Definition ListDecisionsByProposal (proposalID : string) : sql (result error (list DecisionRecord)) :=
  reply ← query (SelectDecisionsByProposal proposalID); mret (collect scanDecision reply).

(** *** Claims *)

(** What GetClaim makes of the row. *)
Definition scanClaim (sc : result error claim_row) : result error ExecutionClaim :=
  match sc with
  | Err err => if errors_Is err ErrNoRows then Err (Sentinel ErrClaimNotFound)
               else Err (Wrap "read claim: " err "")
  | Ok r =>
      match parseTime (cl_claimed_at r) with
      | Err err => Err err
      | Ok claimed =>
          match parseTime (cl_updated_at r) with
          | Err err => Err err
          | Ok updated => Ok (claim_of r claimed updated)
          end
      end
  end.

Definition GetClaim (decisionID : string) : sql (result error ExecutionClaim) :=
  reply ← query (SelectClaim decisionID); mret (scanClaim (one_row reply)).

Definition ClaimExecution (decisionID : string) (owner : ClaimOwner) (at_ : Time) : sql (option error) :=
  if (decisionID == "") || negb (ClaimOwner_Valid owner)
  then mret (Some (Text [Lit "invalid claim for decision "; Quo decisionID]))
  else
    let ts := formatTime at_ in
    res ← query (UpsertClaim decisionID (o_WorkflowID owner) (o_RunID owner) (o_Token owner) ts ts);
    match res with
    | Err err =>
        if strings_Contains (error_text q err) "FOREIGN KEY constraint failed"
        then mret (Some (Wrap "" (Sentinel ErrDecisionNotFound) (": " +:+ error_text q err)))
        else mret (Some (Wrap "claim execution: " err ""))
    | Ok (Err err) => mret (Some (Wrap "claim execution: " err ""))
    | Ok (Ok n) =>
        if n =? 1 then mret None
        else
          existing ← GetClaim decisionID;
          match existing with
          | Err err => mret (Some (Wrap "read existing claim: " err ""))
          | Ok c => if (ec_Owner c == owner) && (ec_State c == ClaimStateClaimed) then mret None
                    else mret (Some (ClaimHeldError c))
          end
    end.

Definition AdvanceClaim (decisionID : string) (owner : ClaimOwner) (to : ClaimState) (at_ : Time)
    : sql (option error) :=
  match ClaimSources to with
  | None => mret (Some (Wrap "" (Sentinel ErrClaimNotHeld) [Lit ": invalid target state "; Quo to]))
  | Some from =>
      res ← query (UpdateClaim to (formatTime at_) decisionID (o_WorkflowID owner) (o_RunID owner)
                     (o_Token owner) from);
      match res with
      | Err err | Ok (Err err) => mret (Some (Wrap "advance claim: " err ""))
      | Ok (Ok n) => if negb (n =? 1) then mret (Some (Sentinel ErrClaimNotHeld)) else mret None
      end
  end.
End Methods.
End Sqlite.

(** ** The store keeps the promises of the interface *)

(** A program run without interruption on the database. *)
Definition atomically {A} (ctx : context) (now : Time) (p : sql A) (db : Db) : Db * A :=
  interp (db_run ctx now) db p.

(** Runs the next statement of an uninterrupted program. *)
Ltac run_sql H :=
  unfold atomically, query, op in H;
  cbn [mret prog_ret mbind prog_bind interp takes_ctx fails db_exec insert_decision select_decision select_claim negb] in H.

(** What a row is read as; the defaults stand for rows that do not scan. *)
Definition row_time (s : string) : Time := default zeroTime (parse_rfc3339nano s).
Definition row_decision (r : decision_row) : DecisionRecord :=
  decision_of r (default [] (json_Unmarshal (de_reasons r))) (row_time (de_recorded_at r)).
Definition row_claim (r : claim_row) : ExecutionClaim :=
  claim_of r (row_time (cl_claimed_at r)) (row_time (cl_updated_at r)).
Definition row_audit (r : audit_row) : AuditRecord := audit_of r (row_time (au_recorded_at r)).

Definition db_decisions (db : Db) : gmap string DecisionRecord :=
  table de_decision_id row_decision (decision_records db).
Definition db_claims (db : Db) : gmap string ExecutionClaim :=
  table cl_decision_id row_claim (execution_claims db).

Definition stored_record (rec : DecisionRecord) : DecisionRecord := row_decision (decision_params rec).
Definition stored_time (t : Time) : Time := row_time (formatTime t).

Lemma parseTime_row s t : parseTime s = Ok t → row_time s = t.
Proof. unfold parseTime, row_time. by destruct (parse_rfc3339nano s); intros [= ->]. Qed.

Lemma scanAudit_row row r : Sqlite.scanAudit (Ok row) = Ok r → row_audit row = r.
Proof.
  unfold Sqlite.scanAudit, row_audit. destruct (parseTime (au_recorded_at row)) as [t|] eqn:E; [|done].
  intros [= <-]. by rewrite (parseTime_row _ _ E).
Qed.

(** Rows that all scan are listed in their order. *)
Lemma scan_rows_map {R A} (scan : result error R → result error A) (f : R → A) rows :
  (∀ r, r ∈ rows → scan (Ok r) = Ok (f r)) → Sqlite.scan_rows scan rows = Ok (f <$> rows).
Proof.
  induction rows as [|r rows IH]; [done|]. intros Hr. cbn.
  rewrite Hr by (by left). rewrite IH; [done|]. intros r' Hr'. apply Hr. by right.
Qed.

Lemma stored_core rec : core (stored_record rec) = core rec.
Proof. done. Qed.

(** A record whose reasons are text and whose year has four digits is stored
    as it is. *)
Definition storable (rec : DecisionRecord) : Prop :=
  Forall (λ s, ValidString s = true) (dr_Reasons rec) ∧ four_digit_year (dr_RecordedAt rec).

Lemma stored_time_id t : four_digit_year t → stored_time t = t.
Proof. intros Ht. unfold stored_time, row_time, formatTime, UTC. by rewrite parse_format. Qed.

Lemma stored_record_id rec : storable rec → stored_record rec = rec.
Proof.
  intros [Hr Ht]. unfold stored_record, row_decision, decision_params, row_time, formatTime, UTC.
  cbn [de_reasons de_recorded_at].
  rewrite json_roundtrip, parse_format by done. by destruct rec.
Qed.

Module SqliteFacts.
Section Facts.
Import Sqlite.
Context (q : string → string) (json_error : string → string).

Lemma scanDecision_Ok sc r : scanDecision json_error sc = Ok r → ∃ row, sc = Ok row ∧ r = row_decision row.
Proof.
  unfold scanDecision. destruct sc as [row|]; [|done].
  destruct (json_Unmarshal (de_reasons row)) as [l|] eqn:El; [|done].
  destruct (parseTime (de_recorded_at row)) as [t|] eqn:Et; [|done]. intros [= <-].
  exists row. split; [done|]. unfold row_decision. by rewrite El, (parseTime_row _ _ Et).
Qed.

Lemma one_row_Ok {R} (x : result error (option R)) r : one_row x = Ok r → x = Ok (Some r).
Proof. destruct x as [[?|]|]; simpl; congruence. Qed.

Lemma scanClaim_Ok sc c : scanClaim sc = Ok c → ∃ row, sc = Ok row ∧ c = row_claim row.
Proof.
  unfold scanClaim. destruct sc as [row|e]; [|by destruct (errors_Is e ErrNoRows)].
  destruct (parseTime (cl_claimed_at row)) as [t1|] eqn:E1; [|done].
  destruct (parseTime (cl_updated_at row)) as [t2|] eqn:E2; [|done]. intros [= <-].
  exists row. split; [done|]. unfold row_claim. by rewrite (parseTime_row _ _ E1), (parseTime_row _ _ E2).
Qed.

Lemma lookup_db_decisions db d :
  db_decisions db !! d = row_decision <$> row_with de_decision_id d (decision_records db).
Proof. apply lookup_table. Qed.
Lemma lookup_db_claims db d : db_claims db !! d = row_claim <$> row_with cl_decision_id d (execution_claims db).
Proof. apply lookup_table. Qed.

Lemma sql_append_ok ctx now rec db db' : atomically ctx now (AppendDecision json_error rec) db = (db', None) →
  db_inv db →
  db_inv db' ∧ db_claims db' = db_claims db ∧ DecisionRecord_Validate rec = None ∧
  ((db_decisions db !! dr_DecisionID rec = None ∧
    db_decisions db' = <[dr_DecisionID rec := stored_record rec]> (db_decisions db)) ∨
   (db_decisions db !! dr_DecisionID rec = Some rec ∧ db' = db)).
Proof.
  unfold AppendDecision. intros H Hdb. destruct (DecisionRecord_Validate rec); [done|].
  pose proof (db_run_inv ctx now db (InsertDecision (decision_params rec)) Hdb) as Hdb'.
  run_sql H. unfold db_run in *. destruct (ctx_Err ctx); [by run_sql H|]. cbn [db_exec insert_decision] in H, Hdb'.
  change (de_decision_id (decision_params rec)) with (dr_DecisionID rec) in *.
  rewrite !lookup_db_decisions.
  destruct (row_with de_decision_id (dr_DecisionID rec) (decision_records db)) as [row|] eqn:E.
  - change (0 =? 1) with false in H. run_sql H. cbn [db_exec select_decision] in H. rewrite E in H. cbn [one_row] in H.
    destruct (scanDecision json_error (Ok row)) as [r|e] eqn:Er; [|by run_sql H].
    apply scanDecision_Ok in Er as (row' & [= <-] & ->).
    destruct (DecisionRecord_Equal (row_decision row) rec) eqn:Eq; run_sql H; [|done]. injection H as <-.
    apply DecisionRecord_Equal_spec in Eq as Hr. split_and!; [done..|]. right. by rewrite <- Hr.
  - injection H as <-. split_and!; [done..|]. left. split; [done|].
    unfold db_decisions. cbn [decision_records set_decisions].
    exact (table_snoc de_decision_id row_decision _ (decision_params rec) E).
Qed.

Lemma sql_append_err ctx now rec db db' e :
  atomically ctx now (AppendDecision json_error rec) db = (db', Some e) → db' = db.
Proof.
  unfold AppendDecision. intros H. destruct (DecisionRecord_Validate rec); [by run_sql H; simplify_eq|].
  run_sql H. unfold db_run in H. destruct (ctx_Err ctx); [by run_sql H; simplify_eq|]. run_sql H.
  destruct (row_with de_decision_id _ _) as [row|] eqn:E; [|done]. change (0 =? 1) with false in H.
  run_sql H. destruct (scanDecision json_error _); [|by run_sql H; simplify_eq].
  destruct (DecisionRecord_Equal _ _); by run_sql H; simplify_eq.
Qed.

Lemma sql_get_ok ctx now d db r : (atomically ctx now (GetDecision json_error d) db).2 = Ok r →
  db_decisions db !! d = Some r ∧ dr_DecisionID r = d.
Proof.
  unfold GetDecision. intros H. run_sql H. unfold db_run in H.
  destruct (ctx_Err ctx); [run_sql H; by repeat case_match|]. run_sql H.
  destruct (scanDecision json_error _) as [r'|e] eqn:E; [|by destruct (errors_Is e ErrNoRows)].
  injection H as <-. apply scanDecision_Ok in E as (row & Hrow%one_row_Ok & ->). injection Hrow as Hrow.
  rewrite lookup_db_decisions, Hrow. apply row_with_Some in Hrow as [_ <-]. done.
Qed.

Lemma scan_found_error row e s : scanDecision json_error (Ok row) = Err e → errors_Is e s = false.
Proof.
  unfold scanDecision, parseTime. repeat case_match; intros; by simplify_eq.
Qed.

Lemma sql_get_err ctx now d db e : (atomically ctx now (GetDecision json_error d) db).2 = Err e →
  errors_Is e ErrDecisionNotFound = true → db_decisions db !! d = None.
Proof.
  unfold GetDecision. intros H He. run_sql H. unfold db_run in H. rewrite lookup_db_decisions.
  destruct (ctx_Err ctx) as [c|] eqn:Hx.
  { run_sql H. cbn in H. rewrite (MemoryStoreFacts.ctx_Err_not_sentinel _ _ ErrNoRows Hx) in H by done.
    injection H as <-. cbn in He. by rewrite (MemoryStoreFacts.ctx_Err_not_sentinel _ _ _ Hx) in He. }
  run_sql H. destruct (row_with de_decision_id d (decision_records db)) as [row|]; [|done].
  cbn [one_row snd] in H. destruct (scanDecision json_error (Ok row)) as [|e'] eqn:E; [done|].
  pose proof (scan_found_error row e' ErrNoRows E) as H1.
  pose proof (scan_found_error row e' ErrDecisionNotFound E) as H2.
  rewrite H1 in H. injection H as <-. cbn in He. congruence.
Qed.

(** *** Claims *)

Lemma scanClaim_Err_row row e s : scanClaim (Ok row) = Err e → errors_Is e s = false.
Proof. unfold scanClaim, parseTime. repeat case_match; intros; by simplify_eq. Qed.

Lemma get_claim_ok ctx now d db c : (atomically ctx now (GetClaim d) db).2 = Ok c → db_claims db !! d = Some c.
Proof.
  unfold GetClaim. intros H. run_sql H. unfold db_run in H.
  destruct (ctx_Err ctx) eqn:Hx; run_sql H; cbn [snd] in H.
  - by apply scanClaim_Ok in H as (row & ? & _).
  - apply scanClaim_Ok in H as (row & Hrow%one_row_Ok & ->). injection Hrow as Hrow.
    by rewrite lookup_db_claims, Hrow.
Qed.

Lemma get_claim_err ctx now d db e : (atomically ctx now (GetClaim d) db).2 = Err e →
  errors_Is e ErrClaimNotFound = true → db_claims db !! d = None.
Proof.
  unfold GetClaim. intros H He. run_sql H. unfold db_run in H. rewrite lookup_db_claims.
  destruct (ctx_Err ctx) as [c|] eqn:Hx.
  { run_sql H. cbn in H. rewrite (MemoryStoreFacts.ctx_Err_not_sentinel _ _ ErrNoRows Hx) in H by done.
    injection H as <-. cbn in He. by rewrite (MemoryStoreFacts.ctx_Err_not_sentinel _ _ _ Hx) in He. }
  run_sql H. destruct (row_with cl_decision_id d (execution_claims db)) as [row|]; [|done].
  cbn [one_row snd] in H. by rewrite (scanClaim_Err_row _ _ _ H) in He.
Qed.

Lemma db_claim_filed db d c : db_claims db !! d = Some c → ec_DecisionID c = d.
Proof.
  rewrite lookup_db_claims. destruct (row_with _ _ _) as [row|] eqn:E; [|done].
  intros [= <-]. by apply row_with_Some in E as [_ <-].
Qed.

(** The claim that a successful UPSERT leaves. *)
Definition fresh_claim (d : string) (o : ClaimOwner) (t : Time) : ExecutionClaim :=
  {| ec_DecisionID := d; ec_Owner := o; ec_State := ClaimStateClaimed;
     ec_ClaimedAt := stored_time t; ec_UpdatedAt := stored_time t |}.

Lemma upsert_effect d o t db db' r : db_inv db →
  upsert_claim (claimed_row d (o_WorkflowID o) (o_RunID o) (o_Token o) (formatTime t) (formatTime t)) db = (db', r) →
  (db_decisions db' = db_decisions db) ∧
  match r with
  | Ok (Ok n) =>
      is_Some (db_decisions db !! d) ∧
      ((n = 1 ∧ (∀ c, db_claims db !! d = Some c → ec_State c = ClaimStateReleased) ∧
        db_claims db' = <[d := fresh_claim d o t]> (db_claims db)) ∨
       (n = 0 ∧ db' = db ∧ ∃ c, db_claims db !! d = Some c ∧ ec_State c ≠ ClaimStateReleased))
  | Ok (Err _) => False
  | Err e => db' = db ∧ e = foreign_key_failed ∧ db_decisions db !! d = None
  end.
Proof.
  intros Hdb H. unfold upsert_claim in H. cbn [cl_decision_id claimed_row] in H.
  assert (Hf : ∀ o t, row_claim (claimed_row d (o_WorkflowID o) (o_RunID o) (o_Token o) (formatTime t) (formatTime t))
               = fresh_claim d o t).
  { intros [wf run tok] t'. unfold row_claim, claim_of, fresh_claim, stored_time, claimed_row.
    cbn [cl_decision_id cl_workflow_id cl_run_id cl_claim_token cl_state cl_claimed_at cl_updated_at
         o_WorkflowID o_RunID o_Token]. reflexivity. }
  rewrite lookup_db_claims, lookup_db_decisions.
  destruct (row_with cl_decision_id d (execution_claims db)) as [x|] eqn:E.
  - pose proof (row_with_Some _ _ _ _ E) as [Hin Hx]. pose proof (fk_claims db Hdb x Hin) as Hfk.
    rewrite Hx in Hfk. case_bool_decide as Hst; injection H as <- <-; (split; [done|]);
      (split; [by destruct Hfk as [? ->]|]); [left|right].
    + split_and!; [done|by intros c [= <-]|]. unfold db_claims, replace_row.
      cbn [execution_claims set_claims].
      rewrite (table_update cl_decision_id row_claim _ _ d x E); cbn beta.
      * cbn [cl_decision_id claimed_row]. by rewrite bool_decide_true, Hf.
      * intros y. apply replace_row_keys.
      * intros y _ Hy. by rewrite bool_decide_false.
    + split_and!; [done..|]. exists (row_claim x). done.
  - destruct (row_with de_decision_id d (decision_records db)) as [y|] eqn:Ey; injection H as <- <-.
    + split; [done|]. split; [done|]. left. split_and!; [done..|].
      unfold db_claims. cbn [execution_claims set_claims]. rewrite (table_snoc cl_decision_id); [|exact E].
      by rewrite Hf.
    + by split_and!.
Qed.

(** What a caller of ClaimExecution may conclude from the answer of an
    uninterrupted call. *)
Lemma sql_claim_ok ctx now d o t db db' : db_inv db →
  atomically ctx now (ClaimExecution q d o t) db = (db', None) →
  db_inv db' ∧ db_decisions db' = db_decisions db ∧ d ≠ "" ∧ ClaimOwner_Valid o = true ∧
  is_Some (db_decisions db !! d) ∧
  (((∀ c, db_claims db !! d = Some c → ec_State c = ClaimStateReleased) ∧
    db_claims db' = <[d := fresh_claim d o t]> (db_claims db)) ∨
   (∃ c, db_claims db !! d = Some c ∧ ec_Owner c = o ∧ ec_State c = ClaimStateClaimed ∧ db' = db)).
Proof.
  intros Hdb H. unfold ClaimExecution in H. case_bool_decide as Hd; [done|].
  destruct (ClaimOwner_Valid o) eqn:Ho; [|done]. cbn [orb negb] in H. run_sql H.
  pose proof (db_run_inv ctx now db (UpsertClaim d (o_WorkflowID o) (o_RunID o) (o_Token o)
                (formatTime t) (formatTime t)) Hdb) as Hdb'.
  unfold db_run in H, Hdb'. destruct (ctx_Err ctx); [run_sql H; by destruct (strings_Contains _ _)|]. run_sql H.
  cbn [db_exec] in H, Hdb'.
  destruct (upsert_claim _ db) as [db1 r] eqn:E. apply upsert_effect in E as [Hdec Hr]; [|done].
  cbn [fst] in Hdb'. destruct r as [[n|e]|e]; [|done|by destruct (strings_Contains _ _)].
  destruct Hr as [Hsome [(-> & Hrel & Hcl)|(-> & -> & c & Hc & Hst)]].
  - change (1 =? 1) with true in H. run_sql H. injection H as <-. split_and!; [done..|]. by left.
  - change (0 =? 1) with false in H. unfold GetClaim in H. run_sql H.
    destruct (scanClaim _) as [c'|e] eqn:Es; [|by run_sql H].
    apply scanClaim_Ok in Es as (row & Hrow%one_row_Ok & ->). injection Hrow as Hrow.
    destruct (bool_decide (ec_Owner _ = o)) eqn:Eo; [|by run_sql H].
    destruct (bool_decide (ec_State _ = _)) eqn:Est; run_sql H; [|done]. injection H as <-.
    apply bool_decide_eq_true in Eo, Est. split_and!; [done..|]. right.
    exists (row_claim row). by rewrite lookup_db_claims, Hrow.
Qed.

Lemma sql_claim_err ctx now d o t db db' e : db_inv db →
  atomically ctx now (ClaimExecution q d o t) db = (db', Some e) →
  db' = db ∧ (errors_Is e ErrClaimHeld = true →
    ∃ c, db_claims db !! d = Some c ∧ ec_State c ≠ ClaimStateReleased ∧
         (ec_Owner c ≠ o ∨ ec_State c ≠ ClaimStateClaimed)).
Proof.
  intros Hdb H. unfold ClaimExecution in H. destruct ((d == "") || _); [by run_sql H; simplify_eq|].
  run_sql H. unfold db_run in H. destruct (ctx_Err ctx) as [x|] eqn:Hx.
  { run_sql H. destruct (strings_Contains _ _); run_sql H; simplify_eq; (split; [done|]); [done|].
    cbn. by rewrite (MemoryStoreFacts.ctx_Err_not_sentinel _ _ _ Hx). }
  run_sql H. destruct (upsert_claim _ db) as [db1 r] eqn:E. apply upsert_effect in E as [Hdec Hr]; [|done].
  destruct r as [[n|e']|e']; [|done|].
  2:{ destruct Hr as (-> & -> & _). destruct (strings_Contains _ _); run_sql H; by simplify_eq. }
  destruct Hr as [_ [(-> & _)|(-> & -> & c & Hc & Hst)]]; [done|].
  change (0 =? 1) with false in H. unfold GetClaim in H. run_sql H.
  rewrite lookup_db_claims in Hc |- *.
  destruct (row_with cl_decision_id d (execution_claims db)) as [row|]; [|done]. injection Hc as <-.
  cbn [one_row] in H. destruct (scanClaim (Ok row)) as [c'|e'] eqn:Es.
  - apply scanClaim_Ok in Es as (row' & [= <-] & ->).
    destruct (bool_decide (ec_Owner _ = o) && _) eqn:Eb; run_sql H; [done|]. simplify_eq.
    split; [done|]. intros _. exists (row_claim row). split_and!; [done..|].
    apply andb_false_iff in Eb as [?%bool_decide_eq_false|?%bool_decide_eq_false]; auto.
  - run_sql H. simplify_eq. split; [done|]. cbn. by rewrite (scanClaim_Err_row _ _ _ Es).
Qed.

Lemma ClaimSources_check to from : ClaimSources to = Some from → to ∈ check_states.
Proof. intros H%MemoryStore.ClaimSources_states. exact H. Qed.

(** Selecting by owner and state is comparing the claim. *)
Lemma update_selects_spec d o from r : cl_decision_id r = d →
  update_selects d (o_WorkflowID o) (o_RunID o) (o_Token o) from r = true ↔
  ec_Owner (row_claim r) = o ∧ ec_State (row_claim r) ∈ from.
Proof.
  intros Hd. unfold update_selects. rewrite !andb_true_iff, !bool_decide_eq_true. destruct o; simpl.
  split; [intros ((((_ & <-) & <-) & <-) & ?); done|]. intros [[= -> -> ->] ?]. done.
Qed.

Lemma row_claim_moved to t row :
  row_claim (set_row_state to (formatTime t) row) = set_state (row_claim row) to (stored_time t).
Proof.
  unfold row_claim, claim_of, set_state, stored_time, set_row_state, UTC.
  cbn [cl_decision_id cl_workflow_id cl_run_id cl_claim_token cl_state cl_claimed_at cl_updated_at
       ec_DecisionID ec_Owner ec_ClaimedAt]. reflexivity.
Qed.

Lemma update_effect d o to t from db db' r : db_inv db → ClaimSources to = Some from →
  update_claim to (formatTime t) d (o_WorkflowID o) (o_RunID o) (o_Token o) from db = (db', r) →
  db_decisions db' = db_decisions db ∧
  ((r = Ok (Ok 1) ∧ ∃ c, db_claims db !! d = Some c ∧ ec_Owner c = o ∧ ec_State c ∈ from ∧
      db_claims db' = <[d := set_state c to (stored_time t)]> (db_claims db)) ∨
   (r = Ok (Ok 0) ∧ db' = db ∧ ∀ c, db_claims db !! d = Some c → ec_Owner c = o → ec_State c ∉ from)).
Proof.
  intros Hdb Hsrc H. unfold update_claim in H. rewrite (bool_decide_true (to ∈ check_states)) in H
    by (by eapply ClaimSources_check). rewrite andb_false_r in H. cbv zeta in H.
  rewrite (update_count _ _ _ _ _ _ (pk_claims db Hdb)), lookup_db_claims in *.
  set (sel := update_selects d _ _ _ from) in *.
  assert (Hother : ∀ x, cl_decision_id x ≠ d → sel x = false).
  { intros x Hx. subst sel. unfold update_selects. by rewrite bool_decide_false. }
  assert (Hsame : (∀ x, x ∈ execution_claims db → sel x = false) →
    set_claims db ((λ r, if sel r then set_row_state to (formatTime t) r else r) <$> execution_claims db) = db).
  { intros Hno. destruct db as [a de cl]. unfold set_claims. simpl in *. f_equal.
    rewrite <- (list_fmap_id cl) at 2. apply list_fmap_ext. intros i x Hx.
    rewrite Hno; [done|]. by eapply list_elem_of_lookup_2. }
  destruct (row_with cl_decision_id d (execution_claims db)) as [row|] eqn:E.
  - pose proof (row_with_Some _ _ _ _ E) as [Hin Hid]. pose proof (update_selects_spec d o from row Hid) as Hspec.
    fold sel in Hspec. destruct (sel row) eqn:Hs; injection H as <- <-.
    + destruct (proj1 Hspec eq_refl) as [Ho Hst]. split; [done|]. left. split; [done|].
      exists (row_claim row). split_and!; [done..|]. unfold db_claims. cbn [execution_claims set_claims].
      rewrite (table_update cl_decision_id row_claim _ _ d row E); cbn beta.
      * rewrite Hs. by rewrite row_claim_moved.
      * intros x. by destruct (sel x).
      * intros x _ Hx. by rewrite Hother.
    + rewrite Hsame.
      * split; [done|]. right. split_and!; [done..|]. intros c [= <-] Ho Hst.
        by discriminate (proj2 Hspec (conj Ho Hst)).
      * intros x Hx. destruct (decide (cl_decision_id x = d)) as [Hd|]; [|by apply Hother].
        pose proof (row_with_elem cl_decision_id _ _ (pk_claims db Hdb) Hx) as Hx'. congruence.
  - injection H as <- <-. rewrite Hsame; [split; [done|]; right; split_and!; [done..|]; by intros c [=]|].
    intros x Hx. apply Hother. intros <-. apply row_with_None in E. apply E.
    by apply list_elem_of_fmap_2.
Qed.

Lemma sql_advance_ok ctx now d o to t db db' : db_inv db →
  atomically ctx now (AdvanceClaim d o to t) db = (db', None) →
  db_inv db' ∧ db_decisions db' = db_decisions db ∧
  ∃ c from, db_claims db !! d = Some c ∧ ec_Owner c = o ∧ ClaimSources to = Some from ∧
            ec_State c ∈ from ∧ db_claims db' = <[d := set_state c to (stored_time t)]> (db_claims db).
Proof.
  intros Hdb H. unfold AdvanceClaim in H. destruct (ClaimSources to) as [from|] eqn:Hs; [|done].
  run_sql H. pose proof (db_run_inv ctx now db (UpdateClaim to (formatTime t) d (o_WorkflowID o) (o_RunID o)
                (o_Token o) from) Hdb) as Hdb'.
  unfold db_run in H, Hdb'. destruct (ctx_Err ctx); [by run_sql H|]. run_sql H. cbn [db_exec] in Hdb'.
  destruct (update_claim _ _ _ _ _ _ _ db) as [db1 r] eqn:E.
  apply update_effect in E as [Hdec [(-> & c & Hc)|(-> & -> & _)]]; [|by change (0 =? 1) with false in H|done..].
  change (1 =? 1) with true in H. run_sql H. injection H as <-. destruct_and! Hc.
  split_and!; [done..|]. by exists c, from.
Qed.

Lemma sql_advance_err ctx now d o to t db db' e : db_inv db →
  atomically ctx now (AdvanceClaim d o to t) db = (db', Some e) →
  db' = db ∧ (errors_Is e ErrClaimNotHeld = true →
    ∀ c from, db_claims db !! d = Some c → ClaimSources to = Some from →
              ec_Owner c = o → ec_State c ∉ from).
Proof.
  intros Hdb H. unfold AdvanceClaim in H. destruct (ClaimSources to) as [from|] eqn:Hs;
    [|run_sql H; by simplify_eq].
  run_sql H. unfold db_run in H. destruct (ctx_Err ctx) as [x|] eqn:Hx.
  { run_sql H. simplify_eq. split; [done|]. cbn. by rewrite (MemoryStoreFacts.ctx_Err_not_sentinel _ _ _ Hx). }
  run_sql H. destruct (update_claim _ _ _ _ _ _ _ db) as [db1 r] eqn:E.
  apply update_effect in E as [Hdec [(-> & _)|(-> & -> & Hno)]]; [|..|done|done].
  - by change (1 =? 1) with true in H.
  - change (0 =? 1) with false in H. run_sql H. simplify_eq. split; [done|].
    intros _ c from' Hc [= <-]. by apply Hno.
Qed.
End Facts.
End SqliteFacts.

(** *** The instance

    Each call here runs without interruption; [Statements] admits any
    interleaving of statements. *)

Section Instance.
Context (q : string → string) (json_error : string → string).

#[local] Instance sqlite_ops : StoreOps Db := {
  append_decision ctx rec := atomically ctx zeroTime (Sqlite.AppendDecision json_error rec);
  get_decision ctx d db := (atomically ctx zeroTime (Sqlite.GetDecision json_error d) db).2;
  claim_execution ctx d o t := atomically ctx zeroTime (Sqlite.ClaimExecution q d o t);
  advance_claim ctx d o to t := atomically ctx zeroTime (Sqlite.AdvanceClaim d o to t);
  get_claim ctx d db := (atomically ctx zeroTime (Sqlite.GetClaim d) db).2 }.

#[local] Instance sqlite_spec : StoreSpec Db := {
  decisions := db_decisions;
  claims := db_claims;
  store_inv := db_inv;
  put_record := stored_record;
  put_time := stored_time;
  put_record_core := stored_core;
  claim_filed := λ s d c _, SqliteFacts.db_claim_filed s d c;
  append_decision_ok := λ ctx rec s s' Hs H, SqliteFacts.sql_append_ok json_error ctx zeroTime rec s s' H Hs;
  append_decision_err := λ ctx rec s s' e _, SqliteFacts.sql_append_err json_error ctx zeroTime rec s s' e;
  get_decision_ok := λ ctx d s r _, SqliteFacts.sql_get_ok json_error ctx zeroTime d s r;
  get_decision_err := λ ctx d s e _, SqliteFacts.sql_get_err json_error ctx zeroTime d s e;
  claim_execution_ok := λ ctx, SqliteFacts.sql_claim_ok q ctx zeroTime;
  claim_execution_err := λ ctx, SqliteFacts.sql_claim_err q ctx zeroTime;
  advance_claim_ok := λ ctx, SqliteFacts.sql_advance_ok ctx zeroTime;
  advance_claim_err := λ ctx, SqliteFacts.sql_advance_err ctx zeroTime;
  get_claim_ok := λ ctx d s c _, SqliteFacts.get_claim_ok ctx zeroTime d s c;
  get_claim_err := λ ctx d s e _, SqliteFacts.get_claim_err ctx zeroTime d s e }.
End Instance.
