(* ===== verification/SqliteTypes.v ===== *)
(** * Every row the SQLite store holds can be read back

    Times and reason lists are columns of text. The invariant is that each row
    decodes: it is kept by every method that writes, so no read fails because of
    what an earlier call stored. *)

From stdpp Require Import sorting.
From S2P Require Import Prelude GoBase GoTime GoJson Contracts Decision Store Database Sqlite.
Open Scope Z_scope.
Open Scope go_scope.

Section Types.
Context (q : string → string) (json_error : string → string).

(** ** The types of the columns *)

Definition is_time (s : string) : Prop := is_Some (parse_rfc3339nano s).
Definition is_reasons (s : string) : Prop := is_Some (json_Unmarshal s).

Definition typed_audit (r : audit_row) : Prop := is_time (au_recorded_at r).
Definition typed_decision (r : decision_row) : Prop := is_reasons (de_reasons r) ∧ is_time (de_recorded_at r).
Definition typed_claim (r : claim_row) : Prop := is_time (cl_claimed_at r) ∧ is_time (cl_updated_at r).

Record typed_db (db : Db) : Prop := {
  ty_schema : db_inv db;
  ty_audit : Forall typed_audit (audit_records db);
  ty_decisions : Forall typed_decision (decision_records db);
  ty_claims : Forall typed_claim (execution_claims db) }.

(** The bound parameters of a statement. *)
Definition typed_op (o : SqlOp) : Prop :=
  match o with
  | InsertAudit row => typed_audit row
  | InsertDecision row => typed_decision row
  | UpsertClaim _ _ _ _ claimed updated => is_time claimed ∧ is_time updated
  | UpdateClaim _ ts _ _ _ _ _ => is_time ts
  | _ => True
  end.

(** The clock of the host shows a year of four digits. *)
Definition sane_reply (o : SqlOp) : SqlReply o → Prop :=
  match o return SqlReply o → Prop with TimeNow => four_digit_year | _ => λ _, True end.

Fixpoint typed_prog {B} (p : sql B) : Prop :=
  match p with
  | Ret _ => True
  | Call o k => typed_op o ∧ ∀ r, sane_reply o r → typed_prog (k r)
  end.

(** ** Statements keep the types *)

Lemma replace_row_Forall {R} key (P : R → Prop) new l : Forall P l → P new → Forall P (replace_row key new l).
Proof. intros Hl Hn. apply Forall_fmap. eapply Forall_impl; [exact Hl|]. intros r Hr. cbn. by case_bool_decide. Qed.

Lemma db_exec_typed now db o : typed_db db → typed_op o → typed_db (db_exec now db o).1.
Proof.
  intros [Hs Ha Hd Hc] Ho. split; [by apply db_exec_inv|..];
    destruct o; cbn [db_exec insert_audit insert_decision fst] in *; try done; unfold upsert_claim, update_claim;
    repeat case_match; cbn [fst audit_records decision_records execution_claims set_audit set_decisions set_claims];
    try done; try (apply Forall_app; split; [done|by constructor]).
  - apply replace_row_Forall; [done|exact Ho].
  - apply Forall_fmap. eapply Forall_impl; [exact Hc|]. intros r [Hcl Hup]. unfold compose.
    destruct (update_selects decision_id workflow_id run_id claim_token from r); [split; [exact Hcl|exact Ho]|by split].
Qed.

Lemma db_run_typed ctx now db o : typed_db db → typed_op o → typed_db (db_run ctx now db o).1.
Proof.
  intros Hdb Ho. unfold db_run. destruct (ctx_Err ctx); [destruct (takes_ctx o); [done|]|]; by apply db_exec_typed.
Qed.

Lemma db_run_sane ctx now db o : four_digit_year now → sane_reply o (db_run ctx now db o).2.
Proof.
  intros Hn. destruct o; try done. unfold db_run. by destruct (ctx_Err ctx).
Qed.

Lemma atomically_typed {B} ctx now (p : sql B) db :
  four_digit_year now → typed_prog p → typed_db db → typed_db (atomically ctx now p db).1.
Proof.
  intros Hn. unfold atomically. revert db. induction p as [b|o k IH]; intros db Hp Hdb; [done|].
  destruct Hp as [Ho Hk]. cbn. pose proof (db_run_typed ctx now db o Hdb Ho) as Hdb'.
  pose proof (db_run_sane ctx now db o Hn) as Hr. destruct (db_run ctx now db o) as [db' r]. by apply IH; [apply Hk|].
Qed.

(** ** The methods issue typed statements *)

Lemma formatted_time t : four_digit_year t → is_time (formatTime t).
Proof. intros Ht. unfold is_time, formatTime, UTC. by rewrite parse_format. Qed.

Lemma typed_bind {B C} (p : sql B) (f : B → sql C) : typed_prog p → (∀ b, typed_prog (f b)) → typed_prog (p ≫= f).
Proof.
  intros Hp Hf. induction p as [b|o k IH]; [apply Hf|]. destruct Hp as [Ho Hk]. split; [done|].
  intros r Hr. by apply IH, Hk.
Qed.

Lemma decision_typed rec : storable rec → typed_decision (decision_params rec).
Proof.
  intros [Hr Ht]. split; [|by apply formatted_time]. unfold is_reasons. cbn. by rewrite json_roundtrip.
Qed.

Ltac typed_steps :=
  repeat match goal with
  | |- typed_prog (match _ with _ => _ end) => case_match
  | |- typed_prog (mret _) => exact I
  | |- typed_prog (Ret _) => exact I
  end.

Lemma Append_typed rec : four_digit_year (ar_RecordedAt rec) → typed_prog (Sqlite.Append q rec).
Proof.
  intros Ht. unfold Sqlite.Append. destruct (_ || _); [exact I|].
  assert (Hrest : ∀ r, four_digit_year (ar_RecordedAt r) → typed_prog (
    res ← query (InsertAudit (audit_params r));
    match res with
    | Err err => mret (Some (Sqlite.persist_failed q err))
    | Ok (Err err) => mret (Some err)
    | Ok (Ok n) =>
        if n =? 1 then mret None
        else
          existing ← Sqlite.auditByID (ar_RecordID r);
          match existing with
          | Err err => mret (Some (Sqlite.persist_failed q err))
          | Ok existing =>
              if negb (ar_RecordedAt existing =? ar_RecordedAt r) || (with_time existing zeroTime != with_time r zeroTime)
              then mret (Some (Sqlite.different_content (ar_RecordID r))) else mret None
          end
    end)).
  { intros r Hr. split; [by apply formatted_time|]. intros res _. cbn. typed_steps.
    split; [done|]. intros reply _. cbn. typed_steps. }
  destruct (IsZero (ar_RecordedAt rec)); [|by apply Hrest].
  split; [done|]. intros now Hnow. by apply Hrest.
Qed.

Lemma AppendDecision_typed rec : storable rec → typed_prog (Sqlite.AppendDecision json_error rec).
Proof.
  intros Hs. unfold Sqlite.AppendDecision. destruct (DecisionRecord_Validate rec); [exact I|].
  split; [by apply decision_typed|]. intros res _. cbn. typed_steps. split; [done|].
  intros reply _. cbn. typed_steps.
Qed.

Lemma ClaimExecution_typed d o t : four_digit_year t → typed_prog (Sqlite.ClaimExecution q d o t).
Proof.
  intros Ht. unfold Sqlite.ClaimExecution. destruct (_ || _); [exact I|].
  split; [split; by apply formatted_time|]. intros res _. cbn. typed_steps.
  split; [done|]. intros reply _. cbn. typed_steps.
Qed.

Lemma AdvanceClaim_typed d o to t : four_digit_year t → typed_prog (Sqlite.AdvanceClaim d o to t).
Proof.
  intros Ht. unfold Sqlite.AdvanceClaim. destruct (ClaimSources to); [|exact I].
  split; [by apply formatted_time|]. intros res _. cbn. typed_steps.
Qed.

(** ** Histories *)

Inductive store_write :=
| WAppend (rec : AuditRecord)
| WAppendDecision (rec : DecisionRecord)
| WClaim (d : string) (o : ClaimOwner) (t : Time)
| WAdvance (d : string) (o : ClaimOwner) (to : ClaimState) (t : Time).

Definition write_prog (c : store_write) : sql (option error) :=
  match c with
  | WAppend rec => Sqlite.Append q rec
  | WAppendDecision rec => Sqlite.AppendDecision json_error rec
  | WClaim d o t => Sqlite.ClaimExecution q d o t
  | WAdvance d o to t => Sqlite.AdvanceClaim d o to t
  end.

(** Arguments with years of four digits and reasons in valid UTF-8. *)
Definition sane_write (c : store_write) : Prop :=
  match c with
  | WAppend rec => four_digit_year (ar_RecordedAt rec)
  | WAppendDecision rec => storable rec
  | WClaim _ _ t | WAdvance _ _ _ t => four_digit_year t
  end.

Lemma write_typed c : sane_write c → typed_prog (write_prog c).
Proof.
  destruct c; [apply Append_typed|apply AppendDecision_typed|apply ClaimExecution_typed|apply AdvanceClaim_typed].
Qed.

(** Each call under a context of its own, at a time of the host's clock. *)
Definition write_step (db : Db) (w : context * Time * store_write) : Db :=
  (atomically w.1.1 w.1.2 (write_prog w.2) db).1.
Definition history_db (h : list (context * Time * store_write)) : Db := foldl write_step empty_db h.

Lemma history_typed h : Forall (λ w, four_digit_year w.1.2 ∧ sane_write w.2) h → typed_db (history_db h).
Proof.
  intros Hh. unfold history_db.
  assert (H0 : typed_db empty_db) by (split; [exact empty_db_inv|constructor..]).
  revert H0. generalize empty_db. induction Hh as [|w h [Hn Hw] _ IH]; intros db Hdb; [done|].
  cbn. apply IH. by apply atomically_typed; [|apply write_typed|].
Qed.

(** ** Reads *)

Lemma scanAudit_typed r : typed_audit r → Sqlite.scanAudit (Ok r) = Ok (row_audit r).
Proof. intros [t Ht]. unfold Sqlite.scanAudit, parseTime, row_audit, row_time. by rewrite Ht. Qed.
Lemma scanDecision_typed r : typed_decision r → Sqlite.scanDecision json_error (Ok r) = Ok (row_decision r).
Proof.
  intros [[l Hl] [t Ht]]. unfold Sqlite.scanDecision, parseTime, row_decision, row_time. by rewrite Hl, Ht.
Qed.
Lemma scanClaim_typed r : typed_claim r → Sqlite.scanClaim (Ok r) = Ok (row_claim r).
Proof. intros [[t Ht] [t' Ht']]. unfold Sqlite.scanClaim, parseTime, row_claim, row_time. by rewrite Ht, Ht'. Qed.

Section Reads.
Context (now : Time) (db : Db).
Hypothesis typed : typed_db db.
Abbreviation read p := (atomically CtxLive now p db).

Ltac read_rows := unfold atomically; cbn -[db_run]; unfold db_run;
  cbn -[merge_sort Sqlite.scan_rows row_with row_decision row_claim row_audit].

Lemma trail_read p : ∃ rows, rows ≡ₚ filter (λ r, au_proposal_id r = p) (audit_records db) ∧
  Sorted audit_order rows ∧ read (Sqlite.ListByProposal p) = (db, Ok (row_audit <$> rows)).
Proof using typed.
  exists (select_trail p db). split_and!; [apply (merge_sort_Permutation audit_order)|apply (Sorted_merge_sort audit_order)|].
  read_rows. rewrite (scan_rows_map _ row_audit); [done|]. intros r Hr. apply scanAudit_typed.
  rewrite merge_sort_Permutation in Hr. apply list_elem_of_filter in Hr as [_ Hr].
  exact (proj1 (Forall_forall _ _) (ty_audit _ typed) r Hr).
Qed.

Lemma decisions_read p : read (Sqlite.ListDecisionsByProposal json_error p) =
  (db, Ok (row_decision <$> filter (λ r, de_proposal_id r = p) (decision_records db))).
Proof using typed.
  read_rows. rewrite (scan_rows_map _ row_decision); [done|]. intros r [_ Hr]%list_elem_of_filter.
  apply scanDecision_typed. exact (proj1 (Forall_forall _ _) (ty_decisions _ typed) r Hr).
Qed.

Lemma decision_read d : read (Sqlite.GetDecision json_error d) =
  (db, match row_with de_decision_id d (decision_records db) with
       | Some r => Ok (row_decision r) | None => Err (Sentinel ErrDecisionNotFound) end).
Proof using typed.
  read_rows. destruct (row_with _ d _) as [r|] eqn:E; [|done]. apply row_with_Some in E as [Hr _].
  cbn [one_row]. by rewrite (scanDecision_typed r (proj1 (Forall_forall _ _) (ty_decisions _ typed) r Hr)).
Qed.

Lemma claim_read d : read (Sqlite.GetClaim d) =
  (db, match row_with cl_decision_id d (execution_claims db) with
       | Some r => Ok (row_claim r) | None => Err (Sentinel ErrClaimNotFound) end).
Proof using typed.
  read_rows. destruct (row_with _ d _) as [r|] eqn:E; [|done]. apply row_with_Some in E as [Hr _].
  cbn [one_row]. by rewrite (scanClaim_typed r (proj1 (Forall_forall _ _) (ty_claims _ typed) r Hr)).
Qed.
End Reads.

End Types.

(** An audit row, a decision, its claim and a transition. *)
Definition sample_writes : list (context * Time * store_write) :=
  let rec := {| dr_DecisionID := "dec_1"; dr_Stage := StageIngress; dr_ProposalID := "p-1"; dr_AgentID := "agent-sim";
                dr_RequestHash := "h"; dr_Command := "MODIFY_ROUTING"; dr_TargetID := "t"; dr_Environment := "staging";
                dr_Verdict := VerdictAllow; dr_Reasons := [ReasonAgentUnknown]; dr_PolicyVersion := "v";
                dr_PolicyDigest := "d"; dr_WorkflowID := "saga-p-1"; dr_TraceID := ""; dr_RecordedAt := 1 |} in
  let owner := {| o_WorkflowID := "saga-p-1"; o_RunID := "run-1"; o_Token := "tok" |} in
  [(CtxLive, 1, WAppendDecision rec); (CtxLive, 2, WClaim "dec_1" owner 2);
   (CtxLive, 3, WAdvance "dec_1" owner ClaimStateExecuting 3);
   (CtxLive, 4, WAppend {| ar_RecordID := "r-1"; ar_ProposalID := "p-1"; ar_WorkflowID := "saga-p-1";
                           ar_RunID := "run-1"; ar_Phase := AuditPhaseRevalidation; ar_Verdict := AuditVerdictPass;
                           ar_TargetID := "t"; ar_Command := "c"; ar_Detail := ""; ar_RecordedAt := 4 |})].

Lemma sample_writes_sane : Forall (λ w, four_digit_year w.1.2 ∧ sane_write w.2) sample_writes.
Proof.
  unfold sample_writes. repeat apply Forall_cons_2; try apply Forall_nil_2; (split; [cbv; split; discriminate || reflexivity|]).
  all: cbn [sane_write snd]; try (cbv; split; discriminate || reflexivity).
  split; [|cbv; split; discriminate || reflexivity]. constructor; [vm_compute; reflexivity|constructor].
Qed.

