(* ===== verification/Grants.v ===== *)
(** * What a store grants

    [StoreSpec] says what may be concluded from the answers of a store; it would
    be kept by one that refuses everything. [StoreGrants] is the other half: in
    the cases the documentation names, a call under a live context is granted.
    Both stores keep it. *)

From S2P Require Import Prelude GoBase GoTime GoJson Contracts Decision Store Database Sqlite.
Open Scope Z_scope.
Open Scope go_scope.

(** [readable s d]: what is stored under [d] decodes; [keepable rec]: what is
    written of [rec] will. *)
Class StoreGrants (S : Type) `{StoreSpec S} : Type := {
  keepable : DecisionRecord → Prop;
  readable : S → string → Prop;
  append_granted rec s : store_inv s → DecisionRecord_Validate rec = None →
    decisions s !! dr_DecisionID rec = None → (append_decision CtxLive rec s).2 = None;
  append_readable rec s : store_inv s → DecisionRecord_Validate rec = None →
    decisions s !! dr_DecisionID rec = None → keepable rec →
    readable (append_decision CtxLive rec s).1 (dr_DecisionID rec);
  get_granted d s rec : store_inv s → decisions s !! d = Some rec → readable s d →
    get_decision CtxLive d s = Ok rec;
  claim_granted d o t s : store_inv s → d ≠ "" → ClaimOwner_Valid o = true → is_Some (decisions s !! d) →
    (∀ c, claims s !! d = Some c → ec_State c = ClaimStateReleased) →
    (claim_execution CtxLive d o t s).2 = None;
  advance_granted d o to t s c from : store_inv s → claims s !! d = Some c → ec_Owner c = o →
    ClaimSources to = Some from → ec_State c ∈ from → (advance_claim CtxLive d o to t s).2 = None }.

(** ** MemoryStore *)

Section Memory.
Import MemoryStore.

Lemma decisions_byID m d : is_Some (decisions m !! d) → is_Some (byID m !! d).
Proof. unfold decisions. rewrite lookup_omap. intros [r Hr]. by destruct (byID m !! d). Qed.

Lemma memory_absent m d : inv m → decisions m !! d = None → byID m !! d = None.
Proof.
  intros Hm Hn. destruct (byID m !! d) as [i|] eqn:E; [|done].
  destruct (lookup_lt_is_Some_2 _ _ (index_in_range m d i Hm E)) as [r Hr].
  unfold decisions in Hn. rewrite lookup_omap, E in Hn. cbn in Hn. congruence.
Qed.

Lemma memory_get m d r : inv m → decisions m !! d = Some r → GetDecision CtxLive d m = Ok r.
Proof.
  intros Hm Hr. unfold decisions in Hr. rewrite lookup_omap in Hr. unfold GetDecision. cbn.
  destruct (byID m !! d) as [i|]; [|done]. cbn in Hr. by rewrite Hr.
Qed.

Lemma memory_append m rec : inv m → DecisionRecord_Validate rec = None →
  decisions m !! dr_DecisionID rec = None → (AppendDecision CtxLive rec m).2 = None.
Proof. intros Hm Hv Hn. unfold AppendDecision. cbn. by rewrite Hv, (memory_absent m _ Hm Hn). Qed.

Lemma memory_claim m d o t : d ≠ "" → ClaimOwner_Valid o = true → is_Some (decisions m !! d) →
  (∀ c, claims m !! d = Some c → ec_State c = ClaimStateReleased) → (ClaimExecution CtxLive d o t m).2 = None.
Proof.
  intros Hd Ho [i Hi]%decisions_byID Hc. unfold ClaimExecution. cbn. rewrite bool_decide_false, Ho, Hi by done. cbn.
  destruct (claims m !! d) as [c|]; [|done]. by rewrite bool_decide_true by auto.
Qed.

Lemma memory_advance m d o to t c from : claims m !! d = Some c → ec_Owner c = o → ClaimSources to = Some from →
  ec_State c ∈ from → (AdvanceClaim CtxLive d o to t m).2 = None.
Proof.
  intros Hc Ho Hs Hin. unfold AdvanceClaim. cbn. rewrite Hs, Hc, !bool_decide_true by done. done.
Qed.
End Memory.

#[export] Instance memory_grants : StoreGrants MemoryStore.t := {
  keepable := λ _, True;
  readable := λ _ _, True;
  append_granted := λ rec s, memory_append s rec;
  append_readable := λ _ _ _ _ _ _, I;
  get_granted := λ d s rec Hs Hd _, memory_get s d rec Hs Hd;
  claim_granted := λ d o t s _, memory_claim s d o t;
  advance_granted := λ d o to t s c from _, memory_advance s d o to t c from }.

(** ** SQLite *)

Section Sql.
Import Sqlite SqliteFacts.
Context (q json_error : string → string).

Definition sql_readable (db : Db) (d : string) : Prop :=
  ∀ row, row_with de_decision_id d (decision_records db) = Some row →
    ∃ rec, scanDecision json_error (Ok row) = Ok rec.

Lemma sql_append_new now rec db : DecisionRecord_Validate rec = None →
  db_decisions db !! dr_DecisionID rec = None →
  atomically CtxLive now (AppendDecision json_error rec) db =
    (set_decisions db (decision_records db ++ [decision_params rec]), None).
Proof.
  intros Hv Hn. rewrite lookup_db_decisions in Hn. unfold AppendDecision. rewrite Hv.
  unfold atomically, query, op. cbn [mret prog_ret mbind prog_bind interp].
  unfold db_run. cbn [ctx_Err db_exec insert_decision]. change (de_decision_id (decision_params rec)) with (dr_DecisionID rec).
  by destruct (row_with de_decision_id (dr_DecisionID rec) (decision_records db)).
Qed.

Lemma sql_append_readable now rec db : DecisionRecord_Validate rec = None →
  db_decisions db !! dr_DecisionID rec = None → storable rec →
  sql_readable (atomically CtxLive now (AppendDecision json_error rec) db).1 (dr_DecisionID rec).
Proof.
  intros Hv Hn [Hr Ht]. rewrite sql_append_new by done. intros row. cbn [fst decision_records set_decisions].
  rewrite lookup_db_decisions in Hn. rewrite row_with_app.
  destruct (row_with _ _ (decision_records db)); [done|]. unfold row_with. cbn.
  rewrite bool_decide_true by done. intros [= <-]. unfold scanDecision, parseTime, formatTime, UTC. cbn.
  rewrite json_roundtrip, parse_format by done. by eexists.
Qed.

Lemma sql_get now d db rec : db_decisions db !! d = Some rec → sql_readable db d →
  (atomically CtxLive now (GetDecision json_error d) db).2 = Ok rec.
Proof.
  intros Hd Hr. rewrite lookup_db_decisions in Hd. unfold GetDecision, atomically, query, op.
  cbn [mret prog_ret mbind prog_bind interp]. unfold db_run. cbn [ctx_Err db_exec select_decision].
  destruct (row_with de_decision_id d (decision_records db)) as [row|] eqn:E; [|done].
  destruct (Hr row E) as [r Er]. injection Hd as <-. cbn [one_row snd interp]. rewrite Er.
  by apply scanDecision_Ok in Er as (row' & [= <-] & ->).
Qed.

Lemma sql_claim now d o t db : db_inv db → d ≠ "" → ClaimOwner_Valid o = true → is_Some (db_decisions db !! d) →
  (∀ c, db_claims db !! d = Some c → ec_State c = ClaimStateReleased) →
  (atomically CtxLive now (ClaimExecution q d o t) db).2 = None.
Proof.
  intros Hdb Hd Ho [r Hr] Hc. unfold ClaimExecution. rewrite bool_decide_false, Ho by done. cbn [orb negb].
  unfold atomically, query, op. cbn [mret prog_ret mbind prog_bind interp]. unfold db_run. cbn [ctx_Err db_exec].
  destruct (upsert_claim _ db) as [db1 res] eqn:E. apply upsert_effect in E as [_ Hres]; [|done].
  destruct res as [[n|e]|e]; [|done|by destruct Hres as (_ & _ & ?); congruence].
  destruct Hres as [_ [(-> & _)|(_ & _ & c & Hc' & Hst)]]; [done|by destruct Hst; apply Hc].
Qed.

Lemma sql_advance now d o to t db c from : db_inv db → db_claims db !! d = Some c → ec_Owner c = o →
  ClaimSources to = Some from → ec_State c ∈ from → (atomically CtxLive now (AdvanceClaim d o to t) db).2 = None.
Proof.
  intros Hdb Hc Ho Hs Hin. unfold AdvanceClaim. rewrite Hs. unfold atomically, query, op.
  cbn [mret prog_ret mbind prog_bind interp]. unfold db_run. cbn [ctx_Err db_exec].
  destruct (update_claim _ _ _ _ _ _ _ db) as [db1 res] eqn:E.
  apply update_effect in E as [_ [(-> & _)|(_ & _ & Hno)]]; [done|by destruct (Hno c Hc Ho)|done..].
Qed.

#[local] Instance sql_ops : StoreOps Db := sqlite_ops q json_error.
#[local] Instance sql_spec : StoreSpec Db := sqlite_spec q json_error.
#[local] Instance sqlite_grants : StoreGrants Db.
Proof.
  refine {| keepable := storable; readable := sql_readable |}.
  - intros rec s _ Hv Hn. exact (f_equal snd (sql_append_new zeroTime rec s Hv Hn)).
  - intros rec s _. exact (sql_append_readable zeroTime rec s).
  - intros d s rec _. exact (sql_get zeroTime d s rec).
  - exact (sql_claim zeroTime).
  - exact (sql_advance zeroTime).
Defined.
End Sql.
