(* ===== verification/ClaimRules.v ===== *)
(** * When a claim is granted, and why it is refused

    The rules of ClaimExecution and AdvanceClaim, in full and for both stores:
    exactly when a call is granted, what it then changes, and which error tells
    which reason of a refusal. [StoreSpec] and [StoreGrants] are the parts of
    them that the workflow relies on. *)

From S2P Require Import Prelude GoBase GoTime GoJson Contracts Decision Store Database Sqlite SqliteTypes.
Open Scope Z_scope.
Open Scope go_scope.

(** ** The rules *)

Section Rules.
Context {S : Type} `{StoreSpec S}.

(** The arguments are complete, and nobody else stands in the way. *)
Definition complete_claim (d : string) (o : ClaimOwner) : Prop := d ≠ "" ∧ ClaimOwner_Valid o = true.
Definition free (s : S) (d : string) : Prop := ∀ c, claims s !! d = Some c → ec_State c = ClaimStateReleased.
Definition claimed_by (s : S) (d : string) (o : ClaimOwner) : Prop :=
  ∃ c, claims s !! d = Some c ∧ ec_Owner c = o ∧ ec_State c = ClaimStateClaimed.
Definition movable (s : S) (d : string) (o : ClaimOwner) (to : ClaimState) (c : ExecutionClaim) : Prop :=
  claims s !! d = Some c ∧ ec_Owner c = o ∧ ∃ from, ClaimSources to = Some from ∧ ec_State c ∈ from.

Record claim_rule (ctx : context) (d : string) (o : ClaimOwner) (t : Time) (s : S) (x : S * option error) : Prop := {
  cr_granted : x.2 = None ↔
    ctx = CtxLive ∧ complete_claim d o ∧ is_Some (decisions s !! d) ∧ (free s d ∨ claimed_by s d o);
  cr_effect : x.2 = None → decisions x.1 = decisions s ∧
    (free s d ∧ claims x.1 = <[d := {| ec_DecisionID := d; ec_Owner := o; ec_State := ClaimStateClaimed;
                                       ec_ClaimedAt := put_time t; ec_UpdatedAt := put_time t |}]> (claims s) ∨
     claimed_by s d o ∧ x.1 = s);
  cr_refused e : x.2 = Some e → x.1 = s ∧
    (errors_Is e ErrDecisionNotFound = true ↔ ctx = CtxLive ∧ complete_claim d o ∧ decisions s !! d = None) ∧
    (errors_Is e ErrClaimHeld = true ↔
       ctx = CtxLive ∧ complete_claim d o ∧ is_Some (decisions s !! d) ∧ ¬ (free s d ∨ claimed_by s d o)) }.

Record advance_rule (ctx : context) (d : string) (o : ClaimOwner) (to : ClaimState) (t : Time) (s : S)
    (x : S * option error) : Prop := {
  ad_granted : x.2 = None ↔ ctx = CtxLive ∧ ∃ c, movable s d o to c;
  ad_effect c : x.2 = None → claims s !! d = Some c →
    decisions x.1 = decisions s ∧ claims x.1 = <[d := set_state c to (put_time t)]> (claims s);
  ad_refused e : x.2 = Some e → x.1 = s ∧ (ctx = CtxLive → errors_Is e ErrClaimNotHeld = true) ∧
    (ctx ≠ CtxLive → is_Some (ClaimSources to) → errors_Is e ErrClaimNotHeld = false) }.

(** ** One case at a time *)

Inductive claim_case (ctx : context) (d : string) (o : ClaimOwner) (t : Time) (s : S) : S * option error → Prop :=
| cc_rejected e : ctx ≠ CtxLive ∨ ¬ complete_claim d o →
    errors_Is e ErrDecisionNotFound = false → errors_Is e ErrClaimHeld = false → claim_case ctx d o t s (s, Some e)
| cc_unrecorded e : ctx = CtxLive → complete_claim d o → decisions s !! d = None →
    errors_Is e ErrDecisionNotFound = true → errors_Is e ErrClaimHeld = false → claim_case ctx d o t s (s, Some e)
| cc_free s' : ctx = CtxLive → complete_claim d o → is_Some (decisions s !! d) → free s d →
    decisions s' = decisions s →
    claims s' = <[d := {| ec_DecisionID := d; ec_Owner := o; ec_State := ClaimStateClaimed;
                          ec_ClaimedAt := put_time t; ec_UpdatedAt := put_time t |}]> (claims s) →
    claim_case ctx d o t s (s', None)
| cc_mine : ctx = CtxLive → complete_claim d o → is_Some (decisions s !! d) → claimed_by s d o →
    claim_case ctx d o t s (s, None)
| cc_held e : ctx = CtxLive → complete_claim d o → is_Some (decisions s !! d) →
    ¬ (free s d ∨ claimed_by s d o) →
    errors_Is e ErrDecisionNotFound = false → errors_Is e ErrClaimHeld = true → claim_case ctx d o t s (s, Some e).

Lemma claim_case_rule ctx d o t s x : claim_case ctx d o t s x → claim_rule ctx d o t s x.
Proof.
  intros Hc. destruct Hc as [e Hbad Hn Hh|e Hl Hv Hd Hn Hh|s' Hl Hv Hd Hf Hds Hcs|Hl Hv Hd Hm|e Hl Hv Hd Hno Hn Hh];
    split; cbn [fst snd]; try (intros ?; discriminate).
  - split; [done|]. intros (Hl & Hv & _). by destruct Hbad.
  - intros e' [= <-]. rewrite Hn, Hh. split; [done|]. split; (split; [done|]); intros (Hl & Hv & _); by destruct Hbad.
  - split; [done|]. intros (_ & _ & [r Hr] & _). congruence.
  - intros e' [= <-]. rewrite Hn, Hh. split_and!; [done|done|]. split; [done|]. intros (_ & _ & [r Hr] & _). congruence.
  - split; [intros _; auto 6|done].
  - auto.
  - split; [intros _; auto 6|done].
  - auto.
  - split; [done|]. by intros (_ & _ & _ & Hyes).
  - intros e' [= <-]. rewrite Hn, Hh. split_and!; [done| |done]. split; [done|]. destruct Hd as [r Hr].
    intros (_ & _ & Hd). congruence.
Qed.

Inductive advance_case (ctx : context) (d : string) (o : ClaimOwner) (to : ClaimState) (t : Time) (s : S)
    : S * option error → Prop :=
| ac_ended e : ctx ≠ CtxLive → (is_Some (ClaimSources to) → errors_Is e ErrClaimNotHeld = false) → advance_case ctx d o to t s (s, Some e)
| ac_moved c s' : ctx = CtxLive → movable s d o to c → decisions s' = decisions s →
    claims s' = <[d := set_state c to (put_time t)]> (claims s) → advance_case ctx d o to t s (s', None)
| ac_refused e : ctx = CtxLive → (∀ c, ¬ movable s d o to c) → errors_Is e ErrClaimNotHeld = true →
    advance_case ctx d o to t s (s, Some e).

Lemma advance_case_rule ctx d o to t s x : advance_case ctx d o to t s x → advance_rule ctx d o to t s x.
Proof.
  intros [e Hl He|c s' Hl Hm Hds Hcs|e Hl Hno He]; split; cbn [fst snd]; try (intros ?; discriminate).
  - split; [done|]. by intros [? _].
  - by intros e' [= <-].
  - split; [eauto|done].
  - intros c' _ Hc'. destruct Hm as [Hc _]. by simplify_eq.
  - split; [done|]. intros [_ [c Hc]]. by destruct (Hno c).
  - intros e' [= <-]. by rewrite He.
Qed.
End Rules.

(** ** MemoryStore *)

Lemma ended_plain ctx e s : ctx_Err ctx = Some e → s ≠ Canceled → s ≠ DeadlineExceeded → errors_Is e s = false.
Proof. apply MemoryStoreFacts.ctx_Err_not_sentinel. Qed.

Lemma incomplete_claim d o : (d == "") || negb (ClaimOwner_Valid o) = true → ¬ complete_claim d o.
Proof. intros Hb [Hd Ho]. rewrite bool_decide_false, Ho in Hb by done. done. Qed.
Lemma complete_claim_true d o : (d == "") || negb (ClaimOwner_Valid o) = false → complete_claim d o.
Proof.
  intros [Hd%bool_decide_eq_false Ho]%orb_false_iff. by apply negb_false_iff in Ho.
Qed.

Section Memory.
Import MemoryStore.

Lemma memory_claim_case ctx d o t m : inv m → claim_case ctx d o t m (ClaimExecution ctx d o t m).
Proof.
  intros Hm. unfold ClaimExecution. destruct (ctx_Err ctx) as [e|] eqn:Hx.
  { apply cc_rejected; [left; by intros ->|by eapply ended_plain..]. }
  assert (Hl : ctx = CtxLive) by by destruct ctx.
  destruct ((d == "") || _) eqn:Hv; [by apply cc_rejected; [right; apply incomplete_claim|..]|].
  apply complete_claim_true in Hv. destruct (byID m !! d) as [i|] eqn:Hb.
  2: { apply cc_unrecorded; try done. change (decisions m !! d = None). unfold decisions. by rewrite lookup_omap, Hb. }
  assert (Hd : is_Some (decisions m !! d)).
  { pose proof Hb as Hb'. apply (inv_index m Hm) in Hb' as (r & Hr & ?). exists r. apply lookup_decisions; eauto. }
  destruct (claims m !! d) as [c|] eqn:Hc; [|apply cc_free; try done; intros c' Hc'; by simplify_eq/=].
  case_bool_decide as Hr; [apply cc_free; try done; intros c' Hc'; by simplify_eq/=|].
  destruct ((ec_Owner c == o) && _) eqn:Hb'.
  - apply andb_true_iff in Hb' as [Ho%bool_decide_eq_true Hs%bool_decide_eq_true]. apply cc_mine; try done. by exists c.
  - apply cc_held; try done. intros [Hf|(c' & Hc' & Ho & Hs)]; [by destruct Hr; apply Hf|]. simplify_eq/=.
    by rewrite !bool_decide_true in Hb'.
Qed.

Lemma memory_advance_case ctx d o to t m : advance_case ctx d o to t m (AdvanceClaim ctx d o to t m).
Proof.
  unfold AdvanceClaim. destruct (ctx_Err ctx) as [e|] eqn:Hx.
  { apply ac_ended; [by intros ->|intros _; by eapply ended_plain]. }
  assert (Hl : ctx = CtxLive) by by destruct ctx.
  destruct (ClaimSources to) as [from|] eqn:Hs; [|apply ac_refused; try done; intros c (_ & _ & from & ? & _); congruence].
  destruct (claims m !! d) as [c|] eqn:Hc; [|apply ac_refused; try done; intros c (Hc' & _); by simplify_eq/=].
  case_bool_decide as Ho; cbn [negb orb]; [|apply ac_refused; try done; intros c' (Hc' & ? & _); by simplify_eq/=].
  case_bool_decide as Hin; cbn [negb].
  - apply (ac_moved _ _ _ _ _ _ c); try done. split_and!; [done|done|by exists from].
  - apply ac_refused; try done. intros c' (Hc' & _ & from' & ? & ?). by simplify_eq/=.
Qed.
End Memory.

(** ** SQLite *)

Section Sql.
Import Sqlite SqliteFacts.
Context (q json_error : string → string).
#[local] Instance rules_ops : StoreOps Db := sqlite_ops q json_error.
#[local] Instance rules_spec : StoreSpec Db := sqlite_spec q json_error.

Ltac run_goal := unfold atomically, query, op;
  cbn [mret prog_ret mbind prog_bind interp takes_ctx fails db_exec select_claim negb].

Lemma ended_no_key ctx e : ctx_Err ctx = Some e → strings_Contains (error_text q e) "FOREIGN KEY constraint failed" = false.
Proof. destruct ctx; intros [= <-]; reflexivity. Qed.

Lemma sql_claim_case ctx now d o t db : typed_db db →
  claim_case ctx d o t db (atomically ctx now (ClaimExecution q d o t) db).
Proof.
  intros Hty. pose proof (ty_schema _ Hty) as Hdb. unfold ClaimExecution.
  destruct ((d == "") || _) eqn:Hv; [by apply cc_rejected; [right; apply incomplete_claim|..]|].
  apply complete_claim_true in Hv. run_goal. unfold db_run at 1. destruct (ctx_Err ctx) as [e|] eqn:Hx.
  { run_goal. rewrite (ended_no_key _ _ Hx). cbn.
    apply cc_rejected; [left; by intros ->|cbn; by eapply ended_plain..]. }
  assert (Hl : ctx = CtxLive) by by destruct ctx. run_goal.
  destruct (upsert_claim _ db) as [db1 r] eqn:E. apply upsert_effect in E as [Hds Hr]; [|done].
  destruct r as [[n|e]|e]; [|done|].
  2: { destruct Hr as (-> & -> & Hn).
       replace (strings_Contains (error_text q foreign_key_failed) "FOREIGN KEY constraint failed") with true by reflexivity.
       by apply cc_unrecorded. }
  destruct Hr as [Hd [(-> & Hf & Hcs)|(-> & -> & c & Hc & Hst)]].
  { change (1 =? 1) with true. cbn. by apply cc_free. }
  change (0 =? 1) with false. unfold GetClaim. run_goal. unfold db_run. rewrite Hx. run_goal.
  pose proof Hc as Hc'. rewrite lookup_db_claims in Hc.
  destruct (row_with cl_decision_id d (execution_claims db)) as [row|] eqn:Er; [|done]. injection Hc as <-.
  apply row_with_Some in Er as [Hin _]. cbn [one_row].
  rewrite (scanClaim_typed row (proj1 (Forall_forall _ _) (ty_claims _ Hty) row Hin)).
  destruct ((ec_Owner _ == o) && _) eqn:Hb; cbn.
  - apply andb_true_iff in Hb as [Ho%bool_decide_eq_true Hs%bool_decide_eq_true]. apply cc_mine; try done. by exists (row_claim row).
  - apply cc_held; try done. intros [Hf|(c' & Hc1 & Ho & Hs)]; [by destruct Hst; apply Hf|].
    change (db_claims db !! d = Some c') in Hc1. rewrite Hc' in Hc1. injection Hc1 as <-. by rewrite !bool_decide_true in Hb.
Qed.

Lemma sql_advance_case ctx now d o to t db : db_inv db →
  advance_case ctx d o to t db (atomically ctx now (AdvanceClaim d o to t) db).
Proof.
  intros Hdb. unfold AdvanceClaim. destruct (ClaimSources to) as [from|] eqn:Hs.
  2: { assert (Hl : ctx = CtxLive ∨ ctx ≠ CtxLive) by (destruct ctx; auto). destruct Hl as [Hl|Hl].
       - apply ac_refused; try done. intros c (_ & _ & from & ? & _). congruence.
       - apply ac_ended; [done|]. intros [from ?]. congruence. }
  run_goal. unfold db_run. destruct (ctx_Err ctx) as [e|] eqn:Hx.
  { run_goal. cbn. apply ac_ended; [by intros ->|intros _; cbn; by eapply ended_plain]. }
  assert (Hl : ctx = CtxLive) by by destruct ctx. run_goal.
  destruct (update_claim _ _ _ _ _ _ _ db) as [db1 r] eqn:E.
  apply update_effect in E as [Hds [(-> & c & Hc & Ho & Hin & Hcs)|(-> & -> & Hno)]]; [| |done..].
  - change (1 =? 1) with true. cbn. apply (ac_moved _ _ _ _ _ _ c); try done. split_and!; [done|done|by exists from].
  - change (0 =? 1) with false. cbn. apply ac_refused; try done.
    intros c (Hc & Ho & from' & ? & Hin). simplify_eq/=. by apply (Hno c Hc).
Qed.

(** C39: Claims are granted, refused and moved by the same rules in both
    stores, whatever the context, arguments and state. ClaimExecution is granted
    exactly when the context is live, the decision ID and the owner are complete,
    the decision is recorded, and its claim is absent, released or already the
    owner's and only claimed; the claim then is the owner's and fresh, and one it
    already had is untouched. A refused call changes nothing and tells why:
    ErrDecisionNotFound exactly when a complete claim names a decision that is
    not recorded, ErrClaimHeld exactly when a recorded decision is held
    otherwise. AdvanceClaim is granted exactly when the context is live, the
    claim is the caller's and its state is a declared source of the target state,
    and it changes the state and the update time of that claim only; any other
    call under a live context is refused with ErrClaimNotHeld and changes
    nothing, and so does a call whose context has ended, with another error. The
    SQLite rules hold on every database that [store_well_typed] describes. *)
Theorem claims_by_rule ctx now d o to t :
  (∀ m, MemoryStore.inv m →
     claim_rule ctx d o t m (MemoryStore.ClaimExecution ctx d o t m) ∧
     advance_rule ctx d o to t m (MemoryStore.AdvanceClaim ctx d o to t m)) ∧
  (∀ db, typed_db db →
     claim_rule ctx d o t db (atomically ctx now (Sqlite.ClaimExecution q d o t) db) ∧
     advance_rule ctx d o to t db (atomically ctx now (Sqlite.AdvanceClaim d o to t) db)).
Proof.
  split; intros s Hs; (split; [apply claim_case_rule|apply advance_case_rule]).
  - by apply memory_claim_case.
  - apply memory_advance_case.
  - by apply sql_claim_case.
  - apply sql_advance_case, (ty_schema _ Hs).
Qed.
End Sql.

(** ** A claim that is held *)

Definition rival (tok : string) : ClaimOwner := {| o_WorkflowID := "saga-p-1"; o_RunID := "run-1"; o_Token := tok |}.

(** On the SQLite database of [sample_writes] the decision is being executed:
    another owner is refused as held and nothing changes, and a decision that
    was never recorded is not found. *)
Lemma claims_by_rule_witness :
  let db := history_db id id sample_writes in
  let claim d := atomically CtxLive 5 (Sqlite.ClaimExecution id d (rival "other") 5) db in
  (λ e, errors_Is e ErrClaimHeld) <$> (claim "dec_1").2 = Some true ∧ (claim "dec_1").1 = db ∧
  (λ e, errors_Is e ErrDecisionNotFound) <$> (claim "dec_2").2 = Some true.
Proof.
  intros db claim.
  assert (Hheld : (λ e, errors_Is e ErrClaimHeld) <$> (claim "dec_1").2 = Some true) by (vm_compute; reflexivity).
  split; [exact Hheld|]. split; [|vm_compute; reflexivity].
  destruct (claims_by_rule id id CtxLive 5 "dec_1" (rival "other") ClaimStateExecuting 5) as [_ Hsql].
  destruct (Hsql db (history_typed id id sample_writes sample_writes_sane)) as [[_ _ Hr] _]. fold (claim "dec_1") in Hr.
  destruct (claim "dec_1") as [db' [e|]]; [exact (proj1 (Hr e eq_refl))|discriminate Hheld].
Defined.
