(* ===== verification/Conformance.v ===== *)
(** * internal/decision/decisiontest/claims.go: the claim store conformance suite

    The suite as programs over any implementation of the store interface. A
    subtest passes the store on and ends with the message of the first check
    that fails. In the two concurrent subtests the goroutines reach the store
    in the order of a schedule, and the two subtests that range over a map take
    its entries in a given order. *)

From S2P Require Import Prelude GoBase GoTime Contracts Decision Store Database Sqlite.
Open Scope Z_scope.
Open Scope go_scope.

(** 2026-01-02T03:04:05Z. *)
Definition at_ : Time :=
  Date {| c_year := 2026; c_month := 1; c_day := 2; c_hour := 3; c_min := 4; c_sec := 5; c_nsec := 0 |}.

Definition owner (run : string) : ClaimOwner :=
  {| o_WorkflowID := "saga-p-dec_1"; o_RunID := run; o_Token := "exe_" +:+ run |}.

(** [errors.Is(err, target)] of an error that may be nil. *)
Definition errIs (err : option error) (target : sentinel) : bool :=
  match err with Some e => errors_Is e target | None => false end.

Section Suite.
Context {S : Type} `{StoreOps S} (newStore : S).

Definition test : Type := S → result string S.

(** [t.Fatal] on failure, the next step otherwise. *)
Definition seq_test (a b : test) : test := λ s, match a s with Ok s' => b s' | Err m => Err m end.
#[local] Notation "a ;; b" := (seq_test a b).
Definition pass : test := Ok.

Fixpoint each {X} (l : list X) (f : X → test) : test :=
  match l with
  | [] => pass
  | x :: l => f x ;; each l f
  end.
Definition twice (a : test) : test := a ;; a.

(** A call on the store whose error is then checked. *)
Definition check (call : S → S * option error) (ok : option error → bool) (msg : string) : test :=
  λ s, let '(s', err) := call s in if ok err then Ok s' else Err msg.
Definition succeeds (err : option error) : bool := err == None.

Definition claim (d : string) (o : ClaimOwner) : S → S * option error := claim_execution CtxLive d o at_.
Definition advance (d : string) (o : ClaimOwner) (to : ClaimState) : S → S * option error :=
  advance_claim CtxLive d o to at_.

Definition seedIngress (id : string) : test :=
  check (append_decision CtxLive
    {| dr_DecisionID := id; dr_Stage := StageIngress; dr_ProposalID := "p-" +:+ id; dr_AgentID := "agent-a";
       dr_RequestHash := "hash-" +:+ id; dr_Command := ""; dr_TargetID := ""; dr_Environment := "";
       dr_Verdict := VerdictAllow; dr_Reasons := []; dr_PolicyVersion := ""; dr_PolicyDigest := "";
       dr_WorkflowID := "saga-p-" +:+ id; dr_TraceID := ""; dr_RecordedAt := at_ |})
    succeeds "seed".

Definition requireState (id : string) (want : ClaimState) (wantOwner : ClaimOwner) : test := λ s,
  match get_claim CtxLive id s with
  | Err _ => Err "GetClaim"
  | Ok c => if (ec_State c != want) || (ec_Owner c != wantOwner) || (ec_DecisionID c != id)
            then Err "claim state" else Ok s
  end.

Definition mustTransition (o : ClaimOwner) (to : ClaimState) : test := check (advance "dec_1" o to) succeeds "->".
Definition mustAdvance (o : ClaimOwner) (states : list ClaimState) : test :=
  check (claim "dec_1" o) succeeds "claim" ;; each states (mustTransition o).

(** ** The subtests *)

Definition unknown_decision : test :=
  check (claim "dec_missing" (owner "run-1")) (λ err, errIs err ErrDecisionNotFound) "want ErrDecisionNotFound" ;;
  λ s, match get_claim CtxLive "dec_missing" s with
       | Err e => if errors_Is e ErrClaimNotFound then Ok s else Err "want ErrClaimNotFound"
       | Ok _ => Err "want ErrClaimNotFound"
       end.

Definition incomplete_owner : test :=
  seedIngress "dec_1" ;;
  let bad := {| o_WorkflowID := o_WorkflowID (owner "run-1"); o_RunID := o_RunID (owner "run-1"); o_Token := "" |} in
  check (claim "dec_1" bad) (λ err, negb (succeeds err)) "claim with empty token succeeded".

Definition full_lifecycle : test :=
  let a := owner "run-1" in
  seedIngress "dec_1" ;;
  check (claim "dec_1" a) succeeds "claim" ;;
  check (claim "dec_1" a) succeeds "same-owner re-claim must be idempotent" ;;
  requireState "dec_1" ClaimStateClaimed a ;;
  check (advance "dec_1" a ClaimStateCompleted) (λ err, errIs err ErrClaimNotHeld) "CLAIMED -> COMPLETED must be refused" ;;
  check (advance "dec_1" a ClaimStateExecuting) succeeds "-> EXECUTING" ;;
  check (advance "dec_1" a ClaimStateExecuting) (λ err, errIs err ErrClaimNotHeld)
    "the execution fence must not be acquired twice, even by the owner" ;;
  check (advance "dec_1" a ClaimStateReleased) (λ err, errIs err ErrClaimNotHeld) "EXECUTING -> RELEASED must be refused" ;;
  check (claim "dec_1" a) (λ err, errIs err ErrClaimHeld) "re-claim after EXECUTING must be refused even for the owner" ;;
  twice (check (advance "dec_1" a ClaimStateCompleted) succeeds "-> COMPLETED") ;;
  check (advance "dec_1" a ClaimStateFailed) (λ err, errIs err ErrClaimNotHeld) "COMPLETED -> FAILED must be refused" ;;
  requireState "dec_1" ClaimStateCompleted a ;;
  check (claim "dec_1" (owner "run-2")) (λ err, errIs err ErrClaimHeld) "claim of a COMPLETED decision must be refused".

Definition failed_terminal : test :=
  let a := owner "run-1" in
  seedIngress "dec_1" ;;
  mustAdvance a [ClaimStateExecuting; ClaimStateFailed] ;;
  check (claim "dec_1" (owner "run-2")) (λ err, errIs err ErrClaimHeld) "claim of a FAILED decision must be refused" ;;
  requireState "dec_1" ClaimStateFailed a.

Definition unknown_outcome (final : ClaimState) : test :=
  let a := owner "run-1" in
  seedIngress "dec_1" ;;
  check (claim "dec_1" a) succeeds "claim" ;;
  check (advance "dec_1" a ClaimStateReconciliationRequired) (λ err, errIs err ErrClaimNotHeld)
    "CLAIMED -> RECONCILIATION_REQUIRED must be refused" ;;
  mustTransition a ClaimStateExecuting ;;
  twice (mustTransition a ClaimStateReconciliationRequired) ;;
  check (advance "dec_1" a ClaimStateReleased) (λ err, errIs err ErrClaimNotHeld)
    "RECONCILIATION_REQUIRED -> RELEASED must be refused" ;;
  each [a; owner "run-2"] (λ o, check (claim "dec_1" o) (λ err, errIs err ErrClaimHeld)
    "claim of an unreconciled decision must be refused") ;;
  check (advance "dec_1" (owner "run-2") final) (λ err, errIs err ErrClaimNotHeld)
    "another execution resolved the claim" ;;
  requireState "dec_1" ClaimStateReconciliationRequired a ;;
  twice (mustTransition a final) ;;
  check (advance "dec_1" a ClaimStateReconciliationRequired) (λ err, errIs err ErrClaimNotHeld)
    "-> RECONCILIATION_REQUIRED must be refused" ;;
  requireState "dec_1" final a.

(** The entries of the map of paths, in some order. *)
Definition fence_cases : list (list ClaimState) :=
  [[ClaimStateReleased]; [ClaimStateExecuting];
   [ClaimStateExecuting; ClaimStateReconciliationRequired];
   [ClaimStateExecuting; ClaimStateCompleted]; [ClaimStateExecuting; ClaimStateFailed]].

Definition fence_only_from_claimed (path : list ClaimState) : test :=
  let a := owner "run-1" in
  seedIngress "dec_1" ;; mustAdvance a path ;;
  check (advance "dec_1" a ClaimStateExecuting) (λ err, errIs err ErrClaimNotHeld) "want ErrClaimNotHeld" ;;
  requireState "dec_1" (default "" (last path)) a.

(** The calls of the goroutines, in the order in which they reach the store. *)
Fixpoint race {X} (call : X → S → S * option error) (schedule : list X) (s : S) : S * list (option error) :=
  match schedule with
  | [] => (s, [])
  | x :: schedule => let '(s1, err) := call x s in
                     let '(s2, errs) := race call schedule s1 in (s2, err :: errs)
  end.

(** Exactly one call succeeded and every other failed with the given error. *)
Definition one_winner (loser : sentinel) (errs : list (option error)) : bool :=
  forallb (λ err, succeeds err || errIs err loser) errs &&
  (length (List.filter succeeds errs) =? 1)%nat.
Definition RequireOneWinner : list (option error) → bool := one_winner ErrClaimHeld.

Definition concurrent_fences (schedule : list nat) : test :=
  let a := owner "run-1" in
  seedIngress "dec_1" ;;
  check (claim "dec_1" a) succeeds "claim" ;;
  λ s, let '(s', errs) := race (λ _, advance "dec_1" a ClaimStateExecuting) schedule s in
       if one_winner ErrClaimNotHeld errs then requireState "dec_1" ClaimStateExecuting a s'
       else Err "concurrent fences, want exactly 1".

(** The entries of the map of other owners, in some order. *)
Definition other_owners : list ClaimOwner :=
  let a := owner "run-1" in
  [owner "run-2";
   {| o_WorkflowID := o_WorkflowID a; o_RunID := o_RunID a; o_Token := "exe_other" |};
   {| o_WorkflowID := o_WorkflowID a; o_RunID := "run-reset"; o_Token := o_Token a |}].

Definition other_executions (others : list ClaimOwner) : test :=
  let a := owner "run-1" in
  seedIngress "dec_1" ;;
  check (claim "dec_1" a) succeeds "claim" ;;
  each others (λ o,
    check (claim "dec_1" o) (λ err, errIs err ErrClaimHeld) "want ErrClaimHeld" ;;
    each [ClaimStateExecuting; ClaimStateReleased] (λ to,
      check (advance "dec_1" o to) (λ err, errIs err ErrClaimNotHeld) "want ErrClaimNotHeld")) ;;
  requireState "dec_1" ClaimStateClaimed a.

Definition released_taken : test :=
  let a := owner "run-1" in let b := owner "run-2" in
  seedIngress "dec_1" ;;
  check (claim "dec_1" a) succeeds "claim" ;;
  twice (check (advance "dec_1" a ClaimStateReleased) succeeds "release") ;;
  check (claim "dec_1" b) succeeds "claim after release" ;;
  requireState "dec_1" ClaimStateClaimed b ;;
  check (advance "dec_1" a ClaimStateExecuting) (λ err, errIs err ErrClaimNotHeld)
    "previous owner advanced a claim it released" ;;
  check (advance "dec_1" a ClaimStateReleased) (λ err, errIs err ErrClaimNotHeld)
    "previous owner released the new owner's claim".

Definition invalid_target : test :=
  let a := owner "run-1" in
  seedIngress "dec_1" ;;
  check (claim "dec_1" a) succeeds "claim" ;;
  each [ClaimStateClaimed; "BOGUS"] (λ to,
    check (advance "dec_1" a to) (λ err, errIs err ErrClaimNotHeld) "want ErrClaimNotHeld").

Definition independent_decisions : test :=
  seedIngress "dec_1" ;; seedIngress "dec_2" ;;
  check (claim "dec_1" (owner "run-1")) succeeds "claim" ;;
  check (claim "dec_2" (owner "run-2")) succeeds "claim on dec_1 blocked dec_2".

(** The owner of the goroutine with this index. *)
Definition racer (i : nat) : ClaimOwner := owner ("run-" +:+ pretty i).

Definition concurrent_claims (schedule : list nat) : test :=
  seedIngress "dec_1" ;;
  λ s, let '(s', errs) := race (λ i, claim "dec_1" (racer i)) schedule s in
       if RequireOneWinner errs then Ok s' else Err "concurrent claims, want exactly 1".

(** Every subtest starts with a new store. The maps of the suite are ranged over
    in the orders [cases] and [others]. *)
Definition RunClaimStoreTests (cases : list (list ClaimState)) (others : list ClaimOwner) (fences racers : list nat)
    : result string unit :=
  foldM (λ _ (sub : test), match sub newStore with Ok _ => Ok tt | Err m => Err m end) tt
    ([unknown_decision; incomplete_owner; full_lifecycle; failed_terminal] ++
     (unknown_outcome <$> [ClaimStateCompleted; ClaimStateFailed]) ++
     (fence_only_from_claimed <$> cases) ++
     [concurrent_fences fences; other_executions others; released_taken; invalid_target; independent_decisions;
      concurrent_claims racers]).
End Suite.

(** ** Both stores pass *)

Section Passing.
Context {S : Type} `{StoreOps S} (newStore : S).

Definition passes (sub : test (S := S)) : bool :=
  match sub newStore with Ok _ => true | Err _ => false end.

Lemma foldM_passes (l : list (test (S := S))) : Forall (λ sub, passes sub = true) l →
  foldM (λ _ sub, match sub newStore with Ok _ => Ok tt | Err m => Err m end) tt l = Ok (E := string) tt.
Proof.
  induction 1 as [|sub l Hs Hl IH]; [done|]. cbn. unfold passes in Hs. by destruct (sub newStore).
Qed.

(** Whoever comes first wins and everybody else is refused. *)
Definition first_wins {X} (call : X → S → S * option error) (loser : sentinel) (dom : list X) (s : S) : Prop :=
  ∀ i, i ∈ dom → (call i s).2 = None ∧
    ∀ j, j ∈ dom → j ≠ i → (call j (call i s).1).1 = (call i s).1 ∧ errIs (call j (call i s).1).2 loser = true.

Lemma race_losers {X} call loser (s1 : S) (l : list X) :
  (∀ j, j ∈ l → (call j s1).1 = s1 ∧ errIs (call j s1).2 loser = true) →
  ∃ errs, race call l s1 = (s1, errs) ∧ forallb (λ err, errIs err loser) errs = true.
Proof.
  induction l as [|j l IH]; intros Hl; [by exists []|]. destruct (Hl j) as [Hs He]; [by left|]. cbn.
  destruct (call j s1) as [s' err]. cbn in Hs, He. subst s'.
  destruct IH as (errs & -> & Herrs); [intros; apply Hl; by right|]. exists (err :: errs). cbn. by rewrite He.
Qed.

Lemma losers_no_winner loser errs : forallb (λ err, errIs err loser) errs = true →
  forallb (λ err, succeeds err || errIs err loser) errs = true ∧ List.filter succeeds errs = [].
Proof.
  induction errs as [|[e|] errs IH]; cbn; [done| |done]. intros [He Herrs]%andb_true_iff.
  destruct (IH Herrs) as [-> ->]. by rewrite He.
Qed.

Lemma race_one_winner {X} call loser (dom schedule : list X) (s : S) :
  first_wins call loser dom s → schedule ≡ₚ dom → NoDup dom → dom ≠ [] →
  ∃ i, i ∈ dom ∧ ∃ errs, race call schedule s = ((call i s).1, errs) ∧ one_winner loser errs = true.
Proof.
  intros Hf Hp Hd Hne. rewrite <- Hp in Hd. destruct schedule as [|i rest].
  { by apply Permutation_nil_l in Hp. }
  apply NoDup_cons in Hd as [Hi Hd].
  assert (Hin : ∀ j, j ∈ i :: rest → j ∈ dom) by (intros j Hj; by rewrite <- Hp).
  destruct (Hf i) as [H1 H2]; [apply Hin; by left|]. exists i. split; [apply Hin; by left|].
  destruct (race_losers call loser (call i s).1 rest) as (errs & Hr & He).
  { intros j Hj. apply H2; [apply Hin; by right|]. by intros ->. }
  destruct (losers_no_winner _ _ He) as [Ho Hw]. cbn. destruct (call i s) as [s1 err]. cbn in *. subst err.
  rewrite Hr. exists (None :: errs). split; [done|]. unfold one_winner. cbn. by rewrite Ho, Hw.
Qed.

(** [first_wins] on a finite domain, by evaluation. *)
Definition first_wins_check `{EqDecision S} (call : nat → S → S * option error) (loser : sentinel)
    (dom : list nat) (s : S) : bool :=
  forallb (λ i, let '(s1, err) := call i s in
    succeeds err && forallb (λ j, (j =? i)%nat ||
      let '(s2, err') := call j s1 in (s2 == s1) && errIs err' loser) dom) dom.

Lemma first_wins_checked `{EqDecision S} call loser dom s :
  first_wins_check call loser dom s = true → first_wins call loser dom s.
Proof.
  unfold first_wins_check. rewrite forallb_forall. intros Hc i Hi. specialize (Hc i ltac:(by apply list_elem_of_In)).
  destruct (call i s) as [s1 err]. cbn. apply andb_true_iff in Hc as [He%bool_decide_eq_true Hc].
  split; [done|]. rewrite forallb_forall in Hc. intros j Hj Hne.
  specialize (Hc j ltac:(by apply list_elem_of_In)).
  apply orb_true_iff in Hc as [Hc%Nat.eqb_eq|Hc]; [done|].
  destruct (call j s1) as [s2 err']. by apply andb_true_iff in Hc as [->%bool_decide_eq_true ?].
Qed.

(** The store of the concurrent subtests, when the goroutines start. *)
Definition after (a : test (S := S)) : S := match a newStore with Ok s => s | Err _ => newStore end.

Lemma concurrent_claims_pass dom schedule : passes (seedIngress "dec_1") = true →
  first_wins (λ i, claim "dec_1" (racer i)) ErrClaimHeld dom (after (seedIngress "dec_1")) →
  schedule ≡ₚ dom → NoDup dom → dom ≠ [] → passes (concurrent_claims schedule) = true.
Proof.
  unfold passes, after, concurrent_claims, seq_test. intros Hseed Hf Hp Hd Hne.
  destruct (seedIngress "dec_1" newStore) as [s|]; [|done].
  destruct (race_one_winner _ _ _ _ _ Hf Hp Hd Hne) as (i & _ & errs & -> & Hw).
  unfold RequireOneWinner. by rewrite Hw.
Qed.

Lemma concurrent_fences_pass dom schedule :
  let ready := seq_test (seedIngress "dec_1") (check (claim "dec_1" (owner "run-1")) succeeds "claim") in
  let fence := λ _ : nat, advance "dec_1" (owner "run-1") ClaimStateExecuting in
  passes ready = true → first_wins fence ErrClaimNotHeld dom (after ready) →
  match requireState "dec_1" ClaimStateExecuting (owner "run-1") (fence 0%nat (after ready)).1 with
  | Ok _ => true | Err _ => false end = true →
  schedule ≡ₚ dom → NoDup dom → dom ≠ [] → passes (concurrent_fences schedule) = true.
Proof.
  cbv zeta. unfold passes, after, concurrent_fences, seq_test. intros Hready Hf Hst Hp Hd Hne.
  destruct (seedIngress "dec_1" newStore) as [s0|]; [|done].
  destruct (check (claim "dec_1" (owner "run-1")) succeeds "claim" s0) as [s|]; [|done].
  destruct (race_one_winner _ _ _ _ _ Hf Hp Hd Hne) as (i & _ & errs & -> & ->). exact Hst.
Qed.
End Passing.

#[local] Instance Db_eq_dec : EqDecision Db.
Proof. solve_decision. Defined.
#[local] Instance memory_eq_dec : EqDecision MemoryStore.t.
Proof. solve_decision. Defined.

(** Passing the sequential subtests and the checks of the concurrent ones is
    passing the suite under every schedule. *)
Definition sequential_tests {S} `{StoreOps S} : list (test (S := S)) :=
  [unknown_decision; incomplete_owner; full_lifecycle; failed_terminal;
   unknown_outcome ClaimStateCompleted; unknown_outcome ClaimStateFailed;
   released_taken; invalid_target; independent_decisions] ++
  (other_executions <$> permutations other_owners) ++ (fence_only_from_claimed <$> fence_cases).

Definition race_checks {S} `{StoreOps S} `{EqDecision S} (newStore : S) : bool :=
  let ready := seq_test (seedIngress "dec_1") (check (claim "dec_1" (owner "run-1")) succeeds "claim") in
  let fence := λ _ : nat, advance "dec_1" (owner "run-1") ClaimStateExecuting in
  passes newStore (seedIngress "dec_1") && passes newStore ready &&
  first_wins_check (λ i, claim "dec_1" (racer i)) ErrClaimHeld (seq 0 32) (after newStore (seedIngress "dec_1")) &&
  first_wins_check fence ErrClaimNotHeld (seq 0 16) (after newStore ready) &&
  match requireState "dec_1" ClaimStateExecuting (owner "run-1") (fence 0%nat (after newStore ready)).1 with
  | Ok _ => true | Err _ => false end.

Lemma suite_passes_checked {S} `{StoreOps S} `{EqDecision S} (newStore : S) cases others fences racers :
  forallb (passes newStore) sequential_tests && race_checks newStore = true →
  cases ≡ₚ fence_cases → others ≡ₚ other_owners → fences ≡ₚ seq 0 16 → racers ≡ₚ seq 0 32 →
  RunClaimStoreTests newStore cases others fences racers = Ok tt.
Proof.
  unfold race_checks. cbv zeta. rewrite !andb_true_iff. intros (Hseq & ((((H1 & H2) & H3) & H4) & H5)) Hc Ho Hf Hr.
  apply foldM_passes. rewrite forallb_forall in Hseq.
  assert (Hin : ∀ sub, sub ∈ sequential_tests → passes newStore sub = true)
    by (intros sub Hsub; by apply Hseq, list_elem_of_In).
  assert (Hfences : passes newStore (concurrent_fences fences) = true).
  { eapply concurrent_fences_pass; eauto using first_wins_checked, NoDup_seq. }
  assert (Hclaims : passes newStore (concurrent_claims racers) = true).
  { eapply concurrent_claims_pass; eauto using first_wins_checked, NoDup_seq. }
  assert (Hothers : passes newStore (other_executions others) = true).
  { apply Hin. unfold sequential_tests. apply elem_of_app. right. apply elem_of_app. left.
    apply list_elem_of_fmap_2, permutations_Permutation. done. }
  assert (Hcases : Forall (λ sub, passes newStore sub = true) (fence_only_from_claimed <$> cases)).
  { rewrite Hc. apply Forall_forall. intros sub Hsub. apply Hin. unfold sequential_tests.
    apply elem_of_app. right. apply elem_of_app. by right. }
  apply Forall_forall in Hin. apply Forall_app in Hin as [Hin _].
  rewrite !Forall_app. cbn [fmap list_fmap]. rewrite !Forall_cons in *. tauto.
Qed.

(** C34: the in-memory store and the SQLite store both pass the conformance
    suite of claim stores, in whatever order the goroutines of its concurrent
    subtests reach the store and the entries of its maps are visited. *)
Theorem stores_conform q json_error cases others fences racers :
  cases ≡ₚ fence_cases → others ≡ₚ other_owners → fences ≡ₚ seq 0 16 → racers ≡ₚ seq 0 32 →
  RunClaimStoreTests MemoryStore.NewMemoryStore cases others fences racers = Ok tt ∧
  @RunClaimStoreTests Db (sqlite_ops q json_error) empty_db cases others fences racers = Ok tt.
Proof.
  intros Hc Ho Hf Hr. split; apply suite_passes_checked; try done; vm_compute; reflexivity.
Qed.

Lemma stores_conform_witness :
  RunClaimStoreTests MemoryStore.NewMemoryStore (rev fence_cases) (rev other_owners) (rev (seq 0 16)) (rev (seq 0 32)) = Ok tt.
Proof.
  apply (stores_conform id id (rev fence_cases) (rev other_owners) (rev (seq 0 16)) (rev (seq 0 32)));
    symmetry; apply Permutation_rev.
Defined.
