(* ===== verification/Claims.v ===== *)
(** * The life of records and claims under any sequence of store operations

    Everything here holds of any store that satisfies [StoreSpec]: callers
    may be any number of workflow runs, retries and zombies, in any order, so
    a history of the store is a list of operations. *)

From S2P Require Import Prelude GoBase Contracts Decision Store.
Open Scope Z_scope.
Open Scope go_scope.

(** ** The documented transitions (the diagram of contracts/claim.go) *)

(** The states in which the adapter may have been called. *)
Definition fenced (st : ClaimState) : Prop :=
  st ∈ [ClaimStateExecuting; ClaimStateReconciliationRequired; ClaimStateCompleted; ClaimStateFailed].
Definition settled (st : ClaimState) : Prop := st ∈ [ClaimStateCompleted; ClaimStateFailed].

#[export] Instance fenced_dec st : base.Decision (fenced st).
Proof. unfold fenced. apply _. Defined.

Lemma not_fenced_claimed : ¬ fenced ClaimStateClaimed.
Proof. apply (bool_decide_eq_false_1 _). reflexivity. Qed.
Lemma not_fenced_released : ¬ fenced ClaimStateReleased.
Proof. apply (bool_decide_eq_false_1 _). reflexivity. Qed.
Lemma fenced_executing : fenced ClaimStateExecuting.
Proof. apply (bool_decide_eq_true_1 _). reflexivity. Qed.

Inductive claim_step : option ExecutionClaim → option ExecutionClaim → Prop :=
| step_claim c : ec_State c = ClaimStateClaimed → claim_step None (Some c)
| step_reclaim c c' : ec_State c = ClaimStateReleased → ec_State c' = ClaimStateClaimed →
    ec_DecisionID c' = ec_DecisionID c → claim_step (Some c) (Some c')
| step_release c t : ec_State c ∈ [ClaimStateClaimed; ClaimStateReleased] →
    claim_step (Some c) (Some (set_state c ClaimStateReleased t))
| step_fence c t : ec_State c = ClaimStateClaimed →
    claim_step (Some c) (Some (set_state c ClaimStateExecuting t))
| step_unknown c t : ec_State c ∈ [ClaimStateExecuting; ClaimStateReconciliationRequired] →
    claim_step (Some c) (Some (set_state c ClaimStateReconciliationRequired t))
| step_settle c to t : settled to →
    ec_State c ∈ [ClaimStateExecuting; ClaimStateReconciliationRequired; to] →
    claim_step (Some c) (Some (set_state c to t)).

(** ** Histories of a store *)

Inductive store_op : Type :=
| SAppend (ctx : context) (rec : DecisionRecord)
| SClaim (ctx : context) (d : string) (o : ClaimOwner) (t : Time)
| SAdvance (ctx : context) (d : string) (o : ClaimOwner) (to : ClaimState) (t : Time).

(** The operation acquired the execution fence of decision [d]. *)
Definition acquires (d : string) (op : store_op) (reply : option error) : bool :=
  match op, reply with
  | SAdvance _ d' _ to _, None => (d' == d) && (to == ClaimStateExecuting)
  | _, _ => false
  end.

Section Lawful.
Context {S : Type} `{StoreSpec S}.

Definition run_op (op : store_op) (s : S) : S * option error :=
  match op with
  | SAppend ctx rec => append_decision ctx rec s
  | SClaim ctx d o t => claim_execution ctx d o t s
  | SAdvance ctx d o to t => advance_claim ctx d o to t s
  end.

Fixpoint run_ops (ops : list store_op) (s : S) : S * list (store_op * option error) :=
  match ops with
  | [] => (s, [])
  | op :: ops => let '(s1, r) := run_op op s in
                 let '(s2, log) := run_ops ops s1 in (s2, (op, r) :: log)
  end.

Definition acquisitions (d : string) (log : list (store_op * option error)) : nat :=
  length (filter (λ x, acquires d x.1 x.2 = true) log).

Lemma run_op_inv op s s' r : store_inv s → run_op op s = (s', r) → store_inv s'.
Proof.
  intros Hs Hop. destruct op, r; simpl in Hop.
  - by rewrite (append_decision_err _ _ _ _ _ Hs Hop).
  - by apply append_decision_ok in Hop as [? _].
  - by destruct (claim_execution_err _ _ _ _ _ _ _ Hs Hop) as [-> _].
  - by apply claim_execution_ok in Hop as [? _].
  - by destruct (advance_claim_err _ _ _ _ _ _ _ _ Hs Hop) as [-> _].
  - by apply advance_claim_ok in Hop as [? _].
Qed.

(** Whatever the operation, decision records only grow. *)
Lemma run_op_decisions op s s' r : store_inv s → run_op op s = (s', r) → decisions s ⊆ decisions s'.
Proof.
  intros Hs Hop. destruct op, r; simpl in Hop.
  - by rewrite (append_decision_err _ _ _ _ _ Hs Hop).
  - apply append_decision_ok in Hop as (_ & _ & _ & [[Hn ->]|[_ ->]]); [|done..].
    by apply insert_subseteq.
  - by destruct (claim_execution_err _ _ _ _ _ _ _ Hs Hop) as [-> _].
  - by apply claim_execution_ok in Hop as (_ & -> & _).
  - by destruct (advance_claim_err _ _ _ _ _ _ _ _ Hs Hop) as [-> _].
  - by apply advance_claim_ok in Hop as (_ & -> & _).
Qed.

Lemma advance_step c to from t : ClaimSources to = Some from → ec_State c ∈ from →
  claim_step (Some c) (Some (set_state c to t)).
Proof.
  unfold ClaimSources. intros Hs Hin. repeat case_bool_decide; simplify_eq.
  - apply step_fence. set_solver.
  - by apply step_unknown.
  - apply step_settle; [|done]. unfold settled. set_solver.
  - apply step_settle; [|done]. unfold settled. set_solver.
  - by apply step_release.
Qed.

(** The effect of one operation on one claim: nothing, or a documented step. *)
Lemma run_op_claim op s s' r d :
  store_inv s → run_op op s = (s', r) →
  claims s' !! d = claims s !! d ∨ claim_step (claims s !! d) (claims s' !! d).
Proof.
  intros Hs Hop. destruct op as [ctx rec|ctx d' o t|ctx d' o to t], r; simpl in Hop.
  - rewrite (append_decision_err _ _ _ _ _ Hs Hop). by left.
  - apply append_decision_ok in Hop as (_ & -> & _); [by left|done].
  - destruct (claim_execution_err _ _ _ _ _ _ _ Hs Hop) as [-> _]. by left.
  - apply claim_execution_ok in Hop as (_ & _ & _ & _ & _ & [[Hrel ->]|(c & _ & _ & _ & ->)]);
      [|by left|done].
    rewrite lookup_insert. case_decide; [subst; right|by left].
    destruct (claims s !! d) as [c|] eqn:E; [|by apply step_claim].
    apply step_reclaim; eauto. simpl. symmetry. eauto using claim_filed.
  - destruct (advance_claim_err _ _ _ _ _ _ _ _ Hs Hop) as [-> _]. by left.
  - apply advance_claim_ok in Hop as (_ & _ & c & from & Hc & _ & Hsrc & Hin & ->); [|done].
    rewrite lookup_insert. case_decide; [subst; right|by left].
    rewrite Hc. by eapply advance_step.
Qed.

(** From a fenced state, only other fenced states are reached, and never
    EXECUTING again. *)
Lemma fenced_advance st to from : fenced st → ClaimSources to = Some from → st ∈ from →
  fenced to ∧ to ≠ ClaimStateExecuting.
Proof.
  intros Hf Hs Hin. unfold ClaimSources in Hs.
  repeat case_bool_decide; simplify_eq; enum_in; subst;
    try (by apply not_fenced_claimed in Hf); try (by apply not_fenced_released in Hf);
    (split; [|discriminate]); apply (bool_decide_eq_true_1 _); reflexivity.
Qed.

(** A fenced claim keeps its owner and stays fenced. *)
Lemma run_op_fenced op s s' r d c :
  store_inv s → run_op op s = (s', r) → claims s !! d = Some c → fenced (ec_State c) →
  acquires d op r = false ∧
  ∃ c', claims s' !! d = Some c' ∧ fenced (ec_State c') ∧ ec_Owner c' = ec_Owner c.
Proof.
  intros Hs Hop Hc Hf. destruct op as [ctx rec|ctx d' o t|ctx d' o to t], r; simpl in Hop.
  - rewrite (append_decision_err _ _ _ _ _ Hs Hop). eauto.
  - apply append_decision_ok in Hop as (_ & -> & _); eauto.
  - destruct (claim_execution_err _ _ _ _ _ _ _ Hs Hop) as [-> _]. eauto.
  - split; [done|].
    apply claim_execution_ok in Hop as (_ & _ & _ & _ & _ & [[Hrel ->]|(c' & _ & _ & _ & ->)]); eauto.
    rewrite lookup_insert_ne; [eauto|]. intros ->. rewrite (Hrel c Hc) in Hf. by apply not_fenced_released in Hf.
  - destruct (advance_claim_err _ _ _ _ _ _ _ _ Hs Hop) as [-> _]. eauto.
  - apply advance_claim_ok in Hop as (_ & _ & c' & from & Hc' & _ & Hsrc & Hin & ->); [|done].
    simpl. case_bool_decide; subst; simpl; [|rewrite lookup_insert_ne by done; eauto].
    simplify_eq. rewrite lookup_insert_eq.
    destruct (fenced_advance (ec_State c') to from Hf Hsrc Hin) as [Hto Hex].
    rewrite bool_decide_eq_false_2 by done. eauto.
Qed.

Lemma run_op_acquires op s s' r d : store_inv s → run_op op s = (s', r) →
  acquires d op r = true → ∃ c, claims s' !! d = Some c ∧ fenced (ec_State c).
Proof.
  intros Hs Hop Ha. destruct op as [| |ctx d' o to t]; try done. destruct r; [done|].
  simpl in *. apply andb_true_iff in Ha as [->%bool_decide_eq_true ->%bool_decide_eq_true].
  apply advance_claim_ok in Hop as (_ & _ & c & from & _ & _ & _ & _ & ->); [|done].
  rewrite lookup_insert_eq. eexists. split; [done|]. apply fenced_executing.
Qed.

Lemma run_ops_fenced ops s s' log d c :
  store_inv s → run_ops ops s = (s', log) → claims s !! d = Some c → fenced (ec_State c) →
  acquisitions d log = 0%nat ∧
  ∃ c', claims s' !! d = Some c' ∧ fenced (ec_State c') ∧ ec_Owner c' = ec_Owner c.
Proof.
  revert s log c. induction ops as [|op ops IH]; intros s log c Hs Hrun Hc Hf; simpl in Hrun.
  { simplify_eq. eauto. }
  destruct (run_op op s) as [s1 r] eqn:Hop. destruct (run_ops ops s1) as [s2 log'] eqn:Hrest.
  simplify_eq. destruct (run_op_fenced _ _ _ _ _ _ Hs Hop Hc Hf) as (Hna & c1 & Hc1 & Hf1 & Ho1).
  destruct (IH s1 log' c1) as (Hz & c' & ? & ? & ?); eauto using run_op_inv.
  unfold acquisitions in *. rewrite filter_cons_False by (simpl; congruence).
  split; [done|]. exists c'. split_and!; [done..|congruence].
Qed.

(** C25: over any sequence of record, claim and transition requests, from any
    callers and in any order, the execution fence of a decision is acquired at
    most once. *)
Theorem fence_acquired_once ops s s' log d :
  store_inv s → run_ops ops s = (s', log) → (acquisitions d log <= 1)%nat.
Proof.
  revert s log. induction ops as [|op ops IH]; intros s log Hs Hrun; simpl in Hrun.
  { simplify_eq. unfold acquisitions. simpl. lia. }
  destruct (run_op op s) as [s1 r] eqn:Hop. destruct (run_ops ops s1) as [s2 log'] eqn:Hrest.
  simplify_eq. unfold acquisitions in *. destruct (acquires d op r) eqn:Ha.
  - rewrite filter_cons_True by done. destruct (run_op_acquires _ _ _ _ _ Hs Hop Ha) as (c & Hc & Hf).
    destruct (run_ops_fenced _ _ _ _ _ _ (run_op_inv _ _ _ _ Hs Hop) Hrest Hc Hf) as [Hz _].
    unfold acquisitions in Hz. simpl. lia.
  - rewrite filter_cons_False by (simpl; congruence). eauto using run_op_inv.
Qed.

(** C26: every history of a claim is a path of the documented state machine,
    and once the claim is EXECUTING or later it stays there under the same
    owner: it is never released or claimed again. *)
Theorem claim_history ops s s' log d :
  store_inv s → run_ops ops s = (s', log) →
  rtc claim_step (claims s !! d) (claims s' !! d) ∧
  (∀ c, claims s !! d = Some c → fenced (ec_State c) →
   ∃ c', claims s' !! d = Some c' ∧ fenced (ec_State c') ∧ ec_Owner c' = ec_Owner c).
Proof.
  intros Hs Hrun. split.
  - revert s log Hs Hrun. induction ops as [|op ops IH]; intros s log Hs Hrun; simpl in Hrun.
    { by simplify_eq. }
    destruct (run_op op s) as [s1 r] eqn:Hop. destruct (run_ops ops s1) as [s2 log'] eqn:Hrest.
    simplify_eq. specialize (IH s1 log' (run_op_inv _ _ _ _ Hs Hop) Hrest).
    destruct (run_op_claim _ _ _ _ d Hs Hop) as [E|E]; [by rewrite <- E|].
    by eapply rtc_l.
  - intros c Hc Hf. by destruct (run_ops_fenced _ _ _ _ _ _ Hs Hrun Hc Hf) as [_ ?].
Qed.

(** Decision records are append-only: whatever is requested of the store,
    every record present before is present and unchanged after. *)
Theorem records_immutable ops s s' log :
  store_inv s → run_ops ops s = (s', log) → decisions s ⊆ decisions s'.
Proof.
  revert s log. induction ops as [|op ops IH]; intros s log Hs Hrun; simpl in Hrun.
  { by simplify_eq. }
  destruct (run_op op s) as [s1 r] eqn:Hop. destruct (run_ops ops s1) as [s2 log'] eqn:Hrest.
  simplify_eq. transitivity (decisions s1); [by eapply run_op_decisions|].
  eauto using run_op_inv.
Qed.
End Lawful.

(** ** A concrete history: two runs compete, one fences, both retry *)

Definition sample_record : DecisionRecord :=
  {| dr_DecisionID := "dec_1"; dr_Stage := StageIngress; dr_ProposalID := "p-1";
     dr_AgentID := "agent-sim"; dr_RequestHash := RequestHash sample_proposal;
     dr_Command := CmdModifyRouting; dr_TargetID := "edge-node-west-1";
     dr_Environment := "staging"; dr_Verdict := VerdictAllow;
     dr_Reasons := [ReasonEnvironmentAllowed]; dr_PolicyVersion := "v"; dr_PolicyDigest := "d";
     dr_WorkflowID := "saga-p-1"; dr_TraceID := ""; dr_RecordedAt := 1 |}.
Definition owner_1 : ClaimOwner := {| o_WorkflowID := "saga-p-1"; o_RunID := "run-1"; o_Token := "exe_1" |}.
Definition owner_2 : ClaimOwner := {| o_WorkflowID := "saga-p-1"; o_RunID := "run-2"; o_Token := "exe_2" |}.
Definition sample_history : list store_op :=
  [SAppend CtxLive sample_record; SClaim CtxLive "dec_1" owner_1 1; SClaim CtxLive "dec_1" owner_2 2;
   SAdvance CtxLive "dec_1" owner_2 ClaimStateExecuting 3;
   SAdvance CtxLive "dec_1" owner_1 ClaimStateExecuting 3;
   SAdvance CtxLive "dec_1" owner_1 ClaimStateExecuting 4;
   SAdvance CtxLive "dec_1" owner_1 ClaimStateReleased 5;
   SClaim CtxLive "dec_1" owner_2 6;
   SAdvance CtxLive "dec_1" owner_1 ClaimStateCompleted 7].

Lemma fence_acquired_once_witness :
  acquisitions "dec_1" (run_ops sample_history MemoryStore.NewMemoryStore).2 = 1%nat ∧
  (acquisitions "dec_1" (run_ops sample_history MemoryStore.NewMemoryStore).2 <= 1)%nat.
Proof.
  split; [vm_compute; reflexivity|].
  apply (fence_acquired_once sample_history MemoryStore.NewMemoryStore
           (run_ops sample_history MemoryStore.NewMemoryStore).1).
  - exact MemoryStore.NewMemoryStore_inv.
  - by destruct (run_ops _ _).
Defined.

Lemma claim_history_witness :
  rtc claim_step (claims MemoryStore.NewMemoryStore !! "dec_1")
    (claims (run_ops sample_history MemoryStore.NewMemoryStore).1 !! "dec_1") ∧
  (ec_State <$> claims (run_ops sample_history MemoryStore.NewMemoryStore).1 !! "dec_1")
    = Some ClaimStateCompleted.
Proof.
  split; [|vm_compute; reflexivity].
  refine (proj1 (claim_history sample_history MemoryStore.NewMemoryStore _
           (run_ops sample_history MemoryStore.NewMemoryStore).2 "dec_1" _ _)).
  - exact MemoryStore.NewMemoryStore_inv.
  - by destruct (run_ops _ _).
Defined.

Definition recorded_store : MemoryStore.t :=
  (run_op (SAppend CtxLive sample_record) MemoryStore.NewMemoryStore).1.

Lemma recorded_store_inv : store_inv recorded_store.
Proof.
  apply (run_op_inv (SAppend CtxLive sample_record) MemoryStore.NewMemoryStore recorded_store
           (run_op (SAppend CtxLive sample_record) MemoryStore.NewMemoryStore).2).
  - exact MemoryStore.NewMemoryStore_inv.
  - unfold recorded_store. by destruct (run_op _ _).
Qed.

Lemma records_immutable_witness :
  decisions recorded_store !! "dec_1" = Some sample_record ∧
  decisions recorded_store ⊆ decisions (run_ops sample_history recorded_store).1.
Proof.
  split; [vm_compute; reflexivity|].
  apply (records_immutable sample_history recorded_store _ (run_ops sample_history recorded_store).2).
  - exact recorded_store_inv.
  - by destruct (run_ops _ _).
Defined.

Lemma AppendDecision_cases_witness :
  match MemoryStore.decisions recorded_store !! dr_DecisionID sample_record with
  | None => ∃ m', MemoryStore.AppendDecision CtxLive sample_record recorded_store = (m', None) ∧
                  MemoryStore.GetDecision CtxLive (dr_DecisionID sample_record) m' = Ok sample_record ∧
                  MemoryStore.All m' = MemoryStore.All recorded_store ++ [sample_record]
  | Some r => MemoryStore.AppendDecision CtxLive sample_record recorded_store =
              (recorded_store, if decide (r = sample_record) then None else Some (Sentinel ErrDecisionConflict))
  end.
Proof. exact (AppendDecision_cases sample_record recorded_store recorded_store_inv eq_refl). Defined.
