(* ===== verification/Adapter.v ===== *)
(** * workflows/activities.go (the [Adapter] contract) and workflows/simulated.go

    The contract an infrastructure adapter must honour is a class of laws; the
    simulated adapter, the only implementation of the repository, satisfies it. *)

From S2P Require Import Prelude GoBase Contracts Decision.
Open Scope Z_scope.
Open Scope go_scope.

(** ** The contract *)

Class AdapterOps (A : Type) : Type := {
  dispatch : context → DispatchRequest → A → A * DispatchOutcome;
  reconcile : context → DispatchRequest → A → A * DispatchOutcome;
  compensate : context → DispatchRequest → A → A * option error }.

(** [mutations a key] is how many times [key] took effect on the target and
    [refused a key] that the target will not apply it any more. *)
Class AdapterSpec (A : Type) `{AdapterOps A} : Type := {
  adapter_inv : A → Prop;
  mutations : A → string → Z;
  refused : A → string → Prop;
  at_most_once a key : adapter_inv a → 0 <= mutations a key <= 1;
  dispatch_inv ctx r a : adapter_inv a → adapter_inv (dispatch ctx r a).1;
  reconcile_inv ctx r a : adapter_inv a → adapter_inv (reconcile ctx r a).1;
  compensate_inv ctx r a : adapter_inv a → adapter_inv (compensate ctx r a).1;
  dispatch_other ctx r a key : key ≠ dq_IdempotencyKey r →
    mutations (dispatch ctx r a).1 key = mutations a key;
  dispatch_mono ctx r a key : adapter_inv a →
    mutations a key <= mutations (dispatch ctx r a).1 key;
  reconcile_applies_nothing ctx r a key : mutations (reconcile ctx r a).1 key = mutations a key;
  compensate_applies_nothing ctx r a key : mutations (compensate ctx r a).1 key = mutations a key;
  refused_dispatch ctx r a key : adapter_inv a → refused a key →
    refused (dispatch ctx r a).1 key ∧ mutations (dispatch ctx r a).1 key = mutations a key;
  refused_reconcile ctx r a key : adapter_inv a → refused a key → refused (reconcile ctx r a).1 key;
  refused_compensate ctx r a key : adapter_inv a → refused a key → refused (compensate ctx r a).1 key;
  (** SUCCESS and FAILURE are confirmed: the key has taken effect, or (the
      part reported by [PartiallyApplied] aside) has not and no longer can. *)
  dispatch_confirmed ctx r a a' o : adapter_inv a → dispatch ctx r a = (a', o) →
    (oc_Status o = OutcomeSuccess → mutations a' (dq_IdempotencyKey r) = 1) ∧
    (oc_Status o = OutcomeFailure → refused a' (dq_IdempotencyKey r) ∧
       (oc_PartiallyApplied o = false → mutations a' (dq_IdempotencyKey r) = 0));
  reconcile_confirmed ctx r a a' o : adapter_inv a → reconcile ctx r a = (a', o) →
    (oc_Status o = OutcomeSuccess → mutations a' (dq_IdempotencyKey r) = 1) ∧
    (oc_Status o = OutcomeFailure → refused a' (dq_IdempotencyKey r) ∧
       (oc_PartiallyApplied o = false → mutations a' (dq_IdempotencyKey r) = 0)) }.

(** ** SimulatedAdapter *)

Module SimulatedAdapter.

Record t := {
  effects : gmap string DispatchOutcome;
  mutations_ : gmap string Z;
  compensations : gmap string Z }.

Definition NewSimulatedAdapter : t := {| effects := ∅; mutations_ := ∅; compensations := ∅ |}.

(** Reading an absent key of a Go map gives the zero value. *)
Definition Mutations (s : t) (key : string) : Z := default 0 (mutations_ s !! key).
Definition Compensations (s : t) (key : string) : Z := default 0 (compensations s !! key).

Definition apply (key : string) (effect : DispatchOutcome) (s : t) : t * DispatchOutcome :=
  ({| effects := <[key := effect]> (effects s);
      mutations_ := <[key := Mutations s key + 1]> (mutations_ s);
      compensations := compensations s |}, effect).

Definition fence (key detail : string) (s : t) : t * DispatchOutcome :=
  let effect := {| oc_Status := OutcomeFailure; oc_PartiallyApplied := false; oc_Detail := detail |} in
  ({| effects := <[key := effect]> (effects s); mutations_ := mutations_ s;
      compensations := compensations s |}, effect).

Definition Dispatch (ctx : context) (req : DispatchRequest) (s : t) : t * DispatchOutcome :=
  let key := dq_IdempotencyKey req in
  let p := dq_Proposal req in
  match effects s !! key with
  | Some effect => (s, effect)
  | None =>
      match ctx_Err ctx with
      | Some _ => fence key "simulated: not sent, context ended before dispatch; key fenced" s
      | None =>
          if p_TargetID p == FailingNodeID then
            apply key {| oc_Status := OutcomeFailure; oc_PartiallyApplied := true;
                         oc_Detail := "simulated: change partly applied, then rejected by target" |} s
          else if p_TargetID p == LostResponseNodeID then
            ((apply key {| oc_Status := OutcomeSuccess; oc_PartiallyApplied := false;
                           oc_Detail := "simulated: change applied" |} s).1,
             UnknownOutcome "simulated: change applied but the response was lost")
          else if (p_TargetID p == UnreachableNodeID) || (p_TargetID p == PartitionedNodeID) then
            (s, UnknownOutcome "simulated: no response from target")
          else apply key {| oc_Status := OutcomeSuccess; oc_PartiallyApplied := false;
                            oc_Detail := "simulated: change applied" |} s
      end
  end.

Definition Reconcile (ctx : context) (req : DispatchRequest) (s : t) : t * DispatchOutcome :=
  match ctx_Err ctx with
  | Some _ => (s, UnknownOutcome "simulated: reconciliation cancelled")
  | None =>
      match effects s !! dq_IdempotencyKey req with
      | Some effect => (s, effect)
      | None =>
          if p_TargetID (dq_Proposal req) == PartitionedNodeID
          then (s, UnknownOutcome "simulated: target not reachable for status queries")
          else fence (dq_IdempotencyKey req)
                 "simulated: target has no record of this key; key fenced so it cannot take effect later" s
      end
  end.

Definition Compensate (ctx : context) (req : DispatchRequest) (s : t) : t * option error :=
  match ctx_Err ctx with
  | Some err => (s, Some err)
  | None =>
      ({| effects := effects s; mutations_ := mutations_ s;
          compensations := <[dq_IdempotencyKey req :=
                               Compensations s (dq_IdempotencyKey req) + 1]> (compensations s) |}, None)
  end.

(** ** Invariant: what is recorded for a key tells how often it took effect *)

Definition effect_count (e : DispatchOutcome) : option Z :=
  if oc_Status e == OutcomeSuccess then Some 1
  else if oc_Status e == OutcomeFailure then Some (if oc_PartiallyApplied e then 1 else 0)
  else None.

Definition inv (s : t) : Prop := ∀ key,
  match effects s !! key with
  | Some e => effect_count e = Some (Mutations s key)
  | None => Mutations s key = 0
  end.

(** The recorded effect decides; nothing is applied for the key any more. *)
Definition refused_ (s : t) (key : string) : Prop := is_Some (effects s !! key).

Lemma inv_new : inv NewSimulatedAdapter.
Proof. intros key. unfold Mutations. simpl. by rewrite !lookup_empty. Qed.

Lemma inv_count s key : inv s → 0 <= Mutations s key <= 1.
Proof.
  intros Hs. specialize (Hs key). destruct (effects s !! key) as [e|]; [|lia].
  unfold effect_count in Hs. repeat case_match; simplify_eq; lia.
Qed.

Lemma apply_inv key e s : inv s → effects s !! key = None → effect_count e = Some 1 →
  inv (apply key e s).1.
Proof.
  intros Hs Hn He key'. simpl. unfold Mutations. simpl. rewrite !lookup_insert.
  case_decide; subst; simpl.
  - specialize (Hs key'). rewrite Hn in Hs. unfold Mutations in Hs. by rewrite Hs.
  - apply (Hs key').
Qed.

Lemma fence_inv key d s : inv s → effects s !! key = None → inv (fence key d s).1.
Proof.
  intros Hs Hn key'. simpl. unfold Mutations. simpl. rewrite !lookup_insert.
  case_decide; subst; simpl; [|apply (Hs key')].
  specialize (Hs key'). rewrite Hn in Hs. unfold Mutations in Hs. by rewrite Hs.
Qed.

Lemma Dispatch_inv ctx req s : inv s → inv (Dispatch ctx req s).1.
Proof.
  intros Hs. unfold Dispatch. destruct (effects s !! _) eqn:He; [done|].
  destruct (ctx_Err ctx); [by apply fence_inv|].
  repeat case_bool_decide; simpl; auto; by apply apply_inv.
Qed.

Lemma Reconcile_inv ctx req s : inv s → inv (Reconcile ctx req s).1.
Proof.
  intros Hs. unfold Reconcile. destruct (ctx_Err ctx); [done|].
  destruct (effects s !! _) eqn:He; [done|]. case_bool_decide; [done|]. by apply fence_inv.
Qed.

Lemma Compensate_inv ctx req s : inv s → inv (Compensate ctx req s).1.
Proof. intros Hs. unfold Compensate. destruct (ctx_Err ctx); [done|]. exact Hs. Qed.

Lemma Dispatch_other ctx req s key : key ≠ dq_IdempotencyKey req →
  Mutations (Dispatch ctx req s).1 key = Mutations s key.
Proof.
  intros Hk. unfold Dispatch. destruct (effects s !! _); [done|].
  destruct (ctx_Err ctx); [done|]. unfold apply, Mutations.
  repeat case_bool_decide; simpl; rewrite ?lookup_insert_ne by done; done.
Qed.

Lemma Dispatch_mono ctx req s key : Mutations s key <= Mutations (Dispatch ctx req s).1 key.
Proof.
  destruct (decide (key = dq_IdempotencyKey req)) as [->|Hne]; [|by rewrite Dispatch_other].
  unfold Dispatch. destruct (effects s !! _); [done|]. destruct (ctx_Err ctx); [done|].
  unfold apply, Mutations. repeat case_bool_decide; simpl; rewrite ?lookup_insert_eq; simpl; lia.
Qed.

Lemma Reconcile_mutations ctx req s key : Mutations (Reconcile ctx req s).1 key = Mutations s key.
Proof. unfold Reconcile. repeat case_match; done. Qed.

Lemma Compensate_mutations ctx req s key : Mutations (Compensate ctx req s).1 key = Mutations s key.
Proof. unfold Compensate. by case_match. Qed.

Lemma Dispatch_refused ctx req s key : refused_ s key →
  refused_ (Dispatch ctx req s).1 key ∧ Mutations (Dispatch ctx req s).1 key = Mutations s key.
Proof.
  intros Hr. destruct (decide (key = dq_IdempotencyKey req)) as [->|Hne].
  - unfold Dispatch, refused_ in *. destruct Hr as [e He]. by rewrite He.
  - split; [|by apply Dispatch_other]. unfold Dispatch, refused_ in *.
    destruct (effects s !! dq_IdempotencyKey req); [done|].
    destruct (ctx_Err ctx); simpl; [by rewrite lookup_insert_ne|].
    repeat case_bool_decide; simpl; rewrite ?lookup_insert_ne by done; done.
Qed.

Lemma Reconcile_refused ctx req s key : refused_ s key → refused_ (Reconcile ctx req s).1 key.
Proof.
  unfold Reconcile, refused_. intros Hr. destruct (ctx_Err ctx); [done|].
  destruct (effects s !! dq_IdempotencyKey req) eqn:He; [done|].
  case_bool_decide; [done|]. simpl. rewrite lookup_insert_is_Some.
  destruct (decide (dq_IdempotencyKey req = key)); auto.
Qed.

Lemma Compensate_refused ctx req s key : refused_ s key → refused_ (Compensate ctx req s).1 key.
Proof. unfold Compensate, refused_. by case_match. Qed.

(** An answer that is the recorded effect is confirmed. *)
Lemma recorded_confirmed s key e : inv s → effects s !! key = Some e →
  (oc_Status e = OutcomeSuccess → Mutations s key = 1) ∧
  (oc_Status e = OutcomeFailure → refused_ s key ∧ (oc_PartiallyApplied e = false → Mutations s key = 0)).
Proof.
  intros Hs He. specialize (Hs key). rewrite He in Hs. unfold effect_count in Hs.
  split; intros Hst; rewrite Hst in Hs.
  - rewrite bool_decide_eq_true_2 in Hs by done. congruence.
  - split; [by eexists|]. intros Hp. rewrite Hp in Hs.
    rewrite bool_decide_eq_false_2, bool_decide_eq_true_2 in Hs by done. congruence.
Qed.

(** Dispatch and reconciliation answer UNKNOWN or the recorded effect. *)
Lemma Dispatch_answer ctx req s s' o : Dispatch ctx req s = (s', o) →
  oc_Status o = OutcomeUnknown ∨ effects s' !! dq_IdempotencyKey req = Some o.
Proof.
  unfold Dispatch. intros Hd. destruct (effects s !! _) eqn:He; [simplify_eq; auto|].
  destruct (ctx_Err ctx); [unfold fence in Hd; simplify_eq/=; rewrite lookup_insert_eq; auto|].
  unfold apply in Hd. repeat case_bool_decide; simplify_eq/=; rewrite ?lookup_insert_eq; auto.
Qed.

Lemma Reconcile_answer ctx req s s' o : Reconcile ctx req s = (s', o) →
  oc_Status o = OutcomeUnknown ∨ effects s' !! dq_IdempotencyKey req = Some o.
Proof.
  unfold Reconcile. intros Hd. destruct (ctx_Err ctx); [simplify_eq; auto|].
  destruct (effects s !! _) eqn:He; [simplify_eq; auto|].
  case_bool_decide; [simplify_eq; auto|]. unfold fence in Hd. simplify_eq/=.
  rewrite lookup_insert_eq. auto.
Qed.

Lemma answer_confirmed s key o : inv s →
  (oc_Status o = OutcomeUnknown ∨ effects s !! key = Some o) →
  (oc_Status o = OutcomeSuccess → Mutations s key = 1) ∧
  (oc_Status o = OutcomeFailure → refused_ s key ∧ (oc_PartiallyApplied o = false → Mutations s key = 0)).
Proof. intros Hs [Hu|He]; [rewrite Hu; split; discriminate|by apply recorded_confirmed]. Qed.

Lemma Dispatch_confirmed ctx req s s' o : inv s → Dispatch ctx req s = (s', o) →
  (oc_Status o = OutcomeSuccess → Mutations s' (dq_IdempotencyKey req) = 1) ∧
  (oc_Status o = OutcomeFailure → refused_ s' (dq_IdempotencyKey req) ∧
     (oc_PartiallyApplied o = false → Mutations s' (dq_IdempotencyKey req) = 0)).
Proof.
  intros Hs Hd. apply answer_confirmed; [|by eapply Dispatch_answer].
  pose proof (Dispatch_inv ctx req s Hs) as Hi. by rewrite Hd in Hi.
Qed.

Lemma Reconcile_confirmed ctx req s s' o : inv s → Reconcile ctx req s = (s', o) →
  (oc_Status o = OutcomeSuccess → Mutations s' (dq_IdempotencyKey req) = 1) ∧
  (oc_Status o = OutcomeFailure → refused_ s' (dq_IdempotencyKey req) ∧
     (oc_PartiallyApplied o = false → Mutations s' (dq_IdempotencyKey req) = 0)).
Proof.
  intros Hs Hd. apply answer_confirmed; [|by eapply Reconcile_answer].
  pose proof (Reconcile_inv ctx req s Hs) as Hi. by rewrite Hd in Hi.
Qed.

End SimulatedAdapter.

#[export] Instance simulated_ops : AdapterOps SimulatedAdapter.t := {
  dispatch := SimulatedAdapter.Dispatch;
  reconcile := SimulatedAdapter.Reconcile;
  compensate := SimulatedAdapter.Compensate }.

#[export] Instance simulated_spec : AdapterSpec SimulatedAdapter.t := {
  adapter_inv := SimulatedAdapter.inv;
  mutations := SimulatedAdapter.Mutations;
  refused := SimulatedAdapter.refused_;
  at_most_once := SimulatedAdapter.inv_count;
  dispatch_inv := SimulatedAdapter.Dispatch_inv;
  reconcile_inv := SimulatedAdapter.Reconcile_inv;
  compensate_inv := SimulatedAdapter.Compensate_inv;
  dispatch_other := SimulatedAdapter.Dispatch_other;
  dispatch_mono := λ ctx r a key _, SimulatedAdapter.Dispatch_mono ctx r a key;
  reconcile_applies_nothing := SimulatedAdapter.Reconcile_mutations;
  compensate_applies_nothing := SimulatedAdapter.Compensate_mutations;
  refused_dispatch := λ ctx r a key _, SimulatedAdapter.Dispatch_refused ctx r a key;
  refused_reconcile := λ ctx r a key _, SimulatedAdapter.Reconcile_refused ctx r a key;
  refused_compensate := λ ctx r a key _, SimulatedAdapter.Compensate_refused ctx r a key;
  dispatch_confirmed := SimulatedAdapter.Dispatch_confirmed;
  reconcile_confirmed := SimulatedAdapter.Reconcile_confirmed }.

Lemma simulated_inv_new : adapter_inv SimulatedAdapter.NewSimulatedAdapter.
Proof. exact SimulatedAdapter.inv_new. Qed.

(** ** Any sequence of calls *)

Inductive adapter_op : Type :=
| ADispatch (ctx : context) (r : DispatchRequest)
| AReconcile (ctx : context) (r : DispatchRequest)
| ACompensate (ctx : context) (r : DispatchRequest).

(** The adapter after one call, and what the call reported of the key it was
    given ([None] for a compensation). *)
Definition run_adapter_op {A} `{AdapterOps A} (op : adapter_op) (a : A) : A * option (string * DispatchOutcome) :=
  match op with
  | ADispatch ctx r => let '(a', o) := dispatch ctx r a in (a', Some (dq_IdempotencyKey r, o))
  | AReconcile ctx r => let '(a', o) := reconcile ctx r a in (a', Some (dq_IdempotencyKey r, o))
  | ACompensate ctx r => ((compensate ctx r a).1, None)
  end.

Fixpoint run_adapter {A} `{AdapterOps A} (ops : list adapter_op) (a : A) : A * list (option (string * DispatchOutcome)) :=
  match ops with
  | [] => (a, [])
  | op :: ops => let '(a1, x) := run_adapter_op op a in
                 let '(a2, xs) := run_adapter ops a1 in (a2, x :: xs)
  end.

(** ** What a key comes to, told from the calls alone *)

Section History.
Context (key : string).

(** What the first call on a key would make of it: a dispatch in time is
    applied, in part on the failing target, unless no answer came back from the
    target at all; a late dispatch and a question that reaches the target fence
    the key. *)
Definition decides (op : adapter_op) : option DispatchOutcome :=
  match op with
  | ADispatch ctx r =>
      if dq_IdempotencyKey r == key then
        match ctx with
        | CtxLive =>
            if p_TargetID (dq_Proposal r) == FailingNodeID then
              Some {| oc_Status := OutcomeFailure; oc_PartiallyApplied := true;
                      oc_Detail := "simulated: change partly applied, then rejected by target" |}
            else if (p_TargetID (dq_Proposal r) == UnreachableNodeID) || (p_TargetID (dq_Proposal r) == PartitionedNodeID)
            then None
            else Some {| oc_Status := OutcomeSuccess; oc_PartiallyApplied := false;
                         oc_Detail := "simulated: change applied" |}
        | _ => Some {| oc_Status := OutcomeFailure; oc_PartiallyApplied := false;
                       oc_Detail := "simulated: not sent, context ended before dispatch; key fenced" |}
        end
      else None
  | AReconcile CtxLive r =>
      if (dq_IdempotencyKey r == key) && (p_TargetID (dq_Proposal r) != PartitionedNodeID) then
        Some {| oc_Status := OutcomeFailure; oc_PartiallyApplied := false;
                oc_Detail := "simulated: target has no record of this key; key fenced so it cannot take effect later" |}
      else None
  | _ => None
  end.

(** The first call that decides the key decides it for good. *)
Definition decided (ops : list adapter_op) : option DispatchOutcome := head (omap decides ops).
Definition compensates (op : adapter_op) : bool :=
  match op with ACompensate CtxLive r => dq_IdempotencyKey r == key | _ => false end.

(** How often a key with this outcome took effect. *)
Definition effects_of (o : option DispatchOutcome) : Z :=
  match o with
  | Some e => if (oc_Status e == OutcomeSuccess) || oc_PartiallyApplied e then 1 else 0
  | None => 0
  end.

Import SimulatedAdapter.
Abbreviation first e o := (match e with Some x => Some x | None => o end).

Lemma first_None (x : option DispatchOutcome) : first x None = x.
Proof. by destruct x. Qed.

(** What a call that decides does, and one that does not. *)
Lemma op_effect op a : effects (run_adapter_op op a).1 !! key = first (effects a !! key) (decides op).
Proof.
  destruct op as [ctx r|ctx r|ctx r]; cbn [run_adapter_op decides dispatch reconcile compensate simulated_ops].
  - unfold Dispatch. destruct (decide (dq_IdempotencyKey r = key)) as [E|E].
    + rewrite E, (bool_decide_true (key = key)) by done. destruct (effects a !! key) as [e|] eqn:He; [done|].
      destruct ctx; cbn; rewrite ?lookup_insert_eq; try done.
      repeat (case_bool_decide; cbn); rewrite ?lookup_insert_eq; try done;
        exfalso; match goal with H : ?x = LostResponseNodeID, H' : ?x = _ |- _ => rewrite H in H'; discriminate H' end.
    + rewrite (bool_decide_false (_ = key)), first_None by done.
      destruct (effects a !! dq_IdempotencyKey r); [done|].
      destruct (ctx_Err ctx); cbn; repeat (case_bool_decide; cbn); by rewrite ?lookup_insert_ne.
  - unfold Reconcile. destruct ctx; cbn; rewrite ?first_None; try done.
    destruct (decide (dq_IdempotencyKey r = key)) as [E|E].
    + rewrite E, (bool_decide_true (key = key)) by done. destruct (effects a !! key) as [e|] eqn:He; [done|].
      case_bool_decide; cbn; by rewrite ?lookup_insert_eq.
    + rewrite (bool_decide_false (_ = key)) by done. cbn. rewrite first_None.
      destruct (effects a !! dq_IdempotencyKey r); [done|]. case_bool_decide; cbn; by rewrite ?lookup_insert_ne.
  - rewrite first_None. unfold Compensate. by destruct (ctx_Err ctx).
Qed.
Lemma op_answer op a o : (run_adapter_op op a).2 = Some (key, o) →
  oc_Status o = OutcomeUnknown ∨ effects (run_adapter_op op a).1 !! key = Some o.
Proof.
  destruct op as [ctx r|ctx r|ctx r]; cbn [run_adapter_op dispatch reconcile simulated_ops]; [..|done].
  - destruct (Dispatch ctx r a) as [a' o'] eqn:E. cbn. intros [= <- <-]. by apply (Dispatch_answer ctx r a).
  - destruct (Reconcile ctx r a) as [a' o'] eqn:E. cbn. intros [= <- <-]. by apply (Reconcile_answer ctx r a).
Qed.
Lemma op_compensations op a :
  Compensations (run_adapter_op op a).1 key = Compensations a key + if compensates op then 1 else 0.
Proof.
  destruct op as [ctx r|ctx r|ctx r]; cbn [run_adapter_op compensates dispatch reconcile compensate simulated_ops].
  - rewrite Z.add_0_r. unfold Dispatch. destruct (effects a !! _); [done|].
    destruct (ctx_Err ctx); [done|]. by repeat (case_bool_decide; cbn).
  - rewrite Z.add_0_r. unfold Reconcile. destruct (ctx_Err ctx); [done|].
    destruct (effects a !! _); [done|]. by case_bool_decide.
  - unfold Compensate, Compensations. destruct ctx; cbn; rewrite ?Z.add_0_r; try done.
    rewrite lookup_insert. case_decide; case_bool_decide; try done; cbn; subst; lia.
Qed.

Lemma op_inv op a : inv a → inv (run_adapter_op op a).1.
Proof.
  intros Ha. destruct op as [ctx r|ctx r|ctx r]; cbn [run_adapter_op dispatch reconcile compensate simulated_ops].
  - pose proof (Dispatch_inv ctx r a Ha). by destruct (Dispatch ctx r a).
  - pose proof (Reconcile_inv ctx r a Ha). by destruct (Reconcile ctx r a).
  - by apply Compensate_inv.
Qed.

Lemma decides_confirmed op e : decides op = Some e → effect_count e = Some (effects_of (Some e)).
Proof. unfold decides. repeat case_match; intros; simplify_eq; reflexivity. Qed.

Lemma run_history ops : ∀ a, inv a →
  let x := run_adapter ops a in
  inv x.1 ∧ effects x.1 !! key = first (effects a !! key) (decided ops) ∧
  (∀ o, Some (key, o) ∈ x.2 → oc_Status o = OutcomeUnknown ∨ effects x.1 !! key = Some o) ∧
  Compensations x.1 key = Compensations a key + Z.of_nat (length (List.filter compensates ops)).
Proof.
  induction ops as [|op ops IH]; intros a Ha; cbn [run_adapter].
  { cbn. rewrite first_None. split_and!; [done|done|by intros o ?%not_elem_of_nil|lia]. }
  pose proof (op_effect op a) as He. pose proof (op_answer op a) as Hans. pose proof (op_compensations op a) as Hc.
  pose proof (op_inv op a Ha) as Ha1. destruct (run_adapter_op op a) as [a1 x]. cbn [fst snd] in *.
  specialize (IH a1 Ha1). destruct (run_adapter ops a1) as [a2 xs]. cbn [fst snd] in *.
  destruct IH as (Hi & Hef & Hxs & Hcs). unfold decided in *. cbn [omap list_omap List.filter].
  split_and!; [done| | |].
  - rewrite Hef, He. destruct (effects a !! key), (decides op); done.
  - intros o [Ho|Ho]%elem_of_cons; [|by apply Hxs]. symmetry in Ho. destruct (Hans o Ho) as [|E]; [by left|right].
    by rewrite Hef, E.
  - rewrite Hcs, Hc. destruct (compensates op); cbn [length]; lia.
Qed.

(** C38: The simulated target behaves as documented over any sequence of
    dispatches, questions and compensations, with live or ended contexts. A key
    takes effect as often as the first call that decided it says, so at most
    once. Every answer for the key is UNKNOWN or that decision, so two confirmed
    answers never differ; once the key is decided, a further dispatch, under
    any context, and a question that is not cancelled return the decision and
    change nothing. And the key was compensated once per compensation that was
    not cancelled. *)
Theorem simulated_history ops :
  let x := run_adapter ops NewSimulatedAdapter in
  Mutations x.1 key = effects_of (decided ops) ∧ 0 <= Mutations x.1 key <= 1 ∧
  (∀ o, Some (key, o) ∈ x.2 → oc_Status o = OutcomeUnknown ∨ decided ops = Some o) ∧
  (∀ o r, decided ops = Some o → dq_IdempotencyKey r = key →
     (∀ ctx, Dispatch ctx r x.1 = (x.1, o)) ∧ Reconcile CtxLive r x.1 = (x.1, o)) ∧
  Compensations x.1 key = Z.of_nat (length (List.filter compensates ops)).
Proof.
  intros x. destruct (run_history ops NewSimulatedAdapter inv_new) as (Hi & He & Hans & Hc). fold x in Hi, He, Hans, Hc.
  cbn in He. rewrite lookup_empty in He. split_and!.
  - specialize (Hi key). rewrite He in Hi. destruct (decided ops) as [e|] eqn:E; [|done].
    assert (Hd : e ∈ omap decides ops)
      by (unfold decided in E; destruct (omap decides ops); [done|]; injection E as ->; apply list_elem_of_here).
    apply list_elem_of_omap in Hd as (op & _ & Hop). rewrite (decides_confirmed op e Hop) in Hi. by injection Hi.
  - apply (inv_count x.1 key Hi).
  - apply (inv_count x.1 key Hi).
  - by rewrite <- He.
  - intros o r Ho Hr. rewrite Ho in He. unfold Dispatch, Reconcile. rewrite Hr, He. done.
  - exact Hc.
Qed.
End History.

Definition sample_request (target : string) : DispatchRequest :=
  {| dq_IdempotencyKey := ExecutionKey "dec_1";
     dq_Proposal := {| p_ID := "p-1"; p_Type := CmdModifyRouting; p_TargetID := target; p_Payload := "{}" |} |}.

(** The fixed targets behave as the table of ARCHITECTURE.md says. *)
Example simulated_targets :
  map (λ t, let '(a, o) := dispatch CtxLive (sample_request t) SimulatedAdapter.NewSimulatedAdapter in
            (oc_Status o, oc_PartiallyApplied o, oc_Status (reconcile CtxLive (sample_request t) a).2))
      ["edge-node-west-1"; FailingNodeID; LostResponseNodeID; UnreachableNodeID; PartitionedNodeID] =
  [(OutcomeSuccess, false, OutcomeSuccess); (OutcomeFailure, true, OutcomeFailure);
   (OutcomeUnknown, false, OutcomeSuccess); (OutcomeUnknown, false, OutcomeFailure);
   (OutcomeUnknown, false, OutcomeUnknown)].
Proof. vm_compute. reflexivity. Qed.
