(* ===== verification/AuditTrail.v ===== *)
(** * workflows/audit.go: the audit trail of a workflow *)

From S2P Require Import Prelude GoBase Contracts.
Open Scope Z_scope.
Open Scope go_scope.

Module MemoryAuditStore.

Record t := { records : list AuditRecord; byProp : gmap string (list nat) }.

Definition NewMemoryAuditStore : t := {| records := []; byProp := ∅ |}.

(** [byProp] of an absent key is a nil slice. *)
Definition indexes (s : t) (proposalID : string) : list nat := default [] (byProp s !! proposalID).

(** [now] is what [time.Now()] returns if it is called. *)
Definition Append (ctx : context) (now : Time) (record : AuditRecord) (s : t) : t * option error :=
  match ctx_Err ctx with
  | Some err => (s, Some err)
  | None =>
      if (ar_RecordID record == "") || (ar_ProposalID record == "") || (ar_Phase record == "")
      then (s, Some (Sentinel ErrAuditPersistFailed))
      else
        let record :=
          if IsZero (ar_RecordedAt record) then
            {| ar_RecordID := ar_RecordID record; ar_ProposalID := ar_ProposalID record;
               ar_WorkflowID := ar_WorkflowID record; ar_RunID := ar_RunID record;
               ar_Phase := ar_Phase record; ar_Verdict := ar_Verdict record;
               ar_TargetID := ar_TargetID record; ar_Command := ar_Command record;
               ar_Detail := ar_Detail record; ar_RecordedAt := UTC now |}
          else record in
        let idx := length (records s) in
        ({| records := records s ++ [record];
            byProp := <[ar_ProposalID record := indexes s (ar_ProposalID record) ++ [idx]]> (byProp s) |},
         None)
  end.

(** [s.records[i]] for each index; an index out of range would panic, here the
    row is dropped; [inv] excludes it. *)
Definition ListByProposal (ctx : context) (proposalID : string) (s : t) : result error (list AuditRecord) :=
  match ctx_Err ctx with
  | Some err => Err err
  | None => Ok (omap (λ i, records s !! i) (indexes s proposalID))
  end.

Definition All (s : t) : list AuditRecord := records s.

(** The index of a proposal lists, in write order, its rows. *)
Definition inv (s : t) : Prop := ∀ p,
  omap (λ i, records s !! i) (indexes s p) = filter (λ r, ar_ProposalID r = p) (records s) ∧
  Forall (λ i, (i < length (records s))%nat) (indexes s p).

Lemma audit_inv_new : inv NewMemoryAuditStore.
Proof. intros p. unfold indexes. simpl. by rewrite lookup_empty. Qed.

Lemma omap_app_in_range {A} (l l' : list A) idxs :
  Forall (λ i, (i < length l)%nat) idxs → omap (λ i, (l ++ l') !! i) idxs = omap (λ i, l !! i) idxs.
Proof.
  induction 1 as [|i idxs Hi His IH]; simpl; [done|]. rewrite lookup_app_l by done.
  destruct (l !! i); [f_equal|]; exact IH.
Qed.

Lemma snoc_inv s r : inv s →
  inv {| records := records s ++ [r];
         byProp := <[ar_ProposalID r := indexes s (ar_ProposalID r) ++ [length (records s)]]> (byProp s) |}.
Proof.
  intros Hs p. destruct (Hs p) as [Ho Hr]. set (s' := {| records := _ |}).
  assert (Hix : indexes s' p = if decide (ar_ProposalID r = p)
                               then indexes s p ++ [length (records s)] else indexes s p).
  { unfold indexes at 1. simpl. rewrite lookup_insert. case_decide; subst; done. }
  rewrite Hix. subst s'. cbn [records]. rewrite filter_app, filter_cons, filter_nil, length_app.
  assert (Hr' : Forall (λ i, (i < length (records s) + length [r])%nat) (indexes s p)).
  { eapply Forall_impl; [exact Hr|]. simpl. lia. }
  case_decide as Hp.
  - rewrite omap_app, omap_app_in_range by done. cbn [omap list_omap].
    rewrite list_lookup_middle by done. rewrite Ho. split; [done|].
    apply Forall_app. split; [done|]. constructor; [simpl; lia|constructor].
  - rewrite omap_app_in_range by done. by rewrite app_nil_r, Ho.
Qed.

Lemma Append_inv ctx now r s : inv s → inv (Append ctx now r s).1.
Proof.
  intros Hs. unfold Append. destruct (ctx_Err ctx); [done|].
  case_match; [done|]. simpl. by apply snoc_inv.
Qed.

End MemoryAuditStore.

(** The record ID names the proposal, the run, the phase and the position in
    the run's trail. *)
Definition newAuditRecord (proposalID workflowID runID : string) (phase : AuditPhase)
    (verdict : AuditVerdict) (prop : AgentProposal) (detail : string) (recordedAt : Time)
    (seq : Z) : AuditRecord :=
  {| ar_RecordID := proposalID +:+ "-" +:+ runID +:+ "-" +:+ phase +:+ "-" +:+ pretty seq;
     ar_ProposalID := proposalID; ar_WorkflowID := workflowID; ar_RunID := runID;
     ar_Phase := phase; ar_Verdict := verdict; ar_TargetID := p_TargetID prop;
     ar_Command := p_Type prop; ar_Detail := detail; ar_RecordedAt := UTC recordedAt |}.

Section Trail.
Import MemoryAuditStore.

(** An accepted audit row is added at the end of its proposal's trail and
    every earlier row, of any proposal, stays as it was; the trail of a
    proposal is its rows in write order. *)
Theorem Append_trail ctx now r s s' p : inv s → Append ctx now r s = (s', None) →
  ListByProposal CtxLive p s = Ok (filter (λ r, ar_ProposalID r = p) (All s)) ∧
  ∃ r', All s' = All s ++ [r'] ∧ ar_ProposalID r' = ar_ProposalID r ∧
        ListByProposal CtxLive p s' =
        Ok (filter (λ r, ar_ProposalID r = p) (All s) ++ (if decide (ar_ProposalID r = p) then [r'] else [])).
Proof.
  intros Hs Ha. assert (Hl : ∀ s, inv s → ListByProposal CtxLive p s = Ok (filter (λ r, ar_ProposalID r = p) (All s))).
  { intros s0 Hs0. unfold ListByProposal. simpl. by destruct (Hs0 p) as [-> _]. }
  split; [by apply Hl|].
  assert (Hs' : inv s') by (pose proof (Append_inv ctx now r s Hs) as Hi; by rewrite Ha in Hi).
  rewrite (Hl s' Hs'). revert Ha. unfold Append. destruct (ctx_Err ctx); [done|].
  case_match; [done|]. intros [= <-]. eexists. split; [done|].
  split; [by case_match|]. unfold All. simpl. rewrite filter_app. do 2 f_equal.
  rewrite filter_cons, filter_nil. repeat case_match; naive_solver.
Qed.
End Trail.

Lemma Append_trail_witness :
  let prop := {| p_ID := "p-1"; p_Type := CmdModifyRouting; p_TargetID := "edge"; p_Payload := "" |} in
  let r := newAuditRecord "p-1" "saga-p-1" "run-1" AuditPhaseDispatch AuditVerdictPass prop "" 5 1 in
  let s := MemoryAuditStore.NewMemoryAuditStore in
  ∃ r', MemoryAuditStore.All (MemoryAuditStore.Append CtxLive 1 r s).1 = MemoryAuditStore.All s ++ [r'] ∧
        ar_RecordID r' = "p-1-run-1-DISPATCH_CONFIG-1".
Proof.
  intros prop r s.
  destruct (Append_trail CtxLive 1 r s (MemoryAuditStore.Append CtxLive 1 r s).1 "p-1"
              MemoryAuditStore.audit_inv_new eq_refl) as [_ (r' & Hr & _)].
  exists r'. split; [exact Hr|]. vm_compute in Hr. injection Hr as <-. reflexivity.
Defined.
