(* ===== verification/SqliteAudit.v ===== *)
(** * The audit trail in the SQLite store

    What [Append] and [ListByProposal] of internal/audit/sqlite.go do to the
    audit_records table, case by case. *)

From S2P Require Import Prelude GoBase GoText GoTime GoJson Contracts AuditTrail Database Sqlite.
From stdpp Require Import sorting.
Open Scope Z_scope.
Open Scope go_scope.

Section Audit.
Import Sqlite.
Context (q : string → string).

(** The rows of the table, as records. *)
Definition db_trail (db : Db) : list AuditRecord := row_audit <$> audit_records db.

(** A record that [Append] stores as it is. *)
Definition complete (r : AuditRecord) : Prop :=
  ar_RecordID r ≠ "" ∧ ar_ProposalID r ≠ "" ∧ ar_Phase r ≠ "" ∧ ar_RecordedAt r ≠ zeroTime ∧
  four_digit_year (ar_RecordedAt r).

Lemma scanAudit_params r : four_digit_year (ar_RecordedAt r) → scanAudit (Ok (audit_params r)) = Ok r.
Proof.
  intros Ht. unfold scanAudit, parseTime, audit_params, formatTime, UTC. cbn [au_recorded_at].
  rewrite parse_format by done. by destruct r.
Qed.

Lemma with_time_eq r r' : with_time r zeroTime = with_time r' zeroTime → ar_RecordedAt r = ar_RecordedAt r' → r = r'.
Proof. destruct r, r'. unfold with_time. cbn. intros [=] ?. by subst. Qed.

Lemma complete_guards r : complete r →
  (ar_RecordID r == "") || (ar_ProposalID r == "") || (ar_Phase r == "") = false ∧
  IsZero (ar_RecordedAt r) = false.
Proof.
  intros (Hid & Hp & Hph & Hz & _). split; [by rewrite !bool_decide_false|by apply bool_decide_eq_false].
Qed.

Lemma Append_new now r db : complete r →
  row_with au_record_id (ar_RecordID r) (audit_records db) = None →
  atomically CtxLive now (Append q r) db = (set_audit db (audit_records db ++ [audit_params r]), None).
Proof.
  intros [Hguard Hnz]%complete_guards E. unfold Append. rewrite Hguard, Hnz. unfold atomically, query, op.
  cbn [mret prog_ret mbind prog_bind interp db_run ctx_Err db_exec insert_audit select_audit select_trail audit_params au_record_id].
  by rewrite E.
Qed.

Lemma Append_taken now r db row : complete r →
  row_with au_record_id (ar_RecordID r) (audit_records db) = Some row →
  ∃ e, errors_Is e ErrAuditPersistFailed = true ∧
    atomically CtxLive now (Append q r) db = (db, if decide (scanAudit (Ok row) = Ok r) then None else Some e).
Proof.
  intros [Hguard Hnz]%complete_guards Hrow. unfold Append. rewrite Hguard, Hnz.
  unfold auditByID, atomically, query, op.
  cbn [mret prog_ret mbind prog_bind interp db_run ctx_Err db_exec insert_audit select_audit select_trail audit_params au_record_id].
  rewrite Hrow. change (0 =? 1) with false.
  cbn [mret prog_ret mbind prog_bind interp db_run ctx_Err db_exec insert_audit select_audit select_trail]. rewrite Hrow. cbn [one_row].
  destruct (scanAudit (Ok row)) as [x|err] eqn:Es; cbn [interp].
  - destruct (Z.eqb_spec (ar_RecordedAt x) (ar_RecordedAt r)) as [Etime|Etime]; cbn [negb orb].
    + destruct (decide (with_time x zeroTime = with_time r zeroTime)) as [E|E].
      * rewrite bool_decide_true by done. cbn [negb interp]. exists (Sentinel ErrAuditPersistFailed).
        split; [done|]. rewrite decide_True; [done|]. f_equal. by apply with_time_eq.
      * rewrite bool_decide_false by done. cbn [negb interp]. exists (different_content (ar_RecordID r)).
        split; [done|]. rewrite decide_False; [done|]. by intros [= ->].
    + exists (different_content (ar_RecordID r)). split; [done|]. rewrite decide_False; [done|]. by intros [= ->].
  - exists (persist_failed q err). split; [done|]. by rewrite decide_False.
Qed.

(** C35: appending a complete audit record to the SQLite store under a live
    context inserts it at the end of the table when its ID is new; an ID that
    is taken changes nothing and is accepted exactly when the stored row reads
    back as the same record. Repeating an accepted append, as an activity
    retry does, is therefore accepted and changes nothing. *)
Theorem Append_idempotent now now' r db : complete r →
  match row_with au_record_id (ar_RecordID r) (audit_records db) with
  | None =>
      let db' := set_audit db (audit_records db ++ [audit_params r]) in
      atomically CtxLive now (Append q r) db = (db', None) ∧
      atomically CtxLive now' (Append q r) db' = (db', None) ∧ db_trail db' = db_trail db ++ [r]
  | Some row =>
      ∃ e, errors_Is e ErrAuditPersistFailed = true ∧
           atomically CtxLive now (Append q r) db =
             (db, if decide (scanAudit (Ok row) = Ok r) then None else Some e)
  end.
Proof.
  intros Hc. destruct (row_with au_record_id (ar_RecordID r) (audit_records db)) as [row|] eqn:E;
    [by apply Append_taken|]. cbv zeta. split_and!; [by apply Append_new| |].
  - destruct (Append_taken now' r (set_audit db (audit_records db ++ [audit_params r])) (audit_params r) Hc) as (e & _ & ->).
    + cbn [audit_records set_audit]. rewrite row_with_app, E. cbn. by rewrite bool_decide_true.
    + rewrite decide_True; [done|]. apply scanAudit_params, Hc.
  - unfold db_trail. cbn [audit_records set_audit]. rewrite fmap_app. cbn. do 2 f_equal.
    apply scanAudit_row, scanAudit_params, Hc.
Qed.

(** ** Listings *)

(** The listing of a proposal: exactly its rows, sorted by the text of the
    time. *)
Lemma ListByProposal_rows now p db : (∀ row, row ∈ audit_records db → ∃ r, scanAudit (Ok row) = Ok r) →
  ∃ rows, rows ≡ₚ filter (λ r, au_proposal_id r = p) (audit_records db) ∧ Sorted audit_order rows ∧
          atomically CtxLive now (ListByProposal p) db = (db, Ok (row_audit <$> rows)).
Proof.
  intros Hdb. eexists. split_and!; [apply (merge_sort_Permutation audit_order)|apply (Sorted_merge_sort audit_order)|].
  unfold ListByProposal, atomically, query, op.
  cbn [mret prog_ret mbind prog_bind interp db_run ctx_Err db_exec insert_audit select_audit select_trail collect].
  rewrite (scan_rows_map _ row_audit); [done|]. intros row Hrow.
  destruct (Hdb row) as [r Hr]; [|by rewrite Hr, (scanAudit_row _ _ Hr)].
  rewrite merge_sort_Permutation in Hrow. by apply list_elem_of_filter in Hrow as [_ ?].
Qed.
End Audit.

(** ** Witnesses *)

Definition sample_row (id : string) (t : Time) : AuditRecord :=
  {| ar_RecordID := id; ar_ProposalID := "p-1"; ar_WorkflowID := "saga-p-1"; ar_RunID := "run-1";
     ar_Phase := AuditPhaseDispatch; ar_Verdict := AuditVerdictPass; ar_TargetID := "edge-node-west-1";
     ar_Command := CmdModifyRouting; ar_Detail := ""; ar_RecordedAt := t |}.

(** 2026-01-02T03:04:05Z, and half a second later. *)
Definition noon : Time := 63902919845 * Second.
Definition later_row : Time := noon + 500 * Millisecond.

Lemma Append_idempotent_witness :
  atomically CtxLive 1 (Sqlite.Append id (sample_row "a" noon)) empty_db =
    (set_audit empty_db [audit_params (sample_row "a" noon)], None) ∧
  atomically CtxLive 2 (Sqlite.Append id (sample_row "a" noon))
    (set_audit empty_db [audit_params (sample_row "a" noon)]) =
    (set_audit empty_db [audit_params (sample_row "a" noon)], None).
Proof.
  assert (Hc : complete (sample_row "a" noon)) by (split_and!; vm_compute; done || congruence).
  destruct (Append_idempotent id 1 2 (sample_row "a" noon) empty_db Hc) as (H1 & H2 & _).
  split; [exact H1|exact H2].
Defined.

(** The listing of a proposal's audit records is not in insertion order,
    nor in the order of their times: of two records written one after the
    other, half a second apart, the second is listed first, because the order
    is that of the timestamps' texts and RFC3339Nano drops the fraction of a
    whole second. *)
Theorem listing_not_in_insertion_order :
  ∃ db1 db2,
    atomically CtxLive noon (Sqlite.Append id (sample_row "a" noon)) empty_db = (db1, None) ∧
    atomically CtxLive later_row (Sqlite.Append id (sample_row "b" later_row)) db1 = (db2, None) ∧
    db_trail db2 = [sample_row "a" noon; sample_row "b" later_row] ∧
    (atomically CtxLive later_row (Sqlite.ListByProposal "p-1") db2).2 =
      Ok [sample_row "b" later_row; sample_row "a" noon] ∧ noon < later_row.
Proof.
  exists (set_audit empty_db [audit_params (sample_row "a" noon)]),
    (set_audit empty_db [audit_params (sample_row "a" noon); audit_params (sample_row "b" later_row)]).
  split_and!; vm_compute; reflexivity.
Qed.
