(* ===== verification/Activities.v ===== *)
(** * workflows/activities.go, workflows/decisions.go and the audit activity

    Each activity is a program over the operations of the services it calls:
    the decision and claim stores, the audit store, the policy source, the
    infrastructure adapter and the clock. One operation is atomic; between two
    operations of an activity anything may happen. *)

From S2P Require Import Prelude GoBase Contracts Policy Decision Store.
Open Scope Z_scope.
Open Scope go_scope.

(** ** What activities call *)

Inductive ActOp : Type :=
| OpCtxErr
| OpNow
| OpPolicyCurrent
| OpGetDecision (decisionID : string)
| OpAppendDecision (rec : DecisionRecord)
| OpClaimExecution (decisionID : string) (owner : ClaimOwner) (at_ : Time)
| OpAdvanceClaim (decisionID : string) (owner : ClaimOwner) (to : ClaimState) (at_ : Time)
| OpGetClaim (decisionID : string)
| OpAuditAppend (rec : AuditRecord)
| OpDispatch (req : DispatchRequest)
| OpReconcile (req : DispatchRequest)
| OpCompensate (req : DispatchRequest).

Definition ActOpReply (o : ActOp) : Type :=
  match o with
  | OpCtxErr => option error
  | OpNow => Time
  | OpPolicyCurrent => option Snapshot
  | OpGetDecision _ => result error DecisionRecord
  | OpGetClaim _ => result error ExecutionClaim
  | OpDispatch _ | OpReconcile _ => DispatchOutcome
  | OpAppendDecision _ | OpClaimExecution _ _ _ | OpAdvanceClaim _ _ _ _
  | OpAuditAppend _ | OpCompensate _ => option error
  end.

Abbreviation act := (prog ActOp ActOpReply).
Definition aop (o : ActOp) : act (ActOpReply o) := op o.

(** The error of an activity: a Go error, or a non-retryable application error
    made with [temporal.NewNonRetryableApplicationError]. *)
Inductive act_error : Type :=
| PlainError (err : error)
| AppError (msg errType : string) (cause : option error).

(** Which collaborators are configured (non-nil). *)
Record config := {
  has_policy : bool; has_store : bool; has_claims : bool;
  has_adapter : bool; has_fence : bool; has_audit : bool }.

(** [activity.GetInfo(ctx).WorkflowExecution]. *)
Record execution := { x_ID : string; x_RunID : string }.
#[export] Instance execution_eq_dec : EqDecision execution.
Proof. solve_decision. Defined.

Definition claimOwner (info : execution) (token : string) : ClaimOwner :=
  {| o_WorkflowID := x_ID info; o_RunID := x_RunID info; o_Token := token |}.

(** [CheckIngress] of internal/decision/ingress.go, over the store it is given. *)
Definition CheckIngress (req : ExecutionRequest) (workflowID : string) : act (option error) :=
  if er_IngressDecisionID req == "" then mret (Some (Sentinel ErrIngressDecisionNotFound))
  else
    r ← aop (OpGetDecision (er_IngressDecisionID req));
    match r with
    | Err err => if errors_Is err ErrDecisionNotFound
                 then mret (Some (Sentinel ErrIngressDecisionNotFound))
                 else mret (Some (Wrap "load ingress decision: " err ""))
    | Ok rec => mret (VerifyIngress rec req workflowID)
    end.

Section Activities.
(** [fmt]'s [%q]. *)
Variable q : string → string.
Variable cfg : config.

(** ** DecisionActivities *)

Definition EvaluateExecution (req : ExecutionRequest) : act (result act_error Decision) :=
  e ← aop OpCtxErr;
  match e with
  | Some err => mret (Err (PlainError err))
  | None =>
      snap ← (if has_policy cfg then aop OpPolicyCurrent else mret None);
      mret (Ok (Revalidate snap req))
  end.

Definition VerifyIngressDecision (info : execution) (req : ExecutionRequest)
    : act (result act_error IngressVerification) :=
  if negb (has_store cfg) then mret (Err (PlainError (Text "decision store not configured")))
  else
    e ← CheckIngress req (x_ID info);
    match e with
    | None => mret (Ok {| iv_Valid := true; iv_Reason := ""; iv_Detail := "" |})
    | Some err =>
        match IngressReason err with
        | Some reason => mret (Ok {| iv_Valid := false; iv_Reason := reason; iv_Detail := error_text q err |})
        | None => mret (Err (PlainError err))
        end
    end.

Definition ClaimExecution (info : execution) (req : ClaimRequest) : act (result act_error ClaimResult) :=
  if negb (has_claims cfg) then mret (Err (PlainError (Text "execution claim store not configured")))
  else if (cr_DecisionID req == "") || (cr_Token req == "")
  then mret (Err (AppError "claim request is missing the decision ID or token"
                   ExecutionClaimRejectedErrorType None))
  else
    now ← aop OpNow;
    e ← aop (OpClaimExecution (cr_DecisionID req) (claimOwner info (cr_Token req)) now);
    match e with
    | None => mret (Ok {| cl_Claimed := true; cl_Reason := ""; cl_Detail := "" |})
    | Some err =>
        if errors_Is err ErrClaimHeld
        then mret (Ok {| cl_Claimed := false; cl_Reason := ReasonIngressDecisionAlreadyClaimed;
                         cl_Detail := error_text q err |})
        else mret (Err (PlainError err))
    end.

Definition AdvanceExecutionClaim (info : execution) (t : ClaimTransition) : act (result act_error unit) :=
  if negb (has_claims cfg) then mret (Err (PlainError (Text "execution claim store not configured")))
  else if ct_To t == ClaimStateExecuting
  then mret (Err (AppError "EXECUTING is entered only by the dispatch activity"
                   ExecutionClaimRejectedErrorType None))
  else
    now ← aop OpNow;
    e ← aop (OpAdvanceClaim (ct_DecisionID t) (claimOwner info (ct_Token t)) (ct_To t) now);
    match e with
    | None => mret (Ok tt)
    | Some err => if errors_Is err ErrClaimNotHeld
                  then mret (Err (AppError (error_text q err) ExecutionClaimRejectedErrorType (Some err)))
                  else mret (Err (PlainError err))
    end.

Definition RecordDecision (rec : DecisionRecord) : act (result act_error unit) :=
  if negb (has_store cfg) then mret (Err (PlainError (Text "decision store not configured")))
  else
    e ← aop (OpAppendDecision rec);
    match e with None => mret (Ok tt) | Some err => mret (Err (PlainError err)) end.

(** ** InfrastructureActivities *)

Definition fenceRejected (msg : string) (cause : option error) : act_error :=
  AppError ("adapter not called: " +:+ msg) ExecutionFenceRejectedErrorType cause.
Definition fenceUnknown (msg : string) (cause : option error) : act_error :=
  AppError ("adapter not called: " +:+ msg) ExecutionFenceUnknownErrorType cause.

Definition DispatchConfig (info : execution) (req : FencedDispatch) : act (result act_error DispatchOutcome) :=
  if negb (has_adapter cfg) then mret (Err (fenceRejected "no infrastructure adapter configured" None))
  else if negb (has_fence cfg) then mret (Err (fenceRejected "execution claim store not configured" None))
  else if (fd_DecisionID req == "") || (fd_Token req == "")
  then mret (Err (fenceRejected "request is missing the decision ID or claim token" None))
  else if dq_IdempotencyKey (fd_Dispatch req) != ExecutionKey (fd_DecisionID req)
  then mret (Err (fenceRejected "idempotency key does not belong to the fenced decision" None))
  else
    let owner := claimOwner info (fd_Token req) in
    now ← aop OpNow;
    e ← aop (OpAdvanceClaim (fd_DecisionID req) owner ClaimStateExecuting now);
    match e with
    | Some err =>
        if negb (errors_Is err ErrClaimNotHeld)
        then mret (Err (fenceUnknown "execution fence write failed and may have committed" (Some err)))
        else
          held ← aop (OpGetClaim (fd_DecisionID req));
          let rejected := Err (fenceRejected "execution fence is not held by this run" (Some err)) in
          match held with
          | Err gerr =>
              if errors_Is gerr ErrClaimNotFound then mret rejected
              else mret (Err (fenceUnknown "execution fence rejected and the claim could not be read" (Some gerr)))
          | Ok c =>
              if (ec_Owner c == owner) && (ec_State c != ClaimStateReleased)
              then mret (Err (fenceUnknown "this run already acquired the execution fence" (Some err)))
              else mret rejected
          end
    | None =>
        o ← aop (OpDispatch (fd_Dispatch req));
        mret (Ok (Checked o))
    end.

Definition ReconcileDispatch (req : DispatchRequest) : act (result act_error DispatchOutcome) :=
  if negb (has_adapter cfg)
  then mret (Ok (UnknownOutcome "cannot reconcile: no infrastructure adapter configured"))
  else if dq_IdempotencyKey req == ""
  then mret (Ok (UnknownOutcome "cannot reconcile: request has no idempotency key"))
  else
    o ← aop (OpReconcile req);
    mret (Ok (Checked o)).

Definition RevertStateCompensation (req : DispatchRequest) : act (result act_error unit) :=
  if negb (has_adapter cfg)
  then mret (Err (PlainError (Text "cannot compensate: no infrastructure adapter configured")))
  else
    e ← aop (OpCompensate req);
    match e with None => mret (Ok tt) | Some err => mret (Err (PlainError err)) end.

(** ** AuditActivities *)

Definition RecordAuditTrail (rec : AuditRecord) : act (result act_error unit) :=
  if negb (has_audit cfg) then mret (Err (PlainError (Sentinel ErrAuditPersistFailed)))
  else
    e ← aop (OpAuditAppend rec);
    match e with None => mret (Ok tt) | Some err => mret (Err (PlainError err)) end.
End Activities.

(** ** What a workflow can schedule *)

Inductive ActivityCall : Type :=
| ActRecordAuditTrail (rec : AuditRecord)
| ActRecordDecision (rec : DecisionRecord)
| ActVerifyIngressDecision (req : ExecutionRequest)
| ActClaimExecution (req : ClaimRequest)
| ActEvaluateExecution (req : ExecutionRequest)
| ActAdvanceExecutionClaim (t : ClaimTransition)
| ActDispatchConfig (req : FencedDispatch)
| ActReconcileDispatch (req : DispatchRequest)
| ActRevertStateCompensation (req : DispatchRequest).
#[export] Instance ActivityCall_eq_dec : EqDecision ActivityCall.
Proof. solve_decision. Defined.

Definition ActValue (a : ActivityCall) : Type :=
  match a with
  | ActVerifyIngressDecision _ => IngressVerification
  | ActClaimExecution _ => ClaimResult
  | ActEvaluateExecution _ => Decision
  | ActDispatchConfig _ | ActReconcileDispatch _ => DispatchOutcome
  | ActRecordAuditTrail _ | ActRecordDecision _ | ActAdvanceExecutionClaim _
  | ActRevertStateCompensation _ => unit
  end.

(** The code a worker runs for a scheduled activity. *)
Definition activity (q : string → string) (cfg : config) (info : execution) (a : ActivityCall)
    : act (result act_error (ActValue a)) :=
  match a with
  | ActRecordAuditTrail rec => RecordAuditTrail cfg rec
  | ActRecordDecision rec => RecordDecision cfg rec
  | ActVerifyIngressDecision req => VerifyIngressDecision q cfg info req
  | ActClaimExecution req => ClaimExecution q cfg info req
  | ActEvaluateExecution req => EvaluateExecution cfg req
  | ActAdvanceExecutionClaim t => AdvanceExecutionClaim q cfg info t
  | ActDispatchConfig req => DispatchConfig cfg info req
  | ActReconcileDispatch req => ReconcileDispatch cfg req
  | ActRevertStateCompensation req => RevertStateCompensation cfg req
  end.
