(* ===== verification/Startup.v ===== *)
(** * cmd/sentrygate/main.go, cmd/worker/main.go and internal/telemetry: start-up and shutdown

    Both processes as programs over the calls that acquire a resource, run the
    server or the worker, and release. A deferred close runs when main returns,
    last opened first; os.Exit runs none. The result is the exit code. *)

From S2P Require Import Prelude GoBase Contracts Policy Config Auth Decision Proxy Handler Activities.
Open Scope Z_scope.
Open Scope go_scope.

Inductive resource : Set := Telemetry | PolicyLoader | AuditStore | TemporalClient.
#[export] Instance resource_eq_dec : EqDecision resource.
Proof. solve_decision. Defined.
#[export] Instance keyEntry_eq_dec : EqDecision keyEntry.
Proof. solve_decision. Defined.
#[export] Instance Keyring_eq_dec : EqDecision Keyring.
Proof. solve_decision. Defined.

(** ** internal/telemetry: Setup

    The provider it installs, given the errors of [resource.Merge] and of
    [stdouttrace.New]. *)

Inductive provider := NoopProvider | StdoutProvider (service : string).

Definition Setup (q : string → string) (mergeErr stdoutErr : option error) (serviceName exporter : string)
    : result error provider :=
  if (exporter == "") || (exporter == "none") then Ok NoopProvider
  else match mergeErr with
       | Some err => Err (Wrap "otel resource: " err "")
       | None =>
           if exporter == "stdout" then
             match stdoutErr with
             | Some err => Err (Wrap "stdout exporter: " err "")
             | None => Ok (StdoutProvider serviceName)
             end
           else Err (Text ("unsupported OTEL_EXPORTER " +:+ q exporter +:+ " (use stdout|none)"))
       end.

(** A provider is installed exactly for the documented exporters, and without
    tracing nothing can go wrong. *)
Lemma Setup_ok q mergeErr stdoutErr serviceName exporter p :
  Setup q mergeErr stdoutErr serviceName exporter = Ok p ↔
  (exporter ∈ [""; "none"] ∧ p = NoopProvider) ∨
  (exporter = "stdout" ∧ mergeErr = None ∧ stdoutErr = None ∧ p = StdoutProvider serviceName).
Proof.
  unfold Setup. set_unfold. repeat case_bool_decide; cbn; repeat case_match; subst; naive_solver.
Qed.

(** ** The processes *)

(** Why the proxy stops waiting: a signal, or its server failed to listen. *)
Inductive stop_reason := Signalled | ServerFailed (err : string).

(** What the HTTP server of the proxy is made of. *)
Record server := { sv_addr : string; sv_keyring : Keyring; sv_slots : Z; sv_queue : string }.

Inductive BootOp : Type :=
| SetupTelemetry (service exporter : string)
| LoadPolicy (path : string) (every : Duration)
| CurrentPolicy
| WarnUndeclaredAgent (agentID : string)
| OpenAudit (path : string)
| DialTemporal (hostPort namespace : string)
| Listen (srv : server)
| AwaitStop
| ShutdownServer (timeout : Duration)
| ServeHealth (addr : string)
| RunWorker (queue : string) (wiring : config)
| CloseResource (r : resource).

Definition BootReply (o : BootOp) : Type :=
  match o with
  | SetupTelemetry _ _ | LoadPolicy _ _ | OpenAudit _ | DialTemporal _ _ | RunWorker _ _ => option string
  | CurrentPolicy => Snapshot
  | AwaitStop => stop_reason
  | WarnUndeclaredAgent _ | Listen _ | ShutdownServer _ | ServeHealth _ | CloseResource _ => unit
  end.
Abbreviation boot := (prog BootOp BootReply) (only parsing).
Definition bop (o : BootOp) : boot (BootReply o) := op o.

(** Acquires, or exits with code 1. *)
Definition acquire (o : BootOp) (k : boot Z) (failed : BootReply o → bool) : boot Z :=
  r ← bop o; if failed r then mret 1 else k.
Definition is_some {A} (x : option A) : bool := match x with Some _ => true | None => false end.

Fixpoint close_all (l : list resource) : boot unit :=
  match l with
  | [] => mret tt
  | r :: l => _ ← bop (CloseResource r); close_all l
  end.

(** The deferred closes, in the order they run. *)
Definition deferred : list resource := [TemporalClient; AuditStore; PolicyLoader; Telemetry].

(** An agent that has a key but is not in the policy is only warned about. *)
Fixpoint warn_undeclared (pol : Snapshot) (ids : list string) : boot unit :=
  match ids with
  | [] => mret tt
  | id :: ids => _ ← (if negb (HasAgent pol id) then bop (WarnUndeclaredAgent id) else mret tt);
                 warn_undeclared pol ids
  end.

Section Processes.
Context (env : gmap string string).

(** cmd/sentrygate. *)
Definition sentrygate_main : boot Z :=
  match LoadFromEnv env with
  | Err _ => mret 1
  | Ok cfg =>
      match ParseAgentKeys (AgentKeys cfg) with
      | Err _ => mret 1
      | Ok keyring =>
          acquire (SetupTelemetry (OTelServiceName cfg +:+ "-proxy") (OTelExporter cfg))
            (acquire (LoadPolicy (PolicyPath cfg) (PolicyReloadEvery cfg))
              (pol ← bop CurrentPolicy;
               _ ← warn_undeclared pol (AgentIDs keyring);
               acquire (OpenAudit (AuditDBPath cfg))
                 (acquire (DialTemporal (TemporalHostPort cfg) (TemporalNamespace cfg))
                   (_ ← bop (Listen {| sv_addr := Addr cfg; sv_keyring := keyring;
                                       sv_slots := NewSentryProxy_slots (s_maxParallelTasks pol);
                                       sv_queue := TaskQueue cfg |});
                    why ← bop AwaitStop;
                    match why with
                    | ServerFailed _ => mret 1
                    | Signalled => _ ← bop (ShutdownServer (ShutdownTimeout cfg));
                                   _ ← close_all deferred; mret 0
                    end) is_some) is_some) is_some) is_some
      end
  end.

(** cmd/worker: the activities get the policy, the store for decisions, claims
    and audit rows, and the simulated adapter. *)
Definition worker_wiring : config :=
  {| has_policy := true; has_store := true; has_claims := true;
     has_adapter := true; has_fence := true; has_audit := true |}.

Definition worker_main : boot Z :=
  let cfg := LoadWorkerFromEnv env in
  acquire (SetupTelemetry (OTelServiceName cfg +:+ "-worker") (OTelExporter cfg))
    (acquire (LoadPolicy (PolicyPath cfg) (PolicyReloadEvery cfg))
      (acquire (OpenAudit (AuditDBPath cfg))
        (acquire (DialTemporal (TemporalHostPort cfg) (TemporalNamespace cfg))
          (_ ← bop (ServeHealth (envOr env "SENTRYGATE_WORKER_HEALTH_ADDR" ":8081"));
           _ ← bop CurrentPolicy;
           err ← bop (RunWorker (TaskQueue cfg) worker_wiring);
           if is_some err then mret 1 else (_ ← close_all deferred; mret 0)) is_some) is_some) is_some) is_some.

(** ** What the processes own *)

(** The open resources, last opened first. The server and the worker run only
    with all of them; a close is of the last one opened. *)
Definition all_open : list resource := deferred.

Definition boot_step (open : list resource) (o : BootOp) : BootReply o → option (list resource) :=
  match o return BootReply o → option (list resource) with
  | SetupTelemetry _ _ => λ r, Some (if is_some r then open else Telemetry :: open)
  | LoadPolicy _ _ => λ r, Some (if is_some r then open else PolicyLoader :: open)
  | OpenAudit _ => λ r, Some (if is_some r then open else AuditStore :: open)
  | DialTemporal _ _ => λ r, Some (if is_some r then open else TemporalClient :: open)
  | Listen srv => λ _,
      if (open == all_open) &&
         match ParseAgentKeys (Getenv env "SENTRYGATE_AGENT_KEYS") with
         | Ok k => sv_keyring srv == k | Err _ => false end
      then Some open else None
  | RunWorker _ wiring => λ _, if open == all_open then Some open else None
  | CloseResource r => λ _, match open with r' :: open' => if r' == r then Some open' else None | [] => None end
  | _ => λ _, Some open
  end.

Lemma guarded_warn pol ids open :
  guarded boot_step open (warn_undeclared pol ids) (λ _ open', open' = open).
Proof.
  induction ids as [|id ids IH]; [done|]. cbn [warn_undeclared]. apply guarded_bind.
  destruct (negb (HasAgent pol id)); [|exact IH]. intros ?. exact IH.
Qed.

Definition boot_result (code : Z) (open : list resource) : Prop :=
  (code = 0 ∧ open = []) ∨ code = 1.

Lemma guarded_close_all :
  guarded boot_step all_open (_ ← close_all deferred; mret 0) boot_result.
Proof. cbn. intros ? ? ? ?. by left. Qed.

(** Whatever the environment of the process and however the services answer,
    the proxy listens only after the agent keys were parsed, the policy was
    loaded and validated, the audit database was opened and Temporal was
    reached, and with the keyring of the configured keys; the worker takes tasks
    only with the same resources. A process that ends with code 0 has released
    every resource it acquired, last acquired first. *)
Theorem processes_start_complete :
  guarded boot_step [] sentrygate_main boot_result ∧
  guarded boot_step [] worker_main boot_result.
Proof.
  split.
  - unfold sentrygate_main. destruct (LoadFromEnv env) as [cfg|] eqn:Hcfg; [|by right].
    destruct (ParseAgentKeys (AgentKeys cfg)) as [keyring|] eqn:Hk; [|by right].
    assert (Hkeys : AgentKeys cfg = Getenv env "SENTRYGATE_AGENT_KEYS").
    { revert Hcfg. unfold LoadFromEnv. cbv zeta. case_match; [done|]. by intros [= <-]. }
    unfold acquire. cbn -[warn_undeclared close_all Getenv ParseAgentKeys bool_decide]. intros [|]; [by right|].
    intros [|]; [by right|]. intros pol. apply guarded_bind.
    eapply guarded_mono; [apply guarded_warn|]. intros _ open ->.
    cbn -[close_all Getenv ParseAgentKeys bool_decide]. intros [|]; [by right|]. intros [|]; [by right|]. intros ?.
    cbn -[close_all Getenv ParseAgentKeys bool_decide]. rewrite (bool_decide_true (_ = all_open)) by done. rewrite <- Hkeys, Hk, bool_decide_true by done. cbn -[close_all Getenv ParseAgentKeys bool_decide].
    intros [|err]; [|by right]. intros ?. exact guarded_close_all.
  - unfold worker_main, acquire. cbn -[close_all Getenv ParseAgentKeys bool_decide]. intros [|]; [by right|]. intros [|]; [by right|].
    intros [|]; [by right|]. intros [|]; [by right|]. intros ? ? err.
    cbn -[close_all bool_decide]. rewrite (bool_decide_true (_ = all_open)) by done. destruct err; [by right|]. exact guarded_close_all.
Qed.
End Processes.

(** ** The worker's health endpoints *)

Inductive health_route := WorkerHealthz | WorkerReadyz.
Definition serveWorkerHealth (r : health_route) : gate response :=
  match r with
  | WorkerHealthz => mret (Plain StatusOK "ok")
  | WorkerReadyz =>
      err ← gop GPing;
      match err with
      | Some _ => mret (Plain StatusServiceUnavailable "audit db not ready")
      | None => mret (Plain StatusOK "ready")
      end
  end.

(** They answer as the proxy's do. *)
Lemma worker_health_as_proxy :
  serveWorkerHealth WorkerHealthz = healthz ∧ serveWorkerHealth WorkerReadyz = readyz.
Proof. done. Qed.

(** ** A start that succeeds and is stopped by a signal *)

Definition sample_boot_env : gmap string string :=
  {[ "SENTRYGATE_AGENT_KEYS" := "agent-sim:0123456789abcdef" ]}.
Definition sample_boot (log : list BootOp) (o : BootOp) : list BootOp * BootReply o :=
  (log ++ [o], match o return BootReply o with
               | SetupTelemetry _ _ | LoadPolicy _ _ | OpenAudit _ | DialTemporal _ _ | RunWorker _ _ => None
               | CurrentPolicy => default_snapshot
               | AwaitStop => Signalled
               | WarnUndeclaredAgent _ | Listen _ | ShutdownServer _ | ServeHealth _ | CloseResource _ => tt
               end).

Example sample_boot_order :
  let x := interp sample_boot [] (sentrygate_main sample_boot_env) in
  x.2 = 0 ∧
  List.filter (λ o, match o with CurrentPolicy => false | _ => true end) x.1 =
    [SetupTelemetry "sentrygate-proxy" "stdout"; LoadPolicy "policies/default.yaml" (5 * Second);
     OpenAudit "data/audit.db"; DialTemporal "localhost:7233" "default";
     Listen {| sv_addr := ":8080";
               sv_keyring := {| k_entries := [{| ke_agentID := "agent-sim"; ke_digest := key_digest "0123456789abcdef" |}] |};
               sv_slots := NewSentryProxy_slots (s_maxParallelTasks default_snapshot); sv_queue := "sentrygate-saga" |};
     AwaitStop; ShutdownServer (10 * Second);
     CloseResource TemporalClient; CloseResource AuditStore; CloseResource PolicyLoader; CloseResource Telemetry].
Proof. vm_compute. done. Qed.
