(* ===== verification/Saga.v ===== *)
(** * workflows/saga.go: SentryGateSagaWorkflow

    The workflow is a program over what it asks of Temporal: run an activity
    with given options, read the workflow clock, record a side effect, sleep.
    The answers are the environment's: an activity's own result, or any error
    Temporal reports instead. *)

From S2P Require Import Prelude GoBase Contracts Decision Store AuditTrail Activities.
Open Scope Z_scope.
Open Scope go_scope.

(** ** Activity options and contexts *)

Record RetryPolicy := {
  rp_InitialInterval : Duration; rp_BackoffCoefficient : Z;
  rp_MaximumAttempts : Z; rp_NonRetryableErrorTypes : list string }.
Record ActivityOptions := { ao_StartToCloseTimeout : Duration; ao_RetryPolicy : RetryPolicy }.

Definition NonRetryableErrorType : string := "NON_RETRYABLE_INFRASTRUCTURE_FAULT".

Definition activityOpts : ActivityOptions :=
  {| ao_StartToCloseTimeout := 10 * Second;
     ao_RetryPolicy := {| rp_InitialInterval := 1 * Second; rp_BackoffCoefficient := 2;
                          rp_MaximumAttempts := 1;
                          rp_NonRetryableErrorTypes := [NonRetryableErrorType] |} |}.
Definition bookkeepingOpts : ActivityOptions :=
  {| ao_StartToCloseTimeout := 5 * Second;
     ao_RetryPolicy := {| rp_InitialInterval := 500 * Millisecond; rp_BackoffCoefficient := 2;
                          rp_MaximumAttempts := 3; rp_NonRetryableErrorTypes := [] |} |}.

(** A workflow context: its activity options, and whether it is disconnected
    from the cancellation of the workflow. *)
Record WfContext := { wc_opts : ActivityOptions; wc_disconnected : bool }.
Definition ctx : WfContext := {| wc_opts := activityOpts; wc_disconnected := false |}.
Definition bookCtx : WfContext := {| wc_opts := bookkeepingOpts; wc_disconnected := false |}.
Definition claimCtx : WfContext := {| wc_opts := bookkeepingOpts; wc_disconnected := true |}.
Definition compCtx : WfContext := {| wc_opts := activityOpts; wc_disconnected := true |}.

(** ** What the workflow asks of Temporal *)

(** An error as the workflow sees it: the type of the application error found
    by [errors.As], if there is one, and its text. *)
Record WfError := { we_type : option string; we_text : string }.

Inductive WfOp : Type :=
| WfActivity (c : WfContext) (a : ActivityCall)
| WfSideEffect
| WfNow
| WfSleep (d : Duration).

Definition WfReply (o : WfOp) : Type :=
  match o with
  | WfActivity _ a => result WfError (ActValue a)
  | WfSideEffect => result WfError string
  | WfNow => Time
  | WfSleep _ => option WfError
  end.

Abbreviation wf := (prog WfOp WfReply).
Definition wop (o : WfOp) : wf (WfReply o) := op o.
Definition ExecuteActivity (c : WfContext) (a : ActivityCall) : wf (result WfError (ActValue a)) :=
  wop (WfActivity c a).

Definition err_of {A} (r : result WfError A) : option WfError :=
  match r with Ok _ => None | Err e => Some e end.

(** [err == nil]. *)
Definition is_nil (e : option WfError) : bool := match e with None => true | Some _ => false end.

(** How a run ends. [OutOfFuel] is not an outcome of the code: it marks that
    the bound given to the reconciliation loop was too small. *)
Inductive wf_failure : Type :=
| ApplicationFailure (msg errType : string) (cause : option WfError) (details : list string)
| PersistFailure (err : WfError).
Inductive wf_result : Type := WfCompleted | WfFailed (f : wf_failure) | OutOfFuel.

(** The variables the workflow's closures share. *)
Record SagaVars := {
  v_auditSeq : Z; v_auditCtx : WfContext; v_mayHoldClaim : bool; v_dispatching : bool }.

(** ** Helpers *)

Definition fenceFailure (err : option WfError) : string :=
  match err with
  | Some e => match we_type e with
              | Some t => if (t == ExecutionFenceRejectedErrorType) || (t == ExecutionFenceUnknownErrorType)
                          then t else ""
              | None => ""
              end
  | None => ""
  end.

Definition auditVerdict (o : DispatchOutcome) : AuditVerdict :=
  if oc_Status o == OutcomeSuccess then AuditVerdictPass
  else if oc_Status o == OutcomeFailure then AuditVerdictFail
  else AuditVerdictUnknown.

Definition joinReasons (r : list ReasonCode) : string := strings_Join r ",".

Definition reconcileFirstWait : Duration := 10 * Second.
Definition reconcileMaxWait : Duration := 30 * Minute.
Definition reconcileWindow : Duration := 24 * Hour.

(** What one question to the adapter established. *)
Definition reconcile_answer (r : result WfError DispatchOutcome) : DispatchOutcome :=
  Checked (match r with
           | Ok o => o
           | Err e => UnknownOutcome ("reconciliation activity returned no outcome: " +:+ we_text e)
           end).

(** The loop of [reconcileDispatch]; [None] when [fuel] runs out. The difference
    of the clocks is taken exactly; Go's [Time.Sub] saturates, and the sum after
    it wraps, once the workflow's clock has moved by more than 292 years. *)
Fixpoint reconcile_loop (fuel : nat) (dreq : DispatchRequest) (start wait : Duration)
    : wf (option DispatchOutcome) :=
  match fuel with
  | O => mret None
  | S fuel =>
      r ← ExecuteActivity bookCtx (ActReconcileDispatch dreq);
      let o := reconcile_answer r in
      if oc_Status o != OutcomeUnknown then mret (Some o)
      else
        now ← wop WfNow;
        if reconcileWindow <? (now - start) + wait then mret (Some o)
        else
          s ← wop (WfSleep wait);
          match s with
          | Some _ => mret (Some o)
          | None => reconcile_loop fuel dreq start (Z.min (2 * wait) reconcileMaxWait)
          end
  end.

(** The window leaves room for 55 questions; see [reconcile_terminates]. *)
Definition reconcileFuel : nat := 55.

Definition reconcileDispatch (dreq : DispatchRequest) : wf (option DispatchOutcome) :=
  start ← wop WfNow;
  reconcile_loop reconcileFuel dreq start reconcileFirstWait.

Section Workflow.
Variable q : string → string.
Variable info : execution.
Variable req : ExecutionRequest.

Definition prop : AgentProposal := er_Proposal req.
Definition dreq : DispatchRequest :=
  {| dq_IdempotencyKey := ExecutionKey (er_IngressDecisionID req); dq_Proposal := prop |}.

Definition outcomeDetail (dreq : DispatchRequest) (o : DispatchOutcome) : string :=
  "outcome=" +:+ oc_Status o +:+ " partially_applied=" +:+ fmt_t (oc_PartiallyApplied o) +:+
  " idempotency_key=" +:+ dq_IdempotencyKey dreq +:+ " target=" +:+ p_TargetID (dq_Proposal dreq) +:+
  " detail=" +:+ q (oc_Detail o).

(** ** The closures of the workflow *)

Definition record (phase : AuditPhase) (verdict : AuditVerdict) (detail : string) (v : SagaVars)
    : wf (option WfError * SagaVars) :=
  let v := {| v_auditSeq := v_auditSeq v + 1; v_auditCtx := v_auditCtx v;
              v_mayHoldClaim := v_mayHoldClaim v; v_dispatching := v_dispatching v |} in
  now ← wop WfNow;
  r ← ExecuteActivity (v_auditCtx v)
        (ActRecordAuditTrail (newAuditRecord (p_ID prop) (x_ID info) (x_RunID info)
                                phase verdict prop detail now (v_auditSeq v)));
  mret (err_of r, v).

Definition recordDecision (dec : Decision) : wf (option WfError) :=
  now ← wop WfNow;
  r ← ExecuteActivity bookCtx (ActRecordDecision
        {| dr_DecisionID := "wf_" +:+ x_ID info +:+ "_" +:+ x_RunID info;
           dr_Stage := StageWorkflowRevalidation; dr_ProposalID := p_ID prop;
           dr_AgentID := er_AgentID req; dr_RequestHash := RequestHash prop;
           dr_Command := p_Type prop; dr_TargetID := p_TargetID prop;
           dr_Environment := d_Environment dec; dr_Verdict := d_Verdict dec;
           dr_Reasons := d_Reasons dec; dr_PolicyVersion := d_PolicyVersion dec;
           dr_PolicyDigest := d_PolicyDigest dec; dr_WorkflowID := x_ID info;
           dr_TraceID := ""; dr_RecordedAt := UTC now |});
  mret (err_of r).

Definition reject (errType : string) (reason : ReasonCode) (detail : string) (v : SagaVars)
    : wf (wf_result * SagaVars) :=
  _ ← recordDecision {| d_Verdict := VerdictDeny; d_Reasons := [reason]; d_Environment := "";
                        d_PolicyVersion := ""; d_PolicyDigest := "" |};
  let auditDetail := "execution rejected: reason=" +:+ reason +:+ " detail=" +:+ q detail +:+
                     " ingress_decision_id=" +:+ q (er_IngressDecisionID req) in
  rv ← record AuditPhaseRevalidation AuditVerdictFail auditDetail v;
  mret (WfFailed (ApplicationFailure ("execution rejected: " +:+ reason) errType None [reason]), rv.2).

Definition transition (token : string) (c : WfContext) (to : ClaimState) : wf (option WfError) :=
  r ← ExecuteActivity c (ActAdvanceExecutionClaim
        {| ct_DecisionID := er_IngressDecisionID req; ct_Token := token; ct_To := to |});
  mret (err_of r).

(** ** Confirmed success *)

Definition saga_success (token : string) (auditErr : option WfError) (v : SagaVars)
    : wf (wf_result * SagaVars) :=
  e ← transition token claimCtx ClaimStateCompleted;
  match e with
  | Some err => mret (WfFailed (PersistFailure err), v)
  | None =>
      match auditErr with
      | Some err => mret (WfFailed (PersistFailure err), v)
      | None =>
          rv ← record AuditPhaseWorkflowComplete AuditVerdictPass
                 "workflow completed without compensation" v;
          match rv.1 with
          | Some err => mret (WfFailed (PersistFailure err), rv.2)
          | None => mret (WfCompleted, rv.2)
          end
      end
  end.

(** ** Confirmed failure *)

Definition dispatch_failed (failure : string) (v : SagaVars) : wf (wf_result * SagaVars) :=
  rv ← record AuditPhaseWorkflowFailed AuditVerdictFail failure v;
  mret (WfFailed (ApplicationFailure failure DispatchFailedErrorType None []), rv.2).

Definition saga_failure (token : string) (outcome : DispatchOutcome) (v : SagaVars)
    : wf (wf_result * SagaVars) :=
  _ ← transition token claimCtx ClaimStateFailed;
  if oc_PartiallyApplied outcome then
    r ← ExecuteActivity compCtx (ActRevertStateCompensation dreq);
    match r with
    | Err e =>
        rv ← record AuditPhaseCompensation AuditVerdictFail (we_text e) v;
        dispatch_failed ("dispatch partly applied and compensation failed: " +:+ we_text e) rv.2
    | Ok _ =>
        rv ← record AuditPhaseCompensation AuditVerdictPass "compensation activity completed" v;
        dispatch_failed ("dispatch partly applied and compensation ran: " +:+ oc_Detail outcome) rv.2
    end
  else dispatch_failed ("dispatch failed: " +:+ oc_Detail outcome) v.

(** The branch on a confirmed outcome. *)
Definition saga_confirmed (token : string) (outcome : DispatchOutcome) (auditErr : option WfError)
    (v : SagaVars) : wf (wf_result * SagaVars) :=
  if oc_Status outcome == OutcomeFailure then saga_failure token outcome v
  else saga_success token auditErr v.

(** ** Unknown outcome: reconcile, never re-dispatch or release *)

Definition saga_outcome (token : string) (outcome : DispatchOutcome) (auditErr : option WfError)
    (v : SagaVars) : wf (wf_result * SagaVars) :=
  if oc_Status outcome == OutcomeUnknown then
    _ ← transition token claimCtx ClaimStateReconciliationRequired;
    mo ← reconcileDispatch dreq;
    match mo with
    | None => mret (OutOfFuel, v)
    | Some outcome =>
        rv ← record AuditPhaseReconciliation (auditVerdict outcome) (outcomeDetail dreq outcome) v;
        if oc_Status outcome == OutcomeUnknown then
          mret (WfFailed (ApplicationFailure
                  "dispatch outcome unknown after reconciliation; execution claim left in RECONCILIATION_REQUIRED"
                  DispatchOutcomeUnknownErrorType None [dq_IdempotencyKey dreq]), rv.2)
        else saga_confirmed token outcome rv.1 rv.2
    end
  else saga_confirmed token outcome auditErr v.

(** ** Dispatch: scheduled once, never retried *)

Definition saga_dispatch (token : string) (v : SagaVars) : wf (wf_result * SagaVars) :=
  let v := {| v_auditSeq := v_auditSeq v; v_auditCtx := claimCtx;
              v_mayHoldClaim := v_mayHoldClaim v; v_dispatching := true |} in
  r ← ExecuteActivity ctx (ActDispatchConfig
        {| fd_DecisionID := er_IngressDecisionID req; fd_Token := token; fd_Dispatch := dreq |});
  let dispatchErr := err_of r in
  let outcome := match r with Ok o => o | Err _ => zeroOutcome end in
  let errText := match dispatchErr with Some e => we_text e | None => "" end in
  let fence := fenceFailure dispatchErr in
  if fence != "" then
    releaseErr ← transition token claimCtx ClaimStateReleased;
    if is_nil releaseErr || (fence == ExecutionFenceRejectedErrorType) then
      rv ← record AuditPhaseExecutionFence AuditVerdictFail
             ("adapter not called: released=" +:+
              fmt_t (is_nil releaseErr) +:+
              " ingress_decision_id=" +:+ er_IngressDecisionID req +:+ " error=" +:+ q errText) v;
      mret (WfFailed (ApplicationFailure "execution fence not acquired; proposal not executed"
                        ExecutionClaimRejectedErrorType dispatchErr []), rv.2)
    else
      let outcome := UnknownOutcome ("execution fence may have committed; adapter not called: " +:+ errText) in
      rv ← record AuditPhaseExecutionFence AuditVerdictUnknown (outcomeDetail dreq outcome) v;
      saga_outcome token outcome rv.1 rv.2
  else
    let outcome := match dispatchErr with
                   | Some _ => UnknownOutcome ("dispatch activity returned no outcome: " +:+ errText)
                   | None => outcome
                   end in
    let outcome := Checked outcome in
    rv ← record AuditPhaseDispatch (auditVerdict outcome) (outcomeDetail dreq outcome) v;
    saga_outcome token outcome rv.1 rv.2.

(** ** Re-validation against the current policy *)

Definition saga_revalidate (token : string) (v : SagaVars) : wf (wf_result * SagaVars) :=
  r ← ExecuteActivity bookCtx (ActEvaluateExecution req);
  match r with
  | Err e => mret (WfFailed (ApplicationFailure "re-validation unavailable; proposal not executed"
                               RevalidationDeniedErrorType (Some e) []), v)
  | Ok dec =>
      recErr ← recordDecision dec;
      let detail := "verdict=" +:+ d_Verdict dec +:+ " reasons=" +:+ joinReasons (d_Reasons dec) +:+
                    " policy_version=" +:+ d_PolicyVersion dec +:+
                    " ingress_decision_id=" +:+ er_IngressDecisionID req in
      if d_Verdict dec != VerdictAllow then
        rv ← record AuditPhaseRevalidation AuditVerdictFail detail v;
        mret (WfFailed (ApplicationFailure
                ("proposal denied at workflow re-validation: " +:+ d_Verdict dec +:+ " " +:+
                 joinReasons (d_Reasons dec)) RevalidationDeniedErrorType None []), rv.2)
      else match recErr with
      | Some err => mret (WfFailed (PersistFailure err), v)
      | None =>
          rv ← record AuditPhaseRevalidation AuditVerdictPass detail v;
          match rv.1 with
          | Some err => mret (WfFailed (PersistFailure err), rv.2)
          | None => saga_dispatch token rv.2
          end
      end
  end.

(** ** Execution claim: at most one execution per ingress decision *)

Definition saga_claim (token : string) (v : SagaVars) : wf (wf_result * SagaVars) :=
  let hold b := {| v_auditSeq := v_auditSeq v; v_auditCtx := v_auditCtx v;
                   v_mayHoldClaim := b; v_dispatching := v_dispatching v |} in
  r ← ExecuteActivity bookCtx (ActClaimExecution
        {| cr_DecisionID := er_IngressDecisionID req; cr_Token := token |});
  match r with
  | Err e => mret (WfFailed (ApplicationFailure "execution claim could not be acquired; proposal not executed"
                               ExecutionClaimRejectedErrorType (Some e) []), hold true)
  | Ok claim =>
      if negb (cl_Claimed claim)
      then reject ExecutionClaimRejectedErrorType (cl_Reason claim) (cl_Detail claim) (hold false)
      else saga_revalidate token (hold true)
  end.

(** The deferred release: every exit before dispatch is scheduled returns the
    claim. *)
Definition release_deferred (token : string) (v : SagaVars) : wf unit :=
  if negb (v_mayHoldClaim v) || v_dispatching v then mret tt
  else _ ← transition token claimCtx ClaimStateReleased; mret tt.

Definition initialVars : SagaVars :=
  {| v_auditSeq := 0; v_auditCtx := bookCtx; v_mayHoldClaim := false; v_dispatching := false |}.

Definition SentryGateSagaWorkflow : wf wf_result :=
  r ← ExecuteActivity bookCtx (ActVerifyIngressDecision req);
  match r with
  | Err e => mret (WfFailed (ApplicationFailure "ingress decision could not be verified; proposal not executed"
                               IngressDecisionInvalidErrorType (Some e) []))
  | Ok ingress =>
      if negb (iv_Valid ingress) then
        rv ← reject IngressDecisionInvalidErrorType (iv_Reason ingress) (iv_Detail ingress) initialVars;
        mret rv.1
      else
        t ← wop WfSideEffect;
        match t with
        | Err e => mret (WfFailed (ApplicationFailure "execution token unavailable; proposal not executed"
                                     ExecutionClaimRejectedErrorType (Some e) []))
        | Ok random =>
            let token := "exe_" +:+ random in
            rv ← saga_claim token initialVars;
            _ ← release_deferred token rv.2;
            mret rv.1
        end
  end.
End Workflow.
