(* ===== verification/Protocol.v ===== *)
(** * The execution protocol a workflow run follows

    An abstract description of one run, as the comments of saga.go, claim.go
    and ARCHITECTURE.md give it: which request is allowed after which answers.
    [Saga.SentryGateSagaWorkflow] refines it for every behaviour of Temporal,
    the stores and the adapter. *)

From S2P Require Import Prelude GoBase Contracts Decision Store AuditTrail Activities Saga.
Open Scope Z_scope.
Open Scope go_scope.

#[export] Instance RetryPolicy_eq_dec : EqDecision RetryPolicy.
Proof. solve_decision. Defined.
#[export] Instance ActivityOptions_eq_dec : EqDecision ActivityOptions.
Proof. solve_decision. Defined.
#[export] Instance WfContext_eq_dec : EqDecision WfContext.
Proof. solve_decision. Defined.

(** What a run that may hold the claim has established so far. *)
Inductive progress := ClaimUnclear | ClaimTaken | ReDenied | ReAllowed | ReRecorded | Cleared.
#[export] Instance progress_eq_dec : EqDecision progress.
Proof. solve_decision. Defined.

(** Where an outcome stems from: the fence attempt, or the dispatch itself. *)
Inductive source := FromFence | FromDispatch.
#[export] Instance source_eq_dec : EqDecision source.
Proof. solve_decision. Defined.

Inductive phase : Type :=
| Unverified
| Rejected
| Verified
| Tokened (tok : string)
| Refused (tok : string)
| Holding (tok : string) (p : progress)
| Returned (tok : string)
| NotFenced (tok : string) (errType : string)
| NotExecuted (tok : string)
| Unknown (tok : string) (src : source)
| Known (tok : string) (src : source) (o : DispatchOutcome)
| Compensated (tok : string) (o : DispatchOutcome)
| Finished (tok : string) (o : DispatchOutcome).
#[export] Instance phase_eq_dec : EqDecision phase.
Proof. solve_decision. Defined.

Section Protocol.
Variable req : ExecutionRequest.

Definition require (b : bool) (s : phase) : option phase := if b then Some s else None.

(** The phase an adapter's answer leads to. *)
Definition after_outcome (tok : string) (src : source) (o : DispatchOutcome) : phase :=
  if oc_Status (Checked o) == OutcomeUnknown then Unknown tok src else Known tok src (Checked o).

(** The answer of the dispatch activity. *)
Definition after_dispatch (tok : string) (r : result WfError DispatchOutcome) : phase :=
  match r with
  | Ok o => after_outcome tok FromDispatch o
  | Err e => if fenceFailure (Some e) == "" then Unknown tok FromDispatch
             else NotFenced tok (fenceFailure (Some e))
  end.

(** The release attempted after a fence failure. *)
Definition after_fence_release (tok errType : string) (released : bool) : phase :=
  if released || (errType == ExecutionFenceRejectedErrorType) then NotExecuted tok
  else Unknown tok FromFence.

(** Audit rows: which phase of the trail may be written when. *)
Definition audit_step (s : phase) (rec : AuditRecord) (ok : bool) : option phase :=
  let ph := ar_Phase rec in
  match s with
  | Rejected | Refused _ | Holding _ ReDenied =>
      require ((ph == AuditPhaseRevalidation) && (ar_Verdict rec == AuditVerdictFail)) s
  | Holding tok ReRecorded =>
      require ((ph == AuditPhaseRevalidation) && (ar_Verdict rec == AuditVerdictPass))
        (if ok then Holding tok Cleared else s)
  | NotExecuted _ => require ((ph == AuditPhaseExecutionFence) && (ar_Verdict rec == AuditVerdictFail)) s
  | Unknown _ src =>
      require ((ar_Verdict rec == AuditVerdictUnknown) &&
               ((ph == AuditPhaseReconciliation) ||
                (ph == match src with FromFence => AuditPhaseExecutionFence
                                    | FromDispatch => AuditPhaseDispatch end))) s
  | Known _ src o =>
      require (((ar_Verdict rec == auditVerdict o) &&
                ((ph == AuditPhaseReconciliation) || (ph == AuditPhaseDispatch) && (src == FromDispatch))) ||
               ((ph == AuditPhaseWorkflowFailed) && (oc_Status o == OutcomeFailure) &&
                negb (oc_PartiallyApplied o))) s
  | Compensated _ _ => require ((ph == AuditPhaseCompensation) || (ph == AuditPhaseWorkflowFailed)) s
  | Finished _ _ => require (ph == AuditPhaseWorkflowComplete) s
  | _ => None
  end.

(** Decision records of the re-validation stage. *)
Definition record_step (s : phase) (rec : DecisionRecord) (ok : bool) : option phase :=
  match s with
  | Rejected | Refused _ | Holding _ ReDenied => require (dr_Verdict rec != VerdictAllow) s
  | Holding tok ReAllowed =>
      require ((dr_Verdict rec == VerdictAllow) && (dr_RequestHash rec == RequestHash (er_Proposal req)))
        (if ok then Holding tok ReRecorded else s)
  | _ => None
  end.

(** Claim transitions: only this run's token and this request's decision. *)
Definition transition_step (s : phase) (t : ClaimTransition) (ok : bool) : option phase :=
  let mine tok to := (ct_DecisionID t == er_IngressDecisionID req) && (ct_Token t == tok) && (ct_To t == to) in
  match s with
  | Holding tok _ => require (mine tok ClaimStateReleased) (Returned tok)
  | NotFenced tok ft => require (mine tok ClaimStateReleased) (after_fence_release tok ft ok)
  | Unknown tok _ => require (mine tok ClaimStateReconciliationRequired) s
  | Known tok _ o =>
      if oc_Status o == OutcomeFailure then require (mine tok ClaimStateFailed) s
      else require ((oc_Status o == OutcomeSuccess) && mine tok ClaimStateCompleted) (if ok then Finished tok o else s)
  | _ => None
  end.

Definition activity_step (s : phase) (c : WfContext) (a : ActivityCall)
    : result WfError (ActValue a) → option phase :=
  match a return result WfError (ActValue a) → option phase with
  | ActRecordAuditTrail rec => λ r, audit_step s rec (is_nil (err_of r))
  | ActRecordDecision rec => λ r, record_step s rec (is_nil (err_of r))
  | ActAdvanceExecutionClaim t => λ r,
      if wc_disconnected c then transition_step s t (is_nil (err_of r)) else None
  | ActVerifyIngressDecision req' => λ r,
      match s with
      | Unverified => require (req' == req)
          (match r with
           | Ok iv => if iv_Valid iv then Verified else Rejected
           | Err _ => Rejected
           end)
      | _ => None
      end
  | ActClaimExecution cr => λ r,
      match s with
      | Tokened tok => require ((cr_DecisionID cr == er_IngressDecisionID req) && (cr_Token cr == tok))
          (match r with
           | Ok cl => if cl_Claimed cl then Holding tok ClaimTaken else Refused tok
           | Err _ => Holding tok ClaimUnclear
           end)
      | _ => None
      end
  | ActEvaluateExecution req' => λ r,
      match s with
      | Holding tok ClaimTaken => require (req' == req)
          (match r with
           | Ok d => if d_Verdict d == VerdictAllow then Holding tok ReAllowed else Holding tok ReDenied
           | Err _ => Holding tok ReDenied
           end)
      | _ => None
      end
  | ActDispatchConfig f => λ r,
      match s with
      | Holding tok Cleared =>
          require ((f == {| fd_DecisionID := er_IngressDecisionID req; fd_Token := tok;
                            fd_Dispatch := dreq req |}) &&
                   (rp_MaximumAttempts (ao_RetryPolicy (wc_opts c)) == 1))
            (after_dispatch tok r)
      | _ => None
      end
  | ActReconcileDispatch d => λ r,
      match s with
      | Unknown tok src => require (d == dreq req)
          (match r with Ok o => after_outcome tok src o | Err _ => s end)
      | _ => None
      end
  | ActRevertStateCompensation d => λ r,
      match s with
      | Known tok _ o =>
          require ((d == dreq req) && (oc_Status o == OutcomeFailure) && oc_PartiallyApplied o &&
                   (rp_MaximumAttempts (ao_RetryPolicy (wc_opts c)) == 1) && wc_disconnected c)
            (Compensated tok o)
      | _ => None
      end
  end.

Definition protocol (s : phase) (o : WfOp) : WfReply o → option phase :=
  match o return WfReply o → option phase with
  | WfActivity c a => activity_step s c a
  | WfSideEffect => λ r,
      match s, r with
      | Verified, Ok random => Some (Tokened ("exe_" +:+ random))
      | Verified, Err _ => Some Verified
      | _, _ => None
      end
  | WfNow => λ _, Some s
  | WfSleep _ => λ _, match s with Unknown _ _ => Some s | _ => None end
  end.

(** How a run may end, by its result. *)
Definition ends (res : wf_result) (s : phase) : Prop :=
  match res with
  | WfCompleted => ∃ tok o, s = Finished tok o ∧ oc_Status o = OutcomeSuccess
  | OutOfFuel => ∃ tok src, s = Unknown tok src
  | WfFailed (PersistFailure _) =>
      (∃ tok, s = Returned tok) ∨
      (∃ tok o, oc_Status o = OutcomeSuccess ∧ (s = Finished tok o ∨ ∃ src, s = Known tok src o))
  | WfFailed (ApplicationFailure _ ty _ _) =>
      (ty = IngressDecisionInvalidErrorType ∧ s = Rejected) ∨
      (ty = ExecutionClaimRejectedErrorType ∧
        (s = Verified ∨ ∃ tok, s = Refused tok ∨ s = Returned tok ∨ s = NotExecuted tok)) ∨
      (ty = RevalidationDeniedErrorType ∧ ∃ tok, s = Returned tok) ∨
      (ty = DispatchOutcomeUnknownErrorType ∧ ∃ tok src, s = Unknown tok src) ∨
      (ty = DispatchFailedErrorType ∧ ∃ tok o, oc_Status o = OutcomeFailure ∧
        (s = Compensated tok o ∧ oc_PartiallyApplied o = true ∨
         ∃ src, s = Known tok src o ∧ oc_PartiallyApplied o = false))
  end.
End Protocol.

(** ** The workflow follows the protocol *)

Section Refinement.
Context (q : string → string) (info : execution) (req : ExecutionRequest).

Abbreviation follows := (guarded (protocol req)).

#[local] Arguments record : simpl never.
#[local] Arguments recordDecision : simpl never.
#[local] Arguments transition : simpl never.
#[local] Arguments reconcileDispatch : simpl never.
#[local] Arguments reconcileFuel : simpl never.
#[local] Arguments RequestHash : simpl never.
#[local] Arguments mbind : simpl never.
#[local] Arguments guarded : simpl never.

(** The flags the deferred release reads. *)
Definition same_flags (v v' : SagaVars) : Prop :=
  v_mayHoldClaim v' = v_mayHoldClaim v ∧ v_dispatching v' = v_dispatching v.

Lemma record_follows s ph vd detail v (Q : option WfError * SagaVars → phase → Prop) :
  (∀ rec e v', ar_Phase rec = ph → ar_Verdict rec = vd → same_flags v v' →
     ∃ s', audit_step s rec (is_nil e) = Some s' ∧ Q (e, v') s') →
  follows s (record info req ph vd detail v) Q.
Proof.
  intros H now. apply guarded_call. intros r.
  destruct (H (newAuditRecord (p_ID (prop req)) (x_ID info) (x_RunID info) ph vd (prop req)
                 detail now (v_auditSeq v + 1)) (err_of r)
      {| v_auditSeq := v_auditSeq v + 1; v_auditCtx := v_auditCtx v;
         v_mayHoldClaim := v_mayHoldClaim v; v_dispatching := v_dispatching v |})
    as (s' & Hs & HQ); [done..|].
  exists s'. split; [exact Hs|exact HQ].
Qed.

Lemma recordDecision_follows s dec (Q : option WfError → phase → Prop) :
  (∀ rec e, dr_Verdict rec = d_Verdict dec → dr_RequestHash rec = RequestHash (er_Proposal req) →
     ∃ s', record_step req s rec (is_nil e) = Some s' ∧ Q e s') →
  follows s (recordDecision info req dec) Q.
Proof.
  intros H now. apply guarded_call. intros r.
  edestruct H as (s' & Hs & HQ); [| |exists s'; split; [exact Hs|exact HQ]]; done.
Qed.

Lemma transition_follows s tok c to (Q : option WfError → phase → Prop) :
  wc_disconnected c = true →
  (∀ e, ∃ s', transition_step req s
                {| ct_DecisionID := er_IngressDecisionID req; ct_Token := tok; ct_To := to |}
                (is_nil e) = Some s' ∧ Q e s') →
  follows s (transition req tok c to) Q.
Proof.
  intros Hc H. apply guarded_call. intros r. destruct (H (err_of r)) as (s' & Hs & HQ).
  exists s'. split; [|exact HQ]. cbn. rewrite Hc. exact Hs.
Qed.

Lemma dispatch_failed_follows s failure v (Q : wf_result * SagaVars → phase → Prop) :
  (∀ rec e, ar_Phase rec = AuditPhaseWorkflowFailed → audit_step s rec e = Some s) →
  (∀ cause details v', same_flags v v' →
     Q (WfFailed (ApplicationFailure failure DispatchFailedErrorType cause details), v') s) →
  follows s (dispatch_failed info req failure v) Q.
Proof.
  intros Ha HQ. apply guarded_bind, record_follows. intros rec e v' Hph _ Hv.
  exists s. split; [by apply Ha|]. by apply HQ.
Qed.

(** What a run that has scheduled its dispatch ends in. *)
Definition settled (v : SagaVars) (rv : wf_result * SagaVars) (s : phase) : Prop :=
  ends rv.1 s ∧ same_flags v rv.2.

Lemma saga_success_follows tok src o auditErr v :
  oc_Status o = OutcomeSuccess →
  follows (Known tok src o) (saga_success info req tok auditErr v) (settled v).
Proof.
  intros Ho. apply guarded_bind, transition_follows; [done|]. intros e.
  cbn. rewrite Ho. go_refl.
  eexists; split; [reflexivity|]. destruct e as [e|]; simpl; [split; [right; eauto 10|done]|].
  destruct auditErr as [e|]; simpl; [split; [right; eauto 10|done]|].
  apply guarded_bind, record_follows. intros rec [e|] v' Hph Hvd Hv; simpl; rewrite Hph;
    eexists; (split; [done|]); split; simpl; eauto 10.
Qed.

Lemma saga_failure_follows tok src o v :
  oc_Status o = OutcomeFailure →
  follows (Known tok src o) (saga_failure info req tok o v) (settled v).
Proof.
  intros Ho. apply guarded_bind, transition_follows; [done|]. intros e.
  cbn. rewrite Ho. go_refl.
  eexists; split; [reflexivity|]. destruct (oc_PartiallyApplied o) eqn:Hp.
  - apply guarded_call. intros r. exists (Compensated tok o). split.
    { cbn. rewrite Ho, Hp. by go_refl. }
    destruct r as [[]|e']; simpl;
      (apply guarded_bind, record_follows; intros rec e1 v' Hph Hvd Hv;
       exists (Compensated tok o); split; [by cbn; rewrite Hph|]);
      (apply dispatch_failed_follows; [by intros rec' e2 Hph'; cbn; rewrite Hph'|]);
      intros cause details v'' Hv''; (split; [|destruct Hv, Hv''; split; simpl in *; congruence]);
      do 4 right; eauto 10.
  - apply dispatch_failed_follows.
    + intros rec e' Hph. cbn. rewrite Hph, Ho, Hp. by destruct (_ && _).
    + intros cause details v' Hv. split; [|done]. do 4 right; eauto 10.
Qed.

Lemma Checked_confirmed_cases o :
  oc_Status (Checked o) ≠ OutcomeUnknown →
  oc_Status (Checked o) = OutcomeSuccess ∨ oc_Status (Checked o) = OutcomeFailure.
Proof. pose proof (Checked_status o). intros ?. enum_in; auto; done. Qed.

(** An outcome the workflow holds matches the phase of the protocol. *)
Definition outcome_phase (tok : string) (src : source) (o : DispatchOutcome) : phase :=
  if oc_Status o == OutcomeUnknown then Unknown tok src else Known tok src o.

Definition statused (o : DispatchOutcome) : Prop :=
  oc_Status o ∈ [OutcomeSuccess; OutcomeFailure; OutcomeUnknown].

Lemma saga_confirmed_follows tok src o auditErr v :
  statused o → oc_Status o ≠ OutcomeUnknown →
  follows (Known tok src o) (saga_confirmed info req tok o auditErr v) (settled v).
Proof.
  intros Hs Hu. unfold saga_confirmed. case_bool_decide as Hf; [by apply saga_failure_follows|].
  apply saga_success_follows. unfold statused in Hs. enum_in; done.
Qed.

Lemma reconcile_loop_follows tok src start fuel wait :
  follows (Unknown tok src) (reconcile_loop fuel (dreq req) start wait)
    (λ mo s, match mo with
             | None => s = Unknown tok src
             | Some o => statused o ∧ s = outcome_phase tok src o
             end).
Proof.
  revert wait. induction fuel as [|fuel IH]; intros wait; [done|].
  apply guarded_call. intros r.
  exists (outcome_phase tok src (reconcile_answer r)). split.
  { cbn. go_refl. cbn. by destruct r as [o'|e']. }
  assert (Ho : statused (reconcile_answer r)) by apply Checked_status.
  revert Ho. generalize (reconcile_answer r). intros o Ho. cbn beta.
  unfold outcome_phase at 1. case_bool_decide as Hu; cbn.
  - apply guarded_call. intros now. exists (Unknown tok src). split; [done|].
    case_match; [split; [done|]; unfold outcome_phase; by rewrite bool_decide_true|].
    apply guarded_call. intros s. exists (Unknown tok src). split; [done|].
    destruct s as [e|]; [split; [done|]; unfold outcome_phase; by rewrite bool_decide_true|].
    apply IH.
  - split; [done|]. unfold outcome_phase. by rewrite bool_decide_false.
Qed.

Lemma reconcileDispatch_follows tok src :
  follows (Unknown tok src) (reconcileDispatch (dreq req))
    (λ mo s, match mo with
             | None => s = Unknown tok src
             | Some o => statused o ∧ s = outcome_phase tok src o
             end).
Proof. intros start. exact (reconcile_loop_follows tok src start reconcileFuel reconcileFirstWait). Qed.

Lemma saga_outcome_follows tok src o auditErr v :
  statused o →
  follows (outcome_phase tok src o) (saga_outcome q info req tok o auditErr v) (settled v).
Proof.
  intros Hs. unfold saga_outcome, outcome_phase. case_bool_decide as Hu;
    [|by apply saga_confirmed_follows].
  apply guarded_bind, transition_follows; [done|]. intros e.
  exists (Unknown tok src). split; [by cbn; go_refl|].
  apply guarded_bind. eapply guarded_mono; [apply (reconcileDispatch_follows tok src)|].
  intros [o'|] s; simpl; [|intros ->; split; [simpl; eauto|done]].
  intros [Ho' ->]. unfold outcome_phase. apply guarded_bind, record_follows.
  intros rec e' v' Hph Hvd Hv. case_bool_decide as Hu'.
  - exists (Unknown tok src). split; [by cbn; rewrite Hph, Hvd; unfold auditVerdict; rewrite Hu'|].
    split; [do 3 right; left; eauto|done].
  - exists (Known tok src o'). split; [by cbn; rewrite Hph, Hvd; go_refl|].
    eapply guarded_mono; [by apply saga_confirmed_follows|].
    intros [res v''] s [? Hv'']. split; [done|]. destruct Hv, Hv''; split; simpl in *; congruence.
Qed.

Lemma outcome_phase_Checked tok src o : outcome_phase tok src (Checked o) = after_outcome tok src o.
Proof. done. Qed.

Lemma settled_trans v v' rv s : same_flags v v' → settled v' rv s → settled v rv s.
Proof. intros [Hm Hd] [He [Hm' Hd']]. split; [done|]. split; congruence. Qed.

(** A confirmed or unknown answer of the dispatch activity. *)
Lemma saga_answered_follows tok o v :
  follows (outcome_phase tok FromDispatch (Checked o))
    (rv ← record info req AuditPhaseDispatch (auditVerdict (Checked o))
            (outcomeDetail q (dreq req) (Checked o)) v;
     saga_outcome q info req tok (Checked o) rv.1 rv.2) (settled v).
Proof.
  apply guarded_bind, record_follows. intros rec e v' Hph Hvd Hv.
  exists (outcome_phase tok FromDispatch (Checked o)). split.
  - unfold outcome_phase. case_bool_decide as Hu; cbn; rewrite Hph, Hvd;
      unfold auditVerdict; [by rewrite Hu|by go_refl].
  - eapply guarded_mono; [apply saga_outcome_follows, Checked_status|].
    intros rv s. by apply settled_trans.
Qed.

Lemma saga_dispatch_follows tok v :
  follows (Holding tok Cleared) (saga_dispatch q info req tok v)
    (λ rv s, ends rv.1 s ∧ v_dispatching rv.2 = true).
Proof.
  set (v0 := {| v_auditSeq := v_auditSeq v; v_auditCtx := claimCtx;
                v_mayHoldClaim := v_mayHoldClaim v; v_dispatching := true |}).
  assert (Hv0 : ∀ rv s, settled v0 rv s → ends rv.1 s ∧ v_dispatching rv.2 = true).
  { intros rv s [He [_ Hd]]. by rewrite Hd. }
  apply guarded_call. intros r. exists (after_dispatch tok r). split.
  { cbn. go_refl. done. }
  destruct r as [o|e]; cbn [err_of after_dispatch].
  - eapply guarded_mono; [apply (saga_answered_follows tok o v0)|done].
  - cbv zeta. fold v0. case_bool_decide as Hf; cbn [negb].
    + eapply guarded_mono; [|exact Hv0].
      apply (saga_answered_follows tok
        (UnknownOutcome ("dispatch activity returned no outcome: " +:+ we_text e)) v0).
    + apply guarded_bind, transition_follows; [done|]. intros re.
      exists (after_fence_release tok (fenceFailure (Some e)) (is_nil re)). split; [by cbn; go_refl|].
      unfold after_fence_release. destruct (is_nil re || _) eqn:Hrel.
      * apply guarded_bind, record_follows. intros rec e1 v' Hph Hvd Hv.
        exists (NotExecuted tok). split; [by cbn; rewrite Hph, Hvd|].
        apply Hv0. split; [right; left; eauto 10|done].
      * apply guarded_bind, record_follows. intros rec e1 v' Hph Hvd Hv.
        exists (Unknown tok FromFence). split; [by cbn; rewrite Hph, Hvd|].
        eapply guarded_mono; [apply (saga_outcome_follows tok FromFence (UnknownOutcome
          ("execution fence may have committed; adapter not called: " +:+ we_text e)))|];
          [by right; right; left|].
        intros rv s Hrv. by eapply Hv0, settled_trans.
Qed.

(** How the part between claim and dispatch ends: the deferred release is due,
    the claim was refused, or dispatch was scheduled. *)
Definition claim_exit (tok : string) (rv : wf_result * SagaVars) (s : phase) : Prop :=
  if negb (v_mayHoldClaim rv.2) || v_dispatching rv.2 then ends rv.1 s
  else (∃ p, s = Holding tok p) ∧ ends rv.1 (Returned tok).

Lemma saga_revalidate_follows tok v :
  v_mayHoldClaim v = true → v_dispatching v = false →
  follows (Holding tok ClaimTaken) (saga_revalidate q info req tok v) (claim_exit tok).
Proof.
  intros Hm Hd.
  assert (Hexit : ∀ res v' p, same_flags v v' → ends res (Returned tok) →
            claim_exit tok (res, v') (Holding tok p)).
  { intros res v' p [Hm' Hd'] He. unfold claim_exit. cbn.
    rewrite Hm', Hd', Hm, Hd. cbn. eauto. }
  apply guarded_call. intros r.
  destruct r as [d|e]; (eexists; split; [cbn; go_refl; reflexivity|]).
  2:{ apply Hexit; [done|]. do 2 right; left; eauto. }
  apply guarded_bind, recordDecision_follows. intros rec re Hv _H.
  case_bool_decide as Ha; cbn [negb].
  - exists (if is_nil re then Holding tok ReRecorded else Holding tok ReAllowed).
    split; [cbn; rewrite Hv, Ha, _H; by go_refl|].
    destruct re as [re|]; [apply Hexit; [done|]; left; eauto|].
    apply guarded_bind, record_follows. intros rec' [e|] v' Hph Hvd Hf.
    + exists (Holding tok ReRecorded). split; [by cbn; rewrite Hph, Hvd|].
      apply Hexit; [done|]. left; eauto.
    + exists (Holding tok Cleared). split; [by cbn; rewrite Hph, Hvd|].
      eapply guarded_mono; [apply saga_dispatch_follows|].
      intros rv s [He Hdis]. unfold claim_exit. by rewrite Hdis, orb_true_r.
  - exists (Holding tok ReDenied). split; [cbn; rewrite Hv; by rewrite bool_decide_false|].
    apply guarded_bind, record_follows. intros rec' e v' Hph Hvd Hf.
    exists (Holding tok ReDenied). split; [by cbn; rewrite Hph, Hvd|].
    apply Hexit; [done|]. do 2 right; left; eauto.
Qed.

Lemma reject_follows s errType reason detail v (Q : wf_result * SagaVars → phase → Prop) :
  (∀ rec b, dr_Verdict rec = VerdictDeny → record_step req s rec b = Some s) →
  (∀ rec b, ar_Phase rec = AuditPhaseRevalidation → ar_Verdict rec = AuditVerdictFail →
     audit_step s rec b = Some s) →
  (∀ msg cause details v', same_flags v v' →
     Q (WfFailed (ApplicationFailure msg errType cause details), v') s) →
  follows s (reject q info req errType reason detail v) Q.
Proof.
  intros Hr Ha HQ. apply guarded_bind, recordDecision_follows. intros rec e Hv _.
  exists s. split; [by apply Hr|]. apply guarded_bind, record_follows.
  intros rec' e' v' Hph Hvd Hf. exists s. split; [by apply Ha|]. by apply HQ.
Qed.

Lemma saga_claim_follows tok :
  follows (Tokened tok) (saga_claim q info req tok initialVars) (claim_exit tok).
Proof.
  apply guarded_call. intros r.
  destruct r as [c|e]; (eexists; split; [cbn; go_refl; reflexivity|]).
  - destruct (cl_Claimed c); cbn [negb].
    + by apply saga_revalidate_follows.
    + apply reject_follows; try done.
      * intros rec b Hv. cbn. by rewrite Hv.
      * intros rec b Hph Hvd. cbn. by rewrite Hph, Hvd.
      * intros msg cause details v' [Hm Hd]. unfold claim_exit. cbn. rewrite Hm. right; left; eauto 10.
  - split; [by exists ClaimUnclear|]. right; left; eauto 10.
Qed.

Lemma workflow_follows :
  guarded (protocol req) Unverified (SentryGateSagaWorkflow q info req) ends.
Proof.
  apply guarded_call. intros r.
  destruct r as [iv|e]; (eexists; split; [cbn; go_refl; reflexivity|]).
  2:{ left; eauto. }
  destruct (iv_Valid iv); cbn [negb].
  - apply guarded_call. intros [random|e]; (eexists; split; [reflexivity|]).
    2:{ right; left; eauto. }
    cbv zeta. set (tok := ("exe_" +:+ random)%string).
    apply guarded_bind. eapply guarded_mono; [apply saga_claim_follows|].
    intros [res v] s. unfold claim_exit, release_deferred. cbn [fst snd].
    destruct (negb _ || _); [intros He; exact He|].
    intros [[p ->] He]. apply guarded_bind, guarded_bind, transition_follows; [done|].
    intros e. exists (Returned tok). split; [by cbn; go_refl|]. exact He.
  - apply guarded_bind, reject_follows.
    + intros rec b Hv. cbn. by rewrite Hv.
    + intros rec b Hph Hvd. cbn. by rewrite Hph, Hvd.
    + intros msg cause details v' Hf. left; eauto.
Qed.

(** C9: In whatever way Temporal, the stores and the adapter answer, every
    request of a workflow run is one the execution protocol allows at that
    point, and the run ends in a phase its result stands for. *)
Theorem workflow_refines_protocol :
  guarded (protocol req) Unverified (SentryGateSagaWorkflow q info req) ends.
Proof. exact workflow_follows. Qed.
End Refinement.
