(* ===== verification/Traces.v ===== *)
(** * What the protocol means for the trace of a run

    Safety of a single run, read off its trace: what has been answered before
    the dispatch is scheduled, that it is scheduled once, what an unknown
    outcome excludes, when a claim is settled or returned. Every statement is
    about traces of [SentryGateSagaWorkflow] with arbitrary answers. *)

From S2P Require Import Prelude GoBase Contracts Decision Store AuditTrail Activities Saga Protocol.
Open Scope Z_scope.
Open Scope go_scope.

Section Traces.
Context (req : ExecutionRequest).

(** ** What a phase presupposes *)

Inductive need : Type :=
| NeedIngress
| NeedToken (tok : string)
| NeedClaim (tok : string)
| NeedAllow
| NeedRecord
| NeedAudit
| NeedAnswer (o : DispatchOutcome)
| NeedAdvanced (tok : string) (to : ClaimState)
| NeedReleaseAsked (tok : string).

Definition own_transition (tok : string) (to : ClaimState) : ClaimTransition :=
  {| ct_DecisionID := er_IngressDecisionID req; ct_Token := tok; ct_To := to |}.

(** The event that meets a need. *)
Definition meets (n : need) (e : event WfReply) : Prop :=
  match n with
  | NeedIngress => ∃ c iv, iv_Valid iv = true ∧
      e = ev (Reply:=WfReply) (WfActivity c (ActVerifyIngressDecision req)) (Ok iv)
  | NeedToken tok => ∃ random, tok = "exe_" +:+ random ∧
      e = ev (Reply:=WfReply) WfSideEffect (Ok random)
  | NeedClaim tok => ∃ c cl, cl_Claimed cl = true ∧
      e = ev (Reply:=WfReply) (WfActivity c (ActClaimExecution
            {| cr_DecisionID := er_IngressDecisionID req; cr_Token := tok |})) (Ok cl)
  | NeedAllow => ∃ c d, d_Verdict d = VerdictAllow ∧
      e = ev (Reply:=WfReply) (WfActivity c (ActEvaluateExecution req)) (Ok d)
  | NeedRecord => ∃ c rec, dr_Verdict rec = VerdictAllow ∧
      dr_RequestHash rec = RequestHash (er_Proposal req) ∧
      e = ev (Reply:=WfReply) (WfActivity c (ActRecordDecision rec)) (Ok tt)
  | NeedAudit => ∃ c rec, ar_Phase rec = AuditPhaseRevalidation ∧ ar_Verdict rec = AuditVerdictPass ∧
      e = ev (Reply:=WfReply) (WfActivity c (ActRecordAuditTrail rec)) (Ok tt)
  | NeedAnswer o => ∃ c raw, o = Checked raw ∧
      ((∃ f, fd_Dispatch f = dreq req ∧
             e = ev (Reply:=WfReply) (WfActivity c (ActDispatchConfig f)) (Ok raw)) ∨
       e = ev (Reply:=WfReply) (WfActivity c (ActReconcileDispatch (dreq req))) (Ok raw))
  | NeedAdvanced tok to => ∃ c,
      e = ev (Reply:=WfReply) (WfActivity c (ActAdvanceExecutionClaim (own_transition tok to))) (Ok tt)
  | NeedReleaseAsked tok => ∃ c r, wc_disconnected c = true ∧
      e = ev (Reply:=WfReply) (WfActivity c (ActAdvanceExecutionClaim
            (own_transition tok ClaimStateReleased))) r
  end.

Definition tokened (tok : string) : list need := [NeedIngress; NeedToken tok].
(** Everything a dispatch presupposes. *)
Definition cleared (tok : string) : list need :=
  NeedIngress :: NeedToken tok :: NeedClaim tok :: NeedAllow :: NeedRecord :: [NeedAudit].

Definition needs (s : phase) : list need :=
  match s with
  | Unverified | Rejected => []
  | Verified => [NeedIngress]
  | Tokened tok | Refused tok | Holding tok ClaimUnclear => tokened tok
  | Holding tok ClaimTaken | Holding tok ReDenied => NeedClaim tok :: tokened tok
  | Holding tok ReAllowed => NeedAllow :: NeedClaim tok :: tokened tok
  | Holding tok ReRecorded => NeedRecord :: NeedAllow :: NeedClaim tok :: tokened tok
  | Holding tok Cleared => cleared tok
  | Returned tok => NeedReleaseAsked tok :: tokened tok
  | NotFenced tok _ | Unknown tok _ => cleared tok
  | NotExecuted tok => cleared tok
  | Known tok _ o | Compensated tok o => NeedAnswer o :: cleared tok
  | Finished tok o => NeedAdvanced tok ClaimStateCompleted :: NeedAnswer o :: cleared tok
  end.

Definition is_dispatch (o : WfOp) : bool :=
  match o with WfActivity _ (ActDispatchConfig _) => true | _ => false end.
Definition is_compensation (o : WfOp) : bool :=
  match o with WfActivity _ (ActRevertStateCompensation _) => true | _ => false end.

Definition dispatched (s : phase) : bool :=
  match s with
  | NotFenced _ _ | NotExecuted _ | Unknown _ _ | Known _ _ _ | Compensated _ _ | Finished _ _ => true
  | _ => false
  end.

(** ** One step of the protocol *)

Lemma require_Some b s s' : require b s = Some s' ↔ b = true ∧ s' = s.
Proof. destruct b; simpl; split; [by intros [= ->]|by intros [_ ->]|done|by intros [? _]]. Qed.

Lemma audit_step_needs s c rec r s' n :
  audit_step s rec (is_nil (err_of r)) = Some s' → n ∈ needs s' →
  n ∈ needs s ∨ meets n (ev (Reply:=WfReply) (WfActivity c (ActRecordAuditTrail rec)) r).
Proof.
  intros H Hn. unfold audit_step in H.
  destruct s as [| | | | |tok []| | | | | | |]; try done;
    apply require_Some in H as [Hb ->]; auto.
  destruct r as [[]|e]; cbn in *; [|auto].
  guard_true.
  unfold cleared, tokened in *. enum_in; subst; first [by left; in_list|right; eexists _, _; eauto].
Qed.

Lemma record_step_needs s c rec r s' n :
  record_step req s rec (is_nil (err_of r)) = Some s' → n ∈ needs s' →
  n ∈ needs s ∨ meets n (ev (Reply:=WfReply) (WfActivity c (ActRecordDecision rec)) r).
Proof.
  intros H Hn. unfold record_step in H.
  destruct s as [| | | | |tok []| | | | | | |]; try done;
    apply require_Some in H as [Hb ->]; auto.
  destruct r as [[]|e]; cbn [is_nil err_of] in *; [|auto].
  guard_true.
  cbn [needs] in *. unfold tokened in *. enum_in; subst; first [by left; in_list|right; eexists _, _; eauto].
Qed.

Lemma transition_step_needs s c t r s' n :
  wc_disconnected c = true →
  transition_step req s t (is_nil (err_of r)) = Some s' → n ∈ needs s' →
  n ∈ needs s ∨ meets n (ev (Reply:=WfReply) (WfActivity c (ActAdvanceExecutionClaim t)) r).
Proof.
  intros Hc H Hn. destruct t as [dec tk to]. unfold transition_step in H. cbn in H.
  destruct s as [| | | | |tok p| |tok ft| |tok src|tok src o| |]; try done;
    [| | |destruct (oc_Status o == OutcomeFailure)];
    apply require_Some in H as [Hb ->]; auto;
    guard_true; subst.
  - cbn in Hn. unfold tokened in Hn. enum_in; subst; [right; exists c, r; auto|..]; left; destruct p; cbn; unfold cleared, tokened; by in_list.
  - left. revert Hn. unfold after_fence_release. by destruct (_ || _).
  - destruct r as [[]|e]; cbn [is_nil err_of needs] in *; [|auto].
    apply elem_of_cons in Hn as [->|Hn]; [right; by exists c|by left].
Qed.

(** The answers of the remaining activities. *)
Lemma outcome_needs s tok src raw n e :
  (∀ m, m ∈ cleared tok → m ∈ needs s) →
  (∃ c, (∃ f, fd_Dispatch f = dreq req ∧
                e = ev (Reply:=WfReply) (WfActivity c (ActDispatchConfig f)) (Ok raw)) ∨
       e = ev (Reply:=WfReply) (WfActivity c (ActReconcileDispatch (dreq req))) (Ok raw)) →
  n ∈ needs (after_outcome tok src raw) → n ∈ needs s ∨ meets n e.
Proof.
  intros Hs [c He] Hn. unfold after_outcome in Hn. case_bool_decide; cbn [needs] in Hn; [auto|].
  apply elem_of_cons in Hn as [->|Hn]; [right|by auto]. exists c, raw. auto.
Qed.

Lemma activity_step_needs s c a r s' n :
  activity_step req s c a r = Some s' → n ∈ needs s' →
  n ∈ needs s ∨ meets n (ev (Reply:=WfReply) (WfActivity c a) r).
Proof.
  intros H Hn. destruct a as [rec|rec|req'|cr|req'|t|f|d|d]; cbn [activity_step] in H.
  - by eapply audit_step_needs.
  - by eapply record_step_needs.
  - destruct s; try done. apply require_Some in H as [Hb ->]. guard_true; subst.
    destruct r as [iv|e]; [destruct (iv_Valid iv) eqn:Hv|]; cbn in Hn; enum_in; subst.
    right. exists c, iv. auto.
  - destruct s as [| | |tok| | | | | | | | |]; try done. apply require_Some in H as [Hb ->].
    destruct cr as [dec tk]. guard_true; simpl in *; subst.
    destruct r as [cl|e]; [destruct (cl_Claimed cl) eqn:Hv|]; cbn [needs] in Hn; auto.
    apply elem_of_cons in Hn as [->|Hn]; [right; exists c, cl; auto|by left].
  - destruct s as [| | | | |tok []| | | | | | |]; try done. apply require_Some in H as [Hb ->].
    guard_true; subst. destruct r as [d|e]; [case_bool_decide as Hv|]; cbn [needs] in Hn; auto.
    apply elem_of_cons in Hn as [->|Hn]; [right; exists c, d; auto|by left].
  - destruct (wc_disconnected c) eqn:Hc; [|done]. by eapply transition_step_needs.
  - destruct s as [| | | | |tok []| | | | | | |]; try done. apply require_Some in H as [Hb ->].
    guard_true; subst. destruct r as [raw|e]; cbn [after_dispatch] in Hn.
    + eapply outcome_needs; [|exists c; left; eexists; split; [|reflexivity]; reflexivity|exact Hn]. done.
    + left. revert Hn. by destruct (_ == _).
  - destruct s as [| | | | | | | | |tok src| | |]; try done. apply require_Some in H as [Hb ->].
    guard_true; subst. destruct r as [raw|e]; [|by left].
    eapply outcome_needs; [|by eauto|exact Hn]. done.
  - destruct s as [| | | | | | | | | |tok src o| |]; try done. apply require_Some in H as [Hb ->].
    by left.
Qed.

Lemma protocol_needs s o r s' n :
  protocol req s o r = Some s' → n ∈ needs s' → n ∈ needs s ∨ meets n (ev o r).
Proof.
  destruct o as [c a| | |d]; cbn [protocol].
  - apply activity_step_needs.
  - intros H Hn. destruct s; try done. destruct r as [random|e]; injection H as <-; [|by left].
    cbn in Hn. unfold tokened in Hn. enum_in; subst; [by left; left|right; by exists random].
  - intros [= ->]; auto.
  - destruct s; intros; simplify_eq; auto.
Qed.

(** Whatever a phase presupposes has happened. *)
Lemma protocol_established tr s n :
  monitor (protocol req) Unverified tr = Some s → n ∈ needs s → ∃ e, e ∈ tr ∧ meets n e.
Proof.
  intros Hm. revert n. pattern tr, s. revert tr s Hm. apply monitor_trace_inv.
  - intros n Hn. by apply not_elem_of_nil in Hn.
  - intros tr s1 o r s2 IH Hstep n Hn. destruct (protocol_needs _ _ _ _ _ Hstep Hn) as [Hold|Hnew].
    + destruct (IH n Hold) as (e & He & Hme). exists e. split; [by apply elem_of_app; left|done].
    + exists (ev o r). split; [by apply elem_of_app; right; left|done].
Qed.

(** ** Dispatch and compensation happen once *)

(** Every way an activity's answer moves the protocol from [s]. *)
Ltac protocol_cases s H :=
  unfold audit_step, record_step, transition_step, after_fence_release, after_dispatch, after_outcome in H;
  destruct s as [| | | | |? []| | | | | | |]; try done; cbn in H;
  repeat (case_match; try done); unfold require in *; repeat (case_match; try done); simplify_eq.

Lemma protocol_dispatched s o r s' :
  protocol req s o r = Some s' →
  if is_dispatch o then dispatched s = false ∧ dispatched s' = true else dispatched s' = dispatched s.
Proof.
  destruct o as [c a| | |d]; cbn [protocol is_dispatch].
  - destruct a; cbn [activity_step]; intros H; by protocol_cases s H.
  - destruct s, r; intros; by simplify_eq.
  - by intros [= ->].
  - destruct s; intros; by simplify_eq.
Qed.

Lemma protocol_dispatches tr s :
  monitor (protocol req) Unverified tr = Some s →
  count_ops is_dispatch tr = if dispatched s then 1%nat else 0%nat.
Proof.
  revert tr s. apply monitor_trace_inv; [done|]. intros tr s1 o r s2 IH Hstep.
  rewrite count_ops_app, count_ops_one, IH. apply protocol_dispatched in Hstep.
  destruct (is_dispatch o); [by destruct Hstep as [-> ->]|rewrite Hstep; lia].
Qed.

Definition compensated (s : phase) : bool := match s with Compensated _ _ => true | _ => false end.

Lemma protocol_compensated s o r s' :
  protocol req s o r = Some s' →
  if is_compensation o then compensated s = false ∧ compensated s' = true
  else compensated s' = compensated s.
Proof.
  destruct o as [c a| | |d]; cbn [protocol is_compensation].
  - destruct a; cbn [activity_step]; intros H; by protocol_cases s H.
  - destruct s, r; intros; by simplify_eq.
  - by intros [= ->].
  - destruct s; intros; by simplify_eq.
Qed.

Lemma protocol_compensations tr s :
  monitor (protocol req) Unverified tr = Some s →
  count_ops is_compensation tr = if compensated s then 1%nat else 0%nat.
Proof.
  revert tr s. apply monitor_trace_inv; [done|]. intros tr s1 o r s2 IH Hstep.
  rewrite count_ops_app, count_ops_one, IH. apply protocol_compensated in Hstep.
  destruct (is_compensation o); [by destruct Hstep as [-> ->]|rewrite Hstep; lia].
Qed.

(** ** The phases in which the adapter may have been called *)

(** Where a claim may go when its dispatch may have taken effect. *)
Definition settling : list ClaimState := [ClaimStateReconciliationRequired; ClaimStateCompleted; ClaimStateFailed].

Definition possibly_applied (s : phase) : bool :=
  match s with Unknown _ _ | Known _ _ _ | Compensated _ _ | Finished _ _ => true | _ => false end.

Lemma protocol_possibly_applied s o r s' :
  possibly_applied s = true → protocol req s o r = Some s' → possibly_applied s' = true.
Proof.
  intros Hs H. destruct o as [c a| | |d]; cbn [protocol] in H; [|by destruct s|by simplify_eq|].
  - destruct a; cbn [activity_step] in H; by protocol_cases s H.
  - destruct s; by simplify_eq.
Qed.

Lemma protocol_settling s c t r s' :
  possibly_applied s = true →
  protocol req s (WfActivity c (ActAdvanceExecutionClaim t)) r = Some s' →
  ct_To t ∈ settling.
Proof.
  intros Hs H. cbn in H. destruct (wc_disconnected c); [|done].
  unfold transition_step in H. destruct s; try done; [|destruct (_ == _)];
    apply require_Some in H as [Hb _]; guard_true;
    match goal with H : ct_To t = _ |- _ => rewrite H end; in_list.
Qed.

(** ** Claims that may be held *)

Definition may_hold (e : event WfReply) : bool :=
  match e with
  | existT (WfActivity c (ActClaimExecution cr)) r =>
      match r with Ok cl => cl_Claimed cl | Err _ => true end
  | _ => false
  end.

Definition unclaimed (s : phase) : bool :=
  match s with Unverified | Rejected | Verified | Tokened _ | Refused _ => true | _ => false end.

Lemma protocol_unclaimed s o r s' :
  protocol req s o r = Some s' → unclaimed s' = true →
  unclaimed s = true ∧ may_hold (ev o r) = false.
Proof.
  intros H Hs'. destruct o as [c a| | |d]; cbn [protocol] in H.
  - destruct a; cbn [activity_step] in H; by protocol_cases s H.
  - destruct s, r; by simplify_eq.
  - by simplify_eq.
  - destruct s; by simplify_eq.
Qed.

Lemma protocol_no_claim tr s :
  monitor (protocol req) Unverified tr = Some s → unclaimed s = true →
  ∀ e, e ∈ tr → may_hold e = false.
Proof.
  revert tr s. apply (monitor_trace_inv _ (λ tr s, unclaimed s = true → ∀ e, e ∈ tr → may_hold e = false)).
  - intros _ e He. by apply not_elem_of_nil in He.
  - intros tr s1 o r s2 IH Hstep Hu e He. destruct (protocol_unclaimed _ _ _ _ Hstep Hu) as [Hu1 Hm].
    apply elem_of_app in He as [He|He]; [by apply IH|]. by apply list_elem_of_singleton in He as ->.
Qed.
End Traces.

(** ** Runs of the workflow *)

Section Runs.
Context (q : string → string) (info : execution) (req : ExecutionRequest).

Lemma run_monitor tr p :
  reaches (SentryGateSagaWorkflow q info req) tr p →
  ∃ s, monitor (protocol req) Unverified tr = Some s ∧ guarded (protocol req) s p ends.
Proof. apply guarded_reaches, workflow_follows. Qed.

Lemma run_end tr res :
  reaches (SentryGateSagaWorkflow q info req) tr (Ret res) →
  ∃ s, monitor (protocol req) Unverified tr = Some s ∧ ends res s.
Proof. apply run_monitor. Qed.

(** The operation at position [i] of a run, with what preceded it. *)
Lemma run_lookup tr p i o r :
  reaches (SentryGateSagaWorkflow q info req) tr p → tr !! i = Some (ev o r) →
  ∃ s1 s2 s, monitor (protocol req) Unverified (take i tr) = Some s1 ∧
    protocol req s1 o r = Some s2 ∧ monitor (protocol req) s2 (drop (S i) tr) = Some s ∧
    monitor (protocol req) Unverified tr = Some s.
Proof.
  intros (s & Hm & _)%run_monitor Hi. destruct (monitor_lookup _ _ _ _ _ _ _ Hm Hi) as (s1 & s2 & H).
  exists s1, s2, s. destruct_and!. eauto.
Qed.

(** The phase in which the dispatch activity is scheduled. *)
Lemma run_dispatch tr p i c f r :
  reaches (SentryGateSagaWorkflow q info req) tr p →
  tr !! i = Some (ev (Reply:=WfReply) (WfActivity c (ActDispatchConfig f)) r) →
  ∃ tok, monitor (protocol req) Unverified (take i tr) = Some (Holding tok Cleared) ∧
    f = {| fd_DecisionID := er_IngressDecisionID req; fd_Token := tok; fd_Dispatch := dreq req |} ∧
    rp_MaximumAttempts (ao_RetryPolicy (wc_opts c)) = 1.
Proof.
  intros Hr Hi. destruct (run_lookup _ _ _ _ _ Hr Hi) as (s1 & s2 & s & H1 & Hs & _).
  cbn in Hs. destruct s1 as [| | | | |tok []| | | | | | |]; try done.
  apply require_Some in Hs as [Hb ->]. guard_true; subst. eauto.
Qed.

(** C10: A run schedules the dispatch activity at most once, with a retry policy
    of one attempt and exactly this request's decision, key, proposal and
    token; and by then the ingress decision has verified, the claim has been
    acquired under that token, the re-evaluation under the current policy has
    answered ALLOW, and its decision record and PASS audit row have been
    persisted. *)
Theorem dispatch_only_when_cleared tr p i c f r :
  reaches (SentryGateSagaWorkflow q info req) tr p →
  tr !! i = Some (ev (Reply:=WfReply) (WfActivity c (ActDispatchConfig f)) r) →
  (∃ tok, f = {| fd_DecisionID := er_IngressDecisionID req; fd_Token := tok; fd_Dispatch := dreq req |} ∧
     ∀ n, n ∈ cleared tok → ∃ e, e ∈ take i tr ∧ meets req n e) ∧
  rp_MaximumAttempts (ao_RetryPolicy (wc_opts c)) = 1 ∧
  count_ops is_dispatch tr = 1%nat.
Proof.
  intros Hr Hi. destruct (run_dispatch _ _ _ _ _ _ Hr Hi) as (tok & H1 & Hf & Hatt).
  destruct (run_monitor _ _ Hr) as (s & Hm & _). split_and!; [|done|].
  - exists tok. split; [done|]. intros n Hn. by eapply protocol_established.
  - rewrite (protocol_dispatches _ _ _ Hm). pose proof (protocol_dispatches _ _ _ Hm) as Hc.
    rewrite <- (take_drop_middle _ _ _ Hi), count_ops_app in Hc. cbn in Hc.
    destruct (dispatched s); lia.
Qed.

(** C11: Once the dispatch was scheduled and its answer does not say that the
    fence kept the adapter from being called, the run never asks to release
    the claim, nor to advance it to anything but RECONCILIATION_REQUIRED,
    COMPLETED or FAILED; and it never dispatches again. *)
Theorem unknown_outcome_never_released tr p i j c f r c' t r' :
  reaches (SentryGateSagaWorkflow q info req) tr p →
  tr !! i = Some (ev (Reply:=WfReply) (WfActivity c (ActDispatchConfig f)) r) →
  fenceFailure (err_of r) = "" → (i < j)%nat →
  tr !! j = Some (ev (Reply:=WfReply) (WfActivity c' (ActAdvanceExecutionClaim t)) r') →
  ct_To t ∈ settling.
Proof.
  intros Hr Hi Hf Hij Hj. destruct (run_lookup _ _ _ _ _ Hr Hi) as (s1 & s2 & s & H1 & Hs & H2 & Hm).
  assert (Hp : possibly_applied s2 = true).
  { cbn in Hs. destruct s1 as [| | | | |tok []| | | | | | |]; try done.
    apply require_Some in Hs as [_ ->]. destruct r as [o|e]; cbn in Hf |- *.
    - unfold after_outcome. by case_bool_decide.
    - by rewrite bool_decide_true. }
  replace j with (S i + (j - S i))%nat in Hj by lia. rewrite <- lookup_drop in Hj.
  destruct (monitor_lookup _ _ _ _ _ _ _ H2 Hj) as (s3 & s4 & H3 & Ht & _).
  eapply protocol_settling; [|exact Ht].
  eapply (monitor_inv _ (λ s, possibly_applied s = true)); [|exact Hp|exact H3].
  intros ???? ??. by eapply protocol_possibly_applied.
Qed.

(** A transition to COMPLETED or FAILED follows the answer that confirms it. *)
Lemma run_settles tr p i c t r :
  reaches (SentryGateSagaWorkflow q info req) tr p →
  tr !! i = Some (ev (Reply:=WfReply) (WfActivity c (ActAdvanceExecutionClaim t)) r) →
  ct_DecisionID t = er_IngressDecisionID req ∧
  (ct_To t = ClaimStateCompleted →
   ∃ o e, oc_Status o = OutcomeSuccess ∧ e ∈ take i tr ∧ meets req (NeedAnswer o) e) ∧
  (ct_To t = ClaimStateFailed →
   ∃ o e, oc_Status o = OutcomeFailure ∧ e ∈ take i tr ∧ meets req (NeedAnswer o) e).
Proof.
  intros Hr Hi. destruct (run_lookup _ _ _ _ _ Hr Hi) as (s1 & s2 & s & H1 & Hs & H2 & Hm).
  cbn in Hs. destruct (wc_disconnected c); [|done]. unfold transition_step in Hs.
  destruct s1 as [| | | | |tok p'| |tok ft| |tok src|tok src o| |]; try done;
    [| | |destruct (oc_Status o == OutcomeFailure) eqn:Ho];
    apply require_Some in Hs as [Hb _]; guard_true; (split; [done|]); split;
    match goal with H : ct_To t = _ |- _ => rewrite H end; intros Ht; try discriminate Ht;
    exists o; destruct (protocol_established req _ _ (NeedAnswer o) H1) as (e & ? & ?); try (by left);
    exists e; auto.
Qed.

(** C12: A run asks to mark the claim COMPLETED only after the adapter, asked
    for this run's key by dispatch or by reconciliation, answered SUCCESS, and
    FAILED only after it answered FAILURE; and it asks so only for the claim of
    its own decision. *)
Theorem settled_only_when_confirmed tr p i c t r :
  reaches (SentryGateSagaWorkflow q info req) tr p →
  tr !! i = Some (ev (Reply:=WfReply) (WfActivity c (ActAdvanceExecutionClaim t)) r) →
  ct_DecisionID t = er_IngressDecisionID req ∧
  (ct_To t = ClaimStateCompleted →
   ∃ o e, oc_Status o = OutcomeSuccess ∧ e ∈ take i tr ∧ meets req (NeedAnswer o) e) ∧
  (ct_To t = ClaimStateFailed →
   ∃ o e, oc_Status o = OutcomeFailure ∧ e ∈ take i tr ∧ meets req (NeedAnswer o) e).
Proof. apply run_settles. Qed.

(** C13: A run compensates at most once, for its own key and proposal, in one
    attempt that cancellation does not stop, and only after the adapter
    answered FAILURE with evidence that the target was partially changed. *)
Theorem compensation_needs_evidence tr p i c d r :
  reaches (SentryGateSagaWorkflow q info req) tr p →
  tr !! i = Some (ev (Reply:=WfReply) (WfActivity c (ActRevertStateCompensation d)) r) →
  d = dreq req ∧ rp_MaximumAttempts (ao_RetryPolicy (wc_opts c)) = 1 ∧ wc_disconnected c = true ∧
  count_ops is_compensation tr = 1%nat ∧
  ∃ o e, oc_Status o = OutcomeFailure ∧ oc_PartiallyApplied o = true ∧
         e ∈ take i tr ∧ meets req (NeedAnswer o) e.
Proof.
  intros Hr Hi. destruct (run_lookup _ _ _ _ _ Hr Hi) as (s1 & s2 & s & H1 & Hs & H2 & Hm).
  cbn in Hs. destruct s1 as [| | | | |tok p'| |tok ft| |tok src|tok src o| |]; try done.
  apply require_Some in Hs as [Hb ->]. guard_true; subst. split_and!; try done.
  - rewrite (protocol_compensations _ _ _ Hm). pose proof (protocol_compensations _ _ _ Hm) as Hc.
    rewrite <- (take_drop_middle _ _ _ Hi), count_ops_app in Hc. cbn in Hc.
    destruct (compensated s); lia.
  - destruct (protocol_established req _ _ (NeedAnswer o) H1) as (e & ? & ?); [by left|]. eauto 10.
Qed.

(** C14: No exit before dispatch strands a claim: if a finished run asked for
    the claim and was not refused (it got it, or could not learn whether it
    did), then it has scheduled the dispatch or has asked to release the
    claim, by a request that cancellation of the workflow does not stop. *)
Theorem claim_never_stranded tr res e :
  reaches (SentryGateSagaWorkflow q info req) tr (Ret res) → e ∈ tr → may_hold e = true →
  count_ops is_dispatch tr = 1%nat ∨
  ∃ tok e', e' ∈ tr ∧ meets req (NeedReleaseAsked tok) e'.
Proof.
  intros (s & Hm & He)%run_end Hin Hh.
  assert (Hu : unclaimed s = false).
  { destruct (unclaimed s) eqn:Hu; [|done].
    by rewrite (protocol_no_claim _ _ _ Hm Hu e Hin) in Hh. }
  rewrite (protocol_dispatches _ _ _ Hm).
  destruct s as [| | | | |tok p|tok| | | | | |]; try done; try (by left).
  - exfalso. destruct res as [|[]|]; cbn in He; naive_solver.
  - right. destruct (protocol_established req _ _ (NeedReleaseAsked tok) Hm) as (e' & ? & ?);
      [by left|]. eauto.
Qed.

(** A run that completes was cleared for dispatch, dispatched exactly once,
    got a SUCCESS answer, had its claim marked COMPLETED, and compensated
    nothing. *)
Theorem completed_run tr :
  reaches (SentryGateSagaWorkflow q info req) tr (Ret WfCompleted) →
  count_ops is_dispatch tr = 1%nat ∧ count_ops is_compensation tr = 0%nat ∧
  ∃ tok o, oc_Status o = OutcomeSuccess ∧
    ∀ n, n ∈ NeedAdvanced tok ClaimStateCompleted :: NeedAnswer o :: cleared tok →
         ∃ e, e ∈ tr ∧ meets req n e.
Proof.
  intros (s & Hm & (tok & o & -> & Ho))%run_end. split_and!.
  - by rewrite (protocol_dispatches _ _ _ Hm).
  - by rewrite (protocol_compensations _ _ _ Hm).
  - exists tok, o. split; [done|]. intros n Hn. by eapply protocol_established.
Qed.

(** A run that reports its request rejected at ingress verification or
    denied at re-validation has scheduled no dispatch and no compensation. *)
Theorem rejected_run_dispatched_nothing tr msg ty cause details :
  reaches (SentryGateSagaWorkflow q info req) tr (Ret (WfFailed (ApplicationFailure msg ty cause details))) →
  ty ∈ [IngressDecisionInvalidErrorType; RevalidationDeniedErrorType] →
  count_ops is_dispatch tr = 0%nat ∧ count_ops is_compensation tr = 0%nat.
Proof.
  intros (s & Hm & He)%run_end Hty.
  rewrite (protocol_dispatches _ _ _ Hm), (protocol_compensations _ _ _ Hm).
  cbn in He. enum_in; subst; naive_solver.
Qed.
End Runs.

(** ** Sample runs *)

Definition sample_request : ExecutionRequest :=
  {| er_AgentID := "agent-sim"; er_Proposal := sample_proposal;
     er_IngressDecisionID := "dec_1"; er_RequestHash := RequestHash sample_proposal |}.
Definition sample_execution : execution := {| x_ID := "saga-p-1"; x_RunID := "run-1" |}.

(** An environment in which every step succeeds until the dispatch, which is
    answered with [d]; reconciliation is answered with [rc]. The state is the
    workflow clock. *)
Definition answers (d rc : result WfError DispatchOutcome) (now : Time) (o : WfOp) : Time * WfReply o :=
  match o return Time * WfReply o with
  | WfActivity _ a => (now,
      match a return result WfError (ActValue a) with
      | ActVerifyIngressDecision _ => Ok {| iv_Valid := true; iv_Reason := ""; iv_Detail := "" |}
      | ActClaimExecution _ => Ok {| cl_Claimed := true; cl_Reason := ""; cl_Detail := "" |}
      | ActEvaluateExecution req => Ok (Revalidate (Some Policy.default_snapshot) req)
      | ActDispatchConfig _ => d
      | ActReconcileDispatch _ => rc
      | ActRecordAuditTrail _ | ActRecordDecision _ | ActAdvanceExecutionClaim _
      | ActRevertStateCompensation _ => Ok tt
      end)
  | WfSideEffect => (now, Ok "r1")
  | WfNow => (now, now)
  | WfSleep d => (now + d, None)
  end.

Definition sample_run (d rc : result WfError DispatchOutcome) : list (event WfReply) * wf_result :=
  traced (answers d rc) 1 (SentryGateSagaWorkflow id sample_execution sample_request).

Lemma sample_run_reaches d rc :
  reaches (SentryGateSagaWorkflow id sample_execution sample_request)
    (sample_run d rc).1 (Ret (sample_run d rc).2).
Proof. exact (traced_run (answers d rc) 1 _). Qed.

Definition applied : DispatchOutcome :=
  {| oc_Status := OutcomeSuccess; oc_PartiallyApplied := false; oc_Detail := "" |}.
Definition partly_applied : DispatchOutcome :=
  {| oc_Status := OutcomeFailure; oc_PartiallyApplied := true; oc_Detail := "half way" |}.
Definition timed_out : WfError := {| we_type := None; we_text := "activity StartToClose timeout" |}.
Definition sample_fenced : FencedDispatch :=
  {| fd_DecisionID := "dec_1"; fd_Token := "exe_r1"; fd_Dispatch := dreq sample_request |}.

Lemma dispatch_only_when_cleared_witness :
  count_ops is_dispatch (sample_run (Ok applied) (Ok applied)).1 = 1%nat.
Proof.
  refine (proj2 (proj2 (dispatch_only_when_cleared id sample_execution sample_request
    (sample_run (Ok applied) (Ok applied)).1 _ 8 ctx sample_fenced (Ok applied)
    (sample_run_reaches (Ok applied) (Ok applied)) _))).
  vm_compute. reflexivity.
Defined.

(** A dispatch that times out, and whose effect reconciliation then confirms. *)
Lemma unknown_outcome_never_released_witness :
  ClaimStateReconciliationRequired ∈ settling.
Proof.
  refine (unknown_outcome_never_released id sample_execution sample_request
    (sample_run (Err timed_out) (Ok applied)).1 _ 8 11 ctx sample_fenced (Err timed_out) claimCtx
    (own_transition sample_request "exe_r1" ClaimStateReconciliationRequired) (Ok tt)
    (sample_run_reaches (Err timed_out) (Ok applied)) _ _ _ _).
  - vm_compute. reflexivity.
  - reflexivity.
  - lia.
  - vm_compute. reflexivity.
Defined.

Lemma settled_only_when_confirmed_witness :
  ∃ o e, oc_Status o = OutcomeSuccess ∧ e ∈ take 11 (sample_run (Ok applied) (Ok applied)).1 ∧
         meets sample_request (NeedAnswer o) e.
Proof.
  refine (proj1 (proj2 (settled_only_when_confirmed id sample_execution sample_request
    (sample_run (Ok applied) (Ok applied)).1 _ 11 claimCtx
    (own_transition sample_request "exe_r1" ClaimStateCompleted) (Ok tt)
    (sample_run_reaches (Ok applied) (Ok applied)) _)) _).
  - vm_compute. reflexivity.
  - reflexivity.
Defined.

Lemma compensation_needs_evidence_witness :
  count_ops is_compensation (sample_run (Ok partly_applied) (Ok applied)).1 = 1%nat.
Proof.
  refine (proj1 (proj2 (proj2 (proj2 (compensation_needs_evidence id sample_execution sample_request
    (sample_run (Ok partly_applied) (Ok applied)).1 _ 12 compCtx (dreq sample_request) (Ok tt)
    (sample_run_reaches (Ok partly_applied) (Ok applied)) _))))).
  vm_compute. reflexivity.
Defined.

Lemma claim_never_stranded_witness :
  count_ops is_dispatch (sample_run (Ok applied) (Ok applied)).1 = 1%nat ∨
  ∃ tok e', e' ∈ (sample_run (Ok applied) (Ok applied)).1 ∧
            meets sample_request (NeedReleaseAsked tok) e'.
Proof.
  refine (claim_never_stranded id sample_execution sample_request
    (sample_run (Ok applied) (Ok applied)).1 _
    (ev (Reply:=WfReply) (WfActivity bookCtx (ActClaimExecution {| cr_DecisionID := "dec_1"; cr_Token := "exe_r1" |}))
        (Ok {| cl_Claimed := true; cl_Reason := ""; cl_Detail := "" |}))
    (sample_run_reaches (Ok applied) (Ok applied)) _ _); [|reflexivity].
  apply (list_elem_of_lookup_2 _ 2). vm_compute. reflexivity.
Defined.

Lemma completed_run_witness :
  count_ops is_dispatch (sample_run (Err timed_out) (Ok applied)).1 = 1%nat.
Proof.
  refine (proj1 (completed_run id sample_execution sample_request
    (sample_run (Err timed_out) (Ok applied)).1 _)).
  replace WfCompleted with (sample_run (Err timed_out) (Ok applied)).2 by (vm_compute; reflexivity).
  exact (sample_run_reaches (Err timed_out) (Ok applied)).
Defined.

(** The environment of [answers], but re-evaluated without a policy. *)
Definition no_policy (now : Time) (o : WfOp) : Time * WfReply o :=
  match o return Time * WfReply o with
  | WfActivity c a => (now,
      match a return result WfError (ActValue a) with
      | ActEvaluateExecution req => Ok (Revalidate None req)
      | a => (answers (Ok applied) (Ok applied) now (WfActivity c a)).2
      end)
  | o => answers (Ok applied) (Ok applied) now o
  end.

Lemma rejected_run_dispatched_nothing_witness :
  let run := traced no_policy 1 (SentryGateSagaWorkflow id sample_execution sample_request) in
  count_ops is_dispatch run.1 = 0%nat.
Proof.
  intros run.
  refine (proj1 (rejected_run_dispatched_nothing id sample_execution sample_request run.1
    "proposal denied at workflow re-validation: DENY POLICY_UNAVAILABLE" RevalidationDeniedErrorType None [] _ _)).
  - replace (WfFailed _) with run.2 by (vm_compute; reflexivity).
    exact (traced_run no_policy 1 _).
  - in_list.
Defined.
