(* ===== verification/Trail.v ===== *)
(** * The audit records a run asks for

    Every audit record of a run of [SentryGateSagaWorkflow] is its own, of one
    of the phases of shared/contracts/audit.go, and numbered: the n-th record
    carries the sequence number n in its ID. Record IDs of different runs, and
    of different records of one run, are different. *)

From Stdlib Require Import Ascii.
From S2P Require Import Prelude GoBase GoText Contracts Decision Store AuditTrail Activities Saga Protocol.
Open Scope Z_scope.
Open Scope go_scope.

Definition phases : list AuditPhase :=
  [AuditPhaseRevalidation; AuditPhaseExecutionFence; AuditPhaseDispatch; AuditPhaseReconciliation;
   AuditPhaseCompensation; AuditPhaseWorkflowComplete; AuditPhaseWorkflowFailed].

(** The format of newAuditRecord's record IDs. *)
Definition record_id (proposalID runID : string) (phase : AuditPhase) (seq : Z) : string :=
  proposalID +:+ "-" +:+ runID +:+ "-" +:+ phase +:+ "-" +:+ pretty seq.

Section Trail.
Context (q : string → string) (info : execution) (req : ExecutionRequest).

(** The record is the run's own, with sequence number [n]. *)
Definition own_audit (n : Z) (rec : AuditRecord) : bool :=
  bool_decide (ar_Phase rec ∈ phases) &&
  (rec == newAuditRecord (p_ID (prop req)) (x_ID info) (x_RunID info) (ar_Phase rec) (ar_Verdict rec) (prop req)
            (ar_Detail rec) (ar_RecordedAt rec) n).

(** Counts the audit records asked for and refuses one that is not numbered in
    turn. *)
Definition numbered (n : Z) (o : WfOp) (_ : WfReply o) : option Z :=
  match o with
  | WfActivity _ (ActRecordAuditTrail rec) => if own_audit (n + 1) rec then Some (n + 1) else None
  | _ => Some n
  end.

Definition no_audit (o : WfOp) : Prop :=
  match o with WfActivity _ (ActRecordAuditTrail _) => False | _ => True end.

Lemma quiet_numbered {B} n (p : wf B) : calls_only no_audit p → guarded numbered n p (λ _ n', n' = n).
Proof.
  induction p as [b|o k IH]; [done|]. intros [Ho Hk]. apply guarded_call. intros r. exists n.
  split; [by destruct o as [? []| | |]|]. by apply IH.
Qed.

Lemma record_numbered phase verdict detail v : phase ∈ phases →
  guarded numbered (v_auditSeq v) (record info req phase verdict detail v) (λ rv n, n = v_auditSeq rv.2).
Proof.
  intros Hp. unfold record, ExecuteActivity, wop, op. apply guarded_call. intros now. eexists. split; [done|].
  apply guarded_call. intros r. exists (v_auditSeq v + 1). split; [|done]. cbn -[own_audit].
  unfold own_audit. rewrite bool_decide_true by done. cbn [andb]. by rewrite bool_decide_true.
Qed.

Lemma transition_quiet token c to : calls_only no_audit (transition req token c to).
Proof. by unfold transition. Qed.
Lemma recordDecision_quiet dec : calls_only no_audit (recordDecision info req dec).
Proof. by unfold recordDecision. Qed.
Lemma activity_quiet c a : no_audit (WfActivity c a) → calls_only no_audit (ExecuteActivity c a).
Proof. by intros. Qed.

Lemma reconcile_quiet d : calls_only no_audit (reconcileDispatch d).
Proof.
  unfold reconcileDispatch. apply calls_only_bind; [done|]. intros start. generalize reconcileFirstWait.
  induction reconcileFuel as [|n IH]; intros wait; cbn [reconcile_loop]; [done|].
  apply calls_only_bind; [done|]. intros r. case_match; [done|].
  apply calls_only_bind; [done|]. intros now. case_match; [done|].
  apply calls_only_bind; [done|]. intros [e|]; [done|]. apply IH.
Qed.

Lemma wop_quiet o : no_audit o → calls_only no_audit (wop o).
Proof. by intros. Qed.
End Trail.

Create HintDb trail discriminated.
#[export] Hint Resolve transition_quiet recordDecision_quiet activity_quiet reconcile_quiet wop_quiet : trail.

(** Follows a program of the workflow, counting its audit records. *)
Ltac follow_trail :=
  repeat match goal with
  | |- guarded _ _ (mret _) _ => reflexivity
  | |- guarded _ _ (let _ := _ in _) _ => cbv zeta
  | |- guarded _ _ (record _ _ _ _ _ _) _ => apply record_numbered; unfold phases; in_list
  | |- guarded _ _ (mbind _ _) _ =>
      apply guarded_bind; eapply guarded_mono;
        [first [apply record_numbered; unfold phases; in_list
               |apply quiet_numbered; first [solve [auto with trail]|by apply activity_quiet|by apply wop_quiet]]
        |cbv beta; intros ? ? ->]
  | |- guarded _ _ (match ?x with _ => _ end) _ => destruct x
  end.

Section Numbered.
Context (q : string → string) (info : execution) (req : ExecutionRequest).
Abbreviation counts v p := (guarded (numbered info req) (v_auditSeq v) p (λ rv n, n = v_auditSeq rv.2)).

Lemma reject_numbered errType reason detail v : counts v (reject q info req errType reason detail v).
Proof. unfold reject. follow_trail. Qed.

Lemma success_numbered token auditErr v : counts v (saga_success info req token auditErr v).
Proof. unfold saga_success. follow_trail. Qed.

Lemma dispatch_failed_numbered failure v : counts v (dispatch_failed info req failure v).
Proof. unfold dispatch_failed. follow_trail. Qed.

Lemma failure_numbered token o v : counts v (saga_failure info req token o v).
Proof. unfold saga_failure. follow_trail; apply dispatch_failed_numbered. Qed.

Lemma confirmed_numbered token o auditErr v : counts v (saga_confirmed info req token o auditErr v).
Proof. unfold saga_confirmed. follow_trail; [apply failure_numbered|apply success_numbered]. Qed.

Lemma outcome_numbered token o auditErr v : counts v (saga_outcome q info req token o auditErr v).
Proof. unfold saga_outcome. follow_trail; apply confirmed_numbered. Qed.

Lemma dispatch_numbered token v : counts v (saga_dispatch q info req token v).
Proof.
  unfold saga_dispatch. set (v' := {| v_dispatching := true |}). change (v_auditSeq v) with (v_auditSeq v').
  follow_trail; apply outcome_numbered.
Qed.

Lemma revalidate_numbered token v : counts v (saga_revalidate q info req token v).
Proof. unfold saga_revalidate. follow_trail. apply dispatch_numbered. Qed.

Lemma claim_numbered token v : counts v (saga_claim q info req token v).
Proof.
  unfold saga_claim. cbv zeta.
  follow_trail; [apply (reject_numbered _ _ _ {| v_auditSeq := v_auditSeq v |})
                |apply (revalidate_numbered token {| v_auditSeq := v_auditSeq v |})].
Qed.

Lemma release_quiet token v : calls_only no_audit (release_deferred req token v).
Proof. unfold release_deferred. by case_match. Qed.

Lemma workflow_numbered : guarded (numbered info req) 0 (SentryGateSagaWorkflow q info req) (λ _ _, True).
Proof.
  unfold SentryGateSagaWorkflow. apply guarded_bind. eapply guarded_mono; [by apply quiet_numbered|].
  intros [iv|e] ? ->; [|done]. destruct (negb (iv_Valid iv)).
  - apply guarded_bind. eapply guarded_mono; [apply (reject_numbered _ _ _ initialVars)|done].
  - apply guarded_bind. eapply guarded_mono; [by apply quiet_numbered|]. intros [random|e] ? ->; [|done].
    apply guarded_bind. eapply guarded_mono; [apply (claim_numbered _ initialVars)|]. intros rv n ->.
    apply guarded_bind. eapply guarded_mono; [apply quiet_numbered, release_quiet|done].
Qed.
End Numbered.

(** ** Record IDs can be read back *)

Fixpoint has_dash (s : string) : bool :=
  match s with
  | EmptyString => false
  | String c s => bool_decide (c = "-"%char) || has_dash s
  end.

Lemma append_cons c s t : String c s +:+ t = String c (s +:+ t).
Proof. done. Qed.
Lemma append_nil_l s : "" +:+ s = s.
Proof. done. Qed.

Lemma has_dash_app s t : has_dash (s +:+ t) = has_dash s || has_dash t.
Proof.
  induction s as [|c s IH]; [done|]. rewrite append_cons. cbn [has_dash]. by rewrite IH, orb_assoc.
Qed.

Lemma split_dash s s' t t' : has_dash t = false → has_dash t' = false →
  s +:+ "-" +:+ t = s' +:+ "-" +:+ t' → s = s' ∧ t = t'.
Proof.
  intros Ht Ht'. revert s'. induction s as [|c s IH]; intros [|c' s']; rewrite ?append_cons, ?append_nil_l.
  - by intros [= ->].
  - intros [= <- ->]. by rewrite has_dash_app, orb_true_r in Ht.
  - intros [= -> <-]. by rewrite has_dash_app, orb_true_r in Ht'.
  - intros [= <- E]. by destruct (IH s') as [-> ->].
Qed.

Lemma digits_no_dash x s : has_dash s = false → has_dash (pretty_N_go x s) = false.
Proof.
  revert s. induction (N.lt_wf_0 x) as [x _ IH]; intros s Hs.
  destruct (decide (0 < x)%N) as [Hx|Hx].
  - rewrite pretty_N_go_step by done. apply IH; [by apply N.div_lt|]. cbn. rewrite Hs.
    unfold pretty_N_char. by repeat case_match.
  - replace x with 0%N by lia. by rewrite pretty_N_go_0.
Qed.

Lemma pretty_no_dash n : 0 < n → has_dash (pretty n) = false.
Proof. destruct n as [|x|x]; try lia. intros _. by apply (digits_no_dash (Npos x) ""). Qed.

Lemma phase_no_dash ph : ph ∈ phases → has_dash ph = false.
Proof. unfold phases. intros Hp. enum_in; subst; reflexivity. Qed.

Lemma append_same_length (s s' t t' : string) : String.length t = String.length t' →
  s +:+ t = s' +:+ t' → s = s' ∧ t = t'.
Proof.
  intros Hl. revert s'. induction s as [|c s IH]; intros [|c' s']; rewrite ?append_cons, ?append_nil_l.
  - done.
  - intros ->. cbn in Hl. rewrite string_length_append in Hl. lia.
  - intros <-. cbn in Hl. rewrite string_length_append in Hl. lia.
  - intros [= <- E]. by destruct (IH s') as [-> ->].
Qed.

Lemma record_id_inj p r ph n p' r' ph' n' :
  ph ∈ phases → ph' ∈ phases → 0 < n → 0 < n' → String.length r = String.length r' →
  record_id p r ph n = record_id p' r' ph' n' → p = p' ∧ r = r' ∧ ph = ph' ∧ n = n'.
Proof.
  intros Hp Hp' Hn Hn' Hl E. unfold record_id in E.
  assert (Ha : ∀ a b c d : string, a +:+ "-" +:+ b +:+ "-" +:+ c +:+ "-" +:+ d =
                (((a +:+ "-" +:+ b) +:+ "-" +:+ c) +:+ "-" +:+ d)) by (intros; by rewrite !append_assoc).
  rewrite !Ha in E.
  apply split_dash in E as [E Hd]; [|by apply pretty_no_dash..].
  apply split_dash in E as [E ->]; [|by apply phase_no_dash..].
  destruct (append_same_length p p' ("-" +:+ r) ("-" +:+ r')) as [-> Er]; [|exact E|].
  { rewrite !string_length_append. by f_equal. }
  split_and!; [done|by eapply append_inj_l|done|by apply (inj pretty)].
Qed.

(** ** Within a run, and between runs *)

Lemma own_audit_id info req n rec : own_audit info req n rec = true →
  ar_Phase rec ∈ phases ∧ ar_RecordID rec = record_id (p_ID (prop req)) (x_RunID info) (ar_Phase rec) n.
Proof.
  unfold own_audit. intros [Hp Hr]%andb_true_iff. apply bool_decide_eq_true in Hp, Hr. split; [done|].
  rewrite Hr at 1. done.
Qed.

Lemma numbered_mono info req n tr n' : monitor (numbered info req) n tr = Some n' → n ≤ n'.
Proof.
  revert n. induction tr as [|[o r] tr IH]; intros n; cbn; [intros [= ->]; lia|].
  destruct (numbered info req n o r) as [n1|] eqn:E; [|done]. intros H%IH.
  assert (n ≤ n1); [|lia]. destruct o as [c []| | |]; cbn in E; try (injection E as ->; lia).
  destruct (own_audit _ _ _ _); [injection E as <-; lia|done].
Qed.

(** The number of an audit record of a run. *)
Lemma audit_number q info req tr p i c rec r :
  reaches (SentryGateSagaWorkflow q info req) tr p →
  tr !! i = Some (ev (Reply:=WfReply) (WfActivity c (ActRecordAuditTrail rec)) r) →
  ∃ n, monitor (numbered info req) 0 (take i tr) = Some n ∧ 0 ≤ n ∧ own_audit info req (n + 1) rec = true.
Proof.
  intros Hr Hi. destruct (guarded_reaches _ _ _ _ _ _ (workflow_numbered q info req) Hr) as (n' & Hm & _).
  destruct (monitor_lookup _ _ _ _ _ _ _ Hm Hi) as (n & n2 & Hn & Hst & _). exists n.
  split; [done|]. split; [by eapply (numbered_mono info req 0)|].
  cbn in Hst. by destruct (own_audit info req (n + 1) rec).
Qed.

Lemma audit_numbers_increase q info req tr p i j c c' rec rec' r r' :
  reaches (SentryGateSagaWorkflow q info req) tr p → (i < j)%nat →
  tr !! i = Some (ev (Reply:=WfReply) (WfActivity c (ActRecordAuditTrail rec)) r) →
  tr !! j = Some (ev (Reply:=WfReply) (WfActivity c' (ActRecordAuditTrail rec')) r') →
  ar_RecordID rec ≠ ar_RecordID rec'.
Proof.
  intros Hr Hij Hi Hj.
  destruct (audit_number _ _ _ _ _ _ _ _ _ Hr Hi) as (n & Hn & H0 & Ho).
  destruct (audit_number _ _ _ _ _ _ _ _ _ Hr Hj) as (n' & Hn' & H0' & Ho').
  destruct (own_audit_id _ _ _ _ Ho) as [Hp ->], (own_audit_id _ _ _ _ Ho') as [Hp' ->].
  intros (_ & _ & _ & E)%record_id_inj; [|done|done|lia|lia|done].
  assert (Hlk : take j tr !! i = Some (ev (Reply:=WfReply) (WfActivity c (ActRecordAuditTrail rec)) r))
    by (by rewrite lookup_take_lt).
  destruct (monitor_lookup _ _ _ _ _ _ _ Hn' Hlk) as (n1 & n2 & Hn1 & Hst & Hm2).
  rewrite take_take, Nat.min_l in Hn1 by lia. rewrite Hn in Hn1. injection Hn1 as <-.
  cbn in Hst. rewrite Ho in Hst. injection Hst as <-. apply numbered_mono in Hm2. lia.
Qed.

Lemma audit_ids_of_runs q info req tr p i c rec r info' req' tr' p' i' c' rec' r' :
  reaches (SentryGateSagaWorkflow q info req) tr p →
  tr !! i = Some (ev (Reply:=WfReply) (WfActivity c (ActRecordAuditTrail rec)) r) →
  reaches (SentryGateSagaWorkflow q info' req') tr' p' →
  tr' !! i' = Some (ev (Reply:=WfReply) (WfActivity c' (ActRecordAuditTrail rec')) r') →
  String.length (x_RunID info) = String.length (x_RunID info') →
  ar_RecordID rec = ar_RecordID rec' → x_RunID info = x_RunID info'.
Proof.
  intros Hr Hi Hr' Hi' Hl.
  destruct (audit_number _ _ _ _ _ _ _ _ _ Hr Hi) as (n & _ & H0 & Ho).
  destruct (audit_number _ _ _ _ _ _ _ _ _ Hr' Hi') as (n' & _ & H0' & Ho').
  destruct (own_audit_id _ _ _ _ Ho) as [Hp ->], (own_audit_id _ _ _ _ Ho') as [Hp' ->].
  intros (_ & E & _)%record_id_inj; [exact E|done|done|lia|lia|done].
Qed.
