(* ===== verification/Reconcile.v ===== *)
(** * Reconciliation ends

    [reconcileDispatch] asks the adapter until the outcome is known or its
    window is used up. With a workflow clock that never runs backwards and
    that a completed sleep advances by at least its duration, the loop makes
    at most 55 questions and always returns an outcome, so
    [reconcileFuel] bounds it and no run ends in [OutOfFuel]. *)

From S2P Require Import Prelude GoBase Contracts Decision Store AuditTrail Activities Saga Protocol Traces.
Open Scope Z_scope.
Open Scope go_scope.

(** The workflow clock: at least [t]. *)
Definition clock_step (t : Time) (o : WfOp) : WfReply o → option Time :=
  match o return WfReply o → option Time with
  | WfNow => λ now, if t <=? now then Some now else None
  | WfSleep d => λ e, match e with None => Some (t + d) | Some _ => Some t end
  | WfActivity _ _ | WfSideEffect => λ _, Some t
  end.

(** [fuel] questions suffice when the loop has waited for [elapsed] and waits
    for [wait] next. *)
Fixpoint window_used (fuel : nat) (wait elapsed : Duration) : bool :=
  match fuel with
  | O => false
  | S fuel => (reconcileWindow <? elapsed + wait) ||
              window_used fuel (Z.min (2 * wait) reconcileMaxWait) (elapsed + wait)
  end.

Lemma reconcile_loop_ends dreq start fuel : ∀ wait elapsed t,
  window_used fuel wait elapsed = true → start + elapsed ≤ t →
  under clock_step t (reconcile_loop fuel dreq start wait)
    (λ mo _, ∃ o, mo = Some o ∧ statused o).
Proof.
  induction fuel as [|fuel IH]; intros wait elapsed t Hw Ht; [done|].
  cbn [window_used] in Hw. intros r t1 [= <-].
  assert (Ho : statused (reconcile_answer r)) by apply Checked_status.
  cbn -[reconcile_answer reconcile_loop reconcileWindow reconcileMaxWait].
  case_bool_decide; cbn [negb]; [|exact (ex_intro _ _ (conj eq_refl Ho))].
  intros now t2 Hnow. cbn in Hnow. destruct (t <=? now) eqn:Hle; simplify_eq.
  apply Z.leb_le in Hle. destruct (reconcileWindow <? (t2 - start) + wait) eqn:Hlt; [exact (ex_intro _ _ (conj eq_refl Ho))|].
  apply Z.ltb_ge in Hlt. intros s t3 Hs. destruct s as [e|]; cbn in Hs; simplify_eq; [exact (ex_intro _ _ (conj eq_refl Ho))|].
  apply (IH _ (elapsed + wait)); [|lia].
  apply orb_true_iff in Hw as [Hw%Z.ltb_lt|Hw]; [lia|done].
Qed.

Lemma reconcileDispatch_ends dreq t :
  under clock_step t (reconcileDispatch dreq) (λ mo _, ∃ o, mo = Some o ∧ statused o).
Proof.
  intros start t1 Hs. cbn in Hs. case_match; simplify_eq.
  apply (reconcile_loop_ends dreq t1 reconcileFuel reconcileFirstWait 0); [vm_compute; reflexivity|lia].
Qed.

(** The questions put to the adapter. *)
Definition is_question (o : WfOp) : bool :=
  match o with WfActivity _ (ActReconcileDispatch _) => true | _ => false end.
Definition count_step (n : nat) (o : WfOp) (r : WfReply o) : option nat :=
  Some (if is_question o then S n else n).

Lemma monitor_count n tr : monitor count_step n tr = Some (n + count_ops is_question tr)%nat.
Proof.
  revert n. induction tr as [|[o r] tr IH]; intros n; cbn -[is_question]; [f_equal; unfold count_ops; cbn; lia|].
  rewrite IH. f_equal. pose proof (count_ops_app is_question [ev o r] tr) as Hc.
  rewrite count_ops_one in Hc. unfold count_ops in *. cbn -[is_question] in *.
  destruct (is_question o); cbn in *; lia.
Qed.

Lemma reconcile_loop_questions dreq start fuel : ∀ wait n,
  guarded count_step n (reconcile_loop fuel dreq start wait) (λ _ n', n' ≤ n + fuel)%nat.
Proof.
  induction fuel as [|fuel IH]; intros wait n; [cbn; lia|].
  intros r. cbn -[reconcile_answer reconcile_loop reconcileWindow reconcileMaxWait].
  case_bool_decide; cbn [negb]; [|cbn; lia]. intros now. cbn -[reconcile_loop reconcileWindow reconcileMaxWait].
  case_match; [cbn; lia|]. intros [e|]; cbn -[reconcile_loop reconcileMaxWait]; [lia|].
  eapply guarded_mono; [apply IH|]. intros mo n' Hn; cbn in *; lia.
Qed.

Lemma reconcileDispatch_questions dreq tr mo :
  reaches (reconcileDispatch dreq) tr (Ret mo) → (count_ops is_question tr ≤ reconcileFuel)%nat.
Proof.
  intros Hr.
  assert (Hg : guarded count_step O (reconcileDispatch dreq) (λ _ n', n' ≤ 0 + reconcileFuel)%nat).
  { intros start. apply reconcile_loop_questions. }
  destruct (guarded_reaches _ _ _ _ _ _ Hg Hr) as (n & Hm & Hn).
  rewrite monitor_count in Hm. injection Hm as <-. exact Hn.
Qed.

(** C17: Reconciliation terminates with an outcome: whatever the adapter
    answers, on a clock that advances with the sleeps the loop returns a
    recognised outcome after at most 55 questions. *)
Theorem reconcileDispatch_terminates dreq t tr mo t' :
  reaches (reconcileDispatch dreq) tr (Ret mo) → monitor clock_step t tr = Some t' →
  (∃ o, mo = Some o ∧ statused o) ∧ (count_ops is_question tr ≤ 55)%nat.
Proof.
  intros Hr Hm. split; [|by eapply reconcileDispatch_questions].
  exact (under_reaches _ _ _ _ _ _ _ (reconcileDispatch_ends dreq t) Hr Hm).
Qed.

(** 55 is the least such bound: with 54 the loop runs dry while the window
    still has room for a question. *)
Example reconcileFuel_least :
  window_used 55 reconcileFirstWait 0 = true ∧ window_used 54 reconcileFirstWait 0 = false.
Proof. vm_compute. done. Qed.

(** An adapter that can never be reached: the sleeps of the loop add up to
    23h42m30s, and the outcome stays unknown. *)
Definition unreachable : result WfError DispatchOutcome := Err timed_out.

Lemma reconcileDispatch_terminates_witness :
  let run := traced (answers unreachable unreachable) 0 (reconcileDispatch (dreq sample_request)) in
  ∃ o, run.2 = Some o ∧ statused o.
Proof.
  intros run.
  refine (proj1 (reconcileDispatch_terminates (dreq sample_request) 0 run.1 run.2 (85350 * Second) _ _)).
  - exact (traced_run (answers unreachable unreachable) 0 _).
  - vm_compute. reflexivity.
Defined.

(** ** No run of the workflow runs out of fuel *)

Section Workflow.
Context (q : string → string) (info : execution) (req : ExecutionRequest).

Abbreviation ends_by := (under clock_step).
Definition definite (rv : wf_result * SagaVars) (t : Time) : Prop := rv.1 ≠ OutOfFuel.

Lemma saga_confirmed_definite tok o auditErr v t :
  ends_by t (saga_confirmed info req tok o auditErr v) definite.
Proof.
  unfold saga_confirmed, saga_failure, saga_success, dispatch_failed.
  case_match; apply under_bind, under_any; intros e t1; repeat case_match;
    repeat (apply under_bind, under_any; intros; repeat case_match); try done.
Qed.

Lemma saga_outcome_definite tok o auditErr v t :
  ends_by t (saga_outcome q info req tok o auditErr v) definite.
Proof.
  unfold saga_outcome. case_match; [|apply saga_confirmed_definite].
  apply under_bind, under_any. intros _ t1.
  apply under_bind. eapply under_mono; [apply reconcileDispatch_ends|].
  intros mo t2 (o' & -> & _). cbn match.
  apply under_bind, under_any. intros rv t3. case_match; [done|apply saga_confirmed_definite].
Qed.

Lemma saga_dispatch_definite tok v t : ends_by t (saga_dispatch q info req tok v) definite.
Proof.
  unfold saga_dispatch. apply under_bind, under_any. intros r t1. cbv zeta.
  case_match; apply under_bind, under_any; intros re t2.
  - case_match; apply under_bind, under_any; intros rv t3; [done|apply saga_outcome_definite].
  - apply saga_outcome_definite.
Qed.

Lemma saga_claim_definite tok v t : ends_by t (saga_claim q info req tok v) definite.
Proof.
  unfold saga_claim, saga_revalidate, reject. apply under_bind, under_any. intros [cl|e] t1; [|done].
  case_match; apply under_bind, under_any.
  - intros _ t2. by apply under_bind, under_any.
  - intros [d|e] t2; [|done]. apply under_bind, under_any. intros re t3. cbv zeta.
    case_match; [by apply under_bind, under_any|]. destruct re; [done|].
    apply under_bind, under_any. intros [[e|] v'] t4; [done|apply saga_dispatch_definite].
Qed.

Lemma workflow_definite t :
  ends_by t (SentryGateSagaWorkflow q info req) (λ res _, res ≠ OutOfFuel).
Proof.
  unfold SentryGateSagaWorkflow. apply under_bind, under_any. intros [iv|e] t1; [|done].
  case_match.
  - unfold reject. apply under_bind, under_bind, under_any. intros _ t2. by apply under_bind, under_any.
  - apply under_bind, under_any. intros [random|e] t2; [|done]. cbv zeta.
    apply under_bind. eapply under_mono; [apply saga_claim_definite|].
    intros rv t3 Hrv. by apply under_bind, under_any.
Qed.

(** On such a clock no run of the workflow ends for want of fuel: every
    result a run returns is one of the code's own. *)
Lemma workflow_never_out_of_fuel tr res t t' :
  reaches (SentryGateSagaWorkflow q info req) tr (Ret res) →
  monitor clock_step t tr = Some t' → res ≠ OutOfFuel.
Proof. intros Hr Hm. exact (under_reaches _ _ _ _ _ _ _ (workflow_definite t) Hr Hm). Qed.
End Workflow.
