(* ===== verification/System.v ===== *)
(** * The activities of all workflow runs, interleaved

    Any number of activity attempts run at the same time against one decision
    and claim store, one adapter and one policy source. An attempt advances by
    one service call at a time; between two of its calls any other attempt may
    advance, the policy may be replaced, and new attempts may start. Attempts
    are started for any execution and any arguments, so retries, attempts that
    outlive their workflow run, reset runs and competing runs are all included,
    and the proxy may record a decision at any time;
    an attempt that is never advanced again has crashed. A write to the store
    may be answered by an error although it was applied. *)

From S2P Require Import Prelude GoBase Contracts Policy Decision Store Claims Adapter Activities.
Open Scope Z_scope.
Open Scope go_scope.

(** ** The services *)

Record world (S A : Type) := {
  w_store : S;
  w_adapter : A;
  w_policy : option Snapshot;            (* the policy currently served *)
  w_policies : list (option Snapshot);   (* every policy served so far *)
  w_calls : list (execution * DispatchRequest)  (* Dispatch calls on the adapter, newest last *) }.
Arguments w_store {S A}. Arguments w_adapter {S A}. Arguments w_policy {S A}.
Arguments w_policies {S A}. Arguments w_calls {S A}. Arguments Build_world {S A}.

(** An activity attempt: who runs it, as which request of that run, and what is
    left of it. *)
Record task := {
  t_info : execution;
  t_run : nat;
  t_seq : nat;
  t_call : ActivityCall;
  t_prog : act (result act_error (ActValue t_call)) }.

Section Services.
Context {S A : Type} `{StoreSpec S} `{AdapterSpec A}.

Definition set_store (w : world S A) (s : S) : world S A :=
  {| w_store := s; w_adapter := w_adapter w; w_policy := w_policy w;
     w_policies := w_policies w; w_calls := w_calls w |}.
Definition set_adapter (w : world S A) (a : A) : world S A :=
  {| w_store := w_store w; w_adapter := a; w_policy := w_policy w;
     w_policies := w_policies w; w_calls := w_calls w |}.
Definition set_policy (w : world S A) (p : option Snapshot) : world S A :=
  {| w_store := w_store w; w_adapter := w_adapter w; w_policy := p;
     w_policies := w_policies w ++ [p]; w_calls := w_calls w |}.
Definition log_call (w : world S A) (info : execution) (r : DispatchRequest) (a : A) : world S A :=
  {| w_store := w_store w; w_adapter := a; w_policy := w_policy w;
     w_policies := w_policies w; w_calls := w_calls w ++ [(info, r)] |}.

(** What a caller may see of a write: its own answer; or an error, whether or
    not the write was applied. *)
Definition seen (s : S) (done : S * option error) (s' : S) (r : option error) : Prop :=
  (s', r) = done ∨ ∃ e, r = Some e ∧ (s' = done.1 ∨ s' = s).

(** The audit table is next to the decisions and claims and apart from them: a
    row appended to it, or not, leaves both as they are. *)
Definition audited (s s' : S) : Prop :=
  decisions s' = decisions s ∧ claims s' = claims s ∧ (store_inv s → store_inv s').

(** The answer of the services to one call of an attempt. *)
Definition serves (info : execution) (w : world S A) (o : ActOp) : ActOpReply o → world S A → Prop :=
  match o return ActOpReply o → world S A → Prop with
  | OpCtxErr | OpNow => λ _ w', w' = w
  | OpAuditAppend _ => λ _ w', ∃ s', audited (w_store w) s' ∧ w' = set_store w s'
  | OpPolicyCurrent => λ r w', r = w_policy w ∧ w' = w
  | OpGetDecision d => λ r w', w' = w ∧ ((∃ ctx, r = get_decision ctx d (w_store w)) ∨ ∃ e, r = Err e)
  | OpGetClaim d => λ r w', w' = w ∧ ((∃ ctx, r = get_claim ctx d (w_store w)) ∨ ∃ e, r = Err e)
  | OpAppendDecision rec => λ r w', ∃ ctx s',
      seen (w_store w) (append_decision ctx rec (w_store w)) s' r ∧ w' = set_store w s'
  | OpClaimExecution d ow t => λ r w', ∃ ctx s',
      seen (w_store w) (claim_execution ctx d ow t (w_store w)) s' r ∧ w' = set_store w s'
  | OpAdvanceClaim d ow to t => λ r w', ∃ ctx s',
      seen (w_store w) (advance_claim ctx d ow to t (w_store w)) s' r ∧ w' = set_store w s'
  | OpDispatch req => λ r w', ∃ ctx, r = (dispatch ctx req (w_adapter w)).2 ∧
      w' = log_call w info req (dispatch ctx req (w_adapter w)).1
  | OpReconcile req => λ r w', ∃ ctx, r = (reconcile ctx req (w_adapter w)).2 ∧
      w' = set_adapter w (reconcile ctx req (w_adapter w)).1
  | OpCompensate req => λ r w', ∃ ctx, r = (compensate ctx req (w_adapter w)).2 ∧
      w' = set_adapter w (compensate ctx req (w_adapter w)).1
  end.

End Services.

(** The shapes of an answer: a write, an audit row, the adapter, no change. *)
Ltac serve_cases Hsv :=
  cbn in Hsv;
  lazymatch type of Hsv with
  | ∃ s', audited _ s' ∧ _ => destruct Hsv as (s' & Haud & ->)
  | ∃ ctx s', seen _ _ s' _ ∧ _ => destruct Hsv as (ctx & s' & Hseen & ->)
  | ∃ ctx, _ ∧ _ => destruct Hsv as (ctx & _ & ->)
  | _ => idtac
  end; destruct_and?; subst.

(** ** The system *)

Section System.
Context {S A : Type} `{StoreSpec S} `{AdapterSpec A}.
Context (q : string → string) (cfg : config).

Record system := { y_world : world S A; y_tasks : list task }.

Definition new_task (info : execution) (run seq : nat) (a : ActivityCall) : task :=
  {| t_info := info; t_run := run; t_seq := seq; t_call := a; t_prog := activity q cfg info a |}.

Definition continue (t : task) (p : act (result act_error (ActValue (t_call t)))) : task :=
  {| t_info := t_info t; t_run := t_run t; t_seq := t_seq t; t_call := t_call t; t_prog := p |}.

Inductive sys_step : system → system → Prop :=
| sys_start y info run seq a :
    sys_step y {| y_world := y_world y; y_tasks := y_tasks y ++ [new_task info run seq a] |}
| sys_reload y p :
    sys_step y {| y_world := set_policy (y_world y) p; y_tasks := y_tasks y |}
| sys_record y info rec r w' :
    serves info (y_world y) (OpAppendDecision rec) r w' →
    sys_step y {| y_world := w'; y_tasks := y_tasks y |}
| sys_serve y i t o k r w' :
    y_tasks y !! i = Some t → t_prog t = Call o k → serves (t_info t) (y_world y) o r w' →
    sys_step y {| y_world := w'; y_tasks := <[i := continue t (k r)]> (y_tasks y) |}.

(** ** Attempts reach the adapter only through the fence *)

(** The key an attempt is about to dispatch. *)
Definition armed {B} (p : act B) : option string :=
  match p with Call (OpDispatch r) _ => Some (dq_IdempotencyKey r) | _ => None end.

(** The answer acquired the execution fence of decision [d]. *)
Definition acquired (o : ActOp) (r : ActOpReply o) (d : string) : Prop :=
  match o return ActOpReply o → Prop with
  | OpAdvanceClaim d' _ to _ => λ r, r = None ∧ d' = d ∧ to = ClaimStateExecuting
  | _ => λ _, False
  end r.

Fixpoint disciplined {B} (p : act B) : Prop :=
  match p with
  | Ret _ => True
  | Call o k => ∀ r, disciplined (k r) ∧
      (armed (k r) = None ∨ ∃ d, acquired o r d ∧ armed (k r) = Some (ExecutionKey d))
  end.

Lemma DispatchConfig_disciplined info f :
  armed (DispatchConfig cfg info f) = None ∧ disciplined (DispatchConfig cfg info f).
Proof.
  unfold DispatchConfig.
  destruct (negb (has_adapter cfg)); [done|]. destruct (negb (has_fence cfg)); [done|].
  destruct ((fd_DecisionID f == "") || _); [done|].
  case_bool_decide as Hk; [|done]. simpl. split; [done|]. intros now. split; [|by left].
  intros [e|]; simpl.
  - split; [|left; repeat case_match; done]. destruct (errors_Is e ErrClaimNotHeld); simpl; [|done].
    intros held. split; [|left; repeat case_match; done]. repeat case_match; done.
  - split; [|right; exists (fd_DecisionID f); by rewrite Hk]. intros o. by split; [|left].
Qed.

(** The calls an activity makes that matter to claims, to the target and to the
    audit trail: the dispatch of its own request, transitions of its own and
    its own record. *)
Definition own_call (a : ActivityCall) (o : ActOp) : Prop :=
  match o, a with
  | OpDispatch r, ActDispatchConfig f => fd_Dispatch f = r
  | OpAdvanceClaim _ _ to _, ActDispatchConfig _ => to = ClaimStateExecuting
  | OpAdvanceClaim d _ to _, ActAdvanceExecutionClaim t => ct_DecisionID t = d ∧ ct_To t = to
  | OpAuditAppend rec, ActRecordAuditTrail rec' => rec' = rec
  | OpDispatch _, _ | OpAdvanceClaim _ _ _ _, _ | OpAuditAppend _, _ => False
  | _, _ => True
  end.

Lemma activity_calls info a : calls_only (own_call a) (activity q cfg info a).
Proof.
  destruct a as [rec|rec|req|cr|req|t|f|d|d]; cbn [activity];
    unfold RecordAuditTrail, RecordDecision, VerifyIngressDecision, CheckIngress, ClaimExecution,
      EvaluateExecution, AdvanceExecutionClaim, DispatchConfig, ReconcileDispatch, RevertStateCompensation;
    calls_only_tac.
Qed.

Lemma calls_none_disciplined {B} a (p : act B) :
  (∀ r, ¬ own_call a (OpDispatch r)) → calls_only (own_call a) p → armed p = None ∧ disciplined p.
Proof.
  intros Hno. induction p as [b|o k IH]; simpl; [done|]. intros [Ho Hk].
  split; [destruct o; try done; by destruct (Hno _ Ho)|].
  intros r. destruct (IH r (Hk r)) as [Ha Hd]. auto.
Qed.

Lemma activity_disciplined info a :
  armed (activity q cfg info a) = None ∧ disciplined (activity q cfg info a).
Proof.
  pose proof (activity_calls info a) as Hc.
  destruct a as [rec|rec|req|cr|req|t|f|d|d]; [..|apply DispatchConfig_disciplined| |];
    (eapply calls_none_disciplined; [|exact Hc]); by intros r Hr.
Qed.

Definition key_is (key : string) {B} (p : act B) : bool := bool_decide (armed p = Some key).

(** How often a key has been dispatched, and by how many attempts it is about
    to be. *)
Definition dispatches (key : string) (w : world S A) : nat :=
  length (List.filter (λ c, dq_IdempotencyKey c.2 == key) (w_calls w)).
Definition pending (key : string) (ts : list task) : nat :=
  length (List.filter (λ t, key_is key (t_prog t)) ts).

(** ** The invariant *)

Definition fence_taken (d : string) (w : world S A) : Prop :=
  ∃ c, claims (w_store w) !! d = Some c ∧ fenced (ec_State c).

Record sys_inv (y : system) : Prop := {
  si_store : store_inv (w_store (y_world y));
  si_adapter : adapter_inv (w_adapter (y_world y));
  si_tasks : Forall (λ t, disciplined (t_prog t)) (y_tasks y);
  si_once key : (dispatches key (y_world y) + pending key (y_tasks y) ≤ 1)%nat;
  si_fenced d : (0 < dispatches (ExecutionKey d) (y_world y) + pending (ExecutionKey d) (y_tasks y))%nat →
                fence_taken d (y_world y) }.

(** A write the caller saw as an error or as done is the write, or nothing. *)
Lemma seen_run op s s' r : store_inv s → seen s (run_op op s) s' r →
  s' = s ∨ ∃ r', run_op op s = (s', r') ∧ (r = None → r' = None).
Proof.
  intros Hs [Hd|(e & -> & [->| ->])]; [right|right|by left].
  - exists r. by rewrite <- Hd.
  - exists (run_op op s).2. split; [apply surjective_pairing|done].
Qed.

Lemma store_inv_seen op w s' r :
  store_inv (w_store w) → seen (w_store w) (run_op op (w_store w)) s' r →
  store_inv s' ∧ (∀ d, fence_taken d w → fence_taken d (set_store w s')).
Proof.
  intros Hs Hseen. destruct (seen_run _ _ _ _ Hs Hseen) as [->|(r' & Hop & _)]; [by destruct w|].
  split; [by eapply run_op_inv|]. intros d (c & Hc & Hf).
  destruct (run_op_fenced _ _ _ _ _ _ Hs Hop Hc Hf) as (_ & c' & ? & ? & _). by exists c'.
Qed.

(** One call keeps the services lawful and no fence is ever given back. *)
Lemma serves_keeps info w o r w' :
  store_inv (w_store w) → adapter_inv (w_adapter w) → serves info w o r w' →
  store_inv (w_store w') ∧ adapter_inv (w_adapter w') ∧
  (∀ d, fence_taken d w → fence_taken d w').
Proof.
  intros Hs Ha Hsv. destruct o; serve_cases Hsv; try done.
  - destruct (store_inv_seen (SAppend ctx rec) w s' r); eauto.
  - destruct (store_inv_seen (SClaim ctx decisionID owner at_) w s' r); eauto.
  - destruct (store_inv_seen (SAdvance ctx decisionID owner to at_) w s' r); eauto.
  - destruct Haud as (_ & Hcl & Hinv). split_and!; [by apply Hinv|done|].
    intros d (c & Hc & Hf). exists c. cbn. by rewrite Hcl.
  - split_and!; [done|by apply dispatch_inv|done].
  - split_and!; [done|by apply reconcile_inv|done].
  - split_and!; [done|by apply compensate_inv|done].
Qed.

(** An acquired fence was free before and is taken after. *)
Lemma serves_acquired info w o r w' d :
  store_inv (w_store w) → serves info w o r w' → acquired o r d →
  ¬ fence_taken d w ∧ fence_taken d w'.
Proof.
  intros Hs Hsv Hacq. destruct o; try done. cbn in Hacq, Hsv. destruct Hacq as (-> & -> & ->).
  destruct Hsv as (ctx & s' & [Hd|(e & ? & _)] & ->); [|done]. symmetry in Hd.
  pose proof (Hop := Hd : run_op (SAdvance ctx d owner ClaimStateExecuting at_) (w_store w) = (s', None)).
  assert (Ha : acquires d (SAdvance ctx d owner ClaimStateExecuting at_) None = true).
  { cbn. by rewrite !bool_decide_true. }
  split; [|by destruct (run_op_acquires _ _ _ _ d Hs Hop Ha) as (c & ? & ?); exists c].
  intros (c & Hc & Hf). destruct (run_op_fenced _ _ _ _ _ _ Hs Hop Hc Hf) as [Hna _]. congruence.
Qed.

(** The calls log grows exactly by the calls. *)
Lemma serves_dispatches {B} info w o (k : ActOpReply o → act B) r w' key :
  serves info w o r w' →
  dispatches key w' = (dispatches key w + (if key_is key (Call o k) then 1 else 0))%nat.
Proof.
  intros Hsv. unfold dispatches, key_is. destruct o; serve_cases Hsv; cbn; rewrite ?filter_snoc_count, ?(bool_decide_false (None = Some key)) by done;
    cbn; try lia.
  f_equal. case_bool_decide as E; [by rewrite E, bool_decide_true|].
  rewrite bool_decide_false; [done|congruence].
Qed.

Lemma same_key d d' : ExecutionKey d = ExecutionKey d' → d = d'.
Proof. apply (inj ExecutionKey). Qed.

Lemma sys_step_inv y y' : sys_inv y → sys_step y y' → sys_inv y'.
Proof.
  intros [Hs Ha Ht Ho Hf] Hstep. destruct Hstep as [y info run seq a|y p|y info rec r w' Hsv|y i t o k r w' Hi Hp Hsv].
  - destruct (activity_disciplined info a) as [Hna Hd].
    assert (Hpend : ∀ key, pending key (y_tasks y ++ [new_task info run seq a]) = pending key (y_tasks y)).
    { intros key. unfold pending. rewrite filter_snoc_count. cbn. unfold key_is. rewrite Hna.
      rewrite bool_decide_false by done. lia. }
    split; cbn [y_world y_tasks]; [done|done|apply Forall_app; split; [done|by constructor]|intros; by rewrite Hpend|intros d; rewrite Hpend; apply Hf].
  - by split.
  - destruct (serves_keeps _ _ _ _ _ Hs Ha Hsv) as (Hs' & Ha' & Hkeep).
    assert (Hlog : ∀ key, dispatches key w' = dispatches key (y_world y)).
    { intros key. rewrite (serves_dispatches _ _ _ (λ r, Ret r) _ _ key Hsv). unfold key_is, armed.
      rewrite bool_decide_false by done. lia. }
    split; cbn [y_world y_tasks]; [done|done|done|intros key; by rewrite Hlog|].
    intros d. rewrite Hlog. auto.
  - pose proof (proj1 (Forall_lookup _ _) Ht i t Hi) as Hd. cbn in Hd. rewrite Hp in Hd.
    destruct (Hd r) as [Hdk Hk]. destruct (serves_keeps _ _ _ _ _ Hs Ha Hsv) as (Hs' & Ha' & Hkeep).
    assert (Htot : ∀ key, (dispatches key w' + pending key (<[i := continue t (k r)]> (y_tasks y)) =
      dispatches key (y_world y) + pending key (y_tasks y) + (if key_is key (k r) then 1 else 0))%nat).
    { intros key. rewrite (serves_dispatches _ _ _ k _ _ key Hsv).
      pose proof (filter_insert_count (λ t, key_is key (t_prog t)) _ _ _ (continue t (k r)) Hi) as Hc.
      unfold pending. cbn -[key_is] in Hc |- *. rewrite Hp in Hc. lia. }
    split; cbn [y_world y_tasks]; [done|done|by apply Forall_insert| |].
    + intros key. rewrite Htot. specialize (Ho key). destruct (key_is key (k r)) eqn:E; [|lia].
      apply bool_decide_eq_true in E. destruct Hk as [Hk|(d & Hacq & Hk)]; [congruence|].
      assert (key = ExecutionKey d) as -> by congruence.
      destruct (serves_acquired _ _ _ _ _ _ Hs Hsv Hacq) as [Hfree _].
      destruct (dispatches (ExecutionKey d) (y_world y) + pending (ExecutionKey d) (y_tasks y))%nat eqn:E';
        [lia|]. destruct Hfree. apply Hf. lia.
    + intros d. rewrite Htot. destruct (key_is (ExecutionKey d) (k r)) eqn:E; [|rewrite Nat.add_0_r; auto].
      intros _. apply bool_decide_eq_true in E. destruct Hk as [Hk|(d' & Hacq & Hk)]; [congruence|].
      assert (d = d') as -> by (apply same_key; congruence).
      by destruct (serves_acquired _ _ _ _ _ _ Hs Hsv Hacq).
Qed.

Lemma sys_reach_inv y y' : sys_inv y → rtc sys_step y y' → sys_inv y'.
Proof. intros Hy Hr. induction Hr; eauto using sys_step_inv. Qed.

(** A system in which nothing runs yet. *)
Definition idle (s : S) (a : A) (p : option Snapshot) : system :=
  {| y_world := {| w_store := s; w_adapter := a; w_policy := p; w_policies := [p]; w_calls := [] |};
     y_tasks := [] |}.

Lemma idle_inv s a p : store_inv s → adapter_inv a → sys_inv (idle s a p).
Proof. intros Hs Ha. split; cbn; try done; intros; unfold dispatches, pending in *; cbn in *; lia. Qed.

(** ** An undisturbed attempt, executable *)

(** Every call is answered at once, at time [now] and under a live context. *)
Definition serve_live (now : Time) (info : execution) (w : world S A) (o : ActOp) : world S A * ActOpReply o :=
  match o return world S A * ActOpReply o with
  | OpCtxErr => (w, None)
  | OpNow => (w, now)
  | OpAuditAppend _ => (w, None)
  | OpPolicyCurrent => (w, w_policy w)
  | OpGetDecision d => (w, get_decision CtxLive d (w_store w))
  | OpGetClaim d => (w, get_claim CtxLive d (w_store w))
  | OpAppendDecision rec => let x := append_decision CtxLive rec (w_store w) in (set_store w x.1, x.2)
  | OpClaimExecution d ow t => let x := claim_execution CtxLive d ow t (w_store w) in (set_store w x.1, x.2)
  | OpAdvanceClaim d ow to t => let x := advance_claim CtxLive d ow to t (w_store w) in (set_store w x.1, x.2)
  | OpDispatch req => let x := dispatch CtxLive req (w_adapter w) in (log_call w info req x.1, x.2)
  | OpReconcile req => let x := reconcile CtxLive req (w_adapter w) in (set_adapter w x.1, x.2)
  | OpCompensate req => let x := compensate CtxLive req (w_adapter w) in (set_adapter w x.1, x.2)
  end.

Lemma serve_live_serves now info w o :
  serves info w o (serve_live now info w o).2 (serve_live now info w o).1.
Proof.
  destruct o; cbn; try done; try (split; [done|left; by exists CtxLive]);
    try (by exists (w_store w); destruct w);
    try (by exists CtxLive); eexists CtxLive, _; (split; [|done]); left; symmetry; apply surjective_pairing.
Qed.

(** The attempt at position [i], run to its end. *)
Definition run_attempt (now : Time) (i : nat) (t : task) (y : system) : system :=
  let x := interp (serve_live now (t_info t)) (y_world y) (t_prog t) in
  {| y_world := x.1; y_tasks := <[i := continue t (Ret x.2)]> (y_tasks y) |}.

(** Any relation that lets attempts be served runs an attempt to its end. *)
Lemma run_attempt_rtc (R : system → system → Prop) now i y t :
  (∀ y i t o k r w', y_tasks y !! i = Some t → t_prog t = Call o k → serves (t_info t) (y_world y) o r w' →
     R y {| y_world := w'; y_tasks := <[i := continue t (k r)]> (y_tasks y) |}) →
  y_tasks y !! i = Some t → rtc R y (run_attempt now i t y).
Proof.
  intros HR. destruct t as [info run seq a p]. unfold run_attempt, continue; cbn. revert y.
  induction p as [v|o k IH]; intros y Hi; cbn.
  - rewrite list_insert_id by done. by destruct y.
  - pose proof (serve_live_serves now info (y_world y) o) as Hsv.
    destruct (serve_live now info (y_world y) o) as [w r]. cbn in Hsv.
    eapply rtc_l; [eapply (HR y i); [exact Hi|reflexivity|exact Hsv]|].
    specialize (IH r {| y_world := w; y_tasks := <[i := {| t_info := info; t_run := run; t_seq := seq;
      t_call := a; t_prog := k r |}]> (y_tasks y) |}). cbn in IH.
    rewrite list_insert_insert_eq in IH. apply IH. apply list_lookup_insert_eq. by apply lookup_lt_Some in Hi.
Qed.

Lemma run_attempt_steps now i y t :
  y_tasks y !! i = Some t → rtc sys_step y (run_attempt now i t y).
Proof. apply run_attempt_rtc. intros. by eapply sys_serve. Qed.

(** C4: However many activity attempts of however many workflow runs are
    interleaved, with retries, lost replies and policy reloads, the adapter is
    called to dispatch at most once per ingress decision; while the decision
    is unclaimed, claimed or released it has not been called at all; and the
    decision's key takes effect on the target at most once. *)
Theorem at_most_one_dispatch s a p y d :
  store_inv s → adapter_inv a → rtc sys_step (idle s a p) y →
  (dispatches (ExecutionKey d) (y_world y) ≤ 1)%nat ∧
  ((∀ c, claims (w_store (y_world y)) !! d = Some c → ¬ fenced (ec_State c)) →
   dispatches (ExecutionKey d) (y_world y) = 0%nat) ∧
  0 <= mutations (w_adapter (y_world y)) (ExecutionKey d) <= 1.
Proof.
  intros Hs Ha Hr. destruct (sys_reach_inv _ _ (idle_inv s a p Hs Ha) Hr) as [Hs' Ha' _ Ho Hf].
  split; [specialize (Ho (ExecutionKey d)); lia|split; [|by apply at_most_once]].
  intros Hn. destruct (dispatches (ExecutionKey d) (y_world y)) eqn:E; [done|].
  destruct (Hf d) as (c & Hc & Hfe); [lia|]. by destruct (Hn c Hc).
Qed.
End System.

(** ** One decision, claimed and then dispatched by two attempts of the same run *)

Definition full_config : config :=
  {| has_policy := true; has_store := true; has_claims := true;
     has_adapter := true; has_fence := true; has_audit := true |}.
Definition sample_info : execution := {| x_ID := "saga-p-1"; x_RunID := "run-1" |}.
Definition claimed_store : MemoryStore.t :=
  (run_op (SClaim CtxLive "dec_1" owner_1 1) recorded_store).1.

Lemma claimed_store_inv : store_inv claimed_store.
Proof.
  apply (run_op_inv (SClaim CtxLive "dec_1" owner_1 1) recorded_store claimed_store
           (run_op (SClaim CtxLive "dec_1" owner_1 1) recorded_store).2).
  - exact recorded_store_inv.
  - unfold claimed_store. by destruct (run_op _ _).
Qed.

Definition sample_dispatch : ActivityCall :=
  ActDispatchConfig {| fd_DecisionID := "dec_1"; fd_Token := "exe_1";
                       fd_Dispatch := {| dq_IdempotencyKey := ExecutionKey "dec_1"; dq_Proposal := sample_proposal |} |}.

Definition sample_idle : @system MemoryStore.t SimulatedAdapter.t :=
  idle claimed_store SimulatedAdapter.NewSimulatedAdapter (Some default_snapshot).
Definition twice_dispatched : @system MemoryStore.t SimulatedAdapter.t :=
  let t := new_task id full_config sample_info 0 8 sample_dispatch in
  run_attempt 3 1 t (run_attempt 2 0 t {| y_world := y_world sample_idle; y_tasks := [t; t] |}).

Lemma twice_dispatched_reached : rtc (sys_step id full_config) sample_idle twice_dispatched.
Proof.
  set (t := new_task id full_config sample_info 0 8 sample_dispatch).
  eapply rtc_l; [apply (sys_start id full_config sample_idle sample_info 0 8 sample_dispatch)|]. fold t.
  eapply rtc_l; [apply (sys_start id full_config _ sample_info 0 8 sample_dispatch)|]. fold t.
  etransitivity; [apply (run_attempt_steps id full_config 2 0 _ t); reflexivity|].
  apply (run_attempt_steps id full_config 3 1 _ t). reflexivity.
Qed.

Lemma at_most_one_dispatch_witness :
  dispatches (ExecutionKey "dec_1") (y_world twice_dispatched) = 1%nat ∧
  (dispatches (ExecutionKey "dec_1") (y_world twice_dispatched) ≤ 1)%nat.
Proof.
  split; [vm_compute; reflexivity|].
  exact (proj1 (at_most_one_dispatch id full_config claimed_store SimulatedAdapter.NewSimulatedAdapter
    (Some default_snapshot) twice_dispatched "dec_1" claimed_store_inv simulated_inv_new
    twice_dispatched_reached)).
Defined.
