(* ===== verification/Statements.v ===== *)
(** * The interleaved system, one SQL statement at a time

    In [System] a call on the store is atomic. The SQLite store makes some calls
    with two statements, and proxy and workers share the file, so statements of
    different calls interleave. Here every store call of an attempt is the
    program of [Sqlite], advanced by one statement at a time; a statement may
    fail, and may have been applied although an error is reported. Seen through
    [abs], every run of this system is a run of [System]: a call takes effect at
    its last statement, and every earlier one leaves the database as it was. *)

From S2P Require Import Prelude GoBase Contracts Policy Decision Store Database Sqlite Claims Adapter Activities System.
Open Scope Z_scope.
Open Scope go_scope.

(** ** What a statement may be answered *)

(** The answer whose RowsAffected fails. *)
Definition uncounted (o : SqlOp) (e : error) : option (SqlReply o) :=
  match o return option (SqlReply o) with
  | InsertAudit _ | InsertDecision _ | UpsertClaim _ _ _ _ _ _ | UpdateClaim _ _ _ _ _ _ _ => Some (Ok (Err e))
  | _ => None
  end.

Inductive answers (db : Db) (o : SqlOp) : SqlReply o → Db → Prop :=
| ans_done ctx now : answers db o (db_run ctx now db o).2 (db_run ctx now db o).1
| ans_failed e : takes_ctx o = true → answers db o (fails o e) db
| ans_lost now e : takes_ctx o = true → answers db o (fails o e) (db_exec now db o).1
| ans_uncounted now e r : uncounted o e = Some r → answers db o r (db_exec now db o).1.

Lemma answers_inv db o r db' : db_inv db → answers db o r db' → db_inv db'.
Proof. intros Hdb [ctx now|e _|now e _|now e r' _]; auto using db_run_inv, db_exec_inv. Qed.

(** An error answer, or the answer of an executed statement. *)
Lemma answers_cases db o r db' : answers db o r db' →
  (∃ now, (db', r) = db_exec now db o) ∨
  ((∃ e, (takes_ctx o = true ∧ r = fails o e) ∨ uncounted o e = Some r) ∧
   (db' = db ∨ ∃ now, db' = (db_exec now db o).1)).
Proof.
  intros [ctx now|e He|now e He|now e r' He].
  - unfold db_run. destruct (ctx_Err ctx) as [e|]; [|left; exists now; by rewrite <- surjective_pairing].
    destruct (takes_ctx o) eqn:Ht; [|left; exists now; by rewrite <- surjective_pairing].
    right. split; [exists e; by left|by left].
  - right. split; [exists e; by left|by left].
  - right. split; [exists e; by left|right; by exists now].
  - right. split; [exists e; by right|right; by exists now].
Qed.

(** ** Calls in progress *)

(** A program between two calls, or inside a call that is itself a program of
    statements, with the statements that are left of it. *)
Inductive local {Op : Type} {Reply : Op → Type} (B : Type) : Type :=
| Idle (p : prog Op Reply B)
| Busy (o : Op) (k : Reply o → prog Op Reply B) (p : sql (Reply o)).
Arguments local {Op} Reply B.
Arguments Idle {Op Reply B} p.
Arguments Busy {Op Reply B} o k p.

(** A call is over as soon as no statement of it is left. *)
Definition abs_local {Op} {Reply : Op → Type} {B} (l : local Reply B) : prog Op Reply B :=
  match l with
  | Idle p => p
  | Busy o k (Ret v) => k v
  | Busy o k (Call _ _) => Call o k
  end.

(** [effective law p]: whatever the database and whatever it answers, a
    statement after which [p] goes on changes nothing, and the last one
    together with the value returned is as [law] says. *)
Fixpoint effective {R} (law : Db → Db → R → Prop) (p : sql R) : Prop :=
  match p with
  | Ret _ => True
  | Call so k => ∀ s r s', db_inv s → answers s so r s' →
      match k r with Ret v => law s s' v | Call _ _ => s' = s end ∧ effective law (k r)
  end.

(** What a SELECT may answer: what is there, or an error; it changes nothing. *)
Lemma answers_SelectDecision d s r s' : answers s (SelectDecision d) r s' →
  s' = s ∧ (r = Ok (row_with de_decision_id d (decision_records s)) ∨ ∃ e, r = Err e).
Proof.
  intros [(now & Hn)|[(e & [[_ ->]|He]) Hs]]%answers_cases; [injection Hn as -> ->; auto| |done].
  split; [destruct Hs as [|[now ->]]; done|eauto].
Qed.
Lemma answers_SelectClaim d s r s' : answers s (SelectClaim d) r s' →
  s' = s ∧ (r = Ok (row_with cl_decision_id d (execution_claims s)) ∨ ∃ e, r = Err e).
Proof.
  intros [(now & Hn)|[(e & [[_ ->]|He]) Hs]]%answers_cases; [injection Hn as -> ->; auto| |done].
  split; [destruct Hs as [|[now ->]]; done|eauto].
Qed.

Section Statements.
Context {A : Type} `{AdapterSpec A}.
Context (q : string → string) (json_error : string → string) (cfg : config).
#[local] Instance statement_ops : StoreOps Db := sqlite_ops q json_error.
#[local] Instance statement_spec : StoreSpec Db := sqlite_spec q json_error.

(** The program of a store call; other calls are not on the database. *)
Definition sql_call (o : ActOp) : option (sql (ActOpReply o)) :=
  match o return option (sql (ActOpReply o)) with
  | OpGetDecision d => Some (Sqlite.GetDecision json_error d)
  | OpAppendDecision rec => Some (Sqlite.AppendDecision json_error rec)
  | OpClaimExecution d ow t => Some (Sqlite.ClaimExecution q d ow t)
  | OpAdvanceClaim d ow to t => Some (Sqlite.AdvanceClaim d ow to t)
  | OpGetClaim d => Some (Sqlite.GetClaim d)
  | OpAuditAppend rec => Some (Sqlite.Append q rec)
  | _ => None
  end.

(** An answer that [System] allows to the call. *)
Definition lawful_answer (o : ActOp) (s s' : Db) (v : ActOpReply o) : Prop :=
  ∀ info (w : world Db A), w_store w = s → serves info w o v (set_store w s').
Abbreviation effective_call o := (effective (lawful_answer o)).

(** *** The calls are effective *)

Lemma set_store_id (w : world Db A) : set_store w (w_store w) = w.
Proof. by destruct w. Qed.

(** Runs the next statement of an uninterrupted call in the goal. *)
Ltac run_goal :=
  unfold atomically, query, op;
  cbn [mret prog_ret mbind prog_bind interp db_run ctx_Err takes_ctx fails db_exec insert_decision select_decision
       select_claim fst snd negb].

Lemma seen_error (s s' : Db) run e : s' = s ∨ s' = run.1 → seen s run s' (Some e).
Proof. intros Hs. right. exists e. split; [done|]. tauto. Qed.

(** The first statement of a write is all that changes the database. *)
Lemma append_effect rec s now : DecisionRecord_Validate rec = None →
  (append_decision CtxLive rec s).1 = (db_exec now s (InsertDecision (decision_params rec))).1.
Proof.
  intros Hv. cbn [append_decision statement_ops sqlite_ops]. unfold Sqlite.AppendDecision. rewrite Hv. run_goal.
  destruct (row_with _ _ _) as [row|] eqn:E; [|done]. change (0 =? 1) with false. run_goal.
  destruct (Sqlite.scanDecision json_error _); run_goal; [|done]. by destruct (DecisionRecord_Equal _ _).
Qed.

Lemma claim_effect d o t s now : (d == "") || negb (ClaimOwner_Valid o) = false →
  (claim_execution CtxLive d o t s).1 =
  (db_exec now s (UpsertClaim d (o_WorkflowID o) (o_RunID o) (o_Token o) (formatTime t) (formatTime t))).1.
Proof.
  intros Hg. cbn [claim_execution statement_ops sqlite_ops]. unfold Sqlite.ClaimExecution. rewrite Hg. clear Hg. run_goal.
  unfold upsert_claim. destruct (row_with cl_decision_id _ _) as [row|].
  - case_bool_decide; [done|]. change (0 =? 1) with false. unfold Sqlite.GetClaim. run_goal.
    destruct (Sqlite.scanClaim _); run_goal; [|done]. by destruct (_ && _).
  - destruct (row_with de_decision_id _ _); [done|]. by destruct (strings_Contains _ _).
Qed.

Lemma advance_effect d o to t from s now : ClaimSources to = Some from →
  (advance_claim CtxLive d o to t s).1 =
  (db_exec now s (UpdateClaim to (formatTime t) d (o_WorkflowID o) (o_RunID o) (o_Token o) from)).1.
Proof.
  intros Hs. cbn [advance_claim statement_ops sqlite_ops]. unfold Sqlite.AdvanceClaim. rewrite Hs. run_goal.
  destruct (update_claim _ _ _ _ _ _ _ s) as [s' [[n|e]|e]]; run_goal; [|done..]. by destruct (n =? 1).
Qed.

Lemma lawful_append rec s s' v : (∃ ctx, seen s (append_decision ctx rec s) s' v) →
  lawful_answer (OpAppendDecision rec) s s' v.
Proof. intros [ctx Hs] info w <-. by exists ctx, s'. Qed.
Lemma lawful_claim d o t s s' v : (∃ ctx, seen s (claim_execution ctx d o t s) s' v) →
  lawful_answer (OpClaimExecution d o t) s s' v.
Proof. intros [ctx Hs] info w <-. by exists ctx, s'. Qed.
Lemma lawful_advance d o to t s s' v : (∃ ctx, seen s (advance_claim ctx d o to t s) s' v) →
  lawful_answer (OpAdvanceClaim d o to t) s s' v.
Proof. intros [ctx Hs] info w <-. by exists ctx, s'. Qed.

Lemma effective_append rec : effective_call (OpAppendDecision rec) (Sqlite.AppendDecision json_error rec).
Proof.
  unfold Sqlite.AppendDecision. destruct (DecisionRecord_Validate rec) as [|] eqn:Hv; [done|].
  cbn -[db_exec]. intros s r s' Hs Ha. apply answers_cases in Ha as [(now & Hn)|[Hr Hs']].
  - cbn [db_exec insert_decision] in Hn. destruct (row_with _ _ _) as [row|] eqn:E; injection Hn as -> ->.
    + change (0 =? 1) with false. cbn. split; [done|]. intros s2 r2 s2' Hs2 Ha2.
      apply answers_SelectDecision in Ha2 as [-> Hr2].
      split; [|repeat case_match; done].
      destruct (Sqlite.scanDecision json_error (one_row r2)) as [x|e] eqn:Ex;
        [|apply lawful_append; exists CtxLive; apply seen_error; auto].
      destruct (DecisionRecord_Equal x rec) eqn:Eq; cbn;
        [|apply lawful_append; exists CtxLive; apply seen_error; auto].
      apply lawful_append. exists CtxLive. left. destruct Hr2 as [->|[e ->]]; [|done].
      pose proof Ex as Ex'. apply SqliteFacts.scanDecision_Ok in Ex' as (row2 & Hrow%SqliteFacts.one_row_Ok & _).
      injection Hrow as Hrow.
      cbn [append_decision statement_ops sqlite_ops]. unfold Sqlite.AppendDecision. rewrite Hv. run_goal.
      change (de_decision_id (decision_params rec)) with (dr_DecisionID rec).
      rewrite Hrow in *. change (0 =? 1) with false. run_goal. rewrite Hrow, Ex, Eq. done.
    + change (1 =? 1) with true. cbn. split; [|done]. apply lawful_append. exists CtxLive. left.
      cbn [append_decision statement_ops sqlite_ops]. unfold Sqlite.AppendDecision. rewrite Hv. run_goal.
      by rewrite E.
  - assert (He : ∀ e, lawful_answer (OpAppendDecision rec) s s' (Some e)).
    { intros e. apply lawful_append. exists CtxLive. apply seen_error.
      destruct Hs' as [|[now ->]]; [auto|]. right. symmetry. by apply append_effect. }
    destruct Hr as (e & [[_ ->]|[= <-]]); cbn; by split.
Qed.

Lemma claim_released_or_held d o t s : db_inv s → (d == "") || negb (ClaimOwner_Valid o) = false →
  ∀ row, row_with cl_decision_id d (execution_claims s) = Some row → cl_state row ≠ "RELEASED" →
  claim_execution CtxLive d o t s =
  (s, match Sqlite.scanClaim (Ok row) with
      | Err err => Some (Wrap "read existing claim: " err "")
      | Ok c => if (ec_Owner c == o) && (ec_State c == ClaimStateClaimed) then None
                else Some (ClaimHeldError c)
      end).
Proof.
  intros Hs Hg row Hrow Hst. cbn [claim_execution statement_ops sqlite_ops]. unfold Sqlite.ClaimExecution.
  rewrite Hg. run_goal. unfold upsert_claim. cbn [cl_decision_id claimed_row]. rewrite Hrow.
  rewrite bool_decide_false by done. change (0 =? 1) with false. unfold Sqlite.GetClaim. run_goal.
  rewrite Hrow. cbn [one_row]. destruct (Sqlite.scanClaim (Ok row)); run_goal; [|done]. by destruct (_ && _).
Qed.

Lemma effective_claim d o t : effective_call (OpClaimExecution d o t) (Sqlite.ClaimExecution q d o t).
Proof.
  unfold Sqlite.ClaimExecution. destruct ((d == "") || _) eqn:Hg; [done|].
  cbn -[db_exec]. intros s r s' Hs Ha. apply answers_cases in Ha as [(now & Hn)|[Hr Hs']].
  - cbn [db_exec] in Hn. destruct (upsert_claim _ s) as [s1 r1] eqn:E. injection Hn as -> ->.
    pose proof E as E'. apply SqliteFacts.upsert_effect in E' as [_ Hr]; [|done].
    destruct r1 as [[n|e]|e]; [|done|].
    2:{ destruct Hr as (-> & -> & _). destruct (strings_Contains _ _); cbn; (split; [|done]);
        apply lawful_claim; exists CtxLive; apply seen_error; auto. }
    destruct Hr as [_ [(-> & _)|(-> & -> & _)]].
    + change (1 =? 1) with true. cbn. split; [|done]. apply lawful_claim. exists CtxLive. left.
      cbn [claim_execution statement_ops sqlite_ops]. unfold Sqlite.ClaimExecution. rewrite Hg. run_goal.
      by rewrite E.
    + change (0 =? 1) with false. cbn. split; [done|]. intros s2 r2 s2' Hs2 Ha2.
      apply answers_SelectClaim in Ha2 as [-> Hr2]. split; [|repeat case_match; done].
      destruct (Sqlite.scanClaim (one_row r2)) as [c|e] eqn:Ec;
        [|apply lawful_claim; exists CtxLive; apply seen_error; auto].
      destruct ((ec_Owner c == o) && (ec_State c == ClaimStateClaimed)) eqn:Eb;
        [|apply lawful_claim; exists CtxLive; apply seen_error; auto].
      apply lawful_claim. exists CtxLive. left. destruct Hr2 as [->|[e ->]]; [|cbn in Ec; by destruct (errors_Is e ErrNoRows)].
      pose proof Ec as Ec'. apply SqliteFacts.scanClaim_Ok in Ec' as (row & Hrow%SqliteFacts.one_row_Ok & Hc).
      injection Hrow as Hrow. rewrite Hrow in Ec. cbn [one_row] in Ec.
      pose proof (proj2 (proj1 (andb_true_iff _ _) Eb)) as Hst. apply bool_decide_eq_true in Hst.
      rewrite (claim_released_or_held d o t s2 Hs2 Hg row Hrow).
      * by rewrite Ec, Eb.
      * subst c. unfold row_claim, claim_of in Hst. cbn in Hst. rewrite Hst. done.
  - assert (He : ∀ e, lawful_answer (OpClaimExecution d o t) s s' (Some e)).
    { intros e. apply lawful_claim. exists CtxLive. apply seen_error.
      destruct Hs' as [|[now ->]]; [auto|]. right. symmetry. by apply claim_effect. }
    destruct Hr as (e & [[_ ->]|[= <-]]); cbn; [destruct (strings_Contains _ _); cbn|]; by split.
Qed.

Lemma effective_advance d o to t : effective_call (OpAdvanceClaim d o to t) (Sqlite.AdvanceClaim d o to t).
Proof.
  unfold Sqlite.AdvanceClaim. destruct (ClaimSources to) as [from|] eqn:Hsrc; [|done].
  cbn -[db_exec]. intros s r s' Hs Ha. apply answers_cases in Ha as [(now & Hn)|[Hr Hs']].
  - cbn [db_exec] in Hn. destruct (update_claim _ _ _ _ _ _ _ s) as [s1 r1] eqn:E. injection Hn as -> ->.
    assert (Ha : advance_claim CtxLive d o to t s =
      (s1, match r1 with
           | Err e | Ok (Err e) => Some (Wrap "advance claim: " e "")
           | Ok (Ok n) => if negb (n =? 1) then Some (Sentinel ErrClaimNotHeld) else None
           end)).
    { cbn [advance_claim statement_ops sqlite_ops]. unfold Sqlite.AdvanceClaim. rewrite Hsrc. run_goal.
      rewrite E. destruct r1 as [[n|e]|e]; run_goal; [|done..]. by destruct (n =? 1). }
    assert (Hl : ∀ v, (advance_claim CtxLive d o to t s).2 = v → lawful_answer (OpAdvanceClaim d o to t) s s1 v).
    { intros v Hv. apply lawful_advance. exists CtxLive. left. rewrite Ha in *. cbn in Hv. by subst v. }
    rewrite Ha in Hl. cbn [snd] in Hl.
    destruct r1 as [[n|e]|e]; [destruct (n =? 1)|..]; cbn; (split; [by apply Hl|done]).
  - assert (He : ∀ e, lawful_answer (OpAdvanceClaim d o to t) s s' (Some e)).
    { intros e. apply lawful_advance. exists CtxLive. apply seen_error.
      destruct Hs' as [|[now ->]]; [auto|]. right. symmetry. by apply advance_effect. }
    destruct Hr as (e & [[_ ->]|[= <-]]); cbn; by split.
Qed.

Lemma effective_get_decision d : effective_call (OpGetDecision d) (Sqlite.GetDecision json_error d).
Proof.
  cbn -[db_exec]. intros s r s' Hs Ha. apply answers_SelectDecision in Ha as [-> Hr]. split; [|done].
  intros info w <-. cbn. split; [apply set_store_id|]. destruct Hr as [->|[e ->]].
  - left. by exists CtxLive.
  - right. cbn. destruct (errors_Is e ErrNoRows); eauto.
Qed.

Lemma effective_get_claim d : effective_call (OpGetClaim d) (Sqlite.GetClaim d).
Proof.
  cbn -[db_exec]. intros s r s' Hs Ha. apply answers_SelectClaim in Ha as [-> Hr]. split; [|done].
  intros info w <-. cbn. split; [apply set_store_id|]. destruct Hr as [->|[e ->]].
  - left. by exists CtxLive.
  - right. cbn. destruct (errors_Is e ErrNoRows); eauto.
Qed.

(** An audit row touches neither decisions nor claims. *)
Lemma lawful_audit rec s s' v : decision_records s' = decision_records s →
  execution_claims s' = execution_claims s → (db_inv s → db_inv s') → lawful_answer (OpAuditAppend rec) s s' v.
Proof.
  intros Hd Hc Hi info w <-. exists s'. split; [|done]. split_and!; [| |exact Hi]; cbn.
  - unfold db_decisions. by rewrite Hd.
  - unfold db_claims. by rewrite Hc.
Qed.

Lemma answers_InsertAudit row s r s' : answers s (InsertAudit row) r s' →
  decision_records s' = decision_records s ∧ execution_claims s' = execution_claims s ∧
  (r = Ok (Ok 0) → s' = s) ∧ (r = Ok (Ok 0) ∨ r = Ok (Ok 1) ∨ (∃ e, r = Err e) ∨ ∃ e, r = Ok (Err e)).
Proof.
  assert (Hx : ∀ now, decision_records (db_exec now s (InsertAudit row)).1 = decision_records s ∧
                      execution_claims (db_exec now s (InsertAudit row)).1 = execution_claims s)
    by (intros now; cbn; by destruct (row_with _ _ _)).
  intros [(now & Hn)|[(e & He) Hs']]%answers_cases.
  - destruct (Hx now) as [Hd Hc]. rewrite <- Hn in Hd, Hc. cbn in Hd, Hc. split_and!; [done..| |];
      cbn [db_exec insert_audit] in Hn; destruct (row_with _ _ _); injection Hn as -> ->; by auto.
  - assert (r ≠ Ok (Ok 0) ∧ ((∃ e, r = Err e) ∨ ∃ e, r = Ok (Err e))) as [Hne Hr]
      by (destruct He as [[_ ->]|[= <-]]; eauto).
    destruct Hs' as [->|[now ->]]; [|destruct (Hx now)]; split_and!; auto; done.
Qed.

Lemma answers_SelectAuditByID d s r s' : answers s (SelectAuditByID d) r s' → s' = s.
Proof.
  intros [(now & Hn)|[(e & [[_ ->]|He]) Hs]]%answers_cases; [by injection Hn as -> ->| |done].
  by destruct Hs as [|[now ->]].
Qed.

Lemma answers_TimeNow s r s' : answers s TimeNow r s' → s' = s.
Proof.
  intros [(now & Hn)|[(e & [[? _]|He]) _]]%answers_cases; [by injection Hn as -> ->|done..].
Qed.

Lemma effective_audit rec : effective_call (OpAuditAppend rec) (Sqlite.Append q rec).
Proof.
  unfold Sqlite.Append. destruct (_ || _ || _); [done|].
  match goal with |- effective _ (mbind ?body (if _ then _ else _)) =>
    assert (Hins : ∀ rec', effective_call (OpAuditAppend rec) (body rec')) end.
  { intros rec'. cbn -[db_exec]. intros s r s' Hs Han. pose proof (answers_inv _ _ _ _ Hs Han) as Hs'.
    apply answers_InsertAudit in Han as (Hd & Hc & Hsame & [->|[->|[[e ->]|[e ->]]]]); cbn.
    - split; [by apply Hsame|]. intros s2 r2 s2' Hs2 Ha2. apply answers_SelectAuditByID in Ha2 as ->.
      split; [|repeat case_match; done]. repeat case_match; simplify_eq; by apply lawful_audit.
    - split; [by apply lawful_audit|done].
    - split; [by apply lawful_audit|done].
    - split; [by apply lawful_audit|done]. }
  destruct (IsZero (ar_RecordedAt rec)); [|apply Hins].
  cbn -[db_exec]. intros s r s' Hs Ha. apply answers_TimeNow in Ha as ->. split; [done|]. apply Hins.
Qed.

Lemma sql_call_effective o p : sql_call o = Some p → effective_call o p.
Proof.
  destruct o; cbn [sql_call]; intros [= <-];
    auto using effective_append, effective_audit, effective_claim, effective_advance, effective_get_decision, effective_get_claim.
Qed.

(** A call that is refused before its first statement. *)
Lemma sql_call_refused o v info (w : world Db A) : sql_call o = Some (Ret v) → serves info w o v w.
Proof.
  destruct o; cbn [sql_call]; intros Hp; try done.
  - injection Hp as Hp. unfold Sqlite.AppendDecision in Hp.
    destruct (DecisionRecord_Validate rec) as [e|] eqn:Hv; [|done]. injection Hp as <-.
    exists CtxLive, (w_store w). split; [apply seen_error; auto|by rewrite set_store_id].
  - injection Hp as Hp. unfold Sqlite.ClaimExecution in Hp. destruct ((_ == "") || _); [|done].
    injection Hp as <-. exists CtxLive, (w_store w). split; [apply seen_error; auto|by rewrite set_store_id].
  - injection Hp as Hp. unfold Sqlite.AdvanceClaim in Hp. destruct (ClaimSources to); [done|].
    injection Hp as <-. exists CtxLive, (w_store w). split; [apply seen_error; auto|by rewrite set_store_id].
  - exists (w_store w). split; [by split_and!|by rewrite set_store_id].
Qed.

(** ** The system *)

Record stask := {
  st_info : execution; st_run : nat; st_seq : nat; st_call : ActivityCall;
  st_local : local ActOpReply (result act_error (ActValue st_call)) }.

Record statement_system := { z_world : world Db A; z_tasks : list stask }.

Definition moved (t : stask) (l : local ActOpReply (result act_error (ActValue (st_call t)))) : stask :=
  {| st_info := st_info t; st_run := st_run t; st_seq := st_seq t; st_call := st_call t; st_local := l |}.

Definition new_stask (info : execution) (run seq : nat) (a : ActivityCall) : stask :=
  {| st_info := info; st_run := run; st_seq := seq; st_call := a; st_local := Idle (activity q cfg info a) |}.

(** One attempt moves: it asks something that is not on the database, begins a
    store call, has a statement of it executed, or goes on with its result. *)
Inductive task_move : statement_system → statement_system → Prop :=
| z_serve z i t o k r w' :
    z_tasks z !! i = Some t → st_local t = Idle (Call o k) → sql_call o = None →
    serves (st_info t) (z_world z) o r w' →
    task_move z {| z_world := w'; z_tasks := <[i := moved t (Idle (k r))]> (z_tasks z) |}
| z_begin z i t o k p :
    z_tasks z !! i = Some t → st_local t = Idle (Call o k) → sql_call o = Some p →
    task_move z {| z_world := z_world z; z_tasks := <[i := moved t (Busy o k p)]> (z_tasks z) |}
| z_statement z i t o k so ks r db' :
    z_tasks z !! i = Some t → st_local t = Busy o k (Call so ks) →
    answers (w_store (z_world z)) so r db' →
    task_move z {| z_world := set_store (z_world z) db';
                   z_tasks := <[i := moved t (Busy o k (ks r))]> (z_tasks z) |}
| z_return z i t o k v :
    z_tasks z !! i = Some t → st_local t = Busy o k (Ret v) →
    task_move z {| z_world := z_world z; z_tasks := <[i := moved t (Idle (k v))]> (z_tasks z) |}.

Inductive statement_step : statement_system → statement_system → Prop :=
| z_start z info run seq a :
    statement_step z {| z_world := z_world z; z_tasks := z_tasks z ++ [new_stask info run seq a] |}
| z_reload z p :
    statement_step z {| z_world := set_policy (z_world z) p; z_tasks := z_tasks z |}
| z_move z z' : task_move z z' → statement_step z z'.

(** ** It refines the system of atomic calls *)

Definition abs_task (t : stask) : task :=
  {| t_info := st_info t; t_run := st_run t; t_seq := st_seq t; t_call := st_call t;
     t_prog := abs_local (st_local t) |}.
Definition abs (z : statement_system) : @system Db A :=
  {| y_world := z_world z; y_tasks := abs_task <$> z_tasks z |}.

Definition busy_ok (t : stask) : Prop :=
  match st_local t with Idle _ => True | Busy o _ p => effective_call o p end.
Record statement_inv (z : statement_system) : Prop := {
  zi_db : db_inv (w_store (z_world z));
  zi_adapter : adapter_inv (w_adapter (z_world z));
  zi_busy : Forall busy_ok (z_tasks z) }.

Lemma abs_insert z i t l : z_tasks z !! i = Some t →
  abs_task <$> <[i := moved t l]> (z_tasks z) =
  <[i := continue (abs_task t) (abs_local l)]> (abs_task <$> z_tasks z).
Proof. intros Hi. by rewrite list_fmap_insert. Qed.

Lemma abs_insert_same z i t l : z_tasks z !! i = Some t → abs_local l = abs_local (st_local t) →
  abs_task <$> <[i := moved t l]> (z_tasks z) = abs_task <$> z_tasks z.
Proof.
  intros Hi Hl. rewrite abs_insert, Hl by done. apply list_insert_id.
  by rewrite list_lookup_fmap, Hi.
Qed.

Lemma task_move_inv z z' : statement_inv z → task_move z z' → statement_inv z'.
Proof.
  intros [Hdb Ha Hb] Hst.
  assert (Hin : ∀ i t l, z_tasks z !! i = Some t → busy_ok (moved t l) →
    Forall busy_ok (<[i := moved t l]> (z_tasks z))) by (intros; by apply Forall_insert).
  destruct Hst as [z i t o k r w' Hi Hl Hn Hsv|z i t o k p Hi Hl Hp|z i t o k so ks r db' Hi Hl Han|z i t o k v Hi Hl].
  - assert (Hs : store_inv (w_store (z_world z))) by exact Hdb.
    destruct (serves_keeps _ _ _ _ _ Hs Ha Hsv) as (? & ? & _). split; [done..|]. by apply Hin.
  - split; [done..|]. apply Hin; [done|]. by apply sql_call_effective.
  - pose proof (proj1 (Forall_lookup _ _) Hb i t Hi) as Hbt. unfold busy_ok in Hbt. rewrite Hl in Hbt.
    destruct (Hbt _ _ _ Hdb Han) as [_ He].
    split; [by eapply answers_inv|done|]. by apply Hin.
  - split; [done..|]. by apply Hin.
Qed.

Lemma statement_step_inv z z' : statement_inv z → statement_step z z' → statement_inv z'.
Proof.
  intros Hz Hst. destruct Hst as [z info run seq a|z p|z z' Hm]; [|by destruct Hz|by eapply task_move_inv].
  destruct Hz as [Hdb Ha Hb]. split; [done..|]. apply Forall_app. split; [done|]. by apply Forall_singleton.
Qed.

(** An attempt is answered one call. *)
Definition served (y y' : @system Db A) : Prop := ∃ i t o k r w',
  y_tasks y !! i = Some t ∧ t_prog t = Call o k ∧ serves (t_info t) (y_world y) o r w' ∧
  y' = {| y_world := w'; y_tasks := <[i := continue t (k r)]> (y_tasks y) |}.

Lemma abs_served z i t o k r w' l : z_tasks z !! i = Some t → abs_local (st_local t) = Call o k →
  serves (st_info t) (z_world z) o r w' → abs_local l = k r →
  served (abs z) (abs {| z_world := w'; z_tasks := <[i := moved t l]> (z_tasks z) |}).
Proof.
  intros Hi Hl Hsv Hk. exists i, (abs_task t), o, k, r, w'. cbn. rewrite list_lookup_fmap, Hi. split_and!; try done.
  unfold abs. cbn [z_world z_tasks]. by rewrite (abs_insert z i t _ Hi), Hk.
Qed.

(** A move is one atomic call, or nothing. *)
Lemma task_move_abs z z' : statement_inv z → task_move z z' → abs z' = abs z ∨ served (abs z) (abs z').
Proof.
  intros [Hdb Ha Hb] Hst.
  destruct Hst as [z i t o k r w' Hi Hl Hn Hsv|z i t o k p Hi Hl Hp|z i t o k so ks r db' Hi Hl Han|z i t o k v Hi Hl].
  - right. eapply abs_served; [done|by rewrite Hl|done|done].
  - destruct p as [v|so ks] eqn:Ep.
    + right. eapply abs_served; [done|by rewrite Hl|by apply sql_call_refused|done].
    + left. unfold abs. cbn [z_world z_tasks]. by rewrite abs_insert_same by (try rewrite Hl; done).
  - pose proof (proj1 (Forall_lookup _ _) Hb i t Hi) as Hbt. unfold busy_ok in Hbt. rewrite Hl in Hbt.
    destruct (Hbt _ _ _ Hdb Han) as [Hv _]. destruct (ks r) as [v|so' ks'] eqn:Ek.
    + right. eapply abs_served; [done|by rewrite Hl|by apply Hv|done].
    + left. subst db'. unfold abs. cbn [z_world z_tasks].
      by rewrite set_store_id, abs_insert_same by (try rewrite Hl; done).
  - left. unfold abs. cbn [z_world z_tasks]. by rewrite abs_insert_same by (try rewrite Hl; done).
Qed.

Lemma statement_step_abs z z' : statement_inv z → statement_step z z' →
  rtc (sys_step q cfg) (abs z) (abs z').
Proof.
  intros Hz Hst. destruct Hst as [z info run seq a|z p|z z' Hm].
  - unfold abs. cbn [z_world z_tasks]. rewrite fmap_app. apply rtc_once, (sys_start q cfg (abs z) info run seq a).
  - apply rtc_once, (sys_reload q cfg (abs z) p).
  - destruct (task_move_abs z z' Hz Hm) as [->|(i & t & o & k & r & w' & Hi & Hp & Hsv & ->)]; [done|].
    apply rtc_once. by eapply sys_serve.
Qed.

Lemma statement_run_abs z z' : statement_inv z → rtc statement_step z z' →
  statement_inv z' ∧ rtc (sys_step q cfg) (abs z) (abs z').
Proof.
  intros Hz Hr. induction Hr as [|z z1 z2 Hst _ IH]; [done|].
  destruct (IH (statement_step_inv _ _ Hz Hst)) as [? ?]. split; [done|].
  etransitivity; [by eapply statement_step_abs|done].
Qed.

(** A database and an adapter on which nothing runs yet. *)
Definition quiet (db : Db) (a : A) (p : option Snapshot) : statement_system :=
  {| z_world := y_world (idle db a p); z_tasks := [] |}.

(** C8: on the SQLite store, where the statements of concurrent store calls
    interleave and may fail or be applied although they are reported as failed,
    every run is, call by call, a run of the system whose store calls are atomic;
    the schema's constraints hold throughout; and the adapter is asked to
    dispatch at most once per ingress decision. *)
Theorem statements_refine_calls db a p z d :
  db_inv db → adapter_inv a → rtc statement_step (quiet db a p) z →
  rtc (sys_step q cfg) (idle db a p) (abs z) ∧ db_inv (w_store (z_world z)) ∧
  (dispatches (ExecutionKey d) (z_world z) ≤ 1)%nat.
Proof.
  intros Hdb Ha Hr. destruct (statement_run_abs (quiet db a p) z) as [[Hdb' _ _] Habs]; [by split|done|].
  split_and!; [exact Habs|done|].
  assert (Hs : store_inv db) by exact Hdb.
  destruct (sys_reach_inv _ _ _ _ (idle_inv db a p Hs Ha) Habs) as [_ _ _ Ho _].
  specialize (Ho (ExecutionKey d)). cbn in Ho. lia.
Qed.

(** ** Schedules, executable

    The task at position [i] makes its next step, undisturbed, at time [now]. *)
Definition step_task (now : Time) (z : statement_system) (i : nat) : statement_system :=
  match z_tasks z !! i with
  | None => z
  | Some t =>
      let put w l := {| z_world := w; z_tasks := <[i := moved t l]> (z_tasks z) |} in
      match st_local t with
      | Idle (Ret _) => z
      | Idle (Call o k) =>
          match sql_call o with
          | Some p => put (z_world z) (Busy o k p)
          | None => let x := serve_live now (st_info t) (z_world z) o in put x.1 (Idle (k x.2))
          end
      | Busy o k (Call so ks) =>
          let x := db_run CtxLive now (w_store (z_world z)) so in
          put (set_store (z_world z) x.1) (Busy o k (ks x.2))
      | Busy o k (Ret v) => put (z_world z) (Idle (k v))
      end
  end.

Definition play_schedule (now : Time) (schedule : list nat) (z : statement_system) : statement_system :=
  foldl (step_task now) z schedule.

Lemma step_task_step now z i : rtc statement_step z (step_task now z i).
Proof.
  unfold step_task. destruct (z_tasks z !! i) as [t|] eqn:Hi; [|done].
  destruct (st_local t) as [[v|o k]|o k [v|so ks]] eqn:Hl; [done|..].
  - destruct (sql_call o) as [p|] eqn:Hp; apply rtc_once, z_move; [by eapply z_begin|].
    eapply z_serve; [done..|]. apply serve_live_serves.
  - apply rtc_once, z_move. by eapply z_return.
  - apply rtc_once, z_move. eapply z_statement; [done..|]. apply ans_done.
Qed.

Lemma play_schedule_steps now schedule z : rtc statement_step z (play_schedule now schedule z).
Proof.
  revert z. induction schedule as [|i schedule IH]; intros z; [done|]. cbn.
  etransitivity; [apply step_task_step|apply IH].
Qed.
End Statements.

(** ** Two attempts to dispatch one decision, statement by statement *)

(** A database in which the decision is recorded and claimed by the run. *)
Definition claimed_db : Db :=
  (atomically CtxLive 1 (_ ← Sqlite.AppendDecision id sample_record; Sqlite.ClaimExecution id "dec_1" owner_1 1)
     empty_db).1.

Lemma interp_db_inv {B} ctx now (p : sql B) db : db_inv db → db_inv (atomically ctx now p db).1.
Proof.
  unfold atomically. revert db. induction p as [v|o k IH]; intros db Hdb; cbn; [done|].
  pose proof (db_run_inv ctx now db o Hdb) as Hdb'. destruct (db_run ctx now db o) as [db' r]. by apply IH.
Qed.

Definition sample_quiet : @statement_system SimulatedAdapter.t :=
  quiet claimed_db SimulatedAdapter.NewSimulatedAdapter (Some default_snapshot).
Definition started (seq : nat) (z : @statement_system SimulatedAdapter.t) : statement_system :=
  {| z_world := z_world z; z_tasks := z_tasks z ++ [new_stask id full_config sample_info 0 seq sample_dispatch] |}.
Definition alternating : list nat := [0; 1; 0; 1; 0; 1; 0; 1; 0; 1; 0; 1; 0; 1; 0; 1]%nat.
Definition raced : @statement_system SimulatedAdapter.t :=
  play_schedule id id 2 alternating (started 9 (started 8 sample_quiet)).

Lemma raced_reached : rtc (statement_step id id full_config) sample_quiet raced.
Proof.
  etransitivity; [apply rtc_once, (z_start id id full_config sample_quiet sample_info 0 8 sample_dispatch)|].
  etransitivity; [apply rtc_once, (z_start id id full_config (started 8 sample_quiet) sample_info 0 9 sample_dispatch)|].
  exact (play_schedule_steps id id full_config 2 alternating (started 9 (started 8 sample_quiet))).
Qed.

Lemma statements_refine_calls_witness :
  dispatches (ExecutionKey "dec_1") (z_world raced) = 1%nat ∧
  rtc (@sys_step Db SimulatedAdapter.t (sqlite_ops id id) (sqlite_spec id id) _ id full_config)
    (idle claimed_db SimulatedAdapter.NewSimulatedAdapter (Some default_snapshot)) (abs raced).
Proof.
  split; [vm_compute; reflexivity|].
  exact (proj1 (statements_refine_calls id id full_config claimed_db SimulatedAdapter.NewSimulatedAdapter
    (Some default_snapshot) raced "dec_1"
    (interp_db_inv CtxLive 1 (_ ← Sqlite.AppendDecision id sample_record; Sqlite.ClaimExecution id "dec_1" owner_1 1)
       empty_db empty_db_inv)
    simulated_inv_new raced_reached)).
Defined.
