(* ===== verification/Deployment.v ===== *)
(** * Workflow runs on top of the interleaved activities

    Any number of runs of [SentryGateSagaWorkflow], started by anyone with any
    request while decisions are being recorded, each waiting for one answer at a
    time. Temporal starts attempts of the activity a run waits for, delivers what
    a finished attempt returned, or reports an error of its own. The theorems follow a call on the adapter back
    through the run that caused it to the ingress decision and the policy
    evaluation that authorised it. *)

From S2P Require Import Prelude GoBase Contracts Policy Decision Store Claims Adapter Activities Saga Protocol Traces System.
Open Scope Z_scope.
Open Scope go_scope.

(** A workflow run: its identity and input, what it asked and was answered so
    far, and what is left of it. *)
Record run := {
  u_info : execution;
  u_req : ExecutionRequest;
  u_trace : list (event WfReply);
  u_prog : wf wf_result }.

Section Deployment.
Context {S A : Type} `{StoreSpec S} `{AdapterSpec A}.
Context (q : string → string) (cfg : config).

Record deployment := { e_sys : @system S A; e_runs : list run }.

Definition new_run (info : execution) (req : ExecutionRequest) : run :=
  {| u_info := info; u_req := req; u_trace := []; u_prog := SentryGateSagaWorkflow q info req |}.
Definition answered (u : run) (o : WfOp) (r : WfReply o) (p : wf wf_result) : run :=
  {| u_info := u_info u; u_req := u_req u; u_trace := u_trace u ++ [ev o r]; u_prog := p |}.

(** What a workflow sees of an activity's own result. *)
Definition returned {B} (v : result act_error B) (r : result WfError B) : Prop :=
  match v, r with
  | Ok b, Ok b' => b' = b
  | Err (AppError _ ty _), Err e => we_type e = Some ty
  | Err (PlainError _), Err e => fenceFailure (Some e) = ""
  | _, _ => False
  end.

(** A run is answered: with what a finished attempt of [ts] returned, with an
    error of Temporal's own, or anything when it does not ask for an activity. *)
Inductive run_step (ts : list task) (us : list run) : list run → Prop :=
| run_deliver i u c a k v r :
    us !! i = Some u → u_prog u = Call (WfActivity c a) k →
    {| t_info := u_info u; t_run := i; t_seq := length (u_trace u); t_call := a; t_prog := Ret v |} ∈ ts →
    returned v r →
    run_step ts us (<[i := answered u (WfActivity c a) r (k r)]> us)
| run_no_result i u c a k e :
    us !! i = Some u → u_prog u = Call (WfActivity c a) k → fenceFailure (Some e) = "" →
    run_step ts us (<[i := answered u (WfActivity c a) (Err e) (k (Err e))]> us)
| run_other i u o k r :
    us !! i = Some u → u_prog u = Call o k →
    match o with WfActivity _ _ => False | _ => True end →
    run_step ts us (<[i := answered u o r (k r)]> us).

Lemma run_step_more ts ts' us us' : ts ⊆ ts' → run_step ts us us' → run_step ts' us us'.
Proof.
  intros Hts Hst. destruct Hst; [|by eapply run_no_result|by apply run_other].
  eapply run_deliver; eauto.
Qed.

(** What the worker, Temporal and the policy source do. *)
Inductive work_step : deployment → deployment → Prop :=
| work_reload x p :
    work_step x {| e_sys := {| y_world := set_policy (y_world (e_sys x)) p; y_tasks := y_tasks (e_sys x) |};
                   e_runs := e_runs x |}
| work_serve x i t o k r w' :
    y_tasks (e_sys x) !! i = Some t → t_prog t = Call o k →
    serves (t_info t) (y_world (e_sys x)) o r w' →
    work_step x {| e_sys := {| y_world := w'; y_tasks := <[i := continue t (k r)]> (y_tasks (e_sys x)) |};
                   e_runs := e_runs x |}
| work_attempt x i u c a k :
    e_runs x !! i = Some u → u_prog u = Call (WfActivity c a) k →
    work_step x {| e_sys := {| y_world := y_world (e_sys x);
                               y_tasks := y_tasks (e_sys x) ++
                                 [new_task q cfg (u_info u) i (length (u_trace u)) a] |};
                   e_runs := e_runs x |}
| work_run x us' :
    run_step (y_tasks (e_sys x)) (e_runs x) us' → work_step x {| e_sys := e_sys x; e_runs := us' |}.

(** Anyone may start a run and record a decision. *)
Inductive dep_step : deployment → deployment → Prop :=
| dep_submit x info req :
    dep_step x {| e_sys := e_sys x; e_runs := e_runs x ++ [new_run info req] |}
| dep_record x info rec r w' :
    serves info (y_world (e_sys x)) (OpAppendDecision rec) r w' →
    dep_step x {| e_sys := {| y_world := w'; y_tasks := y_tasks (e_sys x) |}; e_runs := e_runs x |}
| dep_work x x' : work_step x x' → dep_step x x'.

(** Seen from the services, a deployment is the interleaved system. *)
Lemma dep_step_sys x x' : dep_step x x' → rtc (sys_step q cfg) (e_sys x) (e_sys x').
Proof.
  intros Hst. destruct Hst as [x info req|x info rec r w' Hsv|x x' Hst]; [done| |destruct Hst];
    cbn; try done; apply rtc_once; destruct (e_sys x); cbn in *.
  - by apply (sys_record q cfg {| y_world := y_world; y_tasks := y_tasks |} info rec r).
  - apply (sys_reload q cfg {| y_world := y_world; y_tasks := y_tasks |}).
  - by eapply (sys_serve q cfg {| y_world := y_world; y_tasks := y_tasks |}).
  - apply (sys_start q cfg {| y_world := y_world; y_tasks := y_tasks |}).
Qed.

Lemma dep_steps_sys x x' : rtc dep_step x x' → rtc (sys_step q cfg) (e_sys x) (e_sys x').
Proof. induction 1 as [|x1 x2 x3 Hst _ IH]; [done|]. by etransitivity; [apply dep_step_sys|]. Qed.

(** ** What the services have established stays established *)

Definition ingress_ok (w : world S A) (workflowID : string) (req : ExecutionRequest) : Prop :=
  ∃ rec, decisions (w_store w) !! er_IngressDecisionID req = Some rec ∧ authorizes rec req workflowID.
Definition policy_ok (w : world S A) (req : ExecutionRequest) : Prop :=
  ∃ snap, snap ∈ w_policies w ∧ d_Verdict (Revalidate snap req) = VerdictAllow.

(** The key has taken effect; the key will not take effect any more. *)
Definition key_done (w : world S A) (key : string) : Prop := mutations (w_adapter w) key = 1.
Definition key_refused (w : world S A) (key : string) : Prop := refused (w_adapter w) key.

Record grows (w w' : world S A) : Prop := {
  gr_decisions : decisions (w_store w) ⊆ decisions (w_store w');
  gr_policies : w_policies w ⊆ w_policies w';
  gr_done key : key_done w key → key_done w' key;
  gr_refused key : key_refused w key → key_refused w' key }.

#[local] Instance grows_preorder : PreOrder grows.
Proof.
  split; [by split|]. intros w1 w2 w3 [????] [????]. split; [by etrans|by etrans|auto|auto].
Qed.

Lemma ingress_ok_grows w w' wid req : grows w w' → ingress_ok w wid req → ingress_ok w' wid req.
Proof. intros [Hd _ _ _] (rec & Hrec & Hau). exists rec. split; [by eapply lookup_weaken|done]. Qed.

Lemma policy_ok_grows w w' req : grows w w' → policy_ok w req → policy_ok w' req.
Proof. intros [_ Hp _ _] (snap & Hin & Hv). exists snap. split; [by apply Hp|done]. Qed.

Lemma seen_grows op w s' r :
  store_inv (w_store w) → seen (w_store w) (run_op op (w_store w)) s' r → grows w (set_store w s').
Proof.
  intros Hs Hseen. destruct (seen_run _ _ _ _ Hs Hseen) as [->|(r' & Hop & _)]; [by split|].
  split; try done. by eapply run_op_decisions.
Qed.

(** The policy served is among those served so far, and the services keep
    their contracts. *)
Record lawful (w : world S A) : Prop := {
  la_store : store_inv (w_store w);
  la_adapter : adapter_inv (w_adapter w);
  la_policy : w_policy w ∈ w_policies w }.

Lemma dispatch_grows ctx r w info : lawful w →
  grows w (log_call w info r (dispatch ctx r (w_adapter w)).1).
Proof.
  intros [_ Ha _]. split; try done; unfold key_done, key_refused; cbn; intros key Hk.
  - pose proof (dispatch_mono ctx r (w_adapter w) key Ha).
    pose proof (at_most_once _ key (dispatch_inv ctx r (w_adapter w) Ha)). lia.
  - by apply refused_dispatch.
Qed.

Lemma serves_grows info w o r w' : lawful w → serves info w o r w' → grows w w'.
Proof.
  intros Hl Hsv. pose proof Hl as [Hs Ha _]. destruct o; serve_cases Hsv; try done.
  - by eapply (seen_grows (SAppend ctx rec)).
  - by eapply (seen_grows (SClaim ctx decisionID owner at_)).
  - by eapply (seen_grows (SAdvance ctx decisionID owner to at_)).
  - destruct Haud as (Hd & _). split; try done. cbn. by rewrite Hd.
  - by apply dispatch_grows.
  - split; try done; unfold key_done, key_refused; cbn; intros key Hk;
      [by rewrite reconcile_applies_nothing|by apply refused_reconcile].
  - split; try done; unfold key_done, key_refused; cbn; intros key Hk;
      [by rewrite compensate_applies_nothing|by apply refused_compensate].
Qed.

(** ** What an attempt's result tells *)

(** [later info p Q w]: from [w] on, whenever its calls are answered, [p] ends
    with [Q] of its result and of the world at that time. *)
Fixpoint later {B} (info : execution) (p : act B) (Q : B → world S A → Prop) (w : world S A) : Prop :=
  match p with
  | Ret b => Q b w
  | Call o k => ∀ w1 r w2, grows w w1 → lawful w1 → serves info w1 o r w2 → later info (k r) Q w2
  end.

Lemma later_grows {B} info (p : act B) (Q : B → world S A → Prop) w w' :
  (∀ b w w', grows w w' → Q b w → Q b w') → grows w w' → later info p Q w → later info p Q w'.
Proof.
  intros HQ Hg. destruct p as [b|o k]; cbn; [by apply HQ|].
  intros Hl w1 r w2 Hg1. apply Hl. by etrans.
Qed.

Lemma later_any {B} info (p : act B) (Q : B → world S A → Prop) w : (∀ b w, Q b w) → later info p Q w.
Proof. intros HQ. revert w. induction p as [b|o k IH]; intros w; cbn; auto. Qed.

(** A confirmed outcome is true of the target. *)
Definition confirmed (w : world S A) (key : string) (o : DispatchOutcome) : Prop :=
  (oc_Status o = OutcomeSuccess → key_done w key) ∧ (oc_Status o = OutcomeFailure → key_refused w key).

Definition tells (info : execution) (a : ActivityCall) : result act_error (ActValue a) → world S A → Prop :=
  match a return result act_error (ActValue a) → world S A → Prop with
  | ActVerifyIngressDecision req => λ v w,
      match v with Ok iv => iv_Valid iv = true → ingress_ok w (x_ID info) req | Err _ => True end
  | ActEvaluateExecution req => λ v w,
      match v with Ok d => d_Verdict d = VerdictAllow → policy_ok w req | Err _ => True end
  | ActDispatchConfig f => λ v w,
      match v with Ok o => confirmed w (dq_IdempotencyKey (fd_Dispatch f)) o | Err _ => True end
  | ActReconcileDispatch d => λ v w,
      match v with Ok o => confirmed w (dq_IdempotencyKey d) o | Err _ => True end
  | _ => λ _ _, True
  end.

Lemma confirmed_grows w w' key o : grows w w' → confirmed w key o → confirmed w' key o.
Proof. intros [_ _ Hd Hr] [H1' H2']. split; auto. Qed.

Lemma confirmed_Checked w key o : confirmed w key o → confirmed w key (Checked o).
Proof.
  intros [Hs Hf]. split; intros Hst; [apply Hs|apply Hf]; rewrite <- Hst; symmetry;
    apply Checked_confirmed; by rewrite Hst.
Qed.

Lemma tells_grows info a v w w' : grows w w' → tells info a v w → tells info a v w'.
Proof.
  intros Hg. destruct a; cbn; try done; destruct v as [x|e]; try done.
  - intros Hv Hx. eapply ingress_ok_grows; eauto.
  - intros Hv Hx. eapply policy_ok_grows; eauto.
  - by apply confirmed_grows.
  - by apply confirmed_grows.
Qed.

Lemma VerifyIngressDecision_tells info req w :
  later info (VerifyIngressDecision q cfg info req) (tells info (ActVerifyIngressDecision req)) w.
Proof.
  unfold VerifyIngressDecision, CheckIngress. destruct (negb (has_store cfg)); [done|].
  case_bool_decide; [done|]. intros w1 r w2 Hg [Hs _ _] [-> Hr].
  destruct r as [rec|e]; [|cbn; destruct (errors_Is e ErrDecisionNotFound); cbn; repeat case_match; done].
  destruct Hr as [[ctx Hr]|[e [=]]]. symmetry in Hr. apply get_decision_ok in Hr as [Hrec _]; [|done].
  cbn. destruct (VerifyIngress rec req (x_ID info)) as [e|] eqn:Hv.
  - destruct (IngressReason e); done.
  - intros _. exists rec. split; [done|]. by apply VerifyIngress_None.
Qed.

Lemma EvaluateExecution_tells info req w :
  later info (EvaluateExecution cfg req) (tells info (ActEvaluateExecution req)) w.
Proof.
  unfold EvaluateExecution. intros w1 r w2 _ _ Hr. destruct r as [e|]; [done|].
  destruct (has_policy cfg); [|intros Hv; exfalso; unfold Revalidate in Hv; by case_bool_decide].
  intros w3 snap w4 Hg [_ _ Hp] [-> ->] Hv. by exists (w_policy w3).
Qed.

Lemma DispatchConfig_tells info f w :
  later info (DispatchConfig cfg info f) (tells info (ActDispatchConfig f)) w.
Proof.
  unfold DispatchConfig. destruct (negb (has_adapter cfg)); [done|]. destruct (negb (has_fence cfg)); [done|].
  destruct ((fd_DecisionID f == "") || _); [done|]. destruct (_ != _); [done|].
  intros w1 now w2 _ _ _ w3 r w4 _ _ _. destruct r as [e|].
  - cbn. destruct (errors_Is e ErrClaimNotHeld); [|done]. intros w5 held w6 _ _ _.
    cbn. repeat case_match; done.
  - intros w5 o w6 _ [_ Ha _] (ctx & -> & ->). cbn [tells]. apply confirmed_Checked.
    destruct (dispatch ctx (fd_Dispatch f) (w_adapter w5)) as [a o] eqn:E.
    destruct (dispatch_confirmed _ _ _ _ _ Ha E) as [Hs Hf].
    split; intros Hst; [by apply Hs|by apply Hf].
Qed.

Lemma ReconcileDispatch_tells info d w :
  later info (ReconcileDispatch cfg d) (tells info (ActReconcileDispatch d)) w.
Proof.
  unfold ReconcileDispatch. destruct (negb (has_adapter cfg)); [done|]. case_bool_decide; [done|].
  intros w1 o w2 _ [_ Ha _] (ctx & -> & ->). cbn [tells]. apply confirmed_Checked.
  destruct (reconcile ctx d (w_adapter w1)) as [a o] eqn:E.
  destruct (reconcile_confirmed _ _ _ _ _ Ha E) as [Hs Hf].
  split; intros Hst; [by apply Hs|by apply Hf].
Qed.

Lemma activity_tells info a w : later info (activity q cfg info a) (tells info a) w.
Proof.
  destruct a; try (by apply later_any).
  - apply VerifyIngressDecision_tells.
  - apply EvaluateExecution_tells.
  - apply DispatchConfig_tells.
  - apply ReconcileDispatch_tells.
Qed.

(** ** The invariant *)

(** What a run has asked so far, its open request included. *)
Definition asked (u : run) : list WfOp :=
  (projT1 <$> u_trace u) ++ match u_prog u with Call o _ => [o] | Ret _ => [] end.

Definition event_tells (info : execution) (w : world S A) (e : event WfReply) : Prop :=
  match e with
  | existT (WfActivity c a) r => ∀ v, r = Ok v → tells info a (Ok v) w
  | _ => True
  end.

Record task_ok (w : world S A) (runs : list run) (t : task) : Prop := {
  to_asked : ∃ u c, runs !! t_run t = Some u ∧ t_info t = u_info u ∧
                    asked u !! t_seq t = Some (WfActivity c (t_call t));
  to_tells : later (t_info t) (t_prog t) (tells (t_info t) (t_call t)) w;
  to_calls : calls_only (own_call (t_call t)) (t_prog t) }.

Record run_ok (w : world S A) (u : run) : Prop := {
  uo_reaches : reaches (SentryGateSagaWorkflow q (u_info u) (u_req u)) (u_trace u) (u_prog u);
  uo_tells : Forall (event_tells (u_info u) w) (u_trace u) }.

(** A call on the adapter and what authorised it. *)
Definition authorised (w : world S A) (started : list (execution * ExecutionRequest))
    (c : execution * DispatchRequest) : Prop :=
  ∃ req, c.2 = dreq req ∧ (c.1, req) ∈ started ∧ ingress_ok w (x_ID c.1) req ∧ policy_ok w req.

(** As what the runs were started. *)
Definition started_as (runs : list run) : list (execution * ExecutionRequest) :=
  (λ u, (u_info u, u_req u)) <$> runs.

(** A settled claim tells the truth about the target. *)
Definition settled_true (w : world S A) (d : string) (st : ClaimState) : Prop :=
  (st = ClaimStateCompleted → key_done w (ExecutionKey d)) ∧
  (st = ClaimStateFailed → key_refused w (ExecutionKey d)).
Definition claims_true (w : world S A) : Prop :=
  ∀ d c, claims (w_store w) !! d = Some c → settled_true w d (ec_State c).

Record dep_inv (x : deployment) : Prop := {
  di_lawful : lawful (y_world (e_sys x));
  di_claims : claims_true (y_world (e_sys x));
  di_tasks : Forall (task_ok (y_world (e_sys x)) (e_runs x)) (y_tasks (e_sys x));
  di_runs : Forall (run_ok (y_world (e_sys x))) (e_runs x);
  di_calls : Forall (authorised (y_world (e_sys x)) (started_as (e_runs x))) (w_calls (y_world (e_sys x))) }.

(** ** Preservation: the world grows *)

Lemma event_tells_grows info w w' e : grows w w' → event_tells info w e → event_tells info w' e.
Proof.
  intros Hg. destruct e as [[c a| | |d] r]; cbn; try done.
  intros He v Hv. eapply tells_grows; eauto.
Qed.

Lemma task_ok_grows w w' runs t : grows w w' → task_ok w runs t → task_ok w' runs t.
Proof.
  intros Hg [Ha Ht Hc]. split; [done| |done]. eapply later_grows; [|done|done].
  intros ???. apply tells_grows.
Qed.

Lemma run_ok_grows w w' u : grows w w' → run_ok w u → run_ok w' u.
Proof.
  intros Hg [Hr Ht]. split; [done|]. eapply Forall_impl; [done|]. intros e. by apply event_tells_grows.
Qed.

Lemma authorised_grows w w' us us' c : grows w w' → us ⊆ us' → authorised w us c → authorised w' us' c.
Proof.
  intros Hg Hus (req & Hc & Hin & Hi & Hp). exists req. split; [done|].
  split_and!; [by apply Hus|by eapply ingress_ok_grows|by eapply policy_ok_grows].
Qed.

Lemma started_as_answered runs i u o k r :
  runs !! i = Some u → started_as (<[i := answered u o r (k r)]> runs) = started_as runs.
Proof.
  intros Hi. unfold started_as. rewrite list_fmap_insert. cbn. apply list_insert_id.
  by rewrite list_lookup_fmap, Hi.
Qed.

(** ** Preservation: a run is answered *)

Lemma asked_answered u o k r : u_prog u = Call o k →
  asked u `prefix_of` asked (answered u o r (k r)).
Proof.
  intros Hp. unfold asked, answered. cbn. rewrite Hp, fmap_app. by apply prefix_app_r.
Qed.

Lemma task_ok_answered w runs i u o k r t :
  runs !! i = Some u → u_prog u = Call o k →
  task_ok w runs t → task_ok w (<[i := answered u o r (k r)]> runs) t.
Proof.
  intros Hi Hp [(u' & c & Hu' & Hinfo & Ha) Ht Hc]. split; [|done..].
  destruct (decide (t_run t = i)) as [Heq|Hne]; [subst i|].
  - rewrite Hi in Hu'. simplify_eq. exists (answered u' o r (k r)), c.
    rewrite list_lookup_insert_eq by (by eapply lookup_lt_Some). split_and!; [done..|].
    by eapply prefix_lookup_Some, asked_answered.
  - exists u', c. by rewrite list_lookup_insert_ne.
Qed.

Lemma run_ok_answered w u o k r :
  u_prog u = Call o k → run_ok w u → event_tells (u_info u) w (ev o r) →
  run_ok w (answered u o r (k r)).
Proof.
  intros Hp [Hr Ht] He. split; cbn.
  - rewrite Hp in Hr. by apply reaches_snoc.
  - apply Forall_app. split; [done|by constructor].
Qed.

Lemma answered_inv x i u o k r :
  dep_inv x → e_runs x !! i = Some u → u_prog u = Call o k →
  event_tells (u_info u) (y_world (e_sys x)) (ev o r) →
  dep_inv {| e_sys := e_sys x; e_runs := <[i := answered u o r (k r)]> (e_runs x) |}.
Proof.
  intros [Hl Ha Ht Hu Hc] Hi Hp He. split; cbn; try done.
  - eapply Forall_impl; [done|]. intros t. by apply task_ok_answered.
  - apply Forall_insert; [done|]. apply run_ok_answered; [done| |done].
    exact (proj1 (Forall_lookup _ _) Hu i u Hi).
  - by rewrite (started_as_answered _ _ _ _ k).
Qed.

(** ** The run behind a dispatch *)

(** The open request of a run counts as asked: some trace has it answered. *)
Lemma asked_answerable u i o (r : WfReply o) :
  reaches (SentryGateSagaWorkflow q (u_info u) (u_req u)) (u_trace u) (u_prog u) →
  asked u !! i = Some o →
  ∃ tr p r', reaches (SentryGateSagaWorkflow q (u_info u) (u_req u)) tr p ∧
    tr !! i = Some (ev o r') ∧ take i tr ⊆ u_trace u.
Proof.
  intros Hr Hi. unfold asked in Hi. apply lookup_app_Some in Hi as [Hi|[Hlen Hi]].
  - apply list_lookup_fmap_Some in Hi as ([o' r'] & -> & Hi). cbn in *.
    eexists _, _, r'. split_and!; [exact Hr|exact Hi|apply subseteq_take].
  - destruct (u_prog u) as [res|o' k] eqn:Hp; [done|].
    apply list_lookup_singleton_Some in Hi as [Hn ->]. rewrite length_fmap in Hn; rewrite length_fmap in Hlen.
    assert (i = length (u_trace u)) as -> by (apply Nat.le_antisymm; [by apply Nat.sub_0_le|done]).
    exists (u_trace u ++ [ev o r]). eexists _, _.
    split_and!; [by apply reaches_snoc|by apply list_lookup_middle|by rewrite take_app_length].
Qed.

Lemma run_dispatch_authorised w u i c f :
  run_ok w u → asked u !! i = Some (WfActivity c (ActDispatchConfig f)) →
  fd_Dispatch f = dreq (u_req u) ∧ ingress_ok w (x_ID (u_info u)) (u_req u) ∧ policy_ok w (u_req u).
Proof.
  intros [Hr Ht] Hi. destruct (asked_answerable u i (WfActivity c (ActDispatchConfig f)) (Err timed_out) Hr Hi) as (tr & p & r & Hr' & Hi' & Hsub).
  destruct (run_dispatch _ _ _ _ _ _ _ _ _ Hr' Hi') as (tok & Hm & -> & _).
  split; [done|]. rewrite Forall_forall in Ht. split.
  - destruct (protocol_established _ _ _ NeedIngress Hm) as (e & He & c' & iv & Hv & ->); [by left|].
    apply Hsub, Ht in He. by apply (He iv).
  - destruct (protocol_established _ _ _ NeedAllow Hm) as (e & He & c' & d & Hv & ->).
    { cbn. unfold cleared. by in_list. }
    apply Hsub, Ht in He. by apply (He d).
Qed.

(** The answer behind an outcome is true of the target. *)
Lemma answer_true w info req e o :
  event_tells info w e → meets req (NeedAnswer o) e → confirmed w (dq_IdempotencyKey (dreq req)) o.
Proof.
  intros He (c & raw & -> & [(f & Hf & ->)| ->]); apply confirmed_Checked; [rewrite <- Hf|]; exact (He raw eq_refl).
Qed.

Lemma run_settles_true w u i c t :
  run_ok w u → asked u !! i = Some (WfActivity c (ActAdvanceExecutionClaim t)) →
  settled_true w (ct_DecisionID t) (ct_To t).
Proof.
  intros [Hr Ht] Hi. destruct (asked_answerable u i (WfActivity c (ActAdvanceExecutionClaim t)) (Err timed_out) Hr Hi) as (tr & p & r & Hr' & Hi' & Hsub).
  rewrite Forall_forall in Ht.
  destruct (run_settles _ _ _ _ _ _ _ _ _ Hr' Hi') as (-> & Hc & Hf). split; intros Hto.
  - destruct (Hc Hto) as (o & e & Ho & He & Hm). apply Hsub, Ht in He.
    by apply (answer_true _ _ _ _ _ He Hm).
  - destruct (Hf Hto) as (o & e & Ho & He & Hm). apply Hsub, Ht in He.
    by apply (answer_true _ _ _ _ _ He Hm).
Qed.

(** ** Preservation: an attempt is served *)

Lemma settled_true_grows w w' d st : grows w w' → settled_true w d st → settled_true w' d st.
Proof. intros [_ _ Hd Hr] [? ?]. split; auto. Qed.

(** A store operation that is no transition into a settled state keeps settled
    claims true. *)
Lemma claims_true_seen op w s' r :
  store_inv (w_store w) → seen (w_store w) (run_op op (w_store w)) s' r → claims_true w →
  (∀ ctx d o to t, op = SAdvance ctx d o to t → settled_true w d to) →
  claims_true (set_store w s').
Proof.
  intros Hs Hseen Hc Hop. destruct (seen_run _ _ _ _ Hs Hseen) as [->|(r' & Hrun & _)]; [by destruct w|].
  intros d c Hd. change (settled_true w d (ec_State c)). cbn in Hd.
  destruct op as [ctx rec|ctx d' o t|ctx d' o to t], r' as [e|]; cbn in Hrun.
  - rewrite (append_decision_err _ _ _ _ _ Hs Hrun) in Hd. by apply Hc.
  - apply append_decision_ok in Hrun as (_ & Hcl & _); [|done]. rewrite Hcl in Hd. by apply Hc.
  - destruct (claim_execution_err _ _ _ _ _ _ _ Hs Hrun) as [-> _]. by apply Hc.
  - apply claim_execution_ok in Hrun as (_ & _ & _ & _ & _ & [[_ Hcl]|(c' & _ & _ & _ & ->)]);
      [|by apply Hc|done].
    rewrite Hcl in Hd. apply lookup_insert_Some in Hd as [[_ <-]|[_ Hd]]; [by split|by apply Hc].
  - destruct (advance_claim_err _ _ _ _ _ _ _ _ Hs Hrun) as [-> _]. by apply Hc.
  - apply advance_claim_ok in Hrun as (_ & _ & c' & from & _ & _ & _ & _ & Hcl); [|done].
    rewrite Hcl in Hd. apply lookup_insert_Some in Hd as [[-> <-]|[_ Hd]]; [|by apply Hc].
    by eapply Hop.
Qed.

Lemma claims_true_serves info w o r w' :
  lawful w → serves info w o r w' → claims_true w →
  (∀ d ow to t, o = OpAdvanceClaim d ow to t → settled_true w d to) → claims_true w'.
Proof.
  intros Hl Hsv Hc Hop. pose proof (serves_grows _ _ _ _ _ Hl Hsv) as Hg. pose proof (la_store _ Hl) as Hs.
  destruct o; serve_cases Hsv; try done;
    try (destruct Haud as (_ & Hcl & _); unfold claims_true; cbn; rewrite ?Hcl);
    try (intros d' c' Hd'; eapply settled_true_grows; [exact Hg|by apply Hc]).
  - by eapply (claims_true_seen (SAppend ctx rec)).
  - by eapply (claims_true_seen (SClaim ctx decisionID owner at_)).
  - eapply (claims_true_seen (SAdvance ctx decisionID owner to at_)); [done..|].
    intros ????? [= -> -> -> -> ->]. by eapply Hop.
Qed.

Lemma serves_lawful info w o r w' : lawful w → serves info w o r w' →
  lawful w' ∧
  (w_calls w' = w_calls w ∨
   ∃ req, match o with OpDispatch req' => req' = req | _ => False end ∧ w_calls w' = w_calls w ++ [(info, req)]).
Proof.
  intros [Hs Ha Hp] Hsv. destruct (serves_keeps _ _ _ _ _ Hs Ha Hsv) as (Hs' & Ha' & _).
  destruct o; serve_cases Hsv; (split; [by split|]); try (by left).
  right. by exists req.
Qed.

Lemma own_dispatch a r : own_call a (OpDispatch r) → ∃ f, a = ActDispatchConfig f ∧ fd_Dispatch f = r.
Proof. destruct a; cbn; try done. eauto. Qed.

Lemma own_advance a d ow to at_ : own_call a (OpAdvanceClaim d ow to at_) →
  to = ClaimStateExecuting ∨
  ∃ t, a = ActAdvanceExecutionClaim t ∧ ct_DecisionID t = d ∧ ct_To t = to.
Proof. destruct a as [| | | | |t|f| |]; cbn; try done; [right; exists t; tauto|by left]. Qed.

(** The call of an attempt is covered by the run that asked for it. *)
Lemma call_covered w runs t o k :
  Forall (run_ok w) runs → task_ok w runs t → t_prog t = Call o k →
  match o with
  | OpDispatch req => authorised w (started_as runs) (t_info t, req)
  | OpAdvanceClaim d _ to _ => settled_true w d to
  | _ => True
  end.
Proof.
  intros Hu [(u & c & Hu' & Hinfo & Hask) _ Hcalls] Hp. rewrite Hp in Hcalls. destruct Hcalls as [Hco _].
  pose proof (proj1 (Forall_lookup _ _) Hu _ _ Hu') as Hrun.
  destruct o as [| | | | | |d ow to at_| | |req| |]; try done.
  - apply own_advance in Hco as [->|(tr & Hcall & <- & <-)]; [by split|].
    rewrite Hcall in Hask. by eapply run_settles_true.
  - apply own_dispatch in Hco as (f & Hcall & <-). rewrite Hcall in Hask.
    destruct (run_dispatch_authorised w u (t_seq t) c f Hrun Hask) as (Hd & Hok & Hpol).
    exists (u_req u). cbn. rewrite Hinfo. split_and!; [done| |done..].
    apply list_elem_of_fmap. exists u. split; [done|]. by eapply list_elem_of_lookup_2.
Qed.

Lemma serve_inv x i t o k r w' :
  dep_inv x → y_tasks (e_sys x) !! i = Some t → t_prog t = Call o k →
  serves (t_info t) (y_world (e_sys x)) o r w' →
  dep_inv {| e_sys := {| y_world := w'; y_tasks := <[i := continue t (k r)]> (y_tasks (e_sys x)) |};
             e_runs := e_runs x |}.
Proof.
  intros [Hl Hcl Ht Hu Hc] Hi Hp Hsv. pose proof (serves_grows _ _ _ _ _ Hl Hsv) as Hg.
  pose proof (proj1 (Forall_lookup _ _) Ht i t Hi) as Htask.
  pose proof (call_covered _ _ _ _ _ Hu Htask Hp) as Hcov.
  destruct Htask as [Hasked Htells Hcalls].
  rewrite Hp in Htells, Hcalls. destruct Hcalls as [_ Hck].
  destruct (serves_lawful _ _ _ _ _ Hl Hsv) as (Hl' & Hlog).
  split; cbn [e_sys e_runs y_world y_tasks].
  - done.
  - apply (claims_true_serves _ _ _ _ _ Hl Hsv Hcl). intros d ow to at_ Ho. by rewrite Ho in Hcov.
  - apply Forall_insert.
    + eapply Forall_impl; [done|]. intros t'. by apply task_ok_grows.
    + split; [done| |apply Hck]. by apply (Htells (y_world (e_sys x)) r w').
  - eapply Forall_impl; [done|]. intros u. by apply run_ok_grows.
  - assert (Hc' : Forall (authorised w' (started_as (e_runs x))) (w_calls (y_world (e_sys x)))).
    { eapply Forall_impl; [done|]. intros c. by apply authorised_grows. }
    destruct Hlog as [->|(req & Ho & ->)]; [done|]. destruct o; try done. subst.
    apply Forall_app. split; [done|]. constructor; [|done]. by eapply authorised_grows.
Qed.

Lemma record_inv x info rec r w' :
  dep_inv x → serves info (y_world (e_sys x)) (OpAppendDecision rec) r w' →
  dep_inv {| e_sys := {| y_world := w'; y_tasks := y_tasks (e_sys x) |}; e_runs := e_runs x |}.
Proof.
  intros [Hl Hcl Ht Hu Hc] Hsv. pose proof (serves_grows _ _ _ _ _ Hl Hsv) as Hg.
  destruct (serves_lawful _ _ _ _ _ Hl Hsv) as (Hl' & [Hlog|(req & [] & _)]).
  split; cbn [e_sys e_runs y_world y_tasks].
  - done.
  - by apply (claims_true_serves _ _ _ _ _ Hl Hsv Hcl).
  - eapply Forall_impl; [done|]. intros t. by apply task_ok_grows.
  - eapply Forall_impl; [done|]. intros u. by apply run_ok_grows.
  - rewrite Hlog. eapply Forall_impl; [done|]. intros c. by apply authorised_grows.
Qed.

Lemma dep_step_inv x x' : dep_inv x → dep_step x x' → dep_inv x'.
Proof.
  intros Hx Hst. destruct Hst as
    [x info req|x info rec r w' Hsv|? ? [x p|x i t o k r w' Hi Hp Hsv|x i u c a k Hi Hp
    |x us' [i u c a k v r Hi Hp Hin Hret|i u c a k e Hi Hp He|i u o k r Hi Hp Ho]]].
  - destruct Hx as [Hl Ha Ht Hu Hc]. split; cbn; try done.
    + eapply Forall_impl; [done|]. intros t [(u & c & Hi & Hrest) ? ?]. split; [|done..].
      exists u, c. split; [by apply lookup_app_l_Some|done].
    + apply Forall_app. split; [done|]. constructor; [|done]. split; cbn; constructor.
    + eapply Forall_impl; [done|]. intros c. apply authorised_grows; [done|].
      unfold started_as. rewrite fmap_app. set_solver.
  - by apply (record_inv x info rec r).
  - destruct Hx as [[Hs Ha Hp] Hcl Ht Hu Hc].
    assert (Hg : grows (y_world (e_sys x)) (set_policy (y_world (e_sys x)) p)).
    { split; try done. cbn. set_solver. }
    split; cbn [e_sys e_runs y_world y_tasks]; [|done|..].
    + split; [done..|]. cbn. set_solver.
    + eapply Forall_impl; [done|]. intros t. by apply task_ok_grows.
    + eapply Forall_impl; [done|]. intros u. by apply run_ok_grows.
    + eapply Forall_impl; [done|]. intros c. by apply authorised_grows.
  - by eapply serve_inv.
  - destruct Hx as [Hl Ha Ht Hu Hc]. split; cbn [e_sys e_runs y_world y_tasks]; try done.
    apply Forall_app. split; [done|]. constructor; [|done]. split; cbn [t_info t_run t_seq t_call t_prog new_task].
    + exists u, c. split_and!; [done..|]. unfold asked. rewrite Hp.
      rewrite lookup_app_r; rewrite length_fmap; [|done]. by rewrite Nat.sub_diag.
    + apply activity_tells.
    + apply activity_calls.
  - apply answered_inv; try done. cbn. intros b ->. destruct Hx as [_ _ Ht _ _].
    rewrite Forall_forall in Ht. destruct (Ht _ Hin) as [_ Htells _]. cbn in Htells.
    destruct v as [b'|[]]; cbn in Hret; try done. by subst.
  - apply answered_inv; try done.
  - apply answered_inv; try done. by destruct o.
Qed.

Definition started (s : S) (a : A) (p : option Snapshot) : deployment :=
  {| e_sys := idle s a p; e_runs := [] |}.

(** The store a deployment starts with: no claim is settled untruly. *)
Definition settled_at_start (s : S) (a : A) : Prop :=
  ∀ d c, claims s !! d = Some c →
    (ec_State c = ClaimStateCompleted → mutations a (ExecutionKey d) = 1) ∧
    (ec_State c = ClaimStateFailed → refused a (ExecutionKey d)).

Lemma started_inv s a p : store_inv s → adapter_inv a → settled_at_start s a → dep_inv (started s a p).
Proof.
  intros Hs Ha Hc. split; cbn; try done. split; cbn; try done. apply list_elem_of_here.
Qed.

Lemma dep_reach_inv x x' : dep_inv x → rtc dep_step x x' → dep_inv x'.
Proof. intros Hx Hr. induction Hr; eauto using dep_step_inv. Qed.

(** ** An undisturbed run, executable *)

Definition wf_error (e : act_error) : WfError :=
  match e with
  | AppError msg ty _ => {| we_type := Some ty; we_text := msg |}
  | PlainError err => {| we_type := None; we_text := error_text q err |}
  end.
Definition wf_value {B} (v : result act_error B) : result WfError B :=
  match v with Ok b => Ok b | Err e => Err (wf_error e) end.

Lemma wf_value_returned {B} (v : result act_error B) : returned v (wf_value v).
Proof. destruct v as [b|[]]; reflexivity. Qed.

(** Temporal runs one attempt of each activity and delivers its result; the
    clock stands still but for the sleeps. *)
Definition temporal (info : execution) (random : string) (wn : world S A * Time) (o : WfOp)
    : (world S A * Time) * WfReply o :=
  match o return (world S A * Time) * WfReply o with
  | WfActivity c a => let x := interp (serve_live wn.2 info) wn.1 (activity q cfg info a) in
                      ((x.1, wn.2), wf_value x.2)
  | WfSideEffect => (wn, Ok random)
  | WfNow => (wn, wn.2)
  | WfSleep d => ((wn.1, wn.2 + d), None)
  end.

Lemma work_run_attempt now x j t :
  y_tasks (e_sys x) !! j = Some t →
  rtc work_step x {| e_sys := run_attempt now j t (e_sys x); e_runs := e_runs x |}.
Proof.
  intros Hj.
  pose proof (run_attempt_rtc (λ y y', work_step {| e_sys := y; e_runs := e_runs x |}
                                               {| e_sys := y'; e_runs := e_runs x |}) now j _ _
    (λ y i t o k r w', work_serve {| e_sys := y; e_runs := e_runs x |} i t o k r w') Hj) as Hr.
  destruct x as [y us]. cbn in *. revert Hr. generalize (run_attempt now j t y). intros y' Hr. clear Hj.
  induction Hr; [done|]. by eapply rtc_l.
Qed.

Lemma work_run_activity now x i u c a k :
  e_runs x !! i = Some u → u_prog u = Call (WfActivity c a) k →
  let v := interp (serve_live now (u_info u)) (y_world (e_sys x)) (activity q cfg (u_info u) a) in
  ∃ x', rtc work_step x x' ∧ y_world (e_sys x') = v.1 ∧
        e_runs x' = <[i := answered u (WfActivity c a) (wf_value v.2) (k (wf_value v.2))]> (e_runs x).
Proof.
  intros Hi Hp v. set (t := new_task q cfg (u_info u) i (length (u_trace u)) a).
  set (x1 := {| e_sys := {| y_world := y_world (e_sys x); y_tasks := y_tasks (e_sys x) ++ [t] |};
                e_runs := e_runs x |}).
  set (j := length (y_tasks (e_sys x))).
  assert (Hj : y_tasks (e_sys x1) !! j = Some t) by by apply list_lookup_middle.
  eexists. split; [eapply rtc_l; [by eapply (work_attempt x i u c a k)|]; fold t;
    change (rtc work_step x1 ?y) with (rtc work_step x1 y);
    eapply rtc_r; [apply (work_run_attempt now x1 j t Hj)|] |].
  - apply work_run. cbn [e_runs].
    eapply (run_deliver _ _ i u c a k v.2 (wf_value v.2)); [exact Hi|exact Hp| |apply wf_value_returned].
    cbn. apply (list_elem_of_lookup_2 _ j). apply list_lookup_insert_eq. rewrite length_app. cbn. lia.
  - done.
Qed.

Lemma work_run_all random p : ∀ x i u now,
  e_runs x !! i = Some u → u_prog u = p →
  let z := interp (temporal (u_info u) random) (y_world (e_sys x), now) p in
  ∃ x' u', rtc work_step x x' ∧ y_world (e_sys x') = z.1.1 ∧
           e_runs x' !! i = Some u' ∧ u_prog u' = Ret z.2.
Proof.
  induction p as [res|o k IH]; intros x i u now Hi Hp z; [by exists x, u|].
  assert (Hlen : (i < length (e_runs x))%nat) by by eapply lookup_lt_Some.
  assert (Hgo : ∀ x1 r now1, rtc work_step x x1 →
    e_runs x1 = <[i := answered u o r (k r)]> (e_runs x) →
    z = interp (temporal (u_info u) random) (y_world (e_sys x1), now1) (k r) →
    ∃ x' u', rtc work_step x x' ∧ y_world (e_sys x') = z.1.1 ∧
             e_runs x' !! i = Some u' ∧ u_prog u' = Ret z.2).
  { intros x1 r now1 Hx1 Hr ->.
    destruct (IH r x1 i (answered u o r (k r)) now1) as (x' & u' & H1' & H2' & H3' & H4').
    { rewrite Hr. by apply list_lookup_insert_eq. } { done. }
    exists x', u'. split_and!; [by etrans|done..]. }
  destruct o as [c a| | |d].
  - destruct (work_run_activity now x i u c a k Hi Hp) as (x1 & Hx1 & Hw & Hr).
    eapply (Hgo x1 _ now Hx1 Hr). unfold z. cbn. by rewrite Hw.
  - eapply (Hgo _ _ now); [apply rtc_once, work_run; by apply (run_other _ _ i u WfSideEffect k (Ok random))|done|done].
  - eapply (Hgo _ _ now); [apply rtc_once, work_run; by apply (run_other _ _ i u WfNow k now)|done|done].
  - eapply (Hgo _ _ (now + d)); [apply rtc_once, work_run; by apply (run_other _ _ i u (WfSleep d) k None)|done|done].
Qed.

(** A run of [req] from a fresh start, to its end. *)
Definition play (s : S) (a : A) (p : option Snapshot) (info : execution) (req : ExecutionRequest)
    (random : string) (now : Time) : (world S A * Time) * wf_result :=
  interp (temporal info random) (y_world (idle s a p), now) (SentryGateSagaWorkflow q info req).

Lemma play_reached s a p info req random now :
  ∃ x, rtc dep_step (started s a p) x ∧ y_world (e_sys x) = (play s a p info req random now).1.1.
Proof.
  set (x := {| e_sys := idle s a p; e_runs := [new_run info req] |}).
  destruct (work_run_all random (SentryGateSagaWorkflow q info req) x 0 (new_run info req) now)
    as (x' & u' & Hx & Hw & _); [done..|].
  exists x'. split; [|exact Hw]. eapply rtc_l; [apply dep_submit|].
  exact (rtc_subrel work_step dep_step _ _ dep_work Hx).
Qed.

(** C5: Every call to dispatch on the adapter, in any deployment with any
    number of workflow runs started by anyone with any request, carries the
    key and proposal of a request for which the decision store holds an
    ingress ALLOW for the same agent, content, proposal and workflow, and which
    a policy that was in force allows. *)
Theorem every_dispatch_authorised s a p x info d :
  store_inv s → adapter_inv a → settled_at_start s a → rtc dep_step (started s a p) x →
  (info, d) ∈ w_calls (y_world (e_sys x)) →
  ∃ req rec snap, d = dreq req ∧
    decisions (w_store (y_world (e_sys x))) !! er_IngressDecisionID req = Some rec ∧
    authorizes rec req (x_ID info) ∧
    snap ∈ w_policies (y_world (e_sys x)) ∧ d_Verdict (Revalidate snap req) = VerdictAllow.
Proof.
  intros Hs Ha Hst Hr Hin. destruct (dep_reach_inv _ _ (started_inv s a p Hs Ha Hst) Hr) as [_ _ _ _ Hc].
  rewrite Forall_forall in Hc. destruct (Hc _ Hin) as (req & Hd & _ & (rec & Hrec & Hau) & (snap & Hsn & Hv)).
  exists req, rec, snap. done.
Qed.

(** C6: Claims tell the truth about the target: in any reachable deployment, a
    COMPLETED claim means that the decision's key has taken effect exactly
    once, and a FAILED claim that it will not take effect any more. *)
Theorem settled_claims_true s a p x d c :
  store_inv s → adapter_inv a → settled_at_start s a → rtc dep_step (started s a p) x →
  claims (w_store (y_world (e_sys x))) !! d = Some c →
  (ec_State c = ClaimStateCompleted → mutations (w_adapter (y_world (e_sys x))) (ExecutionKey d) = 1) ∧
  (ec_State c = ClaimStateFailed → refused (w_adapter (y_world (e_sys x))) (ExecutionKey d)).
Proof.
  intros Hs Ha Hst Hr Hc. destruct (dep_reach_inv _ _ (started_inv s a p Hs Ha Hst) Hr) as [_ Hcl _ _ _].
  by apply Hcl.
Qed.
End Deployment.


Definition sample_play : (world MemoryStore.t SimulatedAdapter.t * Time) * wf_result :=
  play id full_config recorded_store SimulatedAdapter.NewSimulatedAdapter (Some default_snapshot)
    sample_execution sample_request "1" 1.

(** The sample request, executed: one call, and the claim is COMPLETED. *)
Example sample_play_result :
  sample_play.2 = WfCompleted ∧ length (w_calls sample_play.1.1) = 1%nat ∧
  (ec_State <$> claims (w_store sample_play.1.1) !! "dec_1") = Some ClaimStateCompleted.
Proof. vm_compute. done. Qed.

Lemma recorded_settled : settled_at_start recorded_store SimulatedAdapter.NewSimulatedAdapter.
Proof. intros d c Hd. vm_compute in Hd. by destruct d. Qed.

Lemma every_dispatch_authorised_witness :
  ∃ req rec snap, dreq sample_request = dreq req ∧
    decisions (w_store sample_play.1.1) !! er_IngressDecisionID req = Some rec ∧
    authorizes rec req "saga-p-1" ∧
    snap ∈ w_policies sample_play.1.1 ∧ d_Verdict (Revalidate snap req) = VerdictAllow.
Proof.
  destruct (play_reached id full_config recorded_store SimulatedAdapter.NewSimulatedAdapter
    (Some default_snapshot) sample_execution sample_request "1" 1) as (x & Hx & Hw).
  fold sample_play in Hw. rewrite <- Hw.
  refine (every_dispatch_authorised id full_config recorded_store SimulatedAdapter.NewSimulatedAdapter
    (Some default_snapshot) x sample_execution (dreq sample_request)
    recorded_store_inv simulated_inv_new recorded_settled Hx _).
  rewrite Hw. apply (list_elem_of_lookup_2 _ 0). vm_compute. reflexivity.
Defined.

Lemma sample_play_claim : ec_State <$> claims (w_store sample_play.1.1) !! "dec_1" = Some ClaimStateCompleted.
Proof. exact (proj2 (proj2 sample_play_result)). Qed.

Lemma settled_claims_true_witness :
  mutations (w_adapter sample_play.1.1) (ExecutionKey "dec_1") = 1.
Proof.
  destruct (play_reached id full_config recorded_store SimulatedAdapter.NewSimulatedAdapter
    (Some default_snapshot) sample_execution sample_request "1" 1) as (x & Hx & Hw).
  fold sample_play in Hw. rewrite <- Hw.
  destruct (proj1 (fmap_Some _ _ _) sample_play_claim) as (c & Hc & Hst). symmetry in Hst.
  rewrite <- Hw in Hc.
  exact (proj1 (settled_claims_true id full_config recorded_store SimulatedAdapter.NewSimulatedAdapter
    (Some default_snapshot) x "dec_1" c recorded_store_inv simulated_inv_new recorded_settled Hx Hc) Hst).
Defined.
