(* ===== verification/Undisturbed.v ===== *)
(** * What an undisturbed run achieves

    The theorems of [System], [Deployment] and [Gateway] say what never happens.
    Here is what does happen: on any store and adapter that keep their laws, a
    run of the workflow whose ingress decision is recorded and unclaimed, and
    whose proposal the current policy allows, goes through to the adapter, and
    its result, its claim and the adapter's state are those of [settle], the
    plain description of dispatching once and asking until the answer is
    conclusive. *)

From S2P Require Import Prelude GoBase Contracts Policy Decision Store Grants Claims Adapter AuditTrail.
From S2P Require Import Activities Startup Saga Protocol Traces Trail Reconcile System Deployment.
Open Scope Z_scope.
Open Scope go_scope.

(** The [n]-th question is the last one that fits into the window. *)
Fixpoint last_question (n : nat) (wait elapsed : Duration) : bool :=
  match n with
  | O => false
  | S n => if reconcileWindow <? elapsed + wait then (n =? 0)%nat
           else last_question n (Z.min (2 * wait) reconcileMaxWait) (elapsed + wait)
  end.

Lemma last_question_fuel : last_question reconcileFuel reconcileFirstWait 0 = true.
Proof. vm_compute. reflexivity. Qed.

Section Undisturbed.
Context {S A : Type} `{StoreGrants S} `{AdapterSpec A}.
Context (q : string → string) (info : execution) (req : ExecutionRequest) (random : string).

Abbreviation decisionID := (er_IngressDecisionID req).
Abbreviation token := ("exe_" +:+ random).
Abbreviation owner := (claimOwner info token).
(** How the services answer an attempt of this run, and that the audit store
    holds no record of it with a number above [n]. *)
Context (serve : Time → world S A → ∀ o : ActOp, world S A * ActOpReply o) (trail : Z → S → Prop).

(** The services answer at once and without failure; the audit store takes the
    next record. *)
Record services : Prop := {
  sv_plain now w o : match o with OpAuditAppend _ => False | _ => True end → serve now w o = serve_live now info w o;
  sv_audit now n w phase verdict detail : trail n (w_store w) → 0 ≤ n → phase ∈ phases → p_ID (prop req) ≠ "" →
    ∃ s', serve now w (OpAuditAppend (newAuditRecord (p_ID (prop req)) (x_ID info) (x_RunID info) phase verdict
                                        (prop req) detail now (n + 1))) = (set_store w s', None) ∧
          audited (w_store w) s' ∧ trail (n + 1) s';
  sv_append n rec s : trail n s → trail n (append_decision CtxLive rec s).1;
  sv_claim n d o t s : trail n s → trail n (claim_execution CtxLive d o t s).1;
  sv_advance n d o to t s : trail n s → trail n (advance_claim CtxLive d o to t s).1 }.

Abbreviation attempt now w a := (interp (serve now) w (activity q worker_wiring info a)).

(** Temporal runs one attempt of each activity and delivers its result; the
    clock stands still but for the sleeps. *)
Definition live (wn : world S A * Time) (o : WfOp) : (world S A * Time) * WfReply o :=
  match o return (world S A * Time) * WfReply o with
  | WfActivity c a => let x := attempt wn.2 wn.1 a in ((x.1, wn.2), wf_value q x.2)
  | WfSideEffect => (wn, Ok random)
  | WfNow => (wn, wn.2)
  | WfSleep d => ((wn.1, wn.2 + d), None)
  end.


(** ** The reference: dispatch once, ask until the answer is conclusive *)

(** At most [n] questions; the answer to the last one stands. *)
Fixpoint asks (n : nat) (a : A) : A * DispatchOutcome :=
  match n with
  | O => (a, UnknownOutcome "")
  | Datatypes.S n =>
      let x := reconcile CtxLive (dreq req) a in
      if (oc_Status (Checked x.2) != OutcomeUnknown) || (n =? 0)%nat then (x.1, Checked x.2) else asks n x.1
  end.

Definition settle (a : A) : A * DispatchOutcome :=
  let x := dispatch CtxLive (dreq req) a in
  if oc_Status (Checked x.2) == OutcomeUnknown then asks reconcileFuel x.1 else (x.1, Checked x.2).

Definition failed (msg : string) : wf_result := WfFailed (ApplicationFailure msg DispatchFailedErrorType None []).

(** The adapter and the result in the end. *)
Definition conclusion (a : A) (o : DispatchOutcome) : A * wf_result :=
  if oc_Status o == OutcomeFailure then
    if oc_PartiallyApplied o then
      let c := compensate CtxLive (dreq req) a in
      (c.1, failed (match c.2 with
                    | None => "dispatch partly applied and compensation ran: " +:+ oc_Detail o
                    | Some e => "dispatch partly applied and compensation failed: " +:+ error_text q e
                    end))
    else (a, failed ("dispatch failed: " +:+ oc_Detail o))
  else if oc_Status o == OutcomeUnknown then
    (a, WfFailed (ApplicationFailure
          "dispatch outcome unknown after reconciliation; execution claim left in RECONCILIATION_REQUIRED"
          DispatchOutcomeUnknownErrorType None [ExecutionKey decisionID]))
  else (a, WfCompleted).

Definition final_state (o : DispatchOutcome) : ClaimState :=
  if oc_Status o == OutcomeFailure then ClaimStateFailed
  else if oc_Status o == OutcomeUnknown then ClaimStateReconciliationRequired
  else ClaimStateCompleted.

(** ** The claim on the way *)

(** This run holds the claim in state [st] and has written [n] audit records; no
    other claim has changed. *)
Record stage (st : ClaimState) (n : Z) (dec : gmap string DecisionRecord) (w0 w : world S A) : Prop := {
  sg_inv : store_inv (w_store w);
  sg_claim : ∃ c, claims (w_store w) !! decisionID = Some c ∧ ec_Owner c = owner ∧ ec_State c = st;
  sg_others d : d ≠ decisionID → claims (w_store w) !! d = claims (w_store w0) !! d;
  sg_decisions : decisions (w_store w) = dec;
  sg_policy : w_policy w = w_policy w0;
  sg_trail : trail n (w_store w);
  sg_count : 0 ≤ n }.

Lemma stage_adapter st n dec w0 w a : stage st n dec w0 w → stage st n dec w0 (set_adapter w a).
Proof. by intros []. Qed.
Lemma stage_call st n dec w0 w r a : stage st n dec w0 w → stage st n dec w0 (log_call w info r a).
Proof. by intros []. Qed.

(** ** The activities *)

Context (Hsv : services) (Hid : p_ID (prop req) ≠ "").

(** The next call of an attempt. *)
Ltac next_call := unfold aop, op; cbn [mbind prog_bind interp fst snd]; rewrite (sv_plain Hsv) by done; cbn [serve_live].

Lemma attempt_audit now st n dec w0 w phase verdict detail : stage st n dec w0 w → phase ∈ phases →
  ∃ s', attempt now w (ActRecordAuditTrail (newAuditRecord (p_ID (prop req)) (x_ID info) (x_RunID info) phase verdict
                         (prop req) detail now (n + 1))) = (set_store w s', Ok tt) ∧
        stage st (n + 1) dec w0 (set_store w s').
Proof.
  intros [Hs Hc Hoth Hdec Hpol Htr Hn] Hph.
  destruct (sv_audit Hsv now n w phase verdict detail Htr Hn Hph Hid) as (s' & E & (Hd' & Hc' & Hs') & Htr').
  exists s'. split.
  - cbn [activity]. unfold RecordAuditTrail. cbn [has_audit worker_wiring negb].
    unfold aop, op. cbn [mbind prog_bind interp]. by rewrite E.
  - split; cbn; [by apply Hs'|by rewrite Hc'|intros d Hd; rewrite Hc'; auto|by rewrite Hd'|done|done|lia].
Qed.

Lemma attempt_verify now w rec : store_inv (w_store w) → decisions (w_store w) !! decisionID = Some rec →
  readable (w_store w) decisionID → authorizes rec req (x_ID info) →
  attempt now w (ActVerifyIngressDecision req) = (w, Ok {| iv_Valid := true; iv_Reason := ""; iv_Detail := "" |}).
Proof.
  intros Hs Hd Hr Hau. cbn [activity]. unfold VerifyIngressDecision, CheckIngress. cbn [has_store worker_wiring negb].
  rewrite bool_decide_false by (rewrite <- (au_id _ _ _ Hau); apply Hau).
  next_call. rewrite (get_granted _ _ _ Hs Hd Hr). cbn [interp].
  by rewrite (proj2 (VerifyIngress_None _ _ _) Hau).
Qed.

Lemma attempt_evaluate now w :
  attempt now w (ActEvaluateExecution req) = (w, Ok (Revalidate (w_policy w) req)).
Proof.
  cbn [activity]. unfold EvaluateExecution. next_call. cbn [has_policy worker_wiring]. next_call. done.
Qed.

Lemma attempt_claim now w rec : store_inv (w_store w) → trail 0 (w_store w) → decisionID ≠ "" → x_ID info ≠ "" → x_RunID info ≠ "" →
  decisions (w_store w) !! decisionID = Some rec →
  (∀ c, claims (w_store w) !! decisionID = Some c → ec_State c = ClaimStateReleased) →
  ∃ s', let w' := set_store w s' in
    attempt now w (ActClaimExecution {| cr_DecisionID := decisionID; cr_Token := token |}) =
      (w', Ok {| cl_Claimed := true; cl_Reason := ""; cl_Detail := "" |}) ∧
    stage ClaimStateClaimed 0 (decisions (w_store w)) w w'.
Proof.
  intros Hs Htr Hd Hwid Hrun Hrec Hfree.
  assert (Hown : ClaimOwner_Valid owner = true).
  { unfold ClaimOwner_Valid. cbn. by rewrite !bool_decide_false. }
  pose proof (claim_granted decisionID owner now _ Hs Hd Hown (ex_intro _ rec Hrec) Hfree) as Hg.
  pose proof (sv_claim Hsv 0 decisionID owner now _ Htr) as Htr'.
  destruct (claim_execution CtxLive decisionID owner now (w_store w)) as [s' e] eqn:E. cbn in Hg, Htr'. subst e.
  exists s'. cbv zeta. split.
  - cbn [activity]. unfold ClaimExecution. cbn [has_claims worker_wiring negb cr_DecisionID cr_Token].
    rewrite (bool_decide_false (decisionID = "")) by done. cbn [orb]. rewrite bool_decide_false by done.
    next_call. next_call. rewrite E. done.
  - destruct (claim_execution_ok _ _ _ _ _ _ Hs E) as (Hs' & Hdec & _ & _ & _ & [[_ Hc]|(c & Hc & _ & Hst & ->)]).
    + split; cbn; [done| |intros d Hne; by rewrite Hc, lookup_insert_ne|done|done|done|done].
      eexists. rewrite Hc, lookup_insert_eq. split; [done|]. done.
    + by rewrite (Hfree c Hc) in Hst.
Qed.

Lemma advance_stage now st n to from dec w0 w : stage st n dec w0 w → ClaimSources to = Some from → st ∈ from →
  ∃ s', advance_claim CtxLive decisionID owner to now (w_store w) = (s', None) ∧ stage to n dec w0 (set_store w s').
Proof.
  intros [Hs (c & Hc & Ho & Hst) Hoth Hdec Hpol Htr Hn] Hsrc Hin. subst st.
  pose proof (sv_advance Hsv n decisionID owner to now _ Htr) as Htr'.
  pose proof (advance_granted decisionID owner to now _ c from Hs Hc Ho Hsrc Hin) as Hg.
  destruct (advance_claim CtxLive decisionID owner to now (w_store w)) as [s' e] eqn:E. cbn in Hg, Htr'. subst e.
  exists s'. split; [done|]. destruct (advance_claim_ok _ _ _ _ _ _ _ Hs E) as (Hs' & Hdec' & c' & from' & Hc' & Ho' & _ & _ & Hcl).
  split; cbn; [done| |intros d Hne; rewrite Hcl, lookup_insert_ne; auto|congruence|done|done|done].
  exists (set_state c' to (put_time now)). rewrite Hcl, lookup_insert_eq. split_and!; [done|by rewrite <- Ho'|done].
Qed.

Lemma attempt_advance now st n to from dec w0 w : stage st n dec w0 w → to ≠ ClaimStateExecuting →
  ClaimSources to = Some from → st ∈ from →
  ∃ s', attempt now w (ActAdvanceExecutionClaim {| ct_DecisionID := decisionID; ct_Token := token; ct_To := to |}) =
          (set_store w s', Ok tt) ∧ stage to n dec w0 (set_store w s').
Proof.
  intros Hst Hto Hsrc Hin. destruct (advance_stage now _ _ _ _ _ _ _ Hst Hsrc Hin) as (s' & E & Hs').
  exists s'. split; [|done]. cbn [activity]. unfold AdvanceExecutionClaim.
  cbn [has_claims worker_wiring negb ct_DecisionID ct_Token ct_To]. rewrite bool_decide_false by done.
  next_call. next_call. by rewrite E.
Qed.

Lemma attempt_dispatch now n dec w0 w : stage ClaimStateClaimed n dec w0 w → decisionID ≠ "" →
  let x := dispatch CtxLive (dreq req) (w_adapter w) in
  ∃ s', attempt now w (ActDispatchConfig {| fd_DecisionID := decisionID; fd_Token := token; fd_Dispatch := dreq req |}) =
          (log_call (set_store w s') info (dreq req) x.1, Ok (Checked x.2)) ∧
        stage ClaimStateExecuting n dec w0 (set_store w s').
Proof.
  intros Hst Hd x. destruct (advance_stage now _ _ ClaimStateExecuting _ _ _ _ Hst eq_refl ltac:(in_list)) as (s' & E & Hs').
  exists s'. split; [|done]. cbn [activity]. unfold DispatchConfig.
  cbn [has_adapter has_fence worker_wiring negb fd_DecisionID fd_Token fd_Dispatch dreq dq_IdempotencyKey].
  rewrite (bool_decide_false (decisionID = "")) by done. cbn [orb].
  rewrite bool_decide_false, bool_decide_true by done. cbn [negb].
  next_call. next_call. rewrite E. next_call. done.
Qed.

Lemma attempt_reconcile now w : let x := reconcile CtxLive (dreq req) (w_adapter w) in
  attempt now w (ActReconcileDispatch (dreq req)) = (set_adapter w x.1, Ok (Checked x.2)).
Proof. cbn [activity]. unfold ReconcileDispatch. cbn [has_adapter worker_wiring negb].
  rewrite bool_decide_false by done. next_call. done.
Qed.

Lemma attempt_compensate now w : let x := compensate CtxLive (dreq req) (w_adapter w) in
  attempt now w (ActRevertStateCompensation (dreq req)) =
    (set_adapter w x.1, match x.2 with None => Ok tt | Some e => Err (PlainError e) end).
Proof.
  cbn [activity]. unfold RevertStateCompensation. cbn [has_adapter worker_wiring negb]. next_call.
  by destruct (compensate CtxLive (dreq req) (w_adapter w)) as [a [e|]].
Qed.

(** ** The workflow, step by step *)

Lemma live_activity c a now w w' v : attempt now w a = (w', v) →
  interp live (w, now) (ExecuteActivity c a) = ((w', now), wf_value q v).
Proof. intros E. cbn -[activity]. by rewrite E. Qed.

Abbreviation staged st v dec w0 w := (stage st (v_auditSeq v) dec w0 w).

Lemma live_record phase verdict detail v st dec w0 w now : staged st v dec w0 w → phase ∈ phases →
  ∃ s' v', interp live (w, now) (record info req phase verdict detail v) = ((set_store w s', now), (None, v')) ∧
    staged st v' dec w0 (set_store w s') ∧ v_dispatching v' = v_dispatching v.
Proof.
  intros Hst Hph. destruct (attempt_audit now st _ dec w0 w phase verdict detail Hst Hph) as (s' & E & Hs').
  exists s'. eexists. unfold record. unfold wop, op. cbn [mbind prog_bind interp live snd].
  rewrite interp_bind, (live_activity _ _ _ _ _ _ E). split; [reflexivity|]. done.
Qed.

Lemma live_transition c now st n to from dec w0 w : stage st n dec w0 w → to ≠ ClaimStateExecuting →
  ClaimSources to = Some from → st ∈ from →
  ∃ s', interp live (w, now) (transition req token c to) = ((set_store w s', now), None) ∧
        stage to n dec w0 (set_store w s').
Proof.
  intros Hst Hto Hsrc Hin. destruct (attempt_advance now _ _ _ _ _ _ _ Hst Hto Hsrc Hin) as (s' & E & Hs').
  exists s'. split; [|done]. unfold transition. rewrite interp_bind, (live_activity _ _ _ _ _ _ E). done.
Qed.

Lemma live_dispatch_failed failure v st dec w0 w now : staged st v dec w0 w →
  ∃ s' v', interp live (w, now) (dispatch_failed info req failure v) = ((set_store w s', now), (failed failure, v')) ∧
    staged st v' dec w0 (set_store w s') ∧ v_dispatching v' = v_dispatching v.
Proof.
  intros Hst. unfold dispatch_failed. rewrite interp_bind.
  destruct (live_record AuditPhaseWorkflowFailed AuditVerdictFail failure v _ _ _ _ now Hst) as (s' & v' & E & Hs' & Hv);
    [unfold phases; in_list|]. rewrite E. by exists s', v'.
Qed.

(** Compensation, its record and the failure. *)
Lemma live_compensated now dec w0 w o v : staged ClaimStateFailed v dec w0 w →
  let x := compensate CtxLive (dreq req) (w_adapter w) in
  let failure := match x.2 with
                 | None => "dispatch partly applied and compensation ran: " +:+ oc_Detail o
                 | Some e => "dispatch partly applied and compensation failed: " +:+ error_text q e
                 end in
  ∃ s' v', interp live (w, now)
      (r ← ExecuteActivity compCtx (ActRevertStateCompensation (dreq req));
       match r with
       | Err e =>
           rv ← record info req AuditPhaseCompensation AuditVerdictFail (we_text e) v;
           dispatch_failed info req ("dispatch partly applied and compensation failed: " +:+ we_text e) rv.2
       | Ok _ =>
           rv ← record info req AuditPhaseCompensation AuditVerdictPass "compensation activity completed" v;
           dispatch_failed info req ("dispatch partly applied and compensation ran: " +:+ oc_Detail o) rv.2
       end) = ((set_adapter (set_store w s') x.1, now), (failed failure, v')) ∧
    staged ClaimStateFailed v' dec w0 (set_store w s') ∧ v_dispatching v' = v_dispatching v.
Proof.
  intros Hst. rewrite interp_bind, (live_activity _ _ _ _ _ _ (attempt_compensate _ _)).
  destruct (compensate CtxLive (dreq req) (w_adapter w)) as [a e]. cbn [fst snd].
  assert (Hgo : ∀ verdict detail failure, ∃ s' v', interp live (set_adapter w a, now)
      (rv ← record info req AuditPhaseCompensation verdict detail v; dispatch_failed info req failure rv.2) =
      ((set_adapter (set_store w s') a, now), (failed failure, v')) ∧
      staged ClaimStateFailed v' dec w0 (set_store w s') ∧ v_dispatching v' = v_dispatching v).
  { intros verdict detail failure. rewrite interp_bind.
    destruct (live_record AuditPhaseCompensation verdict detail v _ _ _ _ now (stage_adapter _ _ _ _ _ a Hst))
      as (s1 & v1 & E1 & Hs1 & Hv1); [unfold phases; in_list|].
    rewrite E1. cbn [snd].
    destruct (live_dispatch_failed failure v1 _ _ _ _ now Hs1) as (s2 & v2 & E2 & Hs2 & Hv2).
    exists s2, v2. split_and!; [exact E2|by destruct Hs2; split|congruence]. }
  destruct e as [e|]; apply Hgo.
Qed.

(** A confirmed outcome is settled. *)
Lemma live_confirmed now st dec w0 w o v : staged st v dec w0 w →
  st ∈ [ClaimStateExecuting; ClaimStateReconciliationRequired] → oc_Status o ≠ OutcomeUnknown →
  ∃ s' v', interp live (w, now) (saga_confirmed info req token o None v) =
      ((set_adapter (set_store w s') (conclusion (w_adapter w) o).1, now), ((conclusion (w_adapter w) o).2, v')) ∧
    staged (final_state o) v' dec w0 (set_store w s') ∧ v_dispatching v' = v_dispatching v.
Proof.
  intros Hst Hin Hk. unfold saga_confirmed, conclusion, final_state. rewrite (bool_decide_false (_ = OutcomeUnknown)) by done.
  case_bool_decide as Hf.
  - unfold saga_failure. destruct (live_transition claimCtx now st _ ClaimStateFailed _ _ _ _ Hst ltac:(done) eq_refl) as (s1 & E & Hs1).
    { enum_in; subst; in_list. }
    rewrite interp_bind, E. destruct (oc_PartiallyApplied o).
    + exact (live_compensated now _ _ _ o v Hs1).
    + exact (live_dispatch_failed _ v _ _ _ _ now Hs1).
  - unfold saga_success. destruct (live_transition claimCtx now st _ ClaimStateCompleted _ _ _ _ Hst ltac:(done) eq_refl) as (s1 & E & Hs1).
    { enum_in; subst; in_list. }
    rewrite interp_bind, E, interp_bind.
    destruct (live_record AuditPhaseWorkflowComplete AuditVerdictPass "workflow completed without compensation"
      v _ _ _ _ now Hs1) as (s2 & v2 & E2 & Hs2 & Hv2); [unfold phases; in_list|].
    rewrite E2. exists s2, v2. split_and!; [done|by destruct Hs2; split|done].
Qed.

Lemma live_reconcile_loop start n : ∀ wait elapsed now w,
  last_question n wait elapsed = true → now = start + elapsed →
  ∃ now', interp live (w, now) (reconcile_loop n (dreq req) start wait) =
    ((set_adapter w (asks n (w_adapter w)).1, now'), Some (asks n (w_adapter w)).2).
Proof.
  induction n as [|n IH]; intros wait elapsed now w Hlast Hnow; [done|]. cbn [last_question] in Hlast.
  cbn [reconcile_loop asks]. rewrite interp_bind, (live_activity _ _ _ _ _ _ (attempt_reconcile _ _)).
  unfold wf_value, reconcile_answer. rewrite Checked_idemp.
  destruct (reconcile CtxLive (dreq req) (w_adapter w)) as [a o]. cbn [fst snd].
  destruct (oc_Status (Checked o) != OutcomeUnknown); cbn [orb]; [by eexists|].
  unfold wop, op. cbn [mbind prog_bind interp live snd]. replace (now - start) with elapsed by lia.
  destruct (reconcileWindow <? elapsed + wait).
  - rewrite Hlast. by eexists.
  - cbn [mbind prog_bind interp live snd fst]. destruct n as [|n]; [done|].
    destruct (IH _ _ (now + wait) (set_adapter w a) Hlast) as [now' E]; [lia|].
    exists now'. cbn [Nat.eqb]. exact E.
Qed.

Lemma live_reconcile now w : ∃ now',
  interp live (w, now) (reconcileDispatch (dreq req)) =
    ((set_adapter w (asks reconcileFuel (w_adapter w)).1, now'), Some (asks reconcileFuel (w_adapter w)).2).
Proof.
  unfold reconcileDispatch. unfold wop at 1, op. cbn [mbind prog_bind interp live snd].
  apply (live_reconcile_loop now reconcileFuel reconcileFirstWait 0); [apply last_question_fuel|lia].
Qed.

(** The run after the dispatch activity has returned. *)
Definition resolve (a : A) (o : DispatchOutcome) : A * DispatchOutcome :=
  if oc_Status o == OutcomeUnknown then asks reconcileFuel a else (a, o).

Lemma live_outcome now dec w0 w o v : staged ClaimStateExecuting v dec w0 w →
  let x := resolve (w_adapter w) o in
  ∃ s' now' v', interp live (w, now) (saga_outcome q info req token o None v) =
      ((set_adapter (set_store w s') (conclusion x.1 x.2).1, now'), ((conclusion x.1 x.2).2, v')) ∧
    staged (final_state x.2) v' dec w0 (set_store w s') ∧ v_dispatching v' = v_dispatching v.
Proof.
  intros Hst x. unfold saga_outcome, resolve in *. subst x. case_bool_decide as Ho.
  2:{ destruct (live_confirmed now _ _ _ _ o v Hst) as (s' & v' & E & Hs' & Hv); [in_list|done|].
      exists s', now, v'. auto. }
  destruct (live_transition claimCtx now _ _ ClaimStateReconciliationRequired _ _ _ _ Hst ltac:(done) eq_refl)
    as (s1 & E & Hs1); [in_list|].
  rewrite interp_bind, E. rewrite interp_bind. destruct (live_reconcile now (set_store w s1)) as [now' E'].
  rewrite E'. cbn [w_adapter set_store]. set (y := asks reconcileFuel (w_adapter w)). rewrite interp_bind.
  match goal with |- context [record info req ?ph ?vd ?det v] =>
    destruct (live_record ph vd det v _ _ _ _ now' (stage_adapter _ _ _ _ _ y.1 Hs1))
      as (s2 & v2 & E2 & Hs2 & Hv2); [unfold phases; in_list|] end.
  rewrite E2. cbn [fst snd]. case_bool_decide as Hu.
  - exists s2, now', v2. unfold conclusion, final_state. rewrite Hu. split_and!; [done|by destruct Hs2; split|done].
  - destruct (live_confirmed now' _ _ _ _ y.2 v2 Hs2) as (s3 & v3 & E3 & Hs3 & Hv3); [in_list|done|].
    exists s3, now', v3. split_and!; [exact E3|by destruct Hs3; split|congruence].
Qed.

Lemma live_dispatch now dec w0 w v : staged ClaimStateClaimed v dec w0 w → decisionID ≠ "" →
  let x := settle (w_adapter w) in
  ∃ s' now' v', interp live (w, now) (saga_dispatch q info req token v) =
      ((log_call (set_store w s') info (dreq req) (conclusion x.1 x.2).1, now'), ((conclusion x.1 x.2).2, v')) ∧
    staged (final_state x.2) v' dec w0 (set_store w s') ∧ v_dispatching v' = true.
Proof.
  intros Hst Hd x. unfold saga_dispatch. cbv zeta. destruct (attempt_dispatch now _ dec w0 w Hst Hd) as (s1 & E & Hs1).
  rewrite interp_bind, (live_activity _ _ _ _ _ _ E). cbn [wf_value err_of fenceFailure].
  rewrite bool_decide_true by done. cbn [negb]. rewrite Checked_idemp. rewrite interp_bind.
  unfold x, settle. destruct (dispatch CtxLive (dreq req) (w_adapter w)) as [a o]. cbn [fst snd].
  match goal with |- context [record info req ?ph ?vd ?det ?v'] =>
    destruct (live_record ph vd det v' _ _ _ _ now (stage_call _ _ _ _ _ (dreq req) a Hs1))
      as (s2 & v2 & E2 & Hs2 & Hv2); [unfold phases; in_list|] end.
  rewrite E2. cbn [fst snd].
  destruct (live_outcome now _ _ _ (Checked o) v2 Hs2) as (s3 & now3 & v3 & E3 & Hs3 & Hv3).
  exists s3, now3, v3. split_and!; [exact E3|by destruct Hs3; split|by rewrite Hv3, Hv2].
Qed.

(** ** Before the dispatch *)

(** The record of re-validation. *)
Definition revalidation_record (dec : Contracts.Decision) (now : Time) : DecisionRecord :=
  {| dr_DecisionID := "wf_" +:+ x_ID info +:+ "_" +:+ x_RunID info;
     dr_Stage := StageWorkflowRevalidation; dr_ProposalID := p_ID (prop req);
     dr_AgentID := er_AgentID req; dr_RequestHash := RequestHash (prop req);
     dr_Command := p_Type (prop req); dr_TargetID := p_TargetID (prop req);
     dr_Environment := d_Environment dec; dr_Verdict := d_Verdict dec;
     dr_Reasons := d_Reasons dec; dr_PolicyVersion := d_PolicyVersion dec;
     dr_PolicyDigest := d_PolicyDigest dec; dr_WorkflowID := x_ID info;
     dr_TraceID := ""; dr_RecordedAt := UTC now |}.

Lemma live_recordDecision now st n decs w0 w dec : stage st n decs w0 w →
  let rec := revalidation_record dec now in
  decs !! dr_DecisionID rec = None → DecisionRecord_Validate rec = None →
  ∃ s', interp live (w, now) (recordDecision info req dec) = ((set_store w s', now), None) ∧
        stage st n (<[dr_DecisionID rec := put_record rec]> decs) w0 (set_store w s').
Proof.
  intros [Hs Hc Hoth Hdec Hpol Htr Hn] rec Hnew Hv. rewrite <- Hdec in Hnew.
  pose proof (append_granted rec _ Hs Hv Hnew) as Hg. pose proof (sv_append Hsv n rec _ Htr) as Htr'.
  destruct (append_decision CtxLive rec (w_store w)) as [s' e] eqn:E. cbn in Hg, Htr'. subst e. exists s'. split.
  - unfold recordDecision. unfold wop, op. cbn [mbind prog_bind interp live snd]. rewrite interp_bind.
    rewrite (live_activity _ (ActRecordDecision rec) now w (set_store w s') (Ok tt)); [done|].
    cbn [activity]. unfold RecordDecision. cbn [has_store worker_wiring negb]. next_call. by rewrite E.
  - destruct (append_decision_ok _ _ _ _ Hs E) as (Hs' & Hcl & _ & [[_ Hd]|[Hd _]]); [|congruence].
    split; cbn; [done|by rewrite Hcl|intros d Hd'; rewrite Hcl; auto|by rewrite Hd, Hdec|done..].
Qed.

(** A request that nothing keeps from being executed. *)
Record ready (w : world S A) (now : Time) : Prop := {
  rd_store : store_inv (w_store w);
  rd_ingress : ∃ rec, decisions (w_store w) !! decisionID = Some rec ∧ authorizes rec req (x_ID info);
  rd_readable : readable (w_store w) decisionID;
  rd_unclaimed c : claims (w_store w) !! decisionID = Some c → ec_State c = ClaimStateReleased;
  rd_allowed : d_Verdict (Revalidate (w_policy w) req) = VerdictAllow;
  rd_unrecorded : decisions (w_store w) !! ("wf_" +:+ x_ID info +:+ "_" +:+ x_RunID info) = None;
  rd_trail : trail 0 (w_store w);
  rd_run : x_RunID info ≠ "";
  rd_now : now ≠ zeroTime }.

Lemma revalidation_valid w now : ready w now →
  DecisionRecord_Validate (revalidation_record (Revalidate (w_policy w) req) now) = None.
Proof.
  intros Hr. unfold DecisionRecord_Validate, revalidation_record, IsZero, UTC.
  cbn [dr_DecisionID dr_Stage dr_ProposalID dr_Verdict dr_RequestHash dr_RecordedAt].
  rewrite (rd_allowed _ _ Hr). rewrite !bool_decide_false;
    first [done|apply RequestHash_nonempty|apply Hr].
Qed.

Lemma live_revalidate now w0 w v : ready w0 now → staged ClaimStateClaimed v (decisions (w_store w0)) w0 w →
  decisionID ≠ "" →
  let rec := revalidation_record (Revalidate (w_policy w0) req) now in
  let x := settle (w_adapter w) in
  ∃ s' now' v', interp live (w, now) (saga_revalidate q info req token v) =
      ((log_call (set_store w s') info (dreq req) (conclusion x.1 x.2).1, now'), ((conclusion x.1 x.2).2, v')) ∧
    staged (final_state x.2) v' (<[dr_DecisionID rec := put_record rec]> (decisions (w_store w0))) w0 (set_store w s') ∧
    v_dispatching v' = true.
Proof.
  intros Hr Hst Hd rec x. unfold saga_revalidate. rewrite interp_bind, (live_activity _ _ _ _ _ _ (attempt_evaluate _ _)).
  rewrite (sg_policy _ _ _ _ _ Hst). cbn [wf_value]. rewrite interp_bind.
  destruct (live_recordDecision now _ _ _ _ _ (Revalidate (w_policy w0) req) Hst (rd_unrecorded _ _ Hr)
    (revalidation_valid _ _ Hr)) as (s1 & E1 & Hs1).
  rewrite E1, (rd_allowed _ _ Hr). rewrite bool_decide_true by done. cbn [negb]. rewrite interp_bind.
  match goal with |- context [record info req ?ph ?vd ?det v] =>
    destruct (live_record ph vd det v _ _ _ _ now Hs1) as (s2 & v2 & E2 & Hs2 & _); [unfold phases; in_list|] end.
  rewrite E2. cbn [fst snd]. destruct (live_dispatch now _ _ _ v2 Hs2 Hd) as (s' & now' & v' & E3 & Hs' & Hv').
  exists s', now', v'. split_and!; [exact E3|by destruct Hs'; split|done].
Qed.

Lemma live_workflow w now : ready w now →
  let rec := revalidation_record (Revalidate (w_policy w) req) now in
  let x := settle (w_adapter w) in
  let z := interp live (w, now) (SentryGateSagaWorkflow q info req) in
  z.2 = (conclusion x.1 x.2).2 ∧
  w_adapter z.1.1 = (conclusion x.1 x.2).1 ∧
  w_calls z.1.1 = w_calls w ++ [(info, dreq req)] ∧
  ∃ n, stage (final_state x.2) n (<[dr_DecisionID rec := put_record rec]> (decisions (w_store w))) w z.1.1.
Proof.
  intros Hr rec x z. destruct (rd_ingress _ _ Hr) as (ing & Hing & Hau).
  assert (Hd : decisionID ≠ "") by (rewrite <- (au_id _ _ _ Hau); apply Hau).
  unfold z, SentryGateSagaWorkflow. rewrite interp_bind.
  rewrite (live_activity _ _ _ _ _ _ (attempt_verify now w ing (rd_store _ _ Hr) Hing (rd_readable _ _ Hr) Hau)).
  cbn [wf_value iv_Valid negb]. unfold wop, op. cbn [mbind prog_bind interp live].
  rewrite interp_bind. unfold saga_claim. rewrite interp_bind.
  destruct (attempt_claim now w ing (rd_store _ _ Hr) (rd_trail _ _ Hr) Hd (au_workflow_nonempty _ _ _ Hau)
    (rd_run _ _ Hr) Hing (rd_unclaimed _ _ Hr)) as (s1 & E1 & Hs1).
  rewrite (live_activity _ _ _ _ _ _ E1). cbn [wf_value cl_Claimed negb].
  match goal with |- context [saga_revalidate q info req token ?v] =>
    destruct (live_revalidate now w _ v Hr Hs1 Hd) as (s' & now' & v' & E & Hs' & Hv') end.
  rewrite E. unfold release_deferred. cbn [snd fst]. rewrite Hv', orb_true_r. cbn [interp mbind prog_bind mret prog_ret].
  split_and!; [done..|]. eexists. exact (stage_call _ _ _ _ _ (dreq req) _ Hs').
Qed.

(** ** What the answers mean for the target *)

Lemma checked_true (a : A) o key : 
  (oc_Status o = OutcomeSuccess → mutations a key = 1) ∧ (oc_Status o = OutcomeFailure → refused a key) →
  (oc_Status (Checked o) = OutcomeSuccess → mutations a key = 1) ∧
  (oc_Status (Checked o) = OutcomeFailure → refused a key).
Proof. intros [Hs Hf]. split; intros E; rewrite Checked_confirmed in E by (by rewrite E); auto. Qed.

Abbreviation key := (ExecutionKey decisionID).
Definition true_of (a : A) (o : DispatchOutcome) : Prop :=
  (oc_Status o = OutcomeSuccess → mutations a key = 1) ∧ (oc_Status o = OutcomeFailure → refused a key).

Lemma asks_true n a : adapter_inv a → adapter_inv (asks n a).1 ∧ true_of (asks n a).1 (asks n a).2.
Proof.
  revert a. induction n as [|n IH]; intros a Ha; [done|]. cbn [asks].
  pose proof (reconcile_inv CtxLive (dreq req) a Ha) as Ha'.
  destruct (reconcile CtxLive (dreq req) a) as [a' o] eqn:E. cbn [fst snd] in *.
  destruct (_ || _); [|by apply IH]. split; [done|]. apply checked_true.
  destruct (reconcile_confirmed _ _ _ _ _ Ha E) as [Hs Hf]. split; [exact Hs|]. intros Ho. by apply Hf.
Qed.

Lemma settle_true a : adapter_inv a → adapter_inv (settle a).1 ∧ true_of (settle a).1 (settle a).2.
Proof.
  intros Ha. unfold settle. pose proof (dispatch_inv CtxLive (dreq req) a Ha) as Ha'.
  destruct (dispatch CtxLive (dreq req) a) as [a' o] eqn:E. cbn [fst snd] in *.
  case_bool_decide; [by apply asks_true|]. split; [done|]. apply checked_true.
  destruct (dispatch_confirmed _ _ _ _ _ Ha E) as [Hs Hf]. split; [exact Hs|]. intros Ho. by apply Hf.
Qed.

Lemma conclusion_true a o : adapter_inv a → true_of a o → true_of (conclusion a o).1 o.
Proof.
  intros Ha [Hs Hf]. unfold conclusion, true_of. destruct (oc_Status o == OutcomeFailure); [|by case_match].
  destruct (oc_PartiallyApplied o); [|done]. cbn [fst]. split; intros Ho.
  - rewrite compensate_applies_nothing. auto.
  - apply refused_compensate; auto.
Qed.

Lemma settle_status a : statused (settle a).2.
Proof.
  assert (Hasks : ∀ n a, statused (asks n a).2).
  { induction n as [|n IH]; intros a'; [by apply (Checked_status (UnknownOutcome ""))|]. cbn [asks].
    destruct (_ || _); [apply Checked_status|apply IH]. }
  unfold settle. case_bool_decide; [apply Hasks|apply Checked_status].
Qed.

Lemma conclusion_completed a o : statused o → (conclusion a o).2 = WfCompleted ↔ oc_Status o = OutcomeSuccess.
Proof.
  intros Ho. unfold conclusion, failed. unfold statused in Ho. enum_in; rewrite Ho; by repeat case_match.
Qed.
End Undisturbed.

(** ** On any lawful store and adapter *)

Section Run.
Context {S A : Type} `{StoreGrants S} `{AdapterSpec A}.
Context (q : string → string) (info : execution) (req : ExecutionRequest) (random : string).

(** An audit store apart from the decisions, that takes every record. *)
Definition any_trail (n : Z) (s : S) : Prop := True.

Lemma live_services : services info req (λ now, serve_live now info) any_trail.
Proof.
  split; try done. intros now n w phase verdict detail _ _ _ _. exists (w_store w).
  split; [by destruct w|]. done.
Qed.

(** C7: What an undisturbed run achieves. On any store and adapter that keep
    their laws, when the services answer, a run whose ingress decision is
    recorded for it and not claimed, and whose proposal the current policy
    allows, calls the adapter exactly once and ends as the plain description
    says: it dispatches, asks up to 55 times while the outcome is unknown,
    compensates a failure that was partly applied, and then its result is
    completed, failed or unknown, the adapter is in the state these calls left,
    and the claim is this run's and COMPLETED, FAILED or
    RECONCILIATION_REQUIRED to match; one decision record is added and no other
    claim is touched. Completed means that the key took effect exactly once,
    failed that it cannot take effect any more. *)
Theorem undisturbed_run w now :
  p_ID (prop req) ≠ "" → ready info req any_trail w now → adapter_inv (w_adapter w) →
  let rec := revalidation_record info req (Revalidate (w_policy w) req) now in
  let x := settle req (w_adapter w) in
  let z := interp (temporal q worker_wiring info random) (w, now) (SentryGateSagaWorkflow q info req) in
  z.2 = (conclusion q req x.1 x.2).2 ∧
  w_adapter z.1.1 = (conclusion q req x.1 x.2).1 ∧
  w_calls z.1.1 = w_calls w ++ [(info, dreq req)] ∧
  decisions (w_store z.1.1) = <[dr_DecisionID rec := put_record rec]> (decisions (w_store w)) ∧
  (∃ c, claims (w_store z.1.1) !! er_IngressDecisionID req = Some c ∧
        ec_Owner c = claimOwner info ("exe_" +:+ random) ∧ ec_State c = final_state x.2) ∧
  (∀ d, d ≠ er_IngressDecisionID req → claims (w_store z.1.1) !! d = claims (w_store w) !! d) ∧
  (z.2 = WfCompleted ↔ oc_Status x.2 = OutcomeSuccess) ∧
  true_of req (w_adapter z.1.1) x.2.
Proof.
  intros Hid Hr Ha rec x z.
  destruct (live_workflow q info req random _ _ live_services Hid w now Hr) as (Hres & Had & Hcalls & n & Hst).
  change (interp (live q info random (λ now, serve_live now info)) _ _) with z in *.
  destruct Hst as [_ Hc Hoth Hdec _ _ _]. destruct (settle_true req (w_adapter w) Ha) as [Ha' Ht].
  split_and!; [done|done|done|done|done|done| |rewrite Had; by apply conclusion_true].
  rewrite Hres. apply conclusion_completed, settle_status.
Qed.
End Run.

(** The sample request on the store that has its decision. *)
Definition sample_world : world MemoryStore.t SimulatedAdapter.t :=
  y_world (idle recorded_store SimulatedAdapter.NewSimulatedAdapter (Some default_snapshot)).

Lemma sample_ready : ready sample_execution sample_request any_trail sample_world 1.
Proof.
  split; [exact recorded_store_inv| |exact I| |vm_compute; reflexivity|vm_compute; reflexivity|exact I|done|done].
  - exists sample_record. split; [vm_compute; reflexivity|]. apply VerifyIngress_None. vm_compute. reflexivity.
  - intros c Hc. vm_compute in Hc. discriminate Hc.
Qed.

Lemma undisturbed_run_witness :
  sample_play.2 = WfCompleted ∧ mutations (w_adapter sample_play.1.1) (ExecutionKey "dec_1") = 1.
Proof.
  destruct (undisturbed_run id sample_execution sample_request "1" sample_world 1 ltac:(done) sample_ready simulated_inv_new)
    as (_ & _ & _ & _ & _ & _ & Hc & Ht & _).
  assert (Hs : oc_Status (settle sample_request (w_adapter sample_world)).2 = OutcomeSuccess) by (vm_compute; reflexivity).
  exact (conj (proj2 Hc Hs) (Ht Hs)).
Defined.
