(* ===== verification/Gateway.v ===== *)
(** * The gateway end to end

    Any number of HTTP requests, with any request line, key and body, on top of
    the deployment of [Deployment]. Here runs are started and decisions are
    recorded only by the handlers of the proxy, which has a policy source of its
    own. When Temporal starts a workflow is a parameter, and a start may take
    effect although it is reported as failed. The theorem follows a call on the
    adapter back to the HTTP request it came from. *)

From S2P Require Import Prelude GoBase Contracts Policy Loader Auth Decision Proxy Handler Body Router.
From S2P Require Import Store Claims Adapter Activities Saga Protocol Traces System Deployment.
Open Scope Z_scope.
Open Scope go_scope.

(** A request in flight: its request line and key, what it asked and was
    answered so far, and what is left of it. *)
Record request := {
  rq_method : string; rq_path : list string; rq_apiKey : string; rq_pooled : option AgentProposal;
  rq_trace : list (event GateReply);
  rq_prog : gate (mux_result response) }.

(** ** Temporal's answer to a start *)

(** The open run under a workflow ID. *)
Definition is_open (u : run) : bool := match u_prog u with Ret _ => false | Call _ _ => true end.
Definition running (us : list run) (id : string) : option run :=
  List.find (λ u, (x_ID (u_info u) == id) && is_open u) us.

(** Temporal starts a workflow exactly when no run is open under its ID. *)
Definition starts_when_free (may_start : list run → StartWorkflowOptions → bool) : Prop :=
  ∀ us opts, may_start us opts = true ↔ running us (so_ID opts) = None.
Definition start_when_free (us : list run) (opts : StartWorkflowOptions) : bool :=
  match running us (so_ID opts) with Some _ => false | None => true end.
Lemma start_when_free_ok : starts_when_free start_when_free.
Proof. intros us opts. unfold start_when_free. by destruct (running us (so_ID opts)). Qed.

Section Gateway.
Context {S A : Type} `{StoreSpec S} `{AdapterSpec A}.
Context (q : string → string) (cfg : config) (k : Keyring) (taskQueue : string).
Context (may_start : list run → StartWorkflowOptions → bool).

Record gateway := {
  gw_dep : @deployment S A;
  gw_policy : option Snapshot;            (* the policy the proxy serves *)
  gw_policies : list (option Snapshot);   (* every policy the proxy has served *)
  gw_requests : list request }.

Abbreviation gw_world g := (y_world (e_sys (gw_dep g))).

Definition handler_of (method : string) (path : list string) (apiKey : string) (pooled : option AgentProposal)
    : gate (mux_result response) := serve_http k taskQueue pooled method path apiKey.

Definition new_request (method : string) (path : list string) (apiKey : string) (pooled : option AgentProposal)
    : request :=
  {| rq_method := method; rq_path := path; rq_apiKey := apiKey; rq_pooled := pooled; rq_trace := [];
     rq_prog := handler_of method path apiKey pooled |}.
Definition replied (u : request) (o : GateOp) (r : GateReply o) (p : gate (mux_result response)) : request :=
  {| rq_method := rq_method u; rq_path := rq_path u; rq_apiKey := rq_apiKey u; rq_pooled := rq_pooled u;
     rq_trace := rq_trace u ++ [ev o r]; rq_prog := p |}.

(** What a request is answered by everything but the store: the policy the
    proxy serves, and Temporal, with the runs after it. Temporal starts a run
    only where [may_start] lets it; a start that does not ask for an error joins
    the open run. Bodies, clocks, random numbers, listings and a cancelled
    request may be anything. *)
Inductive outside (policy : option Snapshot) (us : list run) : ∀ o : GateOp, GateReply o → list run → Prop :=
| os_policy : outside policy us GCurrent policy us
| os_started opts req rid r :
    may_start us opts = true →
    r = Ok (so_ID opts, rid) ∨ r = Err StartFailed →
    outside policy us (GExecuteWorkflow opts req) r
      (us ++ [new_run q {| x_ID := so_ID opts; x_RunID := rid |} req])
| os_joined opts req u :
    so_ErrorWhenAlreadyStarted opts = false → running us (so_ID opts) = Some u →
    outside policy us (GExecuteWorkflow opts req) (Ok (so_ID opts, x_RunID (u_info u))) us
| os_not_started opts req e : outside policy us (GExecuteWorkflow opts req) (Err e) us
| os_other o r :
    match o with GCurrent | GAppendDecision _ | GExecuteWorkflow _ _ => False | _ => True end →
    outside policy us o r us.

(** The answer to one call of a request, and the deployment after it. *)
Inductive gate_serves (g : gateway) : ∀ o : GateOp, GateReply o → @deployment S A → Prop :=
| gs_append info rec r w' :
    serves info (gw_world g) (OpAppendDecision rec) r w' →
    gate_serves g (GAppendDecision rec) r
      {| e_sys := {| y_world := w'; y_tasks := y_tasks (e_sys (gw_dep g)) |}; e_runs := e_runs (gw_dep g) |}
| gs_outside o r us' :
    outside (gw_policy g) (e_runs (gw_dep g)) o r us' →
    gate_serves g o r {| e_sys := e_sys (gw_dep g); e_runs := us' |}.

Inductive gw_step : gateway → gateway → Prop :=
| gw_request g method path apiKey pooled :
    gw_step g {| gw_dep := gw_dep g; gw_policy := gw_policy g; gw_policies := gw_policies g;
                 gw_requests := gw_requests g ++ [new_request method path apiKey pooled] |}
| gw_reload g p :
    gw_step g {| gw_dep := gw_dep g; gw_policy := p; gw_policies := gw_policies g ++ [p];
                 gw_requests := gw_requests g |}
| gw_answer g i u o kont r dep' :
    gw_requests g !! i = Some u → rq_prog u = Call o kont → gate_serves g o r dep' →
    gw_step g {| gw_dep := dep'; gw_policy := gw_policy g; gw_policies := gw_policies g;
                 gw_requests := <[i := replied u o r (kont r)]> (gw_requests g) |}
| gw_work g dep' :
    work_step q cfg (gw_dep g) dep' →
    gw_step g {| gw_dep := dep'; gw_policy := gw_policy g; gw_policies := gw_policies g;
                 gw_requests := gw_requests g |}.

(** Seen from the worker, a gateway is a deployment. *)
Lemma gate_serves_dep g o r dep' : gate_serves g o r dep' → rtc (dep_step q cfg) (gw_dep g) dep'.
Proof.
  intros [info rec r' w' Hsv|o' r' us' Ho].
  - by apply rtc_once, (dep_record q cfg (gw_dep g) info rec r').
  - destruct g as [[y us] p ps rs]. cbn in *. destruct Ho; [done| |done..].
    apply rtc_once, (dep_submit q cfg {| e_sys := y; e_runs := us |}).
Qed.

Lemma gw_step_dep g g' : gw_step g g' → rtc (dep_step q cfg) (gw_dep g) (gw_dep g').
Proof.
  destruct 1; [done|done|by eapply gate_serves_dep|]. by apply rtc_once, dep_work.
Qed.

Lemma gw_steps_dep g g' : rtc gw_step g g' → rtc (dep_step q cfg) (gw_dep g) (gw_dep g').
Proof. induction 1 as [|g1 g2 g3 Hst _ IH]; [done|]. by etransitivity; [apply gw_step_dep|]. Qed.

(** ** Where the runs come from *)

(** The request asked Temporal to start this run. *)
Definition asked_start (us : list request) (e : execution * ExecutionRequest) : Prop :=
  ∃ u opts r, u ∈ us ∧ ev (Reply:=GateReply) (GExecuteWorkflow opts e.2) r ∈ rq_trace u ∧ x_ID e.1 = so_ID opts.

Definition policy_known (ps : list (option Snapshot)) (e : event GateReply) : Prop :=
  match e with existT GCurrent snap => snap ∈ ps | _ => True end.

Record request_ok (ps : list (option Snapshot)) (u : request) : Prop := {
  ro_reaches : reaches (handler_of (rq_method u) (rq_path u) (rq_apiKey u) (rq_pooled u)) (rq_trace u) (rq_prog u);
  ro_policies : Forall (policy_known ps) (rq_trace u) }.

Record gw_inv (g : gateway) : Prop := {
  gi_policy : gw_policy g ∈ gw_policies g;
  gi_requests : Forall (request_ok (gw_policies g)) (gw_requests g);
  gi_runs : Forall (asked_start (gw_requests g)) (started_as (e_runs (gw_dep g))) }.

Lemma request_ok_policies ps ps' u : ps ⊆ ps' → request_ok ps u → request_ok ps' u.
Proof.
  intros Hps [Hr Hp]. split; [done|]. eapply Forall_impl; [exact Hp|]. intros [o r]. destruct o; cbn; try done. apply Hps.
Qed.

Lemma asked_start_more us us' e :
  (∀ u, u ∈ us → ∃ u', u' ∈ us' ∧ rq_trace u ⊆ rq_trace u') → asked_start us e → asked_start us' e.
Proof.
  intros Hus (u & opts & r & Hu & He & Hid). destruct (Hus u Hu) as (u' & Hu' & Hsub). exists u', opts, r. auto.
Qed.

Lemma asked_start_replied us i u o r p e :
  us !! i = Some u → asked_start us e → asked_start (<[i := replied u o r p]> us) e.
Proof.
  intros Hi. apply asked_start_more. intros u' (j & Hj)%list_elem_of_lookup.
  destruct (decide (i = j)) as [<-|Hne].
  - simplify_eq. exists (replied u o r p). split; [|cbn; set_solver].
    apply (list_elem_of_lookup_2 _ i). apply list_lookup_insert_eq. by eapply lookup_lt_Some.
  - exists u'. split; [|done]. apply (list_elem_of_lookup_2 _ j). by rewrite list_lookup_insert_ne.
Qed.

Lemma work_started_as x x' : work_step q cfg x x' → started_as (e_runs x') = started_as (e_runs x).
Proof.
  intros [y p|y i t o kont r w'|y i u c a kont|y us' [i u c a kont v r|i u c a kont e|i u o kont r]]; cbn;
    try done; by apply (started_as_answered _ _ _ _ kont).
Qed.

Lemma gw_step_inv g g' : gw_inv g → gw_step g g' → gw_inv g'.
Proof.
  intros [Hp Hq Hr] Hst.
  destruct Hst as [g method path apiKey pooled|g p|g i u o kont r dep' Hi Hpr Hsv|g dep' Hw].
  - split; cbn; [done| |].
    + apply Forall_app. split; [done|]. constructor; [|done]. split; cbn; constructor.
    + eapply Forall_impl; [exact Hr|]. intros e. apply asked_start_more. intros u Hu. exists u. split; [set_solver|done].
  - split; cbn; [set_solver| |done].
    eapply Forall_impl; [exact Hq|]. intros u. apply request_ok_policies. set_solver.
  - pose proof (proj1 (Forall_lookup _ _) Hq i u Hi) as [Hreach Hpol].
    assert (Hruns : Forall (asked_start (<[i := replied u o r (kont r)]> (gw_requests g))) (started_as (e_runs (gw_dep g)))).
    { eapply Forall_impl; [exact Hr|]. intros e. by apply asked_start_replied. }
    split; cbn; [done| |].
    + apply Forall_insert; [done|]. split; cbn.
      * rewrite Hpr in Hreach. by apply reaches_snoc.
      * apply Forall_app. split; [done|]. constructor; [|done].
        destruct Hsv as [info rec r w' Hs|o r us' Ho]; cbn; [done|]. destruct Ho; cbn; try done. by destruct o.
    + destruct Hsv as [info rec r w' Hs|o r us' [|opts req rid r' Hmay Hres|opts req v Hj Hv|opts req e|o' r' Ho]];
        try exact Hruns.
      unfold started_as. cbn. rewrite fmap_app. apply Forall_app. split; [exact Hruns|]. constructor; [|done].
      exists (replied u (GExecuteWorkflow opts req) r' (kont r')), opts, r'. split_and!; [|cbn; apply elem_of_app; right; apply list_elem_of_here|done].
      apply (list_elem_of_lookup_2 _ i). apply list_lookup_insert_eq. by eapply lookup_lt_Some.
  - split; cbn; [done|done|]. by rewrite (work_started_as _ _ Hw).
Qed.

Lemma gw_reach_inv g g' : gw_inv g → rtc gw_step g g' → gw_inv g'.
Proof. intros Hg Hr. induction Hr; eauto using gw_step_inv. Qed.

(** ** From the adapter back to the agent *)

(** The gateway before its first request. *)
Definition opened (s : S) (a : A) (worker proxy : option Snapshot) : gateway :=
  {| gw_dep := started s a worker; gw_policy := proxy; gw_policies := [proxy]; gw_requests := [] |}.

Lemma opened_inv s a worker proxy : gw_inv (opened s a worker proxy).
Proof. split; cbn; [set_solver|constructor|constructor]. Qed.

(** A call on the adapter comes from an agent. Whatever HTTP requests are
    made, whatever their bodies, and however requests, workflow runs, activity
    attempts and reloads of the two policies interleave, every dispatch carries
    the key and proposal of an execution request that a POST of /v1/intercept
    started: its key belonged to the agent the request names, its body was
    decoded to that proposal, the policy the proxy had read allowed it, and the decision was
    recorded first; the recorded decision still authorises the request, and a
    policy of the worker allowed it again. There is at most one dispatch per
    decision. *)
Lemma dispatch_from_request s a worker proxy g info d :
  store_inv s → adapter_inv a → settled_at_start s a →
  rtc gw_step (opened s a worker proxy) g → (info, d) ∈ w_calls (gw_world g) →
  ∃ u req rec rec' snap snap' tr1 tr2,
    d = dreq req ∧
    u ∈ gw_requests g ∧ rq_method u = "POST" ∧ rq_path u = ["v1"; "intercept"] ∧
    Resolve k (rq_apiKey u) = Some (er_AgentID req) ∧
    rq_trace u = tr1 ++ tr2 ∧ reaches (decodeProposal zeroProposal) tr1 (Ret (Ok (er_Proposal req))) ∧
    snap ∈ gw_policies g ∧ d_Verdict (Evaluate snap (er_AgentID req) (er_Proposal req)) = VerdictAllow ∧
    ev (Reply:=GateReply) (GAppendDecision rec) None ∈ rq_trace u ∧ authorizes rec req (x_ID info) ∧
    decisions (w_store (gw_world g)) !! er_IngressDecisionID req = Some rec' ∧ authorizes rec' req (x_ID info) ∧
    snap' ∈ w_policies (gw_world g) ∧ d_Verdict (Revalidate snap' req) = VerdictAllow ∧
    (dispatches (dq_IdempotencyKey d) (gw_world g) ≤ 1)%nat.
Proof.
  intros Hs Ha Hst Hg Hin. pose proof (gw_steps_dep _ _ Hg) as Hd.
  destruct (dep_reach_inv _ _ _ _ (started_inv _ s a worker Hs Ha Hst) Hd) as [_ _ _ _ Hc].
  rewrite Forall_forall in Hc.
  destruct (Hc _ Hin) as (req & Hreq & Hrun & (rec' & Hrec' & Hau') & (snap' & Hsn' & Hv')). cbn in Hreq, Hrun, Hau'.
  destruct (gw_reach_inv _ _ (opened_inv s a worker proxy) Hg) as [_ Hq Hr]. rewrite Forall_forall in Hq. rewrite Forall_forall in Hr.
  destruct (Hr _ Hrun) as (u & opts & r & Hu & Hev & Hid). cbn in Hev, Hid.
  destruct (Hq u Hu) as [Hreach Hpol]. rewrite Forall_forall in Hpol.
  destruct (calls_only_reaches _ _ _ _ _ (serve_http_calls _ _ _ _ _ _) Hreach Hev) as [[Hm Hp] _].
  destruct (serve_http_start _ _ _ _ _ _ _ _ _ _ _ Hreach Hev) as (agentID & p' & Hk & Hne & Hi).
  destruct (start_decoded _ _ _ _ _ _ _ _ Hne Hi Hev) as (tr1 & tr2 & Htr & Hdec).
  apply list_elem_of_lookup in Hev as [i Hev].
  destruct (start_authorised _ _ _ Hne _ _ _ _ _ _ Hi Hev) as (_ & _ & <- & _ & _ & rec & snap & Happ & Hau & Hcur & Hallow).
  assert (Htake : ∀ e, e ∈ take i (rq_trace u) → e ∈ rq_trace u) by (intros e; apply subseteq_take).
  exists u, req, rec, rec', snap, snap', tr1, tr2. rewrite Hid in *. split_and!; try done; auto.
  - exact (Hpol _ (Htake _ Hcur)).
  - pose proof (sys_reach_inv _ _ _ _ (idle_inv s a worker Hs Ha) (dep_steps_sys _ _ _ _ Hd)) as [_ _ _ Ho _].
    eapply Nat.le_trans; [apply Nat.le_add_r|exact (Ho (dq_IdempotencyKey d))].
Qed.

(** ** Undisturbed requests, executable *)

(** Every call of the request is answered at once; the workflow is started
    unless a run is open under its ID. *)
Definition gate_live (proxy : option Snapshot) (body : AgentProposal) (random : string) (now : Time)
    (x : @deployment S A) (o : GateOp) : @deployment S A * GateReply o :=
  match o return @deployment S A * GateReply o with
  | GCtxErr | GAcquireSlot | GPing => (x, None)
  | GReleaseSlot => (x, tt)
  | GCurrent => (x, proxy)
  | GDecode _ => (x, Decoded body)
  | GDecodeExtra => (x, ExtraEOF)
  | GRandom => (x, random)
  | GTraceID => (x, "")
  | GNow => (x, now)
  | GAppendDecision rec =>
      let y := append_decision CtxLive rec (w_store (y_world (e_sys x))) in
      ({| e_sys := {| y_world := set_store (y_world (e_sys x)) y.1; y_tasks := y_tasks (e_sys x) |};
          e_runs := e_runs x |}, y.2)
  | GExecuteWorkflow opts req =>
      match running (e_runs x) (so_ID opts) with
      | Some u => (x, if so_ErrorWhenAlreadyStarted opts then Err AlreadyStarted
                      else Ok (so_ID opts, x_RunID (u_info u)))
      | None =>
          ({| e_sys := e_sys x;
              e_runs := e_runs x ++ [new_run q {| x_ID := so_ID opts; x_RunID := "run-" +:+ random |} req] |},
           Ok (so_ID opts, "run-" +:+ random))
      end
  | GListDecisions _ => (x, Ok [])
  | GListAudit _ => (x, Ok [])
  | GPolicyStatus => (x, {| st_Version := ""; st_Digest := ""; st_LoadedAt := now; st_MaxParallelTasks := 1;
                            st_ReloadStatus := "ok"; st_LastReloadError := ""; st_LastReloadErrorAt := None |})
  end.

Section Undisturbed_request.
Hypothesis starts : starts_when_free may_start.

Lemma start_live_outside policy us opts req random :
  let x := match running us (so_ID opts) with
           | Some u => (us, if so_ErrorWhenAlreadyStarted opts then Err AlreadyStarted
                            else Ok (so_ID opts, x_RunID (u_info u)))
           | None => (us ++ [new_run q {| x_ID := so_ID opts; x_RunID := "run-" +:+ random |} req],
                      Ok (so_ID opts, "run-" +:+ random))
           end in
  outside policy us (GExecuteWorkflow opts req) x.2 x.1.
Proof using starts.
  destruct (running us (so_ID opts)) as [u|] eqn:E; cbn; [|apply os_started; [by apply starts|by left]].
  destruct (so_ErrorWhenAlreadyStarted opts) eqn:Ej; [apply os_not_started|by apply os_joined].
Qed.

Lemma gate_live_serves g body random now o :
  let x := gate_live (gw_policy g) body random now (gw_dep g) o in gate_serves g o x.2 x.1.
Proof using starts.
  assert (Hid : gw_dep g = {| e_sys := e_sys (gw_dep g); e_runs := e_runs (gw_dep g) |}) by by destruct (gw_dep g).
  destruct o; cbn; try (rewrite Hid; by repeat constructor);
    [|pose proof (start_live_outside (gw_policy g) (e_runs (gw_dep g)) opts req random) as Ho; destruct (running _ _);
      cbn in *; [rewrite Hid|]; by apply gs_outside].
  apply (gs_append g {| x_ID := ""; x_RunID := "" |}). exists CtxLive. eexists. split; [|done].
  left. by rewrite <- surjective_pairing.
Qed.

Lemma request_run body random now p : ∀ g i u,
  gw_requests g !! i = Some u → rq_prog u = p →
  let z := interp (gate_live (gw_policy g) body random now) (gw_dep g) p in
  ∃ g' u', rtc gw_step g g' ∧ gw_dep g' = z.1 ∧ gw_requests g' !! i = Some u' ∧ rq_prog u' = Ret z.2.
Proof.
  induction p as [res|o kont IH]; intros g i u Hi Hp z; [by exists g, u|].
  pose proof (gate_live_serves g body random now o) as Hsv. unfold z. cbn.
  destruct (gate_live (gw_policy g) body random now (gw_dep g) o) as [x r] eqn:E. cbn in Hsv.
  set (g1 := {| gw_dep := x; gw_policy := gw_policy g; gw_policies := gw_policies g;
                gw_requests := <[i := replied u o r (kont r)]> (gw_requests g) |}).
  destruct (IH r g1 i (replied u o r (kont r))) as (g' & u' & Hg' & Hdep & Hu); [|done|].
  { apply list_lookup_insert_eq. by eapply lookup_lt_Some. }
  exists g', u'. split_and!; [|exact Hdep|apply Hu..]. eapply rtc_l; [|exact Hg']. by apply (gw_answer g i u o kont r x).
Qed.

Lemma gw_works g x : rtc (work_step q cfg) (gw_dep g) x →
  rtc gw_step g {| gw_dep := x; gw_policy := gw_policy g; gw_policies := gw_policies g; gw_requests := gw_requests g |}.
Proof.
  intros Hr. remember (gw_dep g) as y eqn:Hy. revert g Hy.
  induction Hr as [y|y1 y2 y3 Hst _ IH]; intros g ->; [by destruct g|].
  eapply rtc_l; [apply (gw_work g y2 Hst)|]. by apply (IH {| gw_dep := y2 |}).
Qed.

(** A request on a fresh gateway, and then the run it starts, to the end. *)
Definition request_play (s : S) (a : A) (p : option Snapshot) (apiKey : string) (body : AgentProposal)
    (random : string) (now : Time) : @deployment S A :=
  (interp (gate_live p body random now) (started s a p) (handler_of "POST" ["v1"; "intercept"] apiKey None)).1.

Definition gateway_play (s : S) (a : A) (p : option Snapshot) (apiKey : string) (body : AgentProposal)
    (random : string) (now : Time) : world S A :=
  let x := request_play s a p apiKey body random now in
  match e_runs x with
  | u :: _ => (interp (temporal q cfg (u_info u) random) (y_world (e_sys x), now) (u_prog u)).1.1
  | [] => y_world (e_sys x)
  end.

Lemma gateway_play_reached s a p apiKey body random now :
  ∃ g, rtc gw_step (opened s a p p) g ∧ gw_world g = gateway_play s a p apiKey body random now.
Proof.
  set (u := new_request "POST" ["v1"; "intercept"] apiKey None).
  set (g0 := {| gw_dep := started s a p; gw_policy := p; gw_policies := [p]; gw_requests := [u] |}).
  destruct (request_run body random now (rq_prog u) g0 0 u) as (g1 & u1 & Hg1 & Hdep & _); [done..|].
  assert (Hg : rtc gw_step (opened s a p p) g1).
  { eapply rtc_l; [|exact Hg1]. apply (gw_request (opened s a p p)). }
  unfold gateway_play. cbv zeta. change (gw_dep g1 = request_play s a p apiKey body random now) in Hdep.
  rewrite <- Hdep. destruct (e_runs (gw_dep g1)) as [|w ws] eqn:Hruns; [by exists g1|].
  destruct (work_run_all q cfg random (u_prog w) (gw_dep g1) 0 w now) as (x & w' & Hx & Hw & _); [by rewrite Hruns|done|].
  eexists. split; [etransitivity; [exact Hg|exact (gw_works g1 x Hx)]|exact Hw].
Qed.
End Undisturbed_request.
End Gateway.

(** ** An agent's request, from the POST to the adapter *)

Definition sample_keyring : Keyring :=
  {| k_entries := [{| ke_agentID := "agent-sim"; ke_digest := key_digest "dev-secret-change-me" |}] |}.
Definition sample_gateway : world MemoryStore.t SimulatedAdapter.t :=
  gateway_play id full_config sample_keyring "sentrygate-saga" MemoryStore.NewMemoryStore
    SimulatedAdapter.NewSimulatedAdapter (Some default_snapshot) "dev-secret-change-me"
    (er_Proposal sample_request) "1" 1.

Lemma empty_settled : settled_at_start MemoryStore.NewMemoryStore SimulatedAdapter.NewSimulatedAdapter.
Proof. intros d c Hd. cbn in Hd. by rewrite lookup_empty in Hd. Qed.
Lemma empty_store_inv : store_inv MemoryStore.NewMemoryStore.
Proof. exact MemoryStore.NewMemoryStore_inv. Qed.

Lemma sample_gateway_reached : ∃ g,
  rtc (gw_step id full_config sample_keyring "sentrygate-saga" start_when_free)
    (opened MemoryStore.NewMemoryStore SimulatedAdapter.NewSimulatedAdapter (Some default_snapshot) (Some default_snapshot)) g ∧
  y_world (e_sys (gw_dep g)) = sample_gateway.
Proof.
  exact (gateway_play_reached id full_config sample_keyring "sentrygate-saga" start_when_free start_when_free_ok MemoryStore.NewMemoryStore
    SimulatedAdapter.NewSimulatedAdapter (Some default_snapshot) "dev-secret-change-me"
    (er_Proposal sample_request) "1" 1).
Qed.

Example dispatch_from_request_sample :
  ∃ req rec apiKey, dreq sample_request = dreq req ∧ Resolve sample_keyring apiKey = Some (er_AgentID req) ∧
    decisions (w_store sample_gateway) !! er_IngressDecisionID req = Some rec ∧ authorizes rec req "saga-p-1".
Proof.
  destruct sample_gateway_reached as (g & Hg & Hw).
  destruct (dispatch_from_request id full_config sample_keyring "sentrygate-saga" start_when_free MemoryStore.NewMemoryStore
    SimulatedAdapter.NewSimulatedAdapter (Some default_snapshot) (Some default_snapshot) g
    {| x_ID := "saga-p-1"; x_RunID := "run-1" |} (dreq sample_request)
    empty_store_inv simulated_inv_new empty_settled Hg)
    as (u & req & rec & rec' & snap & snap' & tr1 & tr2 & Hd & _ & _ & _ & Hk & _ & _ & _ & _ & _ & _ & Hrec & Hau & _).
  { rewrite Hw. apply (list_elem_of_lookup_2 _ 0). vm_compute. reflexivity. }
  rewrite Hw in Hrec. exact (ex_intro _ req (ex_intro _ rec' (ex_intro _ (rq_apiKey u) (conj Hd (conj Hk (conj Hrec Hau)))))).
Defined.
