(* ===== verification/SqlGateway.v ===== *)
(** * The gateway on one SQLite file, statement by statement

    The gateway of [Gateway] as it is deployed: proxy and worker open the same
    database file, and every call on it, of a request as of an activity
    attempt, is the program of [Sqlite], one statement at a time. Statements of
    all requests and attempts interleave, may fail, and may be applied although
    they are reported as failed. Seen through [abs_gateway] every run of this
    system is a run of [Gateway]. *)

From S2P Require Import Prelude GoBase Contracts Policy Loader Auth Decision Proxy Handler Body Router.
From S2P Require Import Store Database Sqlite Claims Adapter Activities Saga Protocol Traces System Statements.
From S2P Require Import Deployment Gateway.
Open Scope Z_scope.
Open Scope go_scope.

(** A request in flight; its store call may be in progress. *)
Record srequest := {
  sr_method : string; sr_path : list string; sr_apiKey : string; sr_body : list Z;
  sr_pooled : option AgentProposal;
  sr_trace : list (event GateReply);
  sr_local : local GateReply (mux_result response) }.

Section SqlGateway.
Context {A : Type} `{AdapterSpec A}.
Context (q : string → string) (json_error : string → string) (cfg : config) (k : Keyring) (taskQueue : string).
Context (may_start : list run → StartWorkflowOptions → bool).
Context (error_string : decode_failure → string).
#[local] Instance gateway_ops : StoreOps Db := sqlite_ops q json_error.
#[local] Instance gateway_spec : StoreSpec Db := sqlite_spec q json_error.

(** The program of a handler's call on the database. *)
Definition gate_sql (o : GateOp) : option (sql (GateReply o)) :=
  match o return option (sql (GateReply o)) with
  | GAppendDecision rec => Some (Sqlite.AppendDecision json_error rec)
  | GListDecisions id => Some (Sqlite.ListDecisionsByProposal json_error id)
  | GListAudit id => Some (Sqlite.ListByProposal id)
  | GPing => Some Sqlite.Ping
  | _ => None
  end.

Record sql_gateway := {
  sg_sys : @statement_system A;           (* the database, the adapter and the attempts of the worker *)
  sg_runs : list run;
  sg_policy : option Snapshot;            (* the policy the proxy serves *)
  sg_policies : list (option Snapshot);   (* every policy the proxy has served *)
  sg_requests : list srequest }.

Definition new_srequest (method : string) (path : list string) (apiKey : string) (body : list Z)
    (pooled : option AgentProposal) : srequest :=
  {| sr_method := method; sr_path := path; sr_apiKey := apiKey; sr_body := body; sr_pooled := pooled; sr_trace := [];
     sr_local := Idle (handler_of k taskQueue method path apiKey pooled) |}.
Definition sr_moved (u : srequest) (l : local GateReply (mux_result response)) : srequest :=
  {| sr_method := sr_method u; sr_path := sr_path u; sr_apiKey := sr_apiKey u; sr_body := sr_body u;
     sr_pooled := sr_pooled u;
     sr_trace := sr_trace u; sr_local := l |}.
Definition sr_replied (u : srequest) (o : GateOp) (r : GateReply o) (p : gate (mux_result response)) : srequest :=
  {| sr_method := sr_method u; sr_path := sr_path u; sr_apiKey := sr_apiKey u; sr_body := sr_body u;
     sr_pooled := sr_pooled u;
     sr_trace := sr_trace u ++ [ev o r]; sr_local := Idle p |}.

Definition set_sys (g : sql_gateway) (z : statement_system) : sql_gateway :=
  {| sg_sys := z; sg_runs := sg_runs g; sg_policy := sg_policy g; sg_policies := sg_policies g;
     sg_requests := sg_requests g |}.
Definition set_runs (g : sql_gateway) (us : list run) : sql_gateway :=
  {| sg_sys := sg_sys g; sg_runs := us; sg_policy := sg_policy g; sg_policies := sg_policies g;
     sg_requests := sg_requests g |}.
Definition set_requests (g : sql_gateway) (us : list srequest) : sql_gateway :=
  {| sg_sys := sg_sys g; sg_runs := sg_runs g; sg_policy := sg_policy g; sg_policies := sg_policies g;
     sg_requests := us |}.
Abbreviation sg_world g := (z_world (sg_sys g)).
Definition set_db (g : sql_gateway) (db : Db) : sql_gateway :=
  set_sys g {| z_world := set_store (sg_world g) db; z_tasks := z_tasks (sg_sys g) |}.

(** The attempts whose result has been returned to the worker. *)
Definition is_idle (t : stask) : bool := match st_local t with Idle _ => true | Busy _ _ _ => false end.
Definition finished (z : @statement_system A) : list task := abs_task <$> List.filter is_idle (z_tasks z).

Inductive sg_step : sql_gateway → sql_gateway → Prop :=
(* the proxy *)
| sg_request g method path apiKey body pooled :
    sg_step g (set_requests g (sg_requests g ++ [new_srequest method path apiKey body pooled]))
| sg_reload g p :
    sg_step g {| sg_sys := sg_sys g; sg_runs := sg_runs g; sg_policy := p; sg_policies := sg_policies g ++ [p];
                 sg_requests := sg_requests g |}
| sg_answer g i u o kont r us' :
    sg_requests g !! i = Some u → sr_local u = Idle (Call o kont) → gate_sql o = None →
    outside q may_start (sg_policy g) (sg_runs g) o r us' → body_event maxBodyBytes error_string (sr_body u) (ev o r) →
    sg_step g (set_runs (set_requests g (<[i := sr_replied u o r (kont r)]> (sg_requests g))) us')
| sg_begin g i u o kont p :
    sg_requests g !! i = Some u → sr_local u = Idle (Call o kont) → gate_sql o = Some p →
    sg_step g (set_requests g (<[i := sr_moved u (Busy o kont p)]> (sg_requests g)))
| sg_statement g i u o kont so ks r db' :
    sg_requests g !! i = Some u → sr_local u = Busy o kont (Call so ks) →
    answers (w_store (sg_world g)) so r db' →
    sg_step g (set_db (set_requests g (<[i := sr_moved u (Busy o kont (ks r))]> (sg_requests g))) db')
| sg_return g i u o kont v :
    sg_requests g !! i = Some u → sr_local u = Busy o kont (Ret v) →
    sg_step g (set_requests g (<[i := sr_replied u o v (kont v)]> (sg_requests g)))
(* the worker and Temporal *)
| sg_worker_reload g p :
    sg_step g (set_sys g {| z_world := set_policy (sg_world g) p; z_tasks := z_tasks (sg_sys g) |})
| sg_attempt g i u c a kont :
    sg_runs g !! i = Some u → u_prog u = Call (WfActivity c a) kont →
    sg_step g (set_sys g {| z_world := sg_world g;
                            z_tasks := z_tasks (sg_sys g) ++ [new_stask q cfg (u_info u) i (length (u_trace u)) a] |})
| sg_task g z' : task_move q json_error (sg_sys g) z' → sg_step g (set_sys g z')
| sg_run g us' : run_step (finished (sg_sys g)) (sg_runs g) us' → sg_step g (set_runs g us').

(** ** It refines the gateway of atomic calls *)

Definition abs_request (u : srequest) : request :=
  {| rq_method := sr_method u; rq_path := sr_path u; rq_apiKey := sr_apiKey u; rq_pooled := sr_pooled u;
     rq_trace := sr_trace u ++ match sr_local u with Busy o _ (Ret v) => [ev o v] | _ => [] end;
     rq_prog := abs_local (sr_local u) |}.
Definition abs_gateway (g : sql_gateway) : @gateway Db A :=
  {| gw_dep := {| e_sys := abs (sg_sys g); e_runs := sg_runs g |};
     gw_policy := sg_policy g; gw_policies := sg_policies g; gw_requests := abs_request <$> sg_requests g |}.

(** What the last statement of a handler's call does. *)
Definition gate_law (o : GateOp) (s s' : Db) : GateReply o → Prop :=
  match o return GateReply o → Prop with
  | GAppendDecision rec => λ v, lawful_answer (A:=A) q json_error (OpAppendDecision rec) s s' v
  | _ => λ _, s' = s
  end.

(** A listing or a ping leaves the database as it is. *)
Lemma answers_read s o r s' : (∀ now, (db_exec now s o).1 = s) → answers s o r s' → s' = s.
Proof.
  intros Hx Ha. destruct (answers_cases _ _ _ _ Ha) as [(now & Hn)|[_ [->|(now & ->)]]]; [|done|by rewrite Hx].
  by rewrite <- (Hx now), <- Hn.
Qed.

Lemma gate_sql_effective o p : gate_sql o = Some p → effective (gate_law o) p.
Proof.
  destruct o; cbn [gate_sql]; intros Hp; try done; injection Hp as <-.
  1: apply effective_append.
  all: cbn -[db_exec]; intros s r s' _ Ha; (split; [|done]); eapply answers_read; [|exact Ha]; done.
Qed.

Definition busy_lawful (u : srequest) : Prop :=
  match sr_local u with Idle _ => True | Busy o _ p => gate_sql o ≠ None ∧ effective (gate_law o) p end.
(** A request's calls in progress are those of [gate_sql], and what it was
    answered about its body is in the bytes. *)
Definition request_busy_ok (u : srequest) : Prop :=
  busy_lawful u ∧ Forall (body_event maxBodyBytes error_string (sr_body u)) (sr_trace u).

Lemma sql_body_event body o (v : GateReply o) : gate_sql o ≠ None → body_event maxBodyBytes error_string body (ev o v).
Proof. by destruct o. Qed.

Lemma replied_body body tr o (v : GateReply o) : Forall (body_event maxBodyBytes error_string body) tr →
  body_event maxBodyBytes error_string body (ev o v) → Forall (body_event maxBodyBytes error_string body) (tr ++ [ev o v]).
Proof. intros Htr He. apply Forall_app. split; [done|]. by apply Forall_singleton. Qed.
Record sg_inv (g : sql_gateway) : Prop := {
  sgi_sys : statement_inv q json_error (sg_sys g);
  sgi_requests : Forall request_busy_ok (sg_requests g) }.

Lemma finished_abs z : finished z ⊆ y_tasks (abs z).
Proof.
  intros t (u & -> & Hu)%list_elem_of_fmap. apply list_elem_of_fmap. exists u. split; [done|].
  apply list_elem_of_In, List.filter_In in Hu as [Hu _]. by apply list_elem_of_In.
Qed.

Lemma abs_requests_insert (us : list srequest) i u u' : us !! i = Some u →
  abs_request u' = abs_request u → abs_request <$> <[i := u']> us = abs_request <$> us.
Proof. intros Hi Hu. rewrite list_fmap_insert, Hu. apply list_insert_id. by rewrite list_lookup_fmap, Hi. Qed.

(** The call of a request takes effect. *)
Lemma abs_answered g i u o kont r dep' u' g' :
  sg_requests g !! i = Some u → abs_local (sr_local u) = Call o kont → 
  gate_serves q may_start (abs_gateway g) o r dep' →
  abs_request u' = replied (abs_request u) o r (kont r) →
  gw_dep (abs_gateway g') = dep' → sg_policy g' = sg_policy g → sg_policies g' = sg_policies g →
  sg_requests g' = <[i := u']> (sg_requests g) →
  gw_step q cfg k taskQueue may_start (abs_gateway g) (abs_gateway g').
Proof.
  intros Hi Hl Hsv Hu Hd Hp Hps Hr.
  assert (Heq : abs_gateway g' =
    {| gw_dep := dep'; gw_policy := gw_policy (abs_gateway g); gw_policies := gw_policies (abs_gateway g);
       gw_requests := <[i := replied (abs_request u) o r (kont r)]> (gw_requests (abs_gateway g)) |}).
  { unfold abs_gateway at 1. rewrite Hp, Hps, Hr. cbn. rewrite list_fmap_insert, Hu. by rewrite <- Hd. }
  rewrite Heq. apply gw_answer; [|done..]. cbn. by rewrite list_lookup_fmap, Hi.
Qed.

(** A call that makes no statement is answered without touching the database. *)
Lemma gate_refused g o v : gate_sql o = Some (Ret v) →
  gate_serves q may_start (abs_gateway g) o v (gw_dep (abs_gateway g)).
Proof.
  destruct o; cbn [gate_sql]; intros Hp; try done.
  injection Hp as Hp.
  pose proof (sql_call_refused (A:=A) q json_error (OpAppendDecision rec) v {| x_ID := ""; x_RunID := "" |} (sg_world g)) as Hr.
  cbn [sql_call] in Hr. rewrite Hp in Hr. exact (gs_append q may_start (abs_gateway g) _ _ _ _ (Hr eq_refl)).
Qed.

(** The last statement of a call. *)
Lemma gate_law_serves g o v db' : gate_law o (w_store (sg_world g)) db' v → gate_sql o ≠ None →
  gate_serves q may_start (abs_gateway g) o v (gw_dep (abs_gateway (set_db g db'))).
Proof.
  intros Hv Hsql. assert (Hid : set_db g (w_store (sg_world g)) = g).
  { unfold set_db. rewrite set_store_id. by destruct g as [[]]. }
  destruct o; cbn [gate_sql] in Hsql; try done; cbn in Hv.
  - apply (gs_append q may_start (abs_gateway g) {| x_ID := ""; x_RunID := "" |}). by apply Hv.
  - subst db'. rewrite Hid. apply (gs_outside q may_start (abs_gateway g)). by constructor.
  - subst db'. rewrite Hid. apply (gs_outside q may_start (abs_gateway g)). by constructor.
  - subst db'. rewrite Hid. apply (gs_outside q may_start (abs_gateway g)). by constructor.
Qed.

Lemma sg_step_inv g g' : sg_inv g → sg_step g g' → sg_inv g'.
Proof.
  intros [Hz Hb] Hst.
  assert (Hreq : ∀ i u, sg_requests g !! i = Some u → request_busy_ok u)
    by (intros i u Hi; exact (proj1 (Forall_lookup _ _) Hb i u Hi)).
  assert (Hin : ∀ i u', request_busy_ok u' → Forall request_busy_ok (<[i := u']> (sg_requests g)))
    by (intros; by apply Forall_insert).
  destruct Hst as [g method path apiKey body pooled|g p|g i u o kont r us' Hi Hl Hn Ho Hbe|g i u o kont p Hi Hl Hp
    |g i u o kont so ks r db' Hi Hl Han|g i u o kont v Hi Hl|g p|g i u c a kont Hi Hp|g z' Hm|g us' Hr];
    try (pose proof (Hreq _ _ Hi) as [Hu Hbody]; unfold busy_lawful in Hu; rewrite Hl in Hu).
  - split; [done|]. apply Forall_app. split; [done|]. by apply Forall_singleton.
  - by split.
  - split; [done|]. apply Hin. split; [done|]. by apply replied_body.
  - split; [done|]. apply Hin. split; [|done]. split; [by rewrite Hp|by apply gate_sql_effective].
  - destruct Hu as [Hsql Heff], Hz as [Hdb Ha Ht]. destruct (Heff _ _ _ Hdb Han) as [_ He].
    split; [split; [by eapply answers_inv|done|done]|]. apply Hin. by split.
  - split; [done|]. apply Hin. split; [done|]. apply replied_body; [done|]. apply sql_body_event, Hu.
  - split; [by destruct Hz|done].
  - split; [|done]. eapply statement_step_inv; [exact Hz|apply z_start].
  - split; [by eapply task_move_inv|done].
  - by split.
Qed.

(** One step is one step of the gateway, or nothing. *)
Lemma sg_step_abs g g' : sg_inv g → sg_step g g' →
  rtc (gw_step q cfg k taskQueue may_start) (abs_gateway g) (abs_gateway g').
Proof.
  intros [Hz Hb] Hst.
  destruct Hst as [g method path apiKey body pooled|g p|g i u o kont r us' Hi Hl Hn Ho Hbe|g i u o kont p Hi Hl Hp
    |g i u o kont so ks r db' Hi Hl Han|g i u o kont v Hi Hl|g p|g i u c a kont Hi Hp|g z' Hm|g us' Hr].
  - apply rtc_once. unfold abs_gateway. cbn. rewrite fmap_app. apply (gw_request q cfg k taskQueue may_start (abs_gateway g)).
  - apply rtc_once, (gw_reload q cfg k taskQueue may_start (abs_gateway g)).
  - apply rtc_once. eapply abs_answered; [done|by rewrite Hl|exact (gs_outside q may_start (abs_gateway g) _ _ _ Ho)| |done..].
    unfold abs_request, replied. cbn. by rewrite Hl, !app_nil_r.
  - destruct p as [v|so ks].
    + apply rtc_once. eapply abs_answered; [done|by rewrite Hl|by apply gate_refused| |done..].
      unfold abs_request, replied. cbn. by rewrite Hl, app_nil_r.
    + unfold abs_gateway. cbn. erewrite abs_requests_insert; [done|done|].
      unfold abs_request. cbn. by rewrite Hl.
  - pose proof (proj1 (Forall_lookup _ _) Hb i u Hi) as [Hu _]. unfold busy_lawful in Hu. rewrite Hl in Hu.
    destruct Hu as [Hsql Heff]. destruct Hz as [Hdb _ _]. destruct (Heff _ _ _ Hdb Han) as [Hv _].
    destruct (ks r) as [v|so' ks'] eqn:Ek.
    + apply rtc_once. eapply abs_answered; [done|by rewrite Hl|by apply gate_law_serves| |done..].
      unfold abs_request, replied. cbn. by rewrite Hl, app_nil_r.
    + subst db'. unfold abs_gateway, set_db, abs. cbn. rewrite set_store_id.
      erewrite abs_requests_insert; [done|done|]. unfold abs_request. cbn. by rewrite Hl.
  - unfold abs_gateway. cbn. erewrite abs_requests_insert; [done|done|].
    unfold abs_request. cbn. by rewrite Hl, app_nil_r.
  - apply rtc_once, (gw_work q cfg k taskQueue may_start (abs_gateway g)), (work_reload q cfg (gw_dep (abs_gateway g))).
  - apply rtc_once. unfold abs_gateway, abs. cbn. rewrite fmap_app.
    apply (gw_work q cfg k taskQueue may_start (abs_gateway g)). by eapply (work_attempt q cfg (gw_dep (abs_gateway g))).
  - destruct (task_move_abs q json_error _ _ Hz Hm) as [Heq|(i & t & o & kont & r & w' & Hi & Hp & Hsv & Heq)];
      unfold abs_gateway; cbn; rewrite Heq; [done|].
    apply rtc_once, (gw_work q cfg k taskQueue may_start (abs_gateway g)).
    by eapply (work_serve q cfg (gw_dep (abs_gateway g))).
  - apply rtc_once, (gw_work q cfg k taskQueue may_start (abs_gateway g)), (work_run q cfg (gw_dep (abs_gateway g))).
    eapply run_step_more; [apply finished_abs|done].
Qed.

Lemma sg_run_abs g g' : sg_inv g → rtc sg_step g g' →
  sg_inv g' ∧ rtc (gw_step q cfg k taskQueue may_start) (abs_gateway g) (abs_gateway g').
Proof.
  intros Hg Hr. induction Hr as [|g1 g2 g3 Hst _ IH]; [done|].
  destruct (IH (sg_step_inv _ _ Hg Hst)) as [? ?]. split; [done|].
  etransitivity; [by eapply sg_step_abs|done].
Qed.

(** A database file before the first request. *)
Definition sg_opened (db : Db) (a : A) (worker proxy : option Snapshot) : sql_gateway :=
  {| sg_sys := quiet db a worker; sg_runs := []; sg_policy := proxy; sg_policies := [proxy]; sg_requests := [] |}.

Lemma sg_opened_inv db a worker proxy : db_inv db → adapter_inv a → sg_inv (sg_opened db a worker proxy).
Proof. intros Hdb Ha. split; [by split|constructor]. Qed.

(** What a request was answered, with the call that is just over. *)
Lemma abs_body u : request_busy_ok u → Forall (body_event maxBodyBytes error_string (sr_body u)) (rq_trace (abs_request u)).
Proof.
  intros [Hu Hb]. unfold abs_request. cbn [rq_trace]. apply Forall_app. split; [done|].
  unfold busy_lawful in Hu. destruct (sr_local u) as [|o kont [v|]]; try apply Forall_nil_2.
  apply Forall_singleton. apply sql_body_event, Hu.
Qed.

(** C2: The deployed gateway, with the statements of all requests and activity
    attempts interleaved on one SQLite file, failing, or applied although they
    are reported as failed, is a gateway whose store calls are atomic. The
    schema's keys, foreign key and check hold at every statement, and at every
    statement the claims tell the truth about the target: a COMPLETED claim's
    key has taken effect exactly once, a FAILED claim's will not any more. *)
Theorem sql_gateway_refines db a worker proxy g :
  db_inv db → adapter_inv a → settled_at_start db a → rtc sg_step (sg_opened db a worker proxy) g →
  rtc (gw_step q cfg k taskQueue may_start) (opened db a worker proxy) (abs_gateway g) ∧
  db_inv (w_store (sg_world g)) ∧
  (∀ d c, db_claims (w_store (sg_world g)) !! d = Some c →
    (ec_State c = ClaimStateCompleted → mutations (w_adapter (sg_world g)) (ExecutionKey d) = 1) ∧
    (ec_State c = ClaimStateFailed → refused (w_adapter (sg_world g)) (ExecutionKey d))).
Proof.
  intros Hdb Ha Hst Hr. destruct (sg_run_abs _ _ (sg_opened_inv db a worker proxy Hdb Ha) Hr) as [[[Hdb' _ _] _] Habs].
  split_and!; [exact Habs|done|]. assert (Hs : store_inv db) by exact Hdb.
  destruct (dep_reach_inv _ _ _ _ (started_inv _ db a worker Hs Ha Hst) (gw_steps_dep _ _ _ _ _ _ _ Habs)) as [_ Hcl _ _ _].
  intros d c Hd. exact (Hcl d c Hd).
Qed.

(** C1: A call on the adapter comes from an agent. Whatever HTTP requests are
    made, whatever their bodies, and however the statements of requests and
    activity attempts on the SQLite file, workflow runs and reloads of the two
    policies interleave, every dispatch carries the key and proposal of an
    execution request that a POST of /v1/intercept started: its key belonged to
    the agent the request names, the bytes of its body are that proposal, the
    policy the proxy had read allowed it, and the decision was recorded first; the
    decision in the database still authorises the request, and a policy of the
    worker allowed it again. There is at most one dispatch per decision. *)
Theorem sql_dispatch_from_request db a worker proxy g info d :
  db_inv db → adapter_inv a → settled_at_start db a →
  rtc sg_step (sg_opened db a worker proxy) g → (info, d) ∈ w_calls (sg_world g) →
  ∃ u req rec rec' snap snap',
    d = dreq req ∧
    u ∈ sg_requests g ∧ sr_method u = "POST" ∧ sr_path u = ["v1"; "intercept"] ∧
    Resolve k (sr_apiKey u) = Some (er_AgentID req) ∧
    decode_body maxBodyBytes error_string (sr_body u) = Ok (er_Proposal req) ∧
    snap ∈ sg_policies g ∧ d_Verdict (Evaluate snap (er_AgentID req) (er_Proposal req)) = VerdictAllow ∧
    ev (Reply:=GateReply) (GAppendDecision rec) None ∈ rq_trace (abs_request u) ∧ authorizes rec req (x_ID info) ∧
    db_decisions (w_store (sg_world g)) !! er_IngressDecisionID req = Some rec' ∧ authorizes rec' req (x_ID info) ∧
    snap' ∈ w_policies (sg_world g) ∧ d_Verdict (Revalidate snap' req) = VerdictAllow ∧
    (dispatches (dq_IdempotencyKey d) (sg_world g) ≤ 1)%nat.
Proof.
  intros Hdb Ha Hst Hr Hin.
  destruct (sg_run_abs _ _ (sg_opened_inv db a worker proxy Hdb Ha) Hr) as [[_ Hreq] Habs].
  assert (Hs : store_inv db) by exact Hdb.
  destruct (dispatch_from_request q cfg k taskQueue may_start db a worker proxy (abs_gateway g) info d Hs Ha Hst Habs Hin)
    as (u & req & rec & rec' & snap & snap' & tr1 & tr2 & Hd & Hu & Hm & Hp & Hk & Htr & Hdec & Hrest).
  apply list_elem_of_fmap in Hu as (u' & -> & Hu). rewrite Forall_forall in Hreq.
  pose proof (abs_body u' (Hreq u' Hu)) as Hbody. rewrite Htr in Hbody. apply Forall_app in Hbody as [Hbody _].
  exists u', req, rec, rec', snap, snap'. split_and!; try done; try apply Hrest.
  symmetry. by eapply decodeProposal_body.
Qed.

(** ** Undisturbed requests and runs, executable *)

Definition on_sql {B} (now : Time) (w : world Db A) (p : sql B) : world Db A * B :=
  let x := atomically CtxLive now p (w_store w) in (set_store w x.1, x.2).

Definition act_live (now : Time) (info : execution) (w : world Db A) (o : ActOp) : world Db A * ActOpReply o :=
  match sql_call q json_error o with
  | Some p => on_sql now w p
  | None => serve_live now info w o
  end.

Lemma on_sql_call {B} now w so (ks : SqlReply so → sql B) :
  let x := db_run CtxLive now (w_store w) so in
  on_sql now w (Call so ks) = on_sql now (set_store w x.1) (ks x.2).
Proof. unfold on_sql, atomically. cbn -[db_run]. by destruct (db_run CtxLive now (w_store w) so). Qed.

Lemma task_statements now i t o kont p : ∀ z, z_tasks z !! i = Some (moved t (Busy o kont p)) →
  let x := on_sql now (z_world z) p in
  rtc (task_move q json_error) z {| z_world := x.1; z_tasks := <[i := moved t (Busy o kont (Ret x.2))]> (z_tasks z) |}.
Proof.
  induction p as [v|so ks IH]; intros z Hi.
  - cbn. rewrite set_store_id, list_insert_id by done. by destruct z.
  - cbv zeta. rewrite on_sql_call. set (x := db_run CtxLive now (w_store (z_world z)) so).
    eapply rtc_l; [apply (z_statement q json_error z i (moved t (Busy o kont (Call so ks))) o kont so ks x.2 x.1);
      [done|done|apply ans_done]|].
    specialize (IH x.2 {| z_world := set_store (z_world z) x.1;
                          z_tasks := <[i := moved t (Busy o kont (ks x.2))]> (z_tasks z) |}).
    cbn -[on_sql] in IH. rewrite list_insert_insert_eq in IH.
    apply IH. apply list_lookup_insert_eq. exact (lookup_lt_Some _ _ _ Hi).
Qed.

Lemma attempt_runs now i t p : ∀ z, z_tasks z !! i = Some (moved t (Idle p)) →
  let x := interp (act_live now (st_info t)) (z_world z) p in
  rtc (task_move q json_error) z {| z_world := x.1; z_tasks := <[i := moved t (Idle (Ret x.2))]> (z_tasks z) |}.
Proof.
  induction p as [v|o kont IH]; intros z Hi; cbn; [by rewrite list_insert_id by done; destruct z|].
  assert (Hlt : (i < length (z_tasks z))%nat) by exact (lookup_lt_Some _ _ _ Hi).
  unfold act_live at 1 3. destruct (sql_call q json_error o) as [p|] eqn:Hsql.
  - eapply rtc_l; [by apply (z_begin q json_error z i (moved t (Idle (Call o kont))) o kont p)|].
    etransitivity; [apply (task_statements now i t o kont p); by apply list_lookup_insert_eq|].
    cbn -[on_sql]. rewrite list_insert_insert_eq. destruct (on_sql now (z_world z) p) as [w r]. cbn.
    eapply rtc_l; [apply (z_return q json_error _ i (moved t (Busy o kont (Ret r))) o kont r);
      [by apply list_lookup_insert_eq|done]|]. cbn. rewrite list_insert_insert_eq.
    specialize (IH r {| z_world := w; z_tasks := <[i := moved t (Idle (kont r))]> (z_tasks z) |}). cbn in IH.
    rewrite list_insert_insert_eq in IH. apply IH. by apply list_lookup_insert_eq.
  - pose proof (serve_live_serves now (st_info t) (z_world z) o) as Hsv.
    destruct (serve_live now (st_info t) (z_world z) o) as [w r]. cbn in Hsv.
    eapply rtc_l; [by apply (z_serve q json_error z i (moved t (Idle (Call o kont))) o kont r w)|].
    specialize (IH r {| z_world := w; z_tasks := <[i := moved t (Idle (kont r))]> (z_tasks z) |}). cbn in IH.
    rewrite list_insert_insert_eq in IH. apply IH. by apply list_lookup_insert_eq.
Qed.

Lemma sg_tasks g z : rtc (task_move q json_error) (sg_sys g) z → rtc sg_step g (set_sys g z).
Proof.
  intros Hr. remember (sg_sys g) as y eqn:Hy. revert g Hy.
  induction Hr as [y|y1 y2 y3 Hst _ IH]; intros g ->; [by destruct g|].
  eapply rtc_l; [by apply (sg_task g y2)|]. by apply (IH (set_sys g y2)).
Qed.

(** Every call of a request is answered at once; the workflow is started unless
    a run is open under its ID. *)
Definition reply_to (body : list Z) (o : GateOp) (r : GateReply o) : GateReply o :=
  match o return GateReply o → GateReply o with
  | GDecode into => λ _, decode_answer maxBodyBytes error_string body into
  | GDecodeExtra => λ _, extra_answer maxBodyBytes body
  | _ => λ r, r
  end r.

Definition gate_sql_live (policy : option Snapshot) (body : list Z) (random : string) (now : Time)
    (x : world Db A * list run) (o : GateOp) : (world Db A * list run) * GateReply o :=
  match gate_sql o with
  | Some p => let y := on_sql now x.1 p in ((y.1, x.2), y.2)
  | None =>
      let y := gate_live q policy zeroProposal random now
        {| e_sys := {| y_world := x.1; y_tasks := [] |}; e_runs := x.2 |} o in
      ((x.1, e_runs y.1), reply_to body o y.2)
  end.

Section Undisturbed_request.
Hypothesis starts : starts_when_free may_start.

Lemma gate_live_outside policy body random now (x : @deployment Db A) o : gate_sql o = None →
  let y := gate_live q policy zeroProposal random now x o in
  outside q may_start policy (e_runs x) o (reply_to body o y.2) (e_runs y.1).
Proof using starts.
  destruct o; cbn [gate_live reply_to fst snd e_runs]; intros Hn; try discriminate Hn;
    try (by apply os_other); [apply os_policy|].
  pose proof (start_live_outside q may_start starts policy (e_runs x) opts req random) as Ho.
  by destruct (running (e_runs x) (so_ID opts)).
Qed.

Lemma reply_to_body body o (r : GateReply o) : body_event maxBodyBytes error_string body (ev o (reply_to body o r)).
Proof. destruct o; exact I || reflexivity. Qed.

Lemma request_statements now i o kont p : ∀ g u, sg_requests g !! i = Some (sr_moved u (Busy o kont p)) →
  let x := on_sql now (sg_world g) p in
  rtc sg_step g (set_sys (set_requests g (<[i := sr_moved u (Busy o kont (Ret x.2))]> (sg_requests g)))
    {| z_world := x.1; z_tasks := z_tasks (sg_sys g) |}).
Proof.
  induction p as [v|so ks IH]; intros g u Hi.
  - cbn. rewrite set_store_id, list_insert_id by done. by destruct g as [[]].
  - cbv zeta. rewrite on_sql_call. set (x := db_run CtxLive now (w_store (sg_world g)) so).
    eapply rtc_l; [apply (sg_statement g i (sr_moved u (Busy o kont (Call so ks))) o kont so ks x.2 x.1);
      [done|done|apply ans_done]|].
    specialize (IH x.2 (set_db (set_requests g (<[i := sr_moved u (Busy o kont (ks x.2))]> (sg_requests g))) x.1) u).
    cbn -[on_sql] in IH. rewrite list_insert_insert_eq in IH.
    apply IH. apply list_lookup_insert_eq. exact (lookup_lt_Some _ _ _ Hi).
Qed.

(** One call of a request, undisturbed. *)
Lemma request_call random now g i u o kont :
  sg_requests g !! i = Some u → sr_local u = Idle (Call o kont) →
  let x := gate_sql_live (sg_policy g) (sr_body u) random now (sg_world g, sg_runs g) o in
  rtc sg_step g
    {| sg_sys := {| z_world := x.1.1; z_tasks := z_tasks (sg_sys g) |}; sg_runs := x.1.2; sg_policy := sg_policy g;
       sg_policies := sg_policies g; sg_requests := <[i := sr_replied u o x.2 (kont x.2)]> (sg_requests g) |}.
Proof.
  intros Hi Hl. assert (Hlt : (i < length (sg_requests g))%nat) by exact (lookup_lt_Some _ _ _ Hi).
  cbv zeta. unfold gate_sql_live. destruct (gate_sql o) as [p|] eqn:Hsql.
  - eapply rtc_l; [by apply (sg_begin g i u o kont p)|].
    etransitivity; [apply (request_statements now i o kont p _ u); by apply list_lookup_insert_eq|].
    cbn -[on_sql]. rewrite list_insert_insert_eq. destruct (on_sql now (sg_world g) p) as [w r]. cbn.
    eapply rtc_l; [eapply (sg_return _ i (sr_moved u (Busy o kont (Ret r))) o kont r);
      [by apply list_lookup_insert_eq|done]|].
    cbn. by rewrite list_insert_insert_eq.
  - pose proof (gate_live_outside (sg_policy g) (sr_body u) random now
      {| e_sys := {| y_world := sg_world g; y_tasks := [] |}; e_runs := sg_runs g |} o Hsql) as Ho.
    cbn [e_runs fst snd] in *. destruct (gate_live q _ _ _ _ _ _) as [y r]. cbn [fst snd] in *.
    apply rtc_once.
    pose proof (sg_answer g i u o kont _ (e_runs y) Hi Hl Hsql Ho (reply_to_body _ _ _)) as Hs.
    destruct g as [[]]. exact Hs.
Qed.

Lemma request_runs random now i p : ∀ g u, sg_requests g !! i = Some u → sr_local u = Idle p →
  let x := interp (gate_sql_live (sg_policy g) (sr_body u) random now) (sg_world g, sg_runs g) p in
  ∃ g' u', rtc sg_step g g' ∧ sg_policy g' = sg_policy g ∧ sg_world g' = x.1.1 ∧ sg_runs g' = x.1.2 ∧
    sg_requests g' !! i = Some u' ∧ sr_body u' = sr_body u ∧ sr_local u' = Idle (Ret x.2).
Proof.
  induction p as [v|o kont IH]; intros g u Hi Hl; [by exists g, u|]. cbv zeta. cbn [interp].
  pose proof (request_call random now g i u o kont Hi Hl) as Hst.
  destruct (gate_sql_live (sg_policy g) (sr_body u) random now (sg_world g, sg_runs g) o) as [[w us] r].
  cbn [fst snd] in Hst. match type of Hst with rtc _ _ ?g1 => destruct (IH r g1 (sr_replied u o r (kont r)))
    as (g' & u' & Hg' & Hrest); [apply list_lookup_insert_eq; exact (lookup_lt_Some _ _ _ Hi)|done|] end.
  exists g', u'. split; [by etransitivity|done].
Qed.

(** Temporal runs one attempt of each activity and delivers its result. *)
Definition sql_temporal (info : execution) (random : string) (wn : world Db A * Time) (o : WfOp)
    : (world Db A * Time) * WfReply o :=
  match o return (world Db A * Time) * WfReply o with
  | WfActivity c a => let x := interp (act_live wn.2 info) wn.1 (activity q cfg info a) in
                      ((x.1, wn.2), wf_value q x.2)
  | WfSideEffect => (wn, Ok random)
  | WfNow => (wn, wn.2)
  | WfSleep d => ((wn.1, wn.2 + d), None)
  end.

Lemma run_activity now g i u c a kont :
  sg_runs g !! i = Some u → u_prog u = Call (WfActivity c a) kont →
  let v := interp (act_live now (u_info u)) (sg_world g) (activity q cfg (u_info u) a) in
  ∃ g', rtc sg_step g g' ∧ sg_world g' = v.1 ∧
    sg_runs g' = <[i := answered u (WfActivity c a) (wf_value q v.2) (kont (wf_value q v.2))]> (sg_runs g).
Proof.
  intros Hi Hp v. set (t := new_stask q cfg (u_info u) i (length (u_trace u)) a).
  set (j := length (z_tasks (sg_sys g))).
  set (z1 := {| z_world := sg_world g; z_tasks := z_tasks (sg_sys g) ++ [t] |}).
  assert (Hj : z_tasks z1 !! j = Some (moved t (Idle (activity q cfg (u_info u) a)))) by by apply list_lookup_middle.
  pose proof (sg_tasks (set_sys g z1) _ (attempt_runs now j t _ z1 Hj)) as Ht. cbv zeta in Ht. change (z_world z1) with (sg_world g) in Ht.
  change (st_info t) with (u_info u) in Ht. fold v in Ht.
  eexists. split; [eapply rtc_l; [by eapply (sg_attempt g i u c a kont)|]; fold t z1; eapply rtc_r; [exact Ht|]|].
  - apply sg_run. cbn [set_sys sg_runs sg_sys].
    eapply (run_deliver _ _ i u c a kont v.2 (wf_value q v.2)); [exact Hi|exact Hp| |apply wf_value_returned].
    apply list_elem_of_fmap. exists (moved t (Idle (Ret v.2))). split; [done|].
    apply list_elem_of_In, List.filter_In. split; [|done]. apply list_elem_of_In, (list_elem_of_lookup_2 _ j).
    apply list_lookup_insert_eq. change (j < length (z_tasks (sg_sys g) ++ [t]))%nat. rewrite length_app. cbn. lia.
  - done.
Qed.

Lemma run_runs random p : ∀ g i u now, sg_runs g !! i = Some u → u_prog u = p →
  let h := sql_temporal (u_info u) random in
  ∃ g' u', rtc sg_step g g' ∧ sg_world g' = (interp h (sg_world g, now) p).1.1 ∧
    sg_runs g' = <[i := u']> (sg_runs g) ∧ u_info u' = u_info u ∧ u_req u' = u_req u ∧
    u_trace u' = u_trace u ++ (traced h (sg_world g, now) p).1 ∧ u_prog u' = Ret (interp h (sg_world g, now) p).2.
Proof.
  induction p as [res|o kont IH]; intros g i u now Hi Hp h.
  { exists g, u. cbn. rewrite app_nil_r, list_insert_id by done. done. }
  assert (Hlen : (i < length (sg_runs g))%nat) by by eapply lookup_lt_Some.
  assert (Hgo : ∀ g1 r now1, rtc sg_step g g1 → sg_runs g1 = <[i := answered u o r (kont r)]> (sg_runs g) →
    h (sg_world g, now) o = ((sg_world g1, now1), r) →
    ∃ g' u', rtc sg_step g g' ∧ sg_world g' = (interp h (sg_world g, now) (Call o kont)).1.1 ∧
      sg_runs g' = <[i := u']> (sg_runs g) ∧ u_info u' = u_info u ∧ u_req u' = u_req u ∧
      u_trace u' = u_trace u ++ (traced h (sg_world g, now) (Call o kont)).1 ∧
      u_prog u' = Ret (interp h (sg_world g, now) (Call o kont)).2).
  { intros g1 r now1 Hg1 Hr Hh. destruct (IH r g1 i (answered u o r (kont r)) now1)
      as (g' & u' & Hg' & Hw & Hus & Hinf & Hreq & Htr & Hend); [rewrite Hr; by apply list_lookup_insert_eq|done|].
    exists g', u'. cbn [interp traced]. rewrite Hh. cbn [u_info answered] in Hw, Htr, Hinf, Hreq, Hend.
    destruct (traced h (sg_world g1, now1) (kont r)) as [tr b] eqn:Et.
    split_and!; [by etrans|exact Hw|by rewrite Hus, Hr, list_insert_insert_eq|done|done| |exact Hend].
    rewrite Htr. fold h. rewrite Et. cbn. by rewrite <- app_assoc. }
  destruct o as [c a| | |d].
  - destruct (run_activity now g i u c a kont Hi Hp) as (g1 & Hg1 & Hw & Hr).
    eapply (Hgo g1 _ now Hg1 Hr). unfold h. cbn. by rewrite Hw.
  - eapply (Hgo _ _ now); [apply rtc_once, sg_run; by apply (run_other _ _ i u WfSideEffect kont (Ok random))|done|done].
  - eapply (Hgo _ _ now); [apply rtc_once, sg_run; by apply (run_other _ _ i u WfNow kont now)|done|done].
  - eapply (Hgo _ _ (now + d)); [apply rtc_once, sg_run; by apply (run_other _ _ i u (WfSleep d) kont None)|done|done].
Qed.

(** A request on a fresh gateway, and then the run it starts, to the end. *)
Definition sql_request (db : Db) (a : A) (p : option Snapshot) (apiKey : string) (body : list Z)
    (random : string) (now : Time) : world Db A * list run :=
  (interp (gate_sql_live p body random now) (y_world (idle db a p), [])
     (handler_of k taskQueue "POST" ["v1"; "intercept"] apiKey None)).1.

Definition sql_play (db : Db) (a : A) (p : option Snapshot) (apiKey : string) (body : list Z)
    (random : string) (now : Time) : world Db A * list (event WfReply) :=
  let x := sql_request db a p apiKey body random now in
  match x.2 with
  | u :: _ => ((interp (sql_temporal (u_info u) random) (x.1, now) (u_prog u)).1.1,
               (traced (sql_temporal (u_info u) random) (x.1, now) (u_prog u)).1)
  | [] => (x.1, [])
  end.

Lemma sql_play_reached db a p apiKey body random now info :
  let x := sql_request db a p apiKey body random now in
  (λ u, (u_info u, u_trace u)) <$> x.2 = [(info, [])] →
  ∃ g u, rtc sg_step (sg_opened db a p p) g ∧
    sg_world g = (sql_play db a p apiKey body random now).1 ∧ sg_runs g = [u] ∧ u_info u = info ∧
    u_trace u = (sql_play db a p apiKey body random now).2.
Proof.
  intros x Hx. set (g0 := set_requests (sg_opened db a p p) [new_srequest "POST" ["v1"; "intercept"] apiKey body None]).
  destruct (request_runs random now 0 (handler_of k taskQueue "POST" ["v1"; "intercept"] apiKey None) g0
    (new_srequest "POST" ["v1"; "intercept"] apiKey body None))
    as (g1 & _ & Hg1 & _ & Hw & Hr & _); [done..|].
  assert (Hg : rtc sg_step (sg_opened db a p p) g1) by (eapply rtc_l; [apply sg_request|exact Hg1]).
  change (sg_world g1 = x.1) in Hw. change (sg_runs g1 = x.2) in Hr. unfold sql_play. cbv zeta. fold x.
  destruct x.2 as [|u0 [|]]; [discriminate Hx| |discriminate Hx]. injection Hx as Hinfo Htrace.
  destruct (run_runs random (u_prog u0) g1 0 u0 now)
    as (g2 & u & Hg2 & Hw2 & Hus & Hinf & _ & Htr & _); [by rewrite Hr|done|].
  rewrite Hr in Hus. rewrite Htrace in Htr. rewrite Hw in Hw2, Htr. exists g2, u.
  split_and!; [by etrans|exact Hw2|exact Hus|by rewrite <- Hinfo|exact Htr].
Qed.
End Undisturbed_request.
End SqlGateway.

(** ** An agent's request on a fresh database, from the POST to the adapter *)

Definition sample_sql_play : world Db SimulatedAdapter.t * list (event WfReply) :=
  sql_play id id full_config sample_keyring "sentrygate-saga" (λ _, "") empty_db
    SimulatedAdapter.NewSimulatedAdapter (Some default_snapshot) "dev-secret-change-me"
    (marshal_proposal (er_Proposal sample_request)) "1" 1.
Definition sample_sql_gateway : world Db SimulatedAdapter.t := sample_sql_play.1.

Lemma empty_db_settled : settled_at_start (S:=Db) (H:=sqlite_ops id id) (H0:=sqlite_spec id id)
  empty_db SimulatedAdapter.NewSimulatedAdapter.
Proof. intros d c Hd. vm_compute in Hd. by destruct d. Qed.

(** One dispatch, a COMPLETED claim and the rows of the audit trail. *)
Example sample_sql_result :
  (length (w_calls sample_sql_gateway), cl_state <$> execution_claims (w_store sample_sql_gateway),
   length (decision_records (w_store sample_sql_gateway)), au_phase <$> audit_records (w_store sample_sql_gateway)) =
  (1%nat, [ClaimStateCompleted], 2%nat,
   [AuditPhaseRevalidation; AuditPhaseDispatch; AuditPhaseWorkflowComplete]).
Proof. vm_compute. reflexivity. Qed.

Lemma sample_sql_reached : ∃ g u,
  rtc (sg_step id id full_config sample_keyring "sentrygate-saga" start_when_free (λ _, ""))
    (sg_opened empty_db SimulatedAdapter.NewSimulatedAdapter (Some default_snapshot) (Some default_snapshot)) g ∧
  z_world (sg_sys g) = sample_sql_gateway ∧ sg_runs g = [u] ∧
  u_info u = {| x_ID := "saga-p-1"; x_RunID := "run-1" |} ∧ u_trace u = sample_sql_play.2.
Proof.
  refine (sql_play_reached id id full_config sample_keyring "sentrygate-saga" start_when_free (λ _, "") start_when_free_ok empty_db
    SimulatedAdapter.NewSimulatedAdapter (Some default_snapshot) "dev-secret-change-me"
    (marshal_proposal (er_Proposal sample_request)) "1" 1 _ _).
  vm_compute. reflexivity.
Qed.

Lemma sample_sql_claim :
  ec_State <$> db_claims (w_store sample_sql_gateway) !! "dec_1" = Some ClaimStateCompleted.
Proof. vm_compute. reflexivity. Qed.

Lemma sql_gateway_refines_witness :
  ec_State <$> db_claims (w_store sample_sql_gateway) !! "dec_1" = Some ClaimStateCompleted ∧
  mutations (w_adapter sample_sql_gateway) (ExecutionKey "dec_1") = 1.
Proof.
  split; [exact sample_sql_claim|].
  destruct sample_sql_reached as (g & _ & Hg & Hw & _).
  destruct (sql_gateway_refines id id full_config sample_keyring "sentrygate-saga" start_when_free (λ _, "") empty_db
    SimulatedAdapter.NewSimulatedAdapter (Some default_snapshot) (Some default_snapshot) g
    empty_db_inv simulated_inv_new empty_db_settled Hg) as (_ & _ & Hc). rewrite Hw in Hc.
  destruct (proj1 (fmap_Some _ _ _) sample_sql_claim) as (c & E & Hst).
  exact (proj1 (Hc "dec_1" c E) (eq_sym Hst)).
Defined.

Lemma sql_dispatch_from_request_witness :
  ∃ req rec apiKey, dreq sample_request = dreq req ∧ Resolve sample_keyring apiKey = Some (er_AgentID req) ∧
    db_decisions (w_store sample_sql_gateway) !! er_IngressDecisionID req = Some rec ∧ authorizes rec req "saga-p-1".
Proof.
  destruct sample_sql_reached as (g & _ & Hg & Hw & _).
  destruct (sql_dispatch_from_request id id full_config sample_keyring "sentrygate-saga" start_when_free (λ _, "") empty_db
    SimulatedAdapter.NewSimulatedAdapter (Some default_snapshot) (Some default_snapshot) g
    {| x_ID := "saga-p-1"; x_RunID := "run-1" |} (dreq sample_request)
    empty_db_inv simulated_inv_new empty_db_settled Hg)
    as (u & req & rec & rec' & snap & snap' & Hd & _ & _ & _ & Hk & _ & _ & _ & _ & _ & Hrec & Hau & _).
  { rewrite Hw. apply (list_elem_of_lookup_2 _ 0). vm_compute. reflexivity. }
  rewrite Hw in Hrec. exact (ex_intro _ req (ex_intro _ rec' (ex_intro _ (sr_apiKey u) (conj Hd (conj Hk (conj Hrec Hau)))))).
Defined.
