(* ===== verification/Audited.v ===== *)
(** * The audit trail of the deployed gateway

    The rows of audit_records in the system of [SqlGateway]: where they come
    from, and why an append is never refused. *)

From S2P Require Import Prelude GoBase GoText GoTime GoJson Contracts Policy Loader Auth Decision Proxy Handler Body Router.
From S2P Require Import Store AuditTrail Database Sqlite Claims SqliteAudit Adapter Activities Saga Protocol Traces Trail.
From S2P Require Import System Statements Deployment Gateway SqlGateway.
Open Scope Z_scope.
Open Scope go_scope.

(** ** The rows a program of statements may insert *)

(** What [Append] writes of a record: the record, or the record with the time
    of the attempt when it has none. *)
Definition row_of (rec : AuditRecord) (row : audit_row) : Prop :=
  row = audit_params rec ∨
  (ar_RecordedAt rec = zeroTime ∧ ∃ now, row = audit_params (Sqlite.with_time rec (UTC now))).

Definition inserts (P : audit_row → Prop) (so : SqlOp) : Prop :=
  match so with InsertAudit row => P row | _ => True end.

Lemma answers_audit s so r s' : answers s so r s' →
  audit_records s' = audit_records s ∨
  ∃ row, so = InsertAudit row ∧ row_with au_record_id (au_record_id row) (audit_records s) = None ∧
         audit_records s' = audit_records s ++ [row].
Proof.
  intros Ha. assert (Hs : s' = s ∨ ∃ now, s' = (db_exec now s so).1).
  { apply answers_cases in Ha as [(now & Hn)|[_ [->|(now & ->)]]]; [|auto|eauto].
    right. exists now. by rewrite <- Hn. }
  destruct Hs as [->|(now & ->)]; [by left|].
  destruct so; cbn; auto.
  - destruct (row_with _ _ _) eqn:E; [by left|]. right. by exists row.
  - left. by destruct (row_with _ _ _).
  - left. unfold upsert_claim. by repeat case_match.
  - left. unfold update_claim. by repeat case_match.
Qed.

Lemma Append_inserts q rec : calls_only (inserts (row_of rec)) (Sqlite.Append q rec).
Proof.
  unfold Sqlite.Append. case_match; [done|].
  match goal with |- calls_only _ (mbind ?body (if _ then _ else _)) =>
    assert (Hins : ∀ rec', row_of rec (audit_params rec') → calls_only (inserts (row_of rec)) (body rec')) end.
  { intros rec' Hr. cbn. split; [done|]. intros r. repeat case_match; try done. cbn. split; [done|].
    intros r'. by repeat case_match. }
  destruct (IsZero (ar_RecordedAt rec)) eqn:Hz; [|apply Hins; by left].
  cbn. split; [done|]. intros now. apply Hins. right. apply bool_decide_eq_true in Hz. eauto.
Qed.

Section Audited.
Context {A : Type} `{AdapterSpec A}.
Context (q : string → string) (json_error : string → string) (cfg : config) (k : Keyring) (taskQueue : string).
Context (may_start : list run → StartWorkflowOptions → bool).
Context (error_string : decode_failure → string).
#[local] Instance audited_ops : StoreOps Db := sqlite_ops q json_error.
#[local] Instance audited_spec : StoreSpec Db := sqlite_spec q json_error.

Abbreviation sg_world g := (z_world (sg_sys g)).

(** A store call of an activity inserts the row of its own record. *)
Definition own_rows (o : ActOp) : audit_row → Prop :=
  match o with OpAuditAppend rec => row_of rec | _ => λ _, False end.

Lemma AppendDecision_inserts P rec : calls_only (inserts P) (Sqlite.AppendDecision json_error rec).
Proof. unfold Sqlite.AppendDecision, Sqlite.GetDecision. calls_only_tac. Qed.

Lemma sql_call_inserts o p : sql_call q json_error o = Some p → calls_only (inserts (own_rows o)) p.
Proof.
  destruct o; cbn [sql_call]; intros [= <-].
  - unfold Sqlite.GetDecision. calls_only_tac.
  - apply AppendDecision_inserts.
  - unfold Sqlite.ClaimExecution, Sqlite.GetClaim. calls_only_tac.
  - unfold Sqlite.AdvanceClaim. calls_only_tac.
  - unfold Sqlite.GetClaim. calls_only_tac.
  - apply Append_inserts.
Qed.

Lemma gate_sql_inserts o p : gate_sql json_error o = Some p → calls_only (inserts (λ _, False)) p.
Proof.
  destruct o; cbn [gate_sql]; intros Hp; try done; injection Hp as <-; [apply AppendDecision_inserts|..];
    unfold Sqlite.ListDecisionsByProposal, Sqlite.ListByProposal, Sqlite.Ping; calls_only_tac.
Qed.

(** ** Where the rows come from *)

Definition asked_audit (us : list run) (rec : AuditRecord) : Prop := ∃ i u n c,
  us !! i = Some u ∧ asked u !! n = Some (WfActivity c (ActRecordAuditTrail rec)).

Definition task_inserts (t : stask) : Prop :=
  match st_local t with Idle _ => True | Busy o _ p => calls_only (inserts (own_rows o)) p end.
Definition request_inserts (u : srequest) : Prop :=
  match sr_local u with Idle _ => True | Busy _ _ p => calls_only (inserts (λ _, False)) p end.

Record audit_inv (g : @sql_gateway A) : Prop := {
  au_rows : Forall (λ row, ∃ rec, asked_audit (sg_runs g) rec ∧ row_of rec row) (audit_records (w_store (sg_world g)));
  au_tasks : Forall task_inserts (z_tasks (sg_sys g));
  au_requests : Forall request_inserts (sg_requests g) }.

Lemma asked_audit_app us us' rec : asked_audit us rec → asked_audit (us ++ us') rec.
Proof. intros (i & u & n & c & Hi & Hn). exists i, u, n, c. split; [by apply lookup_app_l_Some|done]. Qed.

Lemma asked_audit_answered us i u o kont r rec : us !! i = Some u → u_prog u = Call o kont →
  asked_audit us rec → asked_audit (<[i := answered u o r (kont r)]> us) rec.
Proof.
  intros Hi Hp (j & u' & n & c & Hj & Hn). destruct (decide (i = j)) as [<-|Hne].
  - simplify_eq. exists i, (answered u o r (kont r)), n, c. split.
    + apply list_lookup_insert_eq. exact (lookup_lt_Some _ _ _ Hi).
    + by eapply prefix_lookup_Some, asked_answered.
  - exists j, u', n, c. by rewrite list_lookup_insert_ne.
Qed.

Lemma asked_audit_run ts us us' rec : run_step ts us us' → asked_audit us rec → asked_audit us' rec.
Proof. intros [] ?; by apply asked_audit_answered. Qed.

Lemma asked_audit_outside policy us o r us' rec : outside q may_start policy us o r us' → asked_audit us rec → asked_audit us' rec.
Proof. intros [] ?; try done. by apply asked_audit_app. Qed.

(** A statement of a call whose rows are of [P]. *)
Lemma answers_rows s so r s' (P Q : audit_row → Prop) : answers s so r s' → inserts P so → (∀ row, P row → Q row) →
  Forall Q (audit_records s) → Forall Q (audit_records s').
Proof.
  intros Ha Hp HPQ HQ. destruct (answers_audit _ _ _ _ Ha) as [->|(row & -> & _ & ->)]; [done|].
  apply Forall_app. split; [done|]. constructor; [|done]. by apply HPQ.
Qed.

Lemma own_record a rec : own_call a (OpAuditAppend rec) → a = ActRecordAuditTrail rec.
Proof. destruct a; cbn; try done. by intros ->. Qed.

(** What a task's own row is: a record its run asked for. *)
Lemma task_row_asked g i t o kont so ks row :
  dep_inv q (gw_dep (abs_gateway g)) → z_tasks (sg_sys g) !! i = Some t → st_local t = Busy o kont (Call so ks) →
  own_rows o row → ∃ rec, asked_audit (sg_runs g) rec ∧ row_of rec row.
Proof.
  intros [_ _ Ht _ _] Hi Hl Hrow. destruct o; try done. exists rec. split; [|done].
  pose proof (proj1 (Forall_lookup _ _) Ht i (abs_task t)) as Htask. cbn in Htask.
  destruct Htask as [(u & c & Hu & _ & Hask) _ Hcalls]; [by rewrite list_lookup_fmap, Hi|].
  cbn in Hcalls, Hask, Hu. rewrite Hl in Hcalls. destruct Hcalls as [Hown _].
  rewrite (own_record _ _ Hown) in Hask.
  by exists (st_run t), u, (st_seq t), c.
Qed.

Lemma task_move_audit g z' : audit_inv g → dep_inv q (gw_dep (abs_gateway g)) →
  task_move q json_error (sg_sys g) z' → audit_inv (set_sys g z').
Proof.
  intros [Hr Ht Hq] Hd Hm.
  assert (Hin : ∀ i t', task_inserts t' → Forall task_inserts (<[i := t']> (z_tasks (sg_sys g))))
    by (intros; by apply Forall_insert).
  remember (sg_sys g) as z eqn:Hz. destruct Hm as [z i t o kont r w' Hi Hl Hn Hsv|z i t o kont p Hi Hl Hp
    |z i t o kont so ks r db' Hi Hl Han|z i t o kont v Hi Hl]; subst z.
  - assert (Hst : audit_records (w_store w') = audit_records (w_store (sg_world g))).
    { destruct o; cbn in Hn; try done; serve_cases Hsv; done. }
    split; cbn; [by rewrite Hst|by apply Hin|done].
  - split; cbn; [done| |done]. apply Hin. by apply sql_call_inserts.
  - pose proof (proj1 (Forall_lookup _ _) Ht i t Hi) as Hti. unfold task_inserts in Hti. rewrite Hl in Hti.
    destruct Hti as [Hso Hks]. split; cbn; [|apply Hin; apply Hks|done].
    eapply answers_rows; [exact Han|exact Hso| |exact Hr]. intros row. by eapply task_row_asked.
  - split; cbn; [done|by apply Hin|done].
Qed.

Lemma sg_step_audit g g' : audit_inv g → dep_inv q (gw_dep (abs_gateway g)) →
  sg_step q json_error cfg k taskQueue may_start error_string g g' → audit_inv g'.
Proof.
  intros Hg Hd Hst. pose proof Hg as [Hr Ht Hq].
  assert (Hin : ∀ i u', request_inserts u' → Forall request_inserts (<[i := u']> (sg_requests g)))
    by (intros; by apply Forall_insert).
  assert (Hmono : ∀ us', (∀ rec, asked_audit (sg_runs g) rec → asked_audit us' rec) →
    Forall (λ row, ∃ rec, asked_audit us' rec ∧ row_of rec row) (audit_records (w_store (sg_world g)))).
  { intros us' Hus. eapply Forall_impl; [exact Hr|]. intros row (rec & ? & ?). exists rec. auto. }
  destruct Hst as [g method path apiKey body pooled|g p|g i u o kont r us' Hi Hl Hn Ho Hbe|g i u o kont p Hi Hl Hp
    |g i u o kont so ks r db' Hi Hl Han|g i u o kont v Hi Hl|g p|g i u c a kont Hi Hp|g z' Hm|g us' Hrun].
  - split; cbn; [done..|]. apply Forall_app. split; [done|]. by apply Forall_singleton.
  - by split.
  - split; cbn; [|done|by apply Hin]. apply Hmono. intros rec. by eapply asked_audit_outside.
  - split; cbn; [done..|]. apply Hin. by apply gate_sql_inserts.
  - pose proof (proj1 (Forall_lookup _ _) Hq i u Hi) as Hu. unfold request_inserts in Hu. rewrite Hl in Hu.
    destruct Hu as [Hso Hks]. split; cbn; [|done|apply Hin; apply Hks].
    eapply answers_rows; [exact Han|exact Hso|done|exact Hr].
  - split; cbn; [done..|]. by apply Hin.
  - by split.
  - split; cbn; [done| |done]. apply Forall_app. split; [done|]. by apply Forall_singleton.
  - by apply task_move_audit.
  - split; cbn; [|done..]. apply Hmono. intros rec. by eapply asked_audit_run.
Qed.

Lemma sg_reach_audit db a worker proxy g :
  db_inv db → adapter_inv a → settled_at_start db a → audit_records db = [] →
  rtc (sg_step q json_error cfg k taskQueue may_start error_string) (sg_opened db a worker proxy) g →
  audit_inv g ∧ dep_inv q (gw_dep (abs_gateway g)).
Proof.
  intros Hdb Ha Hst Hno Hr. assert (Hs : store_inv db) by exact Hdb.
  assert (H0' : sg_inv q json_error error_string (sg_opened db a worker proxy) ∧ audit_inv (sg_opened db a worker proxy) ∧
    dep_inv q (gw_dep (abs_gateway (sg_opened db a worker proxy)))).
  { split_and!; [by apply sg_opened_inv| |by apply started_inv]. split; cbn; [by rewrite Hno|constructor..]. }
  revert H0'. generalize (sg_opened db a worker proxy) Hr. clear Hr. intros g0 Hr.
  induction Hr as [g|g1 g2 g3 Hs1 _ IH]; intros (Hi & Hau & Hd); [done|]. apply IH. split_and!.
  - by eapply sg_step_inv.
  - by eapply sg_step_audit.
  - eapply dep_reach_inv; [exact Hd|]. eapply gw_steps_dep. by apply (sg_step_abs q json_error cfg k taskQueue may_start error_string).
Qed.

(** ** Record IDs are unique *)

Definition any_reply (o : WfOp) : WfReply o :=
  match o return WfReply o with
  | WfActivity _ _ => Err {| we_type := None; we_text := "" |}
  | WfSideEffect => Err {| we_type := None; we_text := "" |}
  | WfNow => zeroTime
  | WfSleep _ => None
  end.

(** What a run asked for is on a trace of it. *)
Lemma asked_trace u : reaches (SentryGateSagaWorkflow q (u_info u) (u_req u)) (u_trace u) (u_prog u) →
  ∃ tr p, reaches (SentryGateSagaWorkflow q (u_info u) (u_req u)) tr p ∧
    ∀ n o, asked u !! n = Some o → ∃ r, tr !! n = Some (ev o r).
Proof.
  intros Hr. unfold asked. destruct (u_prog u) as [res|o kont] eqn:Hp.
  - exists (u_trace u), (Ret res). split; [done|]. rewrite app_nil_r. intros n o Hn.
    apply list_lookup_fmap_Some in Hn as ([o' r] & -> & Hn). by exists r.
  - exists (u_trace u ++ [ev o (any_reply o)]), (kont (any_reply o)). split; [by apply reaches_snoc|].
    intros n o' Hn. apply lookup_app_Some in Hn as [Hn|[Hlen Hn]].
    + apply list_lookup_fmap_Some in Hn as ([o1 r] & -> & Hn). exists r. by apply lookup_app_l_Some.
    + rewrite length_fmap in Hlen, Hn. apply list_lookup_singleton_Some in Hn as [Hn <-]. exists (any_reply o).
      assert (n = length (u_trace u)) as -> by (unfold event in *; lia). by apply list_lookup_middle.
Qed.

(** Temporal's run IDs: UUIDs, so of one length, and never given twice. *)
Definition distinct_run_ids (us : list run) : Prop :=
  NoDup ((λ u, x_RunID (u_info u)) <$> us) ∧
  ∀ u u', u ∈ us → u' ∈ us → String.length (x_RunID (u_info u)) = String.length (x_RunID (u_info u')).

Lemma asked_audit_unique w us rec rec' : Forall (run_ok q w) us → distinct_run_ids us →
  asked_audit us rec → asked_audit us rec' → ar_RecordID rec = ar_RecordID rec' → rec = rec'.
Proof.
  intros Hok [Hnd Hlen] (i & u & n & c & Hi & Hn) (i' & u' & n' & c' & Hi' & Hn') Hid.
  rewrite Forall_lookup in Hok. destruct (Hok _ _ Hi) as [Hr _], (Hok _ _ Hi') as [Hr' _].
  destruct (asked_trace u Hr) as (tr & p & Htr & Hask), (asked_trace u' Hr') as (tr' & p' & Htr' & Hask').
  destruct (Hask _ _ Hn) as [r Hrn], (Hask' _ _ Hn') as [r' Hrn'].
  assert (E : x_RunID (u_info u) = x_RunID (u_info u')).
  { eapply audit_ids_of_runs; [exact Htr|exact Hrn|exact Htr'|exact Hrn'| |exact Hid].
    apply Hlen; by eapply list_elem_of_lookup_2. }
  assert (i = i') as <-.
  { eapply NoDup_lookup; [exact Hnd| |]; rewrite list_lookup_fmap; [by rewrite Hi|by rewrite Hi', E]. }
  assert (u' = u) as -> by congruence. clear Hrn' r' Hask' Htr' tr' p'. destruct (Hask _ _ Hn') as [r' Hrn'].
  destruct (Nat.lt_trichotomy n n') as [Hlt|[<-|Hlt]].
  - by destruct (audit_numbers_increase _ _ _ _ _ _ _ _ _ _ _ _ _ Htr Hlt Hrn Hrn').
  - congruence.
  - by destruct (audit_numbers_increase _ _ _ _ _ _ _ _ _ _ _ _ _ Htr Hlt Hrn' Hrn).
Qed.

(** C16: An audit append of the deployed gateway is never refused. However
    requests, runs, attempts and their statements interleave, a record that a
    run has asked to be recorded, when it is appended, again or for the first
    time, is accepted and its row is in the table afterwards: no other record,
    of this run or of another, has its ID. And every row of the table is the
    row of a record that some run asked for. *)
Theorem audit_appends_accepted db a worker proxy g rec now :
  db_inv db → adapter_inv a → settled_at_start db a → audit_records db = [] →
  rtc (sg_step q json_error cfg k taskQueue may_start error_string) (sg_opened db a worker proxy) g → distinct_run_ids (sg_runs g) →
  asked_audit (sg_runs g) rec → complete rec →
  let x := atomically CtxLive now (Sqlite.Append q rec) (w_store (sg_world g)) in
  x.2 = None ∧ audit_params rec ∈ audit_records x.1 ∧
  (x.1 = w_store (sg_world g) ∨
   audit_records x.1 = audit_records (w_store (sg_world g)) ++ [audit_params rec]) ∧
  (∀ row, row ∈ audit_records (w_store (sg_world g)) → ∃ rec', asked_audit (sg_runs g) rec' ∧ row_of rec' row).
Proof.
  intros Hdb Ha Hst Hno Hr Hids Hask Hc x.
  destruct (sg_reach_audit _ _ _ _ _ Hdb Ha Hst Hno Hr) as [[Hrows _ _] [_ _ _ Hruns _]].
  cbn in Hruns. rewrite Forall_forall in Hrows. subst x.
  destruct (row_with au_record_id (ar_RecordID rec) (audit_records (w_store (sg_world g)))) as [row|] eqn:E.
  - destruct (row_with_Some _ _ _ _ E) as [Hin Hid]. destruct (Hrows row Hin) as (rec' & Hask' & Hrow).
    assert (Hrid : au_record_id row = ar_RecordID rec') by (by destruct Hrow as [->|(_ & now' & ->)]).
    assert (rec' = rec) as -> by (eapply asked_audit_unique; [exact Hruns|exact Hids|exact Hask'|exact Hask|congruence]).
    assert (row = audit_params rec) as -> by (destruct Hrow as [|[Hz _]]; [done|by destruct Hc as (_ & _ & _ & ? & _)]).
    destruct (Append_taken q now rec _ _ Hc E) as (e & _ & ->).
    rewrite decide_True by apply scanAudit_params, Hc. split_and!; auto.
  - rewrite (Append_new q now rec _ Hc E). cbn. split_and!; [done|set_solver|by right|done].
Qed.
End Audited.

(** ** The audit trail of a sample request *)

Definition audit_op (o : WfOp) : option AuditRecord :=
  match o with WfActivity _ (ActRecordAuditTrail rec) => Some rec | _ => None end.

Lemma audit_op_asked us u tr n rec : u ∈ us → u_trace u = tr → ((projT1 <$> tr) !! n) ≫= audit_op = Some rec →
  asked_audit us rec.
Proof.
  intros (i & Hi)%list_elem_of_lookup <- Hn. destruct ((projT1 <$> u_trace u) !! n) as [o|] eqn:E; [|done]. cbn in Hn.
  destruct o as [c []| | |]; try done. injection Hn as ->. exists i, u, n, c. split; [done|]. by apply lookup_app_l_Some.
Qed.

Lemma one_run_id u : distinct_run_ids [u].
Proof. split; [apply NoDup_singleton|]. by intros v v' ->%list_elem_of_singleton ->%list_elem_of_singleton. Qed.

(** The eleventh request of the run: the record of the dispatch. *)
Abbreviation sample_audit := (((projT1 <$> sample_sql_play.2) !! 10%nat) ≫= audit_op).

Lemma sample_audit_complete : ∃ rec, sample_audit = Some rec ∧ complete rec ∧ ar_Phase rec = AuditPhaseDispatch.
Proof.
  assert (E : ∃ rec, sample_audit = Some rec) by (vm_compute; eexists; reflexivity).
  destruct E as [rec E]. exists rec. split; [exact E|]. vm_compute in E. injection E as <-. split; [|reflexivity].
  split_and!; [discriminate..|split; [intros E; discriminate E|reflexivity]].
Qed.

Lemma audit_appends_accepted_witness : ∃ rec, sample_audit = Some rec ∧ ar_Phase rec = AuditPhaseDispatch ∧
  let x := atomically CtxLive 5 (Sqlite.Append id rec) (w_store sample_sql_gateway) in
  x.2 = None ∧ audit_params rec ∈ audit_records x.1.
Proof.
  destruct sample_sql_reached as (g & u & Hg & Hw & Hus & Hinf & Htr).
  destruct sample_audit_complete as (rec & Erec & Hc & Hph).
  assert (Hask : asked_audit (sg_runs g) rec).
  { rewrite Hus. exact (audit_op_asked [u] u sample_sql_play.2 10 rec (list_elem_of_here _ _) Htr Erec). }
  assert (Hids : distinct_run_ids (sg_runs g)) by (rewrite Hus; apply one_run_id).
  exists rec. split; [exact Erec|]. split; [exact Hph|]. rewrite <- Hw.
  destruct (audit_appends_accepted id id full_config sample_keyring "sentrygate-saga" start_when_free (λ _, "") empty_db
    SimulatedAdapter.NewSimulatedAdapter (Some default_snapshot) (Some default_snapshot) g rec 5
    empty_db_inv simulated_inv_new empty_db_settled eq_refl Hg Hids Hask Hc) as (Hok & Hin & _).
  exact (conj Hok Hin).
Defined.
