(* ===== verification/Executed.v ===== *)
(** * Every allowed proposal can be executed

    In the deployed gateway of [SqlGateway], whatever has happened before: a
    proposal that both policies allow, posted with a configured key, is recorded
    when the services answer. If a run of its proposal ID is in flight it is
    answered 409 and not executed; otherwise it is accepted, and its workflow
    runs to the adapter and to the end that [Undisturbed] describes. No reachable
    state is a dead end, and none of the guards that the safety theorems rely on
    keeps an authorised proposal out. *)

From S2P Require Import Prelude GoBase GoText GoTime GoJson Contracts Policy Loader Auth Decision Proxy Handler Body Router.
From S2P Require Import Store AuditTrail Database Sqlite Grants Claims SqliteAudit Adapter Activities Startup Saga.
From S2P Require Import Protocol Traces Trail System Statements Deployment Undisturbed Gateway SqlGateway Audited.
Open Scope Z_scope.
Open Scope go_scope.

(** ** Fresh identifiers *)

(** A text longer than all of these. *)
Lemma longer (l : list string) : ∃ s, s ≠ "" ∧ ∀ x, x ∈ l → (String.length x < String.length s)%nat.
Proof.
  induction l as [|y l (s & Hs & Hl)]; [exists "a"; split; [done|]; by intros x ?%not_elem_of_nil|].
  exists ("a" +:+ y +:+ s). split; [done|]. intros x [->|Hx]%elem_of_cons; rewrite !string_length_append; cbn;
    [destruct s; cbn; [done|lia]|]. specialize (Hl x Hx). lia.
Qed.

Lemma row_with_longer {R} (key : R → string) id l :
  (∀ x, x ∈ key <$> l → (String.length x < String.length id)%nat) → row_with key id l = None.
Proof. intros Hl. apply row_with_None. intros Hin. specialize (Hl id Hin). lia. Qed.

(** ** Calls on the database, undisturbed *)

Definition timeless (so : SqlOp) : Prop := match so with TimeNow => False | _ => True end.

Lemma atomically_timeless {B} now now' (p : sql B) db : calls_only timeless p →
  atomically CtxLive now p db = atomically CtxLive now' p db.
Proof.
  revert db. induction p as [b|so ks IH]; intros db; [done|]. intros [Ho Hk]. unfold atomically. cbn [interp].
  assert (E : db_run CtxLive now db so = db_run CtxLive now' db so) by by destruct so.
  rewrite E. destruct (db_run CtxLive now' db so) as [db' r]. by apply IH.
Qed.

Lemma atomically_keeps_audit {B} now (p : sql B) db : calls_only (inserts (λ _, False)) p →
  audit_records (atomically CtxLive now p db).1 = audit_records db.
Proof.
  revert db. induction p as [b|so ks IH]; intros db; [done|]. intros [Ho Hk]. unfold atomically. cbn [interp].
  pose proof (answers_audit db so _ _ (ans_done db so CtxLive now)) as Ha.
  destruct (db_run CtxLive now db so) as [db' r]. cbn [fst] in Ha.
  etransitivity; [apply (IH r db' (Hk r))|]. destruct Ha as [Ha|(row & -> & _)]; [exact Ha|by destruct Ho].
Qed.

(** A record with a new ID is taken, whether it has a time or not. *)
Lemma Append_fresh q now rec db : ar_RecordID rec ≠ "" → ar_ProposalID rec ≠ "" → ar_Phase rec ≠ "" →
  row_with au_record_id (ar_RecordID rec) (audit_records db) = None →
  ∃ row, au_record_id row = ar_RecordID rec ∧
    atomically CtxLive now (Sqlite.Append q rec) db = (set_audit db (audit_records db ++ [row]), None).
Proof.
  intros Hid Hp Hph E. unfold Sqlite.Append. rewrite !bool_decide_false by done. cbn [orb].
  destruct (IsZero (ar_RecordedAt rec)); unfold atomically, query, op;
    cbn [mret prog_ret mbind prog_bind interp db_run ctx_Err db_exec insert_audit takes_ctx audit_params au_record_id
      Sqlite.with_time ar_RecordID];
    rewrite E; eexists; (split; [|reflexivity]); reflexivity.
Qed.

Section Executed.
Context {A : Type} `{AdapterSpec A}.
Context (q : string → string) (json_error : string → string) (k : Keyring) (taskQueue : string).
Context (may_start : list run → StartWorkflowOptions → bool).
Context (error_string : decode_failure → string).
#[local] Instance executed_ops : StoreOps Db := sqlite_ops q json_error.
#[local] Instance executed_spec : StoreSpec Db := sqlite_spec q json_error.
#[local] Instance executed_grants : StoreGrants Db := sqlite_grants q json_error.

Abbreviation sg_world g := (z_world (sg_sys g)).
Abbreviation act_live := (act_live (A:=A) q json_error).

Lemma sql_read {B} now (w : world Db A) (o : SqlOp) (f : SqlReply o → B) : (db_exec now (w_store w) o).1 = w_store w →
  on_sql now w (r ← query o; mret (f r)) = (w, (atomically CtxLive now (r ← query o; mret (f r)) (w_store w)).2).
Proof.
  intros E. unfold on_sql. cbn [fst snd]. f_equal. unfold atomically, query, op.
  cbn [mbind prog_bind interp mret prog_ret]. unfold db_run. cbn [ctx_Err].
  destruct (db_exec now (w_store w) o) as [db r]. cbn in *. subst db. by destruct w.
Qed.

Lemma AppendDecision_timeless rec : calls_only timeless (Sqlite.AppendDecision json_error rec).
Proof. unfold Sqlite.AppendDecision, Sqlite.GetDecision. calls_only_tac. Qed.
Lemma ClaimExecution_timeless d o t : calls_only timeless (Sqlite.ClaimExecution q d o t).
Proof. unfold Sqlite.ClaimExecution, Sqlite.GetClaim. calls_only_tac. Qed.
Lemma AdvanceClaim_timeless d o to t : calls_only timeless (Sqlite.AdvanceClaim d o to t).
Proof. unfold Sqlite.AdvanceClaim. calls_only_tac. Qed.

Lemma act_live_plain now info w o : match o with OpAuditAppend _ => False | _ => True end →
  act_live now info w o = serve_live now info w o.
Proof.
  intros Ho. unfold SqlGateway.act_live. destruct o; cbn [sql_call]; try done.
  - exact (sql_read now w (SelectDecision decisionID) _ eq_refl).
  - cbn. unfold on_sql. by rewrite (atomically_timeless now zeroTime _ _ (AppendDecision_timeless rec)).
  - cbn. unfold on_sql. by rewrite (atomically_timeless now zeroTime _ _ (ClaimExecution_timeless _ _ _)).
  - cbn. unfold on_sql. by rewrite (atomically_timeless now zeroTime _ _ (AdvanceClaim_timeless _ _ _ _)).
  - exact (sql_read now w (SelectClaim decisionID) _ eq_refl).
Qed.
(** ** The services are up *)

(** The audit table has no row of this run with a number above [n]. *)
Definition unaudited (info : execution) (req : ExecutionRequest) (n : Z) (db : Db) : Prop :=
  ∀ phase m, phase ∈ phases → n < m →
    row_with au_record_id (record_id (p_ID (prop req)) (x_RunID info) phase m) (audit_records db) = None.

Lemma unaudited_same info req n db db' : audit_records db' = audit_records db →
  unaudited info req n db → unaudited info req n db'.
Proof. unfold unaudited. by intros ->. Qed.

Lemma sql_services info req : services info req (λ now, act_live now info) (unaudited info req).
Proof.
  split.
  - intros now w o Ho. by apply act_live_plain.
  - intros now n w phase verdict detail Htr Hn Hph Hid.
    set (rec := newAuditRecord _ _ _ _ _ _ _ _ _).
    destruct (Append_fresh q now rec (w_store w)) as (row & Hrow & E).
    + unfold rec. cbn. by destruct (p_ID (prop req)).
    + done.
    + unfold phases in Hph. intros Hz. change (phase = "") in Hz. rewrite Hz in Hph. enum_in; done.
    + apply (Htr phase (n + 1) Hph). lia.
    + assert (Hnew : row_with au_record_id (au_record_id row) (audit_records (w_store w)) = None)
        by (rewrite Hrow; apply (Htr phase (n + 1) Hph); lia).
      eexists. split; [exact (f_equal (λ x, (set_store w x.1, x.2)) E)|]. split.
      * split_and!; [done|done|]. intros []. constructor; cbn; auto using NoDup_keys_snoc.
      * intros ph m Hph' Hm. cbn [fst audit_records set_audit]. rewrite row_with_app, Htr by (done || lia).
        unfold row_with. rewrite bool_decide_false; [done|]. rewrite Hrow.
        intros (_ & _ & _ & ?)%record_id_inj; [lia|done|done|lia|lia|done].
  - intros n rec s. apply unaudited_same. by apply atomically_keeps_audit, AppendDecision_inserts.
  - intros n d o t s. apply unaudited_same, atomically_keeps_audit.
    exact (sql_call_inserts q json_error (OpClaimExecution d o t) _ eq_refl).
  - intros n d o to t s. apply unaudited_same, atomically_keeps_audit.
    exact (sql_call_inserts q json_error (OpAdvanceClaim d o to t) _ eq_refl).
Qed.
(** ** The request *)

Abbreviation gate_sql_live := (gate_sql_live (A:=A) q json_error error_string).

Lemma decoder_runs {B} policy body random now (p : gate B) b : ∀ x,
  run_decoder (decode_answer maxBodyBytes error_string body) (extra_answer maxBodyBytes body) p = Some b →
  interp (gate_sql_live policy body random now) x p = (x, b).
Proof.
  induction p as [b'|o kont IH]; intros [w us]; cbn [run_decoder interp]; [by intros [= ->]|].
  destruct o; intros E; try discriminate E; exact (IH _ (w, us) E).
Qed.

Lemma decode_runs policy body random now x p : decode_body maxBodyBytes error_string body = Ok p →
  interp (gate_sql_live policy body random now) x (decodeProposal zeroProposal) = (x, Ok p).
Proof.
  intros E. apply decoder_runs. exact (decode_body_run maxBodyBytes error_string body p E).
Qed.

Lemma decoded_id body p : decode_body maxBodyBytes error_string body = Ok p → p_ID p ≠ "".
Proof.
  intros (_ & _ & Hid)%(proj1 (accepts_exactly maxBodyBytes error_string body p)) E. rewrite E in Hid.
  vm_compute in Hid. discriminate Hid.
Qed.

Lemma evaluate_runs policy body random now x agentID p :
  interp (gate_sql_live policy body random now) x (EvaluateThrottled agentID p) = (x, Ok (Evaluate policy agentID p)).
Proof. by destruct x. Qed.

Lemma append_runs policy body random now w us rec : DecisionRecord_Validate rec = None →
  db_decisions (w_store w) !! dr_DecisionID rec = None →
  gate_sql_live policy body random now (w, us) (GAppendDecision rec) =
  ((set_store w (set_decisions (w_store w) (decision_records (w_store w) ++ [decision_params rec])), us), None).
Proof.
  intros Hv Hn. exact (f_equal (λ y, ((set_store w y.1, us), y.2)) (sql_append_new json_error now rec (w_store w) Hv Hn)).
Qed.

Lemma ServeMux_intercept :
  ServeMux outer_mux "POST" ["v1"; "intercept"] = Handle Protected ∧
  ServeMux protected_mux "POST" ["v1"; "intercept"] = Handle RIntercept.
Proof. split; reflexivity. Qed.

Lemma ingress_valid agentID p d random trace now : d_Verdict d = VerdictAllow → p_ID p ≠ "" → now ≠ zeroTime →
  DecisionRecord_Validate (ingress_record agentID p d random trace now) = None.
Proof.
  intros Hv Hid Hnow. unfold DecisionRecord_Validate, ingress_record, IsZero, UTC.
  cbn [dr_DecisionID dr_Stage dr_ProposalID dr_Verdict dr_RequestHash dr_RecordedAt]. rewrite Hv.
  rewrite !bool_decide_false; first [done|apply RequestHash_nonempty].
Qed.

(** What an accepted request is answered. *)
Definition accepted (p : AgentProposal) (d : Contracts.Decision) (random : string) : response :=
  JSON StatusOK
    {| ir_Status := "accepted"; ir_Verdict := VerdictAllow; ir_Reasons := d_Reasons d;
       ir_DecisionID := NewDecisionID random; ir_ProposalID := p_ID p; ir_WorkflowID := workflowID_of p;
       ir_RunID := "run-" +:+ random;
       ir_Next := "GET /v1/decisions/" +:+ p_ID p +:+ " and /v1/audit/" +:+ p_ID p; ir_Error := "" |}.

(** What a request is answered while a run of its proposal ID is open. *)
Definition conflicting (p : AgentProposal) (d : Contracts.Decision) (random : string) : response :=
  JSON StatusConflict
    {| ir_Status := "not_executed"; ir_Verdict := VerdictAllow; ir_Reasons := d_Reasons d;
       ir_DecisionID := NewDecisionID random; ir_ProposalID := p_ID p; ir_WorkflowID := ""; ir_RunID := "";
       ir_Next := ""; ir_Error := "a workflow for this proposal id is already running; this request was not executed" |}.

Abbreviation started p random := {| x_ID := workflowID_of p; x_RunID := "run-" +:+ random |}.

Lemma post_runs policy apiKey agentID body p random now (w : world Db A) us :
  Resolve k apiKey = Some agentID → agentID ≠ "" → decode_body maxBodyBytes error_string body = Ok p →
  let d := Evaluate policy agentID p in
  let rec := ingress_record agentID p d random "" now in
  let req := execution_request agentID p rec in
  d_Verdict d = VerdictAllow → now ≠ zeroTime → db_decisions (w_store w) !! NewDecisionID random = None →
  interp (gate_sql_live policy body random now) (w, us) (handler_of k taskQueue "POST" ["v1"; "intercept"] apiKey None) =
  let w1 := set_store w (set_decisions (w_store w) (decision_records (w_store w) ++ [decision_params rec])) in
  match running us (workflowID_of p) with
  | Some _ => ((w1, us), Handle (conflicting p d random))
  | None => ((w1, us ++ [new_run q (started p random) req]), Handle (accepted p d random))
  end.
Proof.
  intros Hk Hag Hb d rec req Hv Hnow Hnew. unfold handler_of, serve_http. destruct ServeMux_intercept as [-> ->].
  cbn [routed]. unfold Middleware. rewrite Hk. cbn [routed protected]. rewrite interp_bind.
  unfold intercept. change (AgentIDFromContext (WithAgentID None agentID)) with
    (if agentID != "" then Some agentID else None). rewrite bool_decide_false by done. cbn [negb].
  rewrite interp_bind. change (AcquireProposal None) with zeroProposal. rewrite (decode_runs _ _ _ _ _ _ Hb).
  rewrite interp_bind, evaluate_runs. fold d. unfold gop, op. cbn [mbind prog_bind].
  assert (Hval : DecisionRecord_Validate rec = None) by (apply ingress_valid; [done|by eapply decoded_id|done]).
  do 3 (cbn [interp]; unfold SqlGateway.gate_sql_live at 1; cbn [gate_sql gate_live reply_to fst snd e_runs]).
  fold rec. cbn [interp]. rewrite (append_runs _ _ _ _ _ _ rec Hval Hnew).
  unfold answer_verdict. rewrite Hv.
  rewrite (bool_decide_false (VerdictAllow = VerdictDeny)), (bool_decide_false (VerdictAllow = VerdictRequireApproval)),
    (bool_decide_true (VerdictAllow = VerdictAllow)) by done. cbn [is_err negb]. unfold gop, op. cbn [mbind prog_bind interp].
  unfold SqlGateway.gate_sql_live at 1. cbn [gate_sql gate_live fst snd e_runs so_ID so_ErrorWhenAlreadyStarted].
  destruct (running us (workflowID_of p)); reflexivity.
Qed.
(** ** Ready to run *)

(** [rand.Text()] has not been seen before: no row has one of the IDs that are
    made with it. *)
Record unused (p : AgentProposal) (random : string) (db : Db) : Prop := {
  un_decision : db_decisions db !! NewDecisionID random = None;
  un_revalidation : db_decisions db !! ("wf_" +:+ workflowID_of p +:+ "_" +:+ "run-" +:+ random) = None;
  un_audit phase m : row_with au_record_id (record_id (p_ID p) ("run-" +:+ random) phase m) (audit_records db) = None }.

Lemma unused_exists p db : ∃ random, unused p random db.
Proof.
  destruct (longer ((de_decision_id <$> decision_records db) ++ (au_record_id <$> audit_records db))) as (s & _ & Hs).
  assert (Hd : ∀ d, (String.length s <= String.length d)%nat → db_decisions db !! d = None).
  { intros d Hd. rewrite SqliteFacts.lookup_db_decisions, row_with_longer; [done|].
    intros x Hx. eapply Nat.lt_le_trans; [apply Hs, elem_of_app; by left|exact Hd]. }
  exists s. split; [apply Hd; unfold NewDecisionID; rewrite !string_length_append; lia
    |apply Hd; rewrite !string_length_append; lia|].
  intros phase m. apply row_with_longer. intros x Hx.
  eapply Nat.lt_le_trans; [apply Hs, elem_of_app; by right|].
  unfold record_id. rewrite !string_length_append. lia.
Qed.

Lemma Evaluate_allow_reasons s agentID p : d_Verdict (Evaluate s agentID p) = VerdictAllow →
  Forall (λ r, ValidString r = true) (d_Reasons (Evaluate s agentID p)).
Proof.
  destruct s as [s|]; [|done]. unfold Evaluate. cbv zeta.
  destruct (0 <? _); [done|]. destruct (_ == ModeRequireApproval); [done|]. destruct (_ == ModeAllow); [|done].
  intros _. by repeat constructor.
Qed.

Lemma claims_recorded db d : db_inv db → db_decisions db !! d = None → db_claims db !! d = None.
Proof.
  intros Hdb. rewrite SqliteFacts.lookup_db_decisions, SqliteFacts.lookup_db_claims. intros Hd%fmap_None.
  destruct (row_with cl_decision_id d (execution_claims db)) as [r|] eqn:E; [|done].
  apply row_with_Some in E as [Hin Hk]. destruct (fk_claims _ Hdb r Hin) as [x Hx]. congruence.
Qed.

Section Accepted.
Context (policy : option Snapshot) (agentID : string) (p : AgentProposal) (random : string) (now : Time) (w : world Db A).
Let rec := ingress_record agentID p (Evaluate policy agentID p) random "" now.
Let req := execution_request agentID p rec.
Let w1 := set_store w (set_decisions (w_store w) (decision_records (w_store w) ++ [decision_params rec])).

(** The record is in the table afterwards, as it was made. *)
Lemma recorded_decision : unused p random (w_store w) → d_Verdict (Evaluate policy agentID p) = VerdictAllow →
  four_digit_year now →
  storable rec ∧ db_decisions (w_store w1) = <[dr_DecisionID rec := rec]> (db_decisions (w_store w)).
Proof.
  intros [Hnew _ _] Hv Hyear.
  assert (Hst : storable rec) by (split; [by apply Evaluate_allow_reasons|exact Hyear]). split; [done|].
  rewrite <- (stored_record_id rec Hst) at 2. apply (table_snoc de_decision_id row_decision).
  rewrite SqliteFacts.lookup_db_decisions in Hnew. by apply fmap_None in Hnew.
Qed.

(** The world the request leaves is ready for the run it started. *)
Lemma accepted_ready : db_inv (w_store w) → db_inv (w_store w1) → unused p random (w_store w) →
  d_Verdict (Evaluate policy agentID p) = VerdictAllow → d_Verdict (Evaluate (w_policy w) agentID p) = VerdictAllow →
  p_ID p ≠ "" → four_digit_year now → now ≠ zeroTime →
  ready (started p random) req (unaudited (started p random) req) w1 now.
Proof.
  intros Hdb Hdb1 Hun Hv Hv' Hid Hyear Hnow. destruct (recorded_decision Hun Hv Hyear) as [Hst Hdec].
  destruct Hun as [Hnew Hrev Hau].
  assert (Hval : DecisionRecord_Validate rec = None) by by apply ingress_valid.
  split.
  - exact Hdb1.
  - exists rec. change (decisions (w_store w1)) with (db_decisions (w_store w1)). rewrite Hdec, lookup_insert_eq.
    split; [done|]. by apply ingress_authorizes.
  - pose proof (sql_append_readable json_error now rec (w_store w) Hval Hnew Hst) as Hr.
    by rewrite sql_append_new in Hr.
  - intros c. change (claims (w_store w1)) with (db_claims (w_store w)).
    change (er_IngressDecisionID req) with (NewDecisionID random). by rewrite claims_recorded.
  - unfold Revalidate. rewrite bool_decide_true by done. exact Hv'.
  - change (decisions (w_store w1)) with (db_decisions (w_store w1)). rewrite Hdec, lookup_insert_ne by done. exact Hrev.
  - intros phase m _ _. apply Hau.
  - done.
  - exact Hnow.
Qed.
End Accepted.
(** ** From the POST to the end of the run *)

Abbreviation step := (sg_step (A:=A) q json_error worker_wiring k taskQueue may_start error_string).
Abbreviation sg_opened := (sg_opened (A:=A)).

(** A run that is ready runs to its conclusion. *)
Lemma ready_run_settles g i info req random now :
  sg_runs g !! i = Some (new_run q info req) → p_ID (prop req) ≠ "" → adapter_inv (w_adapter (sg_world g)) →
  ready info req (unaudited info req) (sg_world g) now →
  let x := settle req (w_adapter (sg_world g)) in
  let y := conclusion q req x.1 x.2 in
  ∃ g' u, rtc step g g' ∧ sg_runs g' = <[i := u]> (sg_runs g) ∧ u_info u = info ∧ u_req u = req ∧ u_prog u = Ret y.2 ∧
    w_adapter (sg_world g') = y.1 ∧ w_calls (sg_world g') = w_calls (sg_world g) ++ [(info, dreq req)] ∧
    (∃ n dec, stage info req random (unaudited info req) (final_state x.2) n dec (sg_world g) (sg_world g')) ∧
    (y.2 = WfCompleted ↔ oc_Status x.2 = OutcomeSuccess) ∧ true_of req (w_adapter (sg_world g')) x.2.
Proof.
  intros Hi Hid Ha Hr x y.
  destruct (run_runs q json_error worker_wiring k taskQueue may_start error_string random (SentryGateSagaWorkflow q info req)
    g i (new_run q info req) now Hi eq_refl) as (g' & u & Hg' & Hw & Hus & Hinf & Hreq & _ & Hend).
  cbn [u_info u_req new_run] in *.
  destruct (live_workflow q info req random _ _ (sql_services info req) Hid (sg_world g) now Hr)
    as (Hres & Had & Hcalls & n & Hst).
  set (z := interp (sql_temporal q json_error worker_wiring info random) (sg_world g, now) _) in *.
  change (interp (live q info random (λ now, act_live now info)) _ _) with z in *. rewrite <- Hw in Had, Hcalls, Hst.
  destruct (settle_true req (w_adapter (sg_world g)) Ha) as [Ha' Ht].
  exists g', u. split_and!; try done; [by rewrite Hend, Hres|by eauto| |].
  - apply conclusion_completed, settle_status.
  - rewrite Had. by apply conclusion_true.
Qed.

Hypothesis starts : starts_when_free may_start.

(** No two runs are open under one workflow ID. *)
Definition single_flight (us : list run) : Prop :=
  ∀ i j u v, us !! i = Some u → us !! j = Some v → is_open u = true → is_open v = true →
    x_ID (u_info u) = x_ID (u_info v) → i = j.

Lemma running_None us id u : running us id = None → u ∈ us → is_open u = true → x_ID (u_info u) ≠ id.
Proof.
  intros Hn Hu%list_elem_of_In Ho Hid. pose proof (List.find_none _ _ Hn u Hu) as Hf. cbn in Hf.
  by rewrite Ho, bool_decide_true in Hf.
Qed.

Lemma single_flight_start us u : single_flight us → running us (x_ID (u_info u)) = None → single_flight (us ++ [u]).
Proof.
  intros Hs Hn i j v w [[_ Hi]|[-> <-]]%lookup_snoc_Some [[_ Hj]|[-> <-]]%lookup_snoc_Some Hv Hw E; [by eapply Hs|..|done].
  - destruct (running_None us _ v Hn); [by eapply list_elem_of_lookup_2|done|done].
  - destruct (running_None us _ w Hn); [by eapply list_elem_of_lookup_2|done|done].
Qed.

Lemma single_flight_answered us i u u' : single_flight us → us !! i = Some u → is_open u = true →
  x_ID (u_info u') = x_ID (u_info u) → single_flight (<[i := u']> us).
Proof.
  intros Hs Hi Ho Hid. assert (Hold : ∀ j v, <[i := u']> us !! j = Some v → is_open v = true →
    ∃ w, us !! j = Some w ∧ is_open w = true ∧ x_ID (u_info w) = x_ID (u_info v)).
  { intros j v [(<- & <- & _)|[_ Hj]]%list_lookup_insert_Some Hv; eauto. }
  intros j k' v w Hj Hk Hv Hw E. destruct (Hold j v Hj Hv) as (v' & ? & ? & ?), (Hold k' w Hk Hw) as (w' & ? & ? & ?).
  eapply (Hs j k' v' w'); try done. congruence.
Qed.

Lemma step_single_flight g g' : step g g' → single_flight (sg_runs g) → single_flight (sg_runs g').
Proof using starts.
  intros Hst Hs. destruct Hst as [| |g i u o kont r us' _ _ _ Ho _| | | | | | |g us' Hrun]; try exact Hs.
  - destruct Ho as [|opts req rid r Hmay _| | |]; try exact Hs. apply single_flight_start; [exact Hs|]. by apply starts.
  - cbn. destruct Hrun as [i u c a kont v r Hi Hp _ _|i u c a kont e Hi Hp _|i u o kont r Hi Hp _];
      (eapply single_flight_answered; [exact Hs|exact Hi|unfold is_open; by rewrite Hp|done]).
Qed.

(** A POST that is allowed is recorded; its run is started unless one is open
    for its proposal ID. *)
Lemma request_recorded g apiKey agentID body p random now :
  Resolve k apiKey = Some agentID → agentID ≠ "" → decode_body maxBodyBytes error_string body = Ok p →
  let d := Evaluate (sg_policy g) agentID p in
  let rec := ingress_record agentID p d random "" now in
  d_Verdict d = VerdictAllow → now ≠ zeroTime → db_decisions (w_store (sg_world g)) !! NewDecisionID random = None →
  ∃ g' r, rtc step g g' ∧ sg_policy g' = sg_policy g ∧
    sg_world g' = set_store (sg_world g) (set_decisions (w_store (sg_world g))
                    (decision_records (w_store (sg_world g)) ++ [decision_params rec])) ∧
    sg_requests g' !! length (sg_requests g) = Some r ∧ sr_body r = body ∧
    match running (sg_runs g) (workflowID_of p) with
    | Some _ => sg_runs g' = sg_runs g ∧ sr_local r = Idle (Ret (Handle (conflicting p d random)))
    | None => sg_runs g' = sg_runs g ++ [new_run q (started p random) (execution_request agentID p rec)] ∧
              sr_local r = Idle (Ret (Handle (accepted p d random)))
    end.
Proof using starts.
  intros Hk Hag Hb d rec Hv Hnow Hnew.
  set (u0 := new_srequest k taskQueue "POST" ["v1"; "intercept"] apiKey body None).
  set (g0 := set_requests g (sg_requests g ++ [u0])).
  destruct (request_runs q json_error worker_wiring k taskQueue may_start error_string starts random now (length (sg_requests g))
      (handler_of k taskQueue "POST" ["v1"; "intercept"] apiKey None) g0 u0)
    as (g1 & r & Hg1 & Hpol & Hw1 & Hr1 & Hreq & Hbody & Hans); [by apply list_lookup_middle|reflexivity|].
  change (sr_body u0) with body in *.
  change (sg_world g0) with (sg_world g) in *. change (sg_runs g0) with (sg_runs g) in *.
  change (sg_policy g0) with (sg_policy g) in *.
  pose proof (post_runs (sg_policy g) apiKey agentID body p random now (sg_world g) (sg_runs g) Hk Hag Hb Hv Hnow Hnew) as E.
  rewrite E in Hw1, Hr1, Hans. exists g1, r. split_and!; try done; [eapply rtc_l; [apply sg_request|exact Hg1]|..].
  all: by destruct (running (sg_runs g) (workflowID_of p)).
Qed.

End Executed.

(** ** The sample proposal on a fresh database *)

Definition fresh_gateway : sql_gateway :=
  sg_opened empty_db SimulatedAdapter.NewSimulatedAdapter (Some default_snapshot) (Some default_snapshot).

Lemma fresh_unused p random : unused p random empty_db.
Proof. split; try apply lookup_empty. done. Qed.

Lemma sample_decoded :
  decode_body maxBodyBytes (λ _, "") (marshal_proposal (er_Proposal sample_request)) = Ok (er_Proposal sample_request).
Proof. vm_compute. reflexivity. Qed.

Abbreviation sample_step :=
  (sg_step id id worker_wiring sample_keyring "sentrygate-saga" start_when_free (λ _, "")).
Abbreviation sample_body := (marshal_proposal (er_Proposal sample_request)).
Abbreviation sample_decision := (Evaluate (Some default_snapshot) "agent-sim" (er_Proposal sample_request)).

(** The sample proposal has been accepted; its run has not begun. *)
Lemma sample_in_flight : ∃ g, rtc sample_step fresh_gateway g ∧
  sg_policy g = Some default_snapshot ∧ w_policy (z_world (sg_sys g)) = Some default_snapshot ∧
  unused (er_Proposal sample_request) "2" (w_store (z_world (sg_sys g))) ∧
  (x_RunID ∘ u_info) <$> running (sg_runs g) "saga-p-1" = Some "run-1".
Proof.
  destruct (request_recorded id id sample_keyring "sentrygate-saga" start_when_free (λ _, "") start_when_free_ok
    fresh_gateway "dev-secret-change-me" "agent-sim" sample_body (er_Proposal sample_request) "1" 1)
    as (g & r & Hg & Hpol & Hw & _ & _ & Hrun & _);
    [vm_compute; reflexivity|done|exact sample_decoded|vm_compute; reflexivity|done|done|].
  exists g. split_and!; [exact Hg|exact Hpol|by rewrite Hw| |rewrite Hrun; vm_compute; reflexivity].
  rewrite Hw. split; [vm_compute; reflexivity..|done].
Qed.

