(* ===== verification/AgentSim.v ===== *)
(** * cmd/agent-sim/main.go: the agent simulator

    The simulator is a program over its clock, its sleeps and its HTTP calls,
    whose bodies are bytes in both directions. It is executed below against the
    whole stack: the routes of the proxy, the handlers on the bytes it marshals
    and writing the bytes it reads, the SQLite store, the worker's activities, the
    workflow and the simulated adapter. Printing is left out; errors are the cases
    of their messages. *)

From S2P Require Import Prelude GoBase GoText GoTime Contracts Policy Config Loader Auth Decision Proxy Clients Handler Body.
From S2P Require Import Router Wire Store Database Sqlite Claims Adapter AuditTrail Activities Startup Saga Traces System Deployment.
Open Scope Z_scope.
Open Scope go_scope.

(** ** The scenarios *)

Record scenario := {
  sc_name : string; sc_title : string; sc_cmd : CommandType; sc_target : string; sc_payload : string;
  sc_wantStatus : Z; sc_wantVerd : Verdict;
  sc_wantPhase : AuditPhase; sc_wantPhaseVerdict : AuditVerdict }.

(** [`{"key":"value"}`]. *)
Definition json_pair (key value : string) : string :=
  let quoted s := String dquote s +:+ String dquote "" in "{" +:+ quoted key +:+ ":" +:+ quoted value +:+ "}".

Definition denied (name title cmd target payload : string) (verdict : Verdict) : scenario :=
  {| sc_name := name; sc_title := title; sc_cmd := cmd; sc_target := target; sc_payload := payload;
     sc_wantStatus := StatusForbidden; sc_wantVerd := verdict; sc_wantPhase := ""; sc_wantPhaseVerdict := "" |}.
Definition allowed (name title cmd target payload : string) (phase : AuditPhase) : scenario :=
  {| sc_name := name; sc_title := title; sc_cmd := cmd; sc_target := target; sc_payload := payload;
     sc_wantStatus := StatusOK; sc_wantVerd := VerdictAllow;
     sc_wantPhase := phase; sc_wantPhaseVerdict := AuditVerdictPass |}.

Definition scenarios : list scenario :=
  [ denied "protected-delete" "DENY: delete on protected ROOT_CORE_EDGE"
      CmdDeletePolicy RootCoreEdgeID (json_pair "reason" "cleanup") VerdictDeny;
    denied "protected-modify" "DENY: routing change on protected ROOT_CORE_EDGE"
      CmdModifyRouting RootCoreEdgeID (json_pair "route" "bypass") VerdictDeny;
    denied "unknown-command" "DENY: command not in the catalogue"
      "REBOOT_ALL" "edge-node-west-1" "{}" VerdictDeny;
    denied "unregistered-target" "DENY: target not in the registry"
      CmdModifyRouting "shadow-edge-9" (json_pair "route" "stable") VerdictDeny;
    denied "approval-required" "REQUIRE_APPROVAL: production change is not executed"
      CmdUpdateCert "prod-payments-edge" (json_pair "cert" "mock") VerdictRequireApproval;
    allowed "allowed" "ALLOW: staging routing change runs the workflow"
      CmdModifyRouting "edge-node-west-1" (json_pair "route" "stable") AuditPhaseWorkflowComplete;
    allowed "rollback" "ALLOW then simulated partial dispatch failure and compensation"
      CmdUpdateCert FailingNodeID (json_pair "cert" "mock") AuditPhaseCompensation;
    allowed "unknown-outcome" "ALLOW, simulated lost response (UNKNOWN), reconciliation confirms success"
      CmdModifyRouting LostResponseNodeID (json_pair "route" "stable") AuditPhaseReconciliation ].

(** ** What the simulator calls *)

Record sim := { s_base : string; s_apiKey : string; s_check : bool; s_wait : Duration }.

Inductive SimOp : Type :=
| SimNow
| SimSleep (d : Duration)
| SimDo (method base path apiKey : string) (body : option (list Z)).

(** The status code and the bytes of the body. *)
Definition SimReply (o : SimOp) : Type :=
  match o with
  | SimNow => Time
  | SimSleep _ => unit
  | SimDo _ _ _ _ _ => result string (Z * list Z)
  end.
Abbreviation agent := (prog SimOp SimReply) (only parsing).
Definition simop (o : SimOp) : agent (SimReply o) := op o.

Definition do (s : sim) (method path : string) (body : option (list Z)) : agent (result string (Z * list Z)) :=
  simop (SimDo method (s_base s) path (s_apiKey s) body).

Inductive sim_error :=
| TransportFailed (err : string)
| Unexpected (status : Z) (verdict : Verdict)
| NoDecisionID
| ListingFailed (status : Z)
| DecodeFailed
| NoIngressRecord (decisionID proposalID : string)
| PhaseNotRecorded (phase : AuditPhase) (verdict : AuditVerdict) (proposalID : string)
| WaitOutOfFuel.

(** ** checkDecision, waitForPhase, printAudit *)

Definition ingress_listed (decisionID : string) (want : Verdict) (recs : list DecisionRecord) : bool :=
  existsb (λ r, (dr_DecisionID r == decisionID) && (dr_Stage r == StageIngress) && (dr_Verdict r == want)) recs.

Definition checkDecision (s : sim) (proposalID decisionID : string) (want : Verdict) : agent (option sim_error) :=
  r ← do s "GET" ("/v1/decisions/" +:+ proposalID) None;
  match r with
  | Err err => mret (Some (TransportFailed err))
  | Ok (status, body) =>
      if status != StatusOK then mret (Some (ListingFailed status))
      else match unmarshal_decisions body with
           | None => mret (Some DecodeFailed)
           | Some recs => if ingress_listed decisionID want recs then mret None
                          else mret (Some (NoIngressRecord decisionID proposalID))
           end
  end.

(** The row that ends the wait. *)
Definition phase_listed (phase : AuditPhase) (verdict : AuditVerdict) (r : result string (Z * list Z)) : bool :=
  match r with
  | Ok (status, body) =>
      (status == StatusOK) &&
      match unmarshal_audit body with
      | Some recs => existsb (λ r, (ar_Phase r == phase) && (ar_Verdict r == verdict)) recs
      | None => false
      end
  | Err _ => false
  end.

Definition pollEvery : Duration := 500 * Millisecond.

Fixpoint wait_loop (fuel : nat) (s : sim) (proposalID : string) (phase : AuditPhase) (verdict : AuditVerdict)
    (deadline : Time) : agent (option sim_error) :=
  match fuel with
  | O => mret (Some WaitOutOfFuel)
  | S fuel =>
      now ← simop SimNow;
      if now <? deadline then
        r ← do s "GET" ("/v1/audit/" +:+ proposalID) None;
        if phase_listed phase verdict r then mret None
        else _ ← simop (SimSleep pollEvery); wait_loop fuel s proposalID phase verdict deadline
      else mret (Some (PhaseNotRecorded phase verdict proposalID))
  end.

(** One poll for each half second of the wait, and the last look at the clock. *)
Definition wait_fuel (wait : Duration) : nat := S (Z.to_nat ((wait + pollEvery - 1) / pollEvery)).

Definition waitForPhase (s : sim) (proposalID : string) (phase : AuditPhase) (verdict : AuditVerdict)
    : agent (option sim_error) :=
  now ← simop SimNow;
  wait_loop (wait_fuel (s_wait s)) s proposalID phase verdict (now + s_wait s).

Definition printAudit (s : sim) (proposalID : string) : agent unit :=
  _ ← do s "GET" ("/v1/audit/" +:+ proposalID) None; mret tt.

(** ** run and main *)

Definition proposal_of (sc : scenario) (now : Time) : AgentProposal :=
  {| p_ID := sc_name sc +:+ "-" +:+ pretty (UnixNano now); p_Type := sc_cmd sc;
     p_TargetID := sc_target sc; p_Payload := sc_payload sc |}.

Definition run (s : sim) (sc : scenario) : agent (option sim_error) :=
  now ← simop SimNow;
  let prop := proposal_of sc now in
  r ← do s "POST" "/v1/intercept" (Some (marshal_proposal prop));
  match r with
  | Err err => mret (Some (TransportFailed err))
  | Ok (status, body) =>
      let resp := unmarshal_response body in
      let verdict := cr_verdict resp in let decisionID := cr_decision_id resp in
      if negb (s_check s) then
        if (sc_wantPhase sc != "") && (status == StatusOK)
        then _ ← simop (SimSleep (3 * Second)); _ ← printAudit s (p_ID prop); mret None
        else mret None
      else if (status != sc_wantStatus sc) || (verdict != sc_wantVerd sc)
      then mret (Some (Unexpected status verdict))
      else if decisionID == "" then mret (Some NoDecisionID)
      else
        e ← checkDecision s (p_ID prop) decisionID (sc_wantVerd sc);
        match e with
        | Some err => mret (Some err)
        | None => if sc_wantPhase sc != ""
                  then waitForPhase s (p_ID prop) (sc_wantPhase sc) (sc_wantPhaseVerdict sc)
                  else mret None
        end
  end.

Fixpoint run_all (s : sim) (selected : list scenario) (failures : Z) : agent Z :=
  match selected with
  | [] => mret failures
  | sc :: selected =>
      e ← run s sc;
      run_all s selected (match e with Some _ => failures + 1 | None => failures end)
  end.

Definition select (name : string) : list scenario :=
  List.filter (λ sc, (name == "all") || (sc_name sc == name)) scenarios.

(** The exit code, given the flags and the arguments after them. *)
Definition agent_sim_main (env : gmap string string) (check : bool) (wait : Duration) (args : list string) : agent Z :=
  match select (default "all" (head args)) with
  | [] => mret 2
  | selected =>
      let s := {| s_base := envOr env "SENTRYGATE_URL" "http://localhost:8080";
                  s_apiKey := envOr env "SENTRYGATE_API_KEY" "dev-secret-change-me";
                  s_check := check; s_wait := wait |} in
      failures ← run_all s selected 0;
      if check && (0 <? failures) then mret 1 else mret 0
  end.

(** ** The wait ends *)

(** A clock that never runs backwards and that a sleep advances. *)
Definition sim_clock (t : Time) (o : SimOp) : SimReply o → option Time :=
  match o return SimReply o → option Time with
  | SimNow => λ now, if t <=? now then Some now else None
  | SimSleep d => λ _, Some (t + d)
  | SimDo _ _ _ _ _ => λ _, Some t
  end.

Lemma wait_loop_S fuel s id phase verdict deadline :
  wait_loop (S fuel) s id phase verdict deadline =
    Call SimNow (λ now,
      if now <? deadline then
        Call (SimDo "GET" (s_base s) ("/v1/audit/" +:+ id) (s_apiKey s) None) (λ r,
          if phase_listed phase verdict r then Ret None
          else Call (SimSleep pollEvery) (λ _, wait_loop fuel s id phase verdict deadline))
      else Ret (Some (PhaseNotRecorded phase verdict id))).
Proof. reflexivity. Qed.

Lemma wait_loop_ends s id phase verdict deadline fuel : ∀ t,
  deadline - t <= Z.of_nat fuel * pollEvery →
  under sim_clock t (wait_loop (S fuel) s id phase verdict deadline) (λ r _, r ≠ Some WaitOutOfFuel).
Proof.
  induction fuel as [|fuel IH]; intros t Ht; rewrite wait_loop_S; intros now t' Hnow; cbn in Hnow;
    destruct (t <=? now) eqn:Hle; simplify_eq; apply Z.leb_le in Hle;
    (destruct (t' <? deadline) eqn:Hd; [apply Z.ltb_lt in Hd|done]); [lia|].
  intros r t1 [= <-]. destruct (phase_listed phase verdict r); [done|].
  intros [] t2 [= <-]. apply IH. unfold pollEvery in *. lia.
Qed.

Lemma waitForPhase_ends s id phase verdict t :
  under sim_clock t (waitForPhase s id phase verdict) (λ r _, r ≠ Some WaitOutOfFuel).
Proof.
  intros now t' Hnow. cbn in Hnow. case_match; simplify_eq. apply wait_loop_ends.
  unfold pollEvery. change (500 * Millisecond) with 500000000.
  destruct (Z_le_gt_dec (s_wait s) 0) as [Hw|Hw].
  - lia.
  - rewrite Z2Nat.id by (apply Z.div_pos; lia).
    pose proof (Z.div_mod (s_wait s + 500000000 - 1) 500000000 ltac:(lia)).
    pose proof (Z.mod_pos_bound (s_wait s + 500000000 - 1) 500000000 ltac:(lia)). lia.
Qed.

Lemma checkDecision_ends s id d want t :
  under sim_clock t (checkDecision s id d want) (λ r _, r ≠ Some WaitOutOfFuel).
Proof.
  unfold checkDecision. apply under_bind, under_any. intros [[st b]|err] t'; [|by cbn].
  repeat (case_match; try by cbn).
Qed.

Lemma run_ends s sc t : under sim_clock t (run s sc) (λ r _, r ≠ Some WaitOutOfFuel).
Proof.
  unfold run. apply under_bind, under_any. intros now t1. apply under_bind, under_any.
  intros [[status body]|err] t2; [|by cbn]. cbv zeta.
  destruct (negb (s_check s)).
  { destruct (_ && _); [|by cbn]. do 2 (apply under_bind, under_any; intros). by cbn. }
  destruct (_ || _); [by cbn|]. case_bool_decide; [by cbn|]. apply under_bind.
  eapply under_mono; [apply checkDecision_ends|]. intros [e|] t3 He; [done|].
  destruct (sc_wantPhase sc != ""); [apply waitForPhase_ends|by cbn].
Qed.

(** ** What a passed check establishes *)

(** The monitor that keeps the trace. *)
Definition keep (tr : list (event SimReply)) (o : SimOp) (r : SimReply o) : option (list (event SimReply)) :=
  Some (tr ++ [ev o r]).

Lemma monitor_keep tr0 tr : monitor keep tr0 tr = Some (tr0 ++ tr).
Proof.
  revert tr0. induction tr as [|[o r] tr IH]; intros tr0; cbn; [by rewrite app_nil_r|].
  rewrite IH. by rewrite <- app_assoc.
Qed.

(** The answer to a request of this simulator, somewhere in the trace. *)
Definition was_answered (s : sim) (method path : string) (body : option (list Z))
    (r : Z * list Z) (tr : list (event SimReply)) : Prop :=
  ev (Reply:=SimReply) (SimDo method (s_base s) path (s_apiKey s) body) (Ok r) ∈ tr.

(** What the simulator has seen of a scenario that passes. *)
Record observed (s : sim) (sc : scenario) (prop : AgentProposal) (tr : list (event SimReply)) : Prop := {
  ob_decided : ∃ body, was_answered s "POST" "/v1/intercept" (Some (marshal_proposal prop)) (sc_wantStatus sc, body) tr ∧
    let resp := unmarshal_response body in cr_verdict resp = sc_wantVerd sc ∧ cr_decision_id resp ≠ "" ∧
    ∃ list_body recs rec, was_answered s "GET" ("/v1/decisions/" +:+ p_ID prop) None (StatusOK, list_body) tr ∧
      unmarshal_decisions list_body = Some recs ∧ rec ∈ recs ∧
      dr_DecisionID rec = cr_decision_id resp ∧ dr_Stage rec = StageIngress ∧ dr_Verdict rec = sc_wantVerd sc;
  ob_phase : sc_wantPhase sc ≠ "" →
    ∃ body recs row, was_answered s "GET" ("/v1/audit/" +:+ p_ID prop) None (StatusOK, body) tr ∧
      unmarshal_audit body = Some recs ∧ row ∈ recs ∧
      ar_Phase row = sc_wantPhase sc ∧ ar_Verdict row = sc_wantPhaseVerdict sc }.

Lemma was_answered_app s m p b r tr tr' : was_answered s m p b r tr → was_answered s m p b r (tr ++ tr').
Proof. intros. apply elem_of_app. by left. Qed.
Lemma was_answered_last s m p b r tr :
  was_answered s m p b r (tr ++ [ev (Reply:=SimReply) (SimDo m (s_base s) p (s_apiKey s) b) (Ok r)]).
Proof. apply elem_of_app. right. apply list_elem_of_here. Qed.

Lemma existsb_elem {X} (f : X → bool) l : existsb f l = true → ∃ x, x ∈ l ∧ f x = true.
Proof. intros (x & Hx & Hf)%List.existsb_exists. exists x. by rewrite list_elem_of_In. Qed.

Lemma ingress_listed_rec d want recs : ingress_listed d want recs = true →
  ∃ rec, rec ∈ recs ∧ dr_DecisionID rec = d ∧ dr_Stage rec = StageIngress ∧ dr_Verdict rec = want.
Proof.
  intros (rec & Hin & Hf)%existsb_elem. exists rec. revert Hf. repeat case_bool_decide; naive_solver.
Qed.

(** An audit listing that ends the wait. *)
Definition phase_seen (s : sim) (id phase verdict : string) (tr : list (event SimReply)) : Prop :=
  ∃ body recs row, was_answered s "GET" ("/v1/audit/" +:+ id) None (StatusOK, body) tr ∧
    unmarshal_audit body = Some recs ∧ row ∈ recs ∧ ar_Phase row = phase ∧ ar_Verdict row = verdict.

Lemma phase_listed_seen s id phase verdict r tr : phase_listed phase verdict r = true →
  phase_seen s id phase verdict (tr ++ [ev (Reply:=SimReply) (SimDo "GET" (s_base s) ("/v1/audit/" +:+ id) (s_apiKey s) None) r]).
Proof.
  unfold phase_listed. destruct r as [[status body]|]; [|done].
  case_bool_decide; [|done]. destruct (unmarshal_audit body) as [recs|] eqn:Hb; [|done].
  intros (row & Hin & Hf)%existsb_elem. subst status. exists body, recs, row. split; [apply was_answered_last|].
  revert Hf. repeat case_bool_decide; naive_solver.
Qed.

Lemma wait_loop_seen s id phase verdict deadline fuel : ∀ tr0,
  guarded keep tr0 (wait_loop fuel s id phase verdict deadline)
    (λ r tr, (∃ tr', tr = tr0 ++ tr') ∧ (r = None → phase_seen s id phase verdict tr)).
Proof.
  induction fuel as [|fuel IH]; intros tr0; [split; [exists []; by rewrite app_nil_r|done]|].
  rewrite wait_loop_S. intros now. cbn [keep]. destruct (now <? deadline); [|split; [by eexists|done]].
  intros r. cbn [keep]. destruct (phase_listed phase verdict r) eqn:Hp.
  - split; [rewrite <- app_assoc; by eexists|]. intros _. by apply phase_listed_seen.
  - intros []. cbn [keep]. eapply guarded_mono; [apply IH|]. intros e tr [(tr' & ->) Hs].
    split; [rewrite <- !app_assoc; by eexists|done].
Qed.

Lemma checkDecision_seen s id d want tr0 :
  guarded keep tr0 (checkDecision s id d want)
    (λ r tr, (∃ tr', tr = tr0 ++ tr') ∧ (r = None →
       ∃ body recs rec, was_answered s "GET" ("/v1/decisions/" +:+ id) None (StatusOK, body) tr ∧
         unmarshal_decisions body = Some recs ∧ rec ∈ recs ∧
         dr_DecisionID rec = d ∧ dr_Stage rec = StageIngress ∧ dr_Verdict rec = want)).
Proof.
  apply guarded_bind. intros r. cbn [keep]. destruct r as [[status body]|err]; [|split; [by eexists|done]].
  cbn beta iota delta [guarded mret prog_ret]. fold (@guarded SimOp SimReply).
  case_bool_decide; cbn [negb]; [subst|split; [by eexists|done]].
  destruct (unmarshal_decisions body) as [recs|] eqn:Hb; [|split; [by eexists|done]].
  destruct (ingress_listed d want recs) eqn:Hl; (split; [by eexists|]); [|done].
  intros _. apply ingress_listed_rec in Hl as (rec & Hrec). exists body, recs, rec.
  split; [apply was_answered_last|done].
Qed.

Lemma run_seen s sc : s_check s = true →
  guarded keep [] (run s sc) (λ r tr, r = None → ∃ now, observed s sc (proposal_of sc now) tr).
Proof.
  intros Hcheck. unfold run. intros now. apply guarded_bind. intros r. cbn [keep].
  destruct r as [[status body]|err]; [|done]. cbn [guarded]. cbv zeta.
  rewrite Hcheck. cbn [negb]. do 3 (case_bool_decide; cbn [negb orb]; try done).
  apply guarded_bind. eapply guarded_mono; [apply checkDecision_seen|].
  intros [err|] tr [(tr' & ->) Hd]; [done|]. specialize (Hd eq_refl) as (lb & recs & rec & Ha & Hrec).
  assert (Hp : was_answered s "POST" "/v1/intercept" (Some (marshal_proposal (proposal_of sc now))) (sc_wantStatus sc, body)
    (([ev (Reply:=SimReply) SimNow now] ++ [ev (Reply:=SimReply) (SimDo "POST" (s_base s) "/v1/intercept" (s_apiKey s) (Some (marshal_proposal (proposal_of sc now)))) (Ok (status, body))]) ++ tr')).
  { subst status. apply was_answered_app, was_answered_last. }
  case_bool_decide as Hw; cbn [negb].
  - intros _. exists now. split; [|done]. exists body. split; [done|]. cbv zeta. split_and!; [done..|]. by exists lb, recs, rec.
  - intros now2. cbn [keep]. eapply guarded_mono; [apply wait_loop_seen|].
    intros e tr [(tr2 & ->) Hs] He. specialize (Hs He). exists now. split; [|done].
    exists body. split; [by apply was_answered_app, was_answered_app|]. cbv zeta. split_and!; [done..|].
    exists lb, recs, rec. split; [by apply was_answered_app, was_answered_app|done].
Qed.

(** A checked scenario is passed only on evidence, and every check ends. *)
Lemma run_check_sound s sc t tr t' res :
  s_check s = true → reaches (run s sc) tr (Ret res) → monitor sim_clock t tr = Some t' →
  res ≠ Some WaitOutOfFuel ∧ (res = None → ∃ now, observed s sc (proposal_of sc now) tr).
Proof.
  intros Hc Hr Hm. split; [exact (under_reaches _ _ _ _ _ _ _ (run_ends s sc t) Hr Hm)|].
  destruct (guarded_reaches _ _ _ _ _ _ (run_seen s sc Hc) Hr) as (tr1 & Hk & HQ).
  rewrite monitor_keep in Hk. injection Hk as <-. exact HQ.
Qed.

Lemma observed_app s sc prop tr1 tr2 : observed s sc prop tr1 ∨ observed s sc prop tr2 → observed s sc prop (tr1 ++ tr2).
Proof.
  assert (Hin : ∀ e, e ∈ tr1 ∨ e ∈ tr2 → e ∈ tr1 ++ tr2) by (intros e; apply elem_of_app).
  intros [Ho|Ho]; destruct Ho as [(body & Hb & Hv & Hd & lb & recs & rec & Hl & Hrec) Hp]; split.
  1,3: exists body; split; [unfold was_answered in *; auto|]; cbv zeta; split_and!; [done..|];
    exists lb, recs, rec; split; [unfold was_answered in *; auto|done].
  all: intros Hw; destruct (Hp Hw) as (b & rs & row & Ha & Hrow); exists b, rs, row; unfold was_answered in *; auto.
Qed.

(** The number of scenarios that failed, and what was seen of the others. *)
Lemma run_all_counts s t' selected : s_check s = true → ∀ failures t tr n,
  reaches (run_all s selected failures) tr (Ret n) → monitor sim_clock t tr = Some t' →
  failures <= n ∧
  (n = failures → ∀ sc, sc ∈ selected → ∃ now, observed s sc (proposal_of sc now) tr) ∧
  (n ≠ failures → ∃ sc e tr', sc ∈ selected ∧ e ≠ WaitOutOfFuel ∧ reaches (run s sc) tr' (Ret (Some e)) ∧
     ∃ tr1 tr2, tr = tr1 ++ tr' ++ tr2).
Proof.
  intros Hc. induction selected as [|sc selected IH]; intros failures t tr n Hr Hm.
  { apply reaches_inv in Hr. destruct tr; [|done]. injection Hr as ->. split_and!; [lia|by intros _ sc ?%not_elem_of_nil|done]. }
  apply reaches_bind_Ret in Hr as (tr1 & tr2 & e & -> & H1 & H2). rewrite monitor_app in Hm.
  destruct (monitor sim_clock t tr1) as [t1|] eqn:Em; [|done]. cbn in Hm.
  destruct (run_check_sound s sc t tr1 t1 e Hc H1 Em) as [Hfuel Hobs].
  destruct (IH _ _ _ _ H2 Hm) as (Hle & Hpass & Hfail). destruct e as [e|].
  - split_and!; [lia|lia|]. intros _. exists sc, e, tr1. split_and!; [by left|congruence|done|by exists [], tr2].
  - split_and!; [lia| |].
    + intros En sc' [->|Hin]%elem_of_cons.
      * destruct (Hobs eq_refl) as [now Ho]. exists now. apply observed_app. by left.
      * destruct (Hpass En sc' Hin) as [now Ho]. exists now. apply observed_app. by right.
    + intros Hne. destruct (Hfail Hne) as (sc' & e & tr' & Hin & He & Hr & a & b & ->). exists sc', e, tr'.
      split_and!; [by right|done|done|]. exists (tr1 ++ a), b. by rewrite app_assoc.
Qed.

Definition sim_of (env : gmap string string) (check : bool) (wait : Duration) : sim :=
  {| s_base := envOr env "SENTRYGATE_URL" "http://localhost:8080";
     s_apiKey := envOr env "SENTRYGATE_API_KEY" "dev-secret-change-me"; s_check := check; s_wait := wait |}.

(** C21: The exit code of [agent-sim -check] is the truth. Whatever the server
    answers, the program exits with 2 exactly when no scenario has the given
    name, and then sends nothing. It exits with 0 only if every selected
    scenario was observed: the proxy answered the scenario's proposal with the
    wanted status and verdict, listed an INGRESS record with the returned
    decision ID and that verdict and, where a phase is wanted, an audit listing
    contained it with the wanted verdict. It exits with 1 only if some selected
    scenario failed, and on a clock that advances with the sleeps the failure
    is never that the polling was cut short by its bound. *)
Theorem check_exit_code env wait args t tr t' code :
  let selected := select (default "all" (head args)) in
  let s := sim_of env true wait in
  reaches (agent_sim_main env true wait args) tr (Ret code) → monitor sim_clock t tr = Some t' →
  (code = 2 ∧ selected = [] ∧ tr = []) ∨
  (code = 0 ∧ selected ≠ [] ∧ ∀ sc, sc ∈ selected → ∃ now, observed s sc (proposal_of sc now) tr) ∨
  (code = 1 ∧ ∃ sc e tr', sc ∈ selected ∧ e ≠ WaitOutOfFuel ∧ reaches (run s sc) tr' (Ret (Some e)) ∧
     ∃ tr1 tr2, tr = tr1 ++ tr' ++ tr2).
Proof.
  intros selected s Hr Hm. unfold agent_sim_main in Hr. fold selected in Hr.
  assert (Hs : selected = [] ∨ selected ≠ []) by (destruct selected; auto). destruct Hs as [Hs|Hs].
  { left. rewrite Hs in Hr. apply reaches_inv in Hr. destruct tr; [|done]. by injection Hr as ->. }
  right. assert (Hr' : reaches (failures ← run_all s selected 0; if 0 <? failures then mret 1 else mret 0) tr (Ret code))
    by by destruct selected.
  clear Hr. apply reaches_bind_Ret in Hr' as (tr1 & tr2 & n & -> & H1 & H2).
  assert (Htr2 : tr2 = [] ∧ code = if 0 <? n then 1 else 0).
  { destruct (0 <? n); apply reaches_inv in H2; destruct tr2; try done; by injection H2 as ->. }
  destruct Htr2 as [-> ->]. rewrite app_nil_r in *.
  destruct (run_all_counts s t' selected eq_refl _ _ _ _ H1 Hm) as (Hle & Hpass & Hfail).
  destruct (0 <? n) eqn:En; [apply Z.ltb_lt in En; right; split; [done|]; apply Hfail; lia|].
  apply Z.ltb_ge in En. left. split_and!; [done|done|]. apply Hpass. lia.
Qed.

(** ** The stack the simulator talks to

    One database for decisions, claims and audit rows, as both processes open
    it; a worker that takes up the started workflows while the simulator sleeps. *)

#[local] Instance stack_ops : StoreOps Db := sqlite_ops id id.
#[local] Instance stack_spec : StoreSpec Db := sqlite_spec id id.

Record stack := {
  k_world : world Db SimulatedAdapter.t;
  k_now : Time;
  k_started : list (execution * ExecutionRequest);
  k_count : nat                         (* for IDs *) }.

Definition set_world (k : stack) (w : world Db SimulatedAdapter.t) : stack :=
  {| k_world := w; k_now := k_now k; k_started := k_started k; k_count := k_count k |}.
Definition next (k : stack) : stack :=
  {| k_world := k_world k; k_now := k_now k; k_started := k_started k; k_count := k_count k + 1 |}.

Definition on_db {B} (k : stack) (p : sql B) : stack * B :=
  let x := atomically CtxLive (k_now k) p (w_store (k_world k)) in (set_world k (set_store (k_world k) x.1), x.2).

(** The services of the proxy. *)
Definition serve_proxy (body : option (list Z)) (k : stack) (o : GateOp) : stack * GateReply o :=
  match o return stack * GateReply o with
  | GCtxErr | GAcquireSlot => (k, None)
  | GReleaseSlot => (k, tt)
  | GCurrent => (k, w_policy (k_world k))
  | GDecode into => (k, decode_answer maxBodyBytes (λ _, "") (default [] body) into)
  | GDecodeExtra => (k, extra_answer maxBodyBytes (default [] body))
  | GRandom => (next k, pretty (k_count k))
  | GTraceID => (k, "")
  | GNow => (k, k_now k)
  | GAppendDecision rec => on_db k (Sqlite.AppendDecision id rec)
  | GExecuteWorkflow opts req =>
      if bool_decide (so_ID opts ∈ (λ e, x_ID e.1) <$> k_started k) then (k, Err AlreadyStarted)
      else let info := {| x_ID := so_ID opts; x_RunID := "run-" +:+ pretty (k_count k) |} in
           ({| k_world := k_world k; k_now := k_now k; k_started := k_started k ++ [(info, req)]; k_count := k_count k + 1 |},
            Ok (x_ID info, x_RunID info))
  | GListDecisions id' => on_db k (Sqlite.ListDecisionsByProposal id id')
  | GListAudit id' => on_db k (Sqlite.ListByProposal id')
  | GPolicyStatus => (k, {| st_Version := s_version default_snapshot; st_Digest := s_digest default_snapshot;
                            st_LoadedAt := k_now k; st_MaxParallelTasks := s_maxParallelTasks default_snapshot;
                            st_ReloadStatus := "ok"; st_LastReloadError := ""; st_LastReloadErrorAt := None |})
  | GPing => on_db k Sqlite.Ping
  end.

(** The services of an activity: those of [serve_live], and the audit rows. *)
Definition serve_worker (info : execution) (k : stack) (o : ActOp) : stack * ActOpReply o :=
  match o return stack * ActOpReply o with
  | OpAuditAppend rec => on_db k (Sqlite.Append id rec)
  | o => let x := serve_live (k_now k) info (k_world k) o in (set_world k x.1, x.2)
  end.

Definition serve_workflow (info : execution) (k : stack) (o : WfOp) : stack * WfReply o :=
  match o return stack * WfReply o with
  | WfActivity c a => let x := interp (serve_worker info) k (activity id worker_wiring info a) in (x.1, wf_value id x.2)
  | WfSideEffect => (next k, Ok (pretty (k_count k)))
  | WfNow => (k, k_now k)
  | WfSleep d => ({| k_world := k_world k; k_now := k_now k + d; k_started := k_started k; k_count := k_count k |}, None)
  end.

(** The worker runs what has been started. *)
Definition run_started (k : stack) : stack :=
  foldl (λ k e, (interp (serve_workflow e.1) k (SentryGateSagaWorkflow id e.1 e.2)).1)
    {| k_world := k_world k; k_now := k_now k; k_started := []; k_count := k_count k |} (k_started k).

Definition written (r : mux_result response) : result string (Z * list Z) :=
  match r with
  | Handle r => Ok (code_of r, response_body r)
  | MethodNotAllowed => Ok (405, http_Error "Method Not Allowed")
  | NotFound => Ok (404, http_Error "404 page not found")
  | Redirect _ => Err "redirected"
  end.

Definition serve_sim (keyring : Keyring) (k : stack) (o : SimOp) : stack * SimReply o :=
  match o return stack * SimReply o with
  | SimNow => (k, k_now k)
  | SimSleep d =>
      let k := run_started k in
      ({| k_world := k_world k; k_now := k_now k + d; k_started := k_started k; k_count := k_count k |}, tt)
  | SimDo method _ path apiKey body =>
      let x := interp (serve_proxy body) k (serve_http keyring "sentrygate-saga" None method (path_segments path) apiKey) in
      (x.1, written x.2)
  end.

(** A fresh database under the shipped policy, and the key the simulator uses. *)
Definition fresh_stack : stack :=
  {| k_world := y_world (idle empty_db SimulatedAdapter.NewSimulatedAdapter (Some default_snapshot));
     k_now := unixEpoch + 1790000000 * Second; k_started := []; k_count := 1 |}.
Definition stack_keyring : Keyring :=
  match ParseAgentKeys "agent-sim:dev-secret-change-me" with Ok k => k | Err _ => {| k_entries := [] |} end.

Definition simulate (env : gmap string string) (args : list string) : stack * Z :=
  interp (serve_sim stack_keyring) fresh_stack (agent_sim_main env true (30 * Second) args).

(** The targets of the calls on the adapter, how often each took effect, and
    the states of the claims. *)
Definition dispatched_targets (k : stack) : list string :=
  (λ c : execution * DispatchRequest, p_TargetID (dq_Proposal c.2)) <$> w_calls (k_world k).
Definition claim_states (k : stack) : list ClaimState := cl_state <$> execution_claims (w_store (k_world k)).

(** The shipped scenarios on this stack: all together and each alone exit with
    0, and exactly the three allowed proposals are dispatched. With a key that
    is not configured every scenario fails, and nothing is dispatched or
    recorded; an unknown scenario exits with 2. *)
Example scenarios_pass :
  (let x := simulate ∅ [] in
   (x.2, dispatched_targets x.1, claim_states x.1) =
   (0, ["edge-node-west-1"; FailingNodeID; LostResponseNodeID],
    [ClaimStateCompleted; ClaimStateFailed; ClaimStateCompleted])) ∧
  ((λ sc, (simulate ∅ [sc_name sc]).2) <$> scenarios) = replicate 8 0 ∧
  (let env := {[ "SENTRYGATE_API_KEY" := "not-a-configured-key" ]} in
   let x := simulate env [] in
   (x.2, dispatched_targets x.1, w_store (k_world x.1)) = (1, [], empty_db) ∧
   ((λ sc, (simulate env [sc_name sc]).2) <$> scenarios) = replicate 8 1) ∧
  (simulate ∅ ["reboot"]).2 = 2.
Proof. split; [|split; [|split; [split|]]]; vm_compute; reflexivity. Qed.

(** One allowed scenario, checked. *)
Definition allowed_scenario : scenario := nth 5 scenarios (denied "" "" "" "" "" "").
Definition sample_check : list (event SimReply) * Z :=
  traced (serve_sim stack_keyring) fresh_stack (agent_sim_main ∅ true (30 * Second) [sc_name allowed_scenario]).

Lemma check_exit_code_witness :
  ∃ now, observed (sim_of ∅ true (30 * Second)) allowed_scenario (proposal_of allowed_scenario now) sample_check.1.
Proof.
  assert (Hm : monitor sim_clock (k_now fresh_stack) sample_check.1 = Some (k_now fresh_stack + pollEvery))
    by (vm_compute; reflexivity).
  assert (Hr : sample_check.2 = 0) by (vm_compute; reflexivity).
  destruct (check_exit_code ∅ (30 * Second) [sc_name allowed_scenario] _ sample_check.1 _ sample_check.2
    (traced_run (serve_sim stack_keyring) fresh_stack _) Hm) as [[Hc _]|[(_ & _ & Hall)|[Hc _]]];
    [rewrite Hc in Hr; discriminate Hr| |rewrite Hc in Hr; discriminate Hr].
  apply Hall. vm_compute. apply list_elem_of_here.
Defined.
